(** * technitium-companion: the reconciliation engine, the hostname filter
    and the event watcher, embedded from the Go sources.

    Layout of the embedding:
    - [config]      : [Config] and [Config.MatchesFilters] (package config);
    - [Prog]        : the calls a reconciliation pass makes on its
                      collaborators (mutex, clock, platform listing, DNS API,
                      logger, metrics), as a tree of calls and continuations;
    - [technitium]  : [GetRecords], [HasARecord], [AddARecord],
                      [DeleteARecord], [EnsureARecord] (package technitium);
    - [reconciler]  : [Reconcile], [processWorkload], [ensureRecord],
                      [ReconcileHostnames], [DeleteHostnames];
    - [watcher]     : the [Watch] loop as a transition function over what its
                      [select] receives, with the debounce timer's callback;
    - an interpreter of [Prog] over an abstract environment, a reference DNS
      zone, and an interleaving semantics for goroutines sharing the
      reconciler's mutex.

    Go [int] is modelled as [Z]: every counter of the code is bounded by the
    length of a slice held in memory, so the 64-bit wrap-around is out of
    reach.  A Go [error] is modelled by its message; [fmt.Errorf] with [%w]
    prefixes the wrapped message. *)

From stdpp Require Import base relations list strings gmap.
From Stdlib Require Import ZArith Lia.

Local Open Scope string_scope.
Local Open Scope list_scope.

(** Go's [error] values, by message. *)
Abbreviation error := string (only parsing).

(** A Go [(T, error)] result of a collaborator. *)
Inductive result (A : Type) : Type :=
| Ok (a : A)
| Err (e : error).
Arguments Ok {A} a.
Arguments Err {A} e.

(** ** Package config *)

Module config.

(** A compiled [*regexp.Regexp], by the predicate [MatchString] decides. *)
Record Regexp := { MatchString : string -> bool }.

Record Config := {
  TechnitiumURL : string;
  TechnitiumToken : string;
  TechnitiumZone : string;
  TargetIP : string;
  TTL : Z;
  IncludePattern : option Regexp;   (* nil pointer = None *)
  ExcludePattern : option Regexp;
  DockerHost : string;
  DockerMode : string;
  ReconcileOnStartup : bool;
  DryRun : bool;
  HealthPort : Z;
  LogLevel : string
}.

(** [func (c *Config) MatchesFilters(hostname string) bool] *)
Definition MatchesFilters (c : Config) (hostname : string) : bool :=
  (* Must match include pattern *)
  if match IncludePattern c with
     | Some re => negb (MatchString re hostname)
     | None => false
     end
  then false
  (* Must not match exclude pattern (if set) *)
  else if match ExcludePattern c with
          | Some ex => MatchString ex hostname
          | None => false
          end
  then false
  else true.

End config.

(** ** Data of the collaborators *)

(** [technitium.RData] and [technitium.Record]. *)
Record RData := { IPAddress : string; Value : string }.

Record DnsRecord := {
  Name : string;
  Type_ : string;
  RecTTL : Z;
  rData : RData;
  Disabled : bool
}.

(** [docker.Workload]. *)
Record Workload := {
  WID : string;
  WName : string;
  Labels : gmap string string;
  WType : string   (* "service" or "container" *)
}.

(** What [records/get] can answer: [doRequest] failed, the payload did not
    parse, or the records of the name. *)
Inductive GetResponse :=
| RequestFailed (e : error)
| BadPayload (e : error)
| Payload (records : list DnsRecord).

Inductive Level := LevelDebug | LevelInfo | LevelError.

(** ** Programs over the collaborators

    A program is a tree: at each node one call on a collaborator, and below
    it the rest of the program for each answer the collaborator can give.
    - [LogMsg], [Metric]: a line of the [slog] logger (its message, without
      the attributes) and an update of a metric;
    - [Now]: [time.Now()], as a number of time units;
    - [Lock], [Unlock]: [r.mu.Lock()] and [r.mu.Unlock()] on the mutex of
      the one [Reconciler];
    - [ListWorkloads]: [r.docker.ListWorkloads(ctx)];
    - [ApiGet], [ApiAdd], [ApiDelete]: [doRequest] on [/api/zones/records/get],
      [.../add] and [.../delete] with the parameters the client sets, and
      for [get] the decoding of the payload.  [doRequest]'s own logging and
      request metric are part of the call. *)

Inductive Prog (A : Type) : Type :=
| Ret (a : A)
| LogMsg (lvl : Level) (msg : string) (k : Prog A)
| Metric (name label : string) (k : Prog A)
| Now (k : Z -> Prog A)
| Lock (k : Prog A)
| Unlock (k : Prog A)
| ListWorkloads (k : result (list Workload) -> Prog A)
| ApiGet (zone host : string) (k : GetResponse -> Prog A)
| ApiAdd (zone host ip : string) (ttl : Z) (k : option error -> Prog A)
| ApiDelete (zone host ip : string) (k : option error -> Prog A).
Arguments Ret {A} a.
Arguments LogMsg {A} lvl msg k.
Arguments Metric {A} name label k.
Arguments Now {A} k.
Arguments Lock {A} k.
Arguments Unlock {A} k.
Arguments ListWorkloads {A} k.
Arguments ApiGet {A} zone host k.
Arguments ApiAdd {A} zone host ip ttl k.
Arguments ApiDelete {A} zone host ip k.

Fixpoint bind {A B : Type} (m : Prog A) (f : A -> Prog B) : Prog B :=
  match m with
  | Ret a => f a
  | LogMsg l s k => LogMsg l s (bind k f)
  | Metric n l k => Metric n l (bind k f)
  | Now k => Now (fun t => bind (k t) f)
  | Lock k => Lock (bind k f)
  | Unlock k => Unlock (bind k f)
  | ListWorkloads k => ListWorkloads (fun r => bind (k r) f)
  | ApiGet z h k => ApiGet z h (fun r => bind (k r) f)
  | ApiAdd z h ip t k => ApiAdd z h ip t (fun r => bind (k r) f)
  | ApiDelete z h ip k => ApiDelete z h ip (fun r => bind (k r) f)
  end.

Declare Scope prog_scope.
Delimit Scope prog_scope with prog.
Notation "x <- m ;; k" := (bind m (fun x => k))
  (at level 100, m at next level, right associativity) : prog_scope.
Local Open Scope prog_scope.

(** [mu.Lock(); defer mu.Unlock()] around a body: the unlock runs when the
    function returns, whatever [return] the body took. *)
Definition with_mutex {A : Type} (body : Prog A) : Prog A :=
  Lock (a <- body ;; Unlock (Ret a)).

(** ** Package technitium: the DNS API client *)

Module technitium.

(** [func (c *Client) GetRecords(ctx, zone, hostname) ([]Record, error)] *)
Definition GetRecords (zone hostname : string)
  : Prog (list DnsRecord * option error) :=
  ApiGet zone hostname (fun resp =>
    match resp with
    | RequestFailed e =>
        Ret ([], Some ("getting records for " +:+ hostname +:+ ": " +:+ e))
    | BadPayload e =>
        Ret ([], Some ("parsing records response: " +:+ e))
    | Payload records =>
        LogMsg LevelDebug "retrieved records" (Ret (records, None))
    end).

(** The loop of [HasARecord]:
    [for _, r := range records { if r.Type == "A" && r.RData.IPAddress == ip { return true, nil } }]
    and [return false, nil] after it. *)
Fixpoint scanRecords (records : list DnsRecord) (ip : string) : bool :=
  match records with
  | [] => false
  | r :: rest =>
      if String.eqb (Type_ r) "A" && String.eqb (IPAddress (rData r)) ip
      then true
      else scanRecords rest ip
  end.

(** [func (c *Client) HasARecord(ctx, zone, hostname, ip) (bool, error)] *)
Definition HasARecord (zone hostname ip : string) : Prog (bool * option error) :=
  x <- GetRecords zone hostname ;;
  match snd x with
  | Some err => Ret (false, Some err)
  | None => Ret (scanRecords (fst x) ip, None)
  end.

(** [func (c *Client) AddARecord(ctx, zone, hostname, ip, ttl) error] *)
Definition AddARecord (zone hostname ip : string) (ttl : Z) : Prog (option error) :=
  ApiAdd zone hostname ip ttl (fun r =>
    match r with
    | Some e => Ret (Some ("adding A record for " +:+ hostname +:+ ": " +:+ e))
    | None => LogMsg LevelInfo "added A record" (Ret None)
    end).

(** [func (c *Client) DeleteARecord(ctx, zone, hostname, ip) error] *)
Definition DeleteARecord (zone hostname ip : string) : Prog (option error) :=
  ApiDelete zone hostname ip (fun r =>
    match r with
    | Some e => Ret (Some ("deleting A record for " +:+ hostname +:+ ": " +:+ e))
    | None => LogMsg LevelInfo "deleted A record" (Ret None)
    end).

(** [func (c *Client) EnsureARecord(ctx, zone, hostname, ip, ttl) (bool, error)]:
    the boolean is true when a record was created. *)
Definition EnsureARecord (zone hostname ip : string) (ttl : Z)
  : Prog (bool * option error) :=
  x <- HasARecord zone hostname ip ;;
  match snd x with
  | Some err => Ret (false, Some err)
  | None =>
      if fst x
      then LogMsg LevelDebug "A record already exists" (Ret (false, None))
      else
        e <- AddARecord zone hostname ip ttl ;;
        match e with
        | Some err => Ret (false, Some err)
        | None => Ret (true, None)
        end
  end.

End technitium.

(** ** Package reconciler *)

Module reconciler.
Import config.

Record ReconcileResult := {
  WorkloadsScanned : Z;
  HostnamesFound : Z;
  HostnamesFiltered : Z;
  RecordsCreated : Z;
  RecordsExisted : Z;
  Errors : list error;
  Duration : Z
}.

(** [&ReconcileResult{}] *)
Definition emptyResult : ReconcileResult :=
  {| WorkloadsScanned := 0; HostnamesFound := 0; HostnamesFiltered := 0;
     RecordsCreated := 0; RecordsExisted := 0; Errors := []; Duration := 0 |}.

(** The field updates the code performs on [result]. *)
Definition setWorkloadsScanned (n : Z) (r : ReconcileResult) : ReconcileResult :=
  {| WorkloadsScanned := n; HostnamesFound := HostnamesFound r;
     HostnamesFiltered := HostnamesFiltered r; RecordsCreated := RecordsCreated r;
     RecordsExisted := RecordsExisted r; Errors := Errors r; Duration := Duration r |}.

Definition addHostnamesFound (n : Z) (r : ReconcileResult) : ReconcileResult :=
  {| WorkloadsScanned := WorkloadsScanned r; HostnamesFound := HostnamesFound r + n;
     HostnamesFiltered := HostnamesFiltered r; RecordsCreated := RecordsCreated r;
     RecordsExisted := RecordsExisted r; Errors := Errors r; Duration := Duration r |}.

Definition incHostnamesFiltered (r : ReconcileResult) : ReconcileResult :=
  {| WorkloadsScanned := WorkloadsScanned r; HostnamesFound := HostnamesFound r;
     HostnamesFiltered := HostnamesFiltered r + 1; RecordsCreated := RecordsCreated r;
     RecordsExisted := RecordsExisted r; Errors := Errors r; Duration := Duration r |}.

Definition incRecordsCreated (r : ReconcileResult) : ReconcileResult :=
  {| WorkloadsScanned := WorkloadsScanned r; HostnamesFound := HostnamesFound r;
     HostnamesFiltered := HostnamesFiltered r; RecordsCreated := RecordsCreated r + 1;
     RecordsExisted := RecordsExisted r; Errors := Errors r; Duration := Duration r |}.

Definition incRecordsExisted (r : ReconcileResult) : ReconcileResult :=
  {| WorkloadsScanned := WorkloadsScanned r; HostnamesFound := HostnamesFound r;
     HostnamesFiltered := HostnamesFiltered r; RecordsCreated := RecordsCreated r;
     RecordsExisted := RecordsExisted r + 1; Errors := Errors r; Duration := Duration r |}.

Definition appendError (e : error) (r : ReconcileResult) : ReconcileResult :=
  {| WorkloadsScanned := WorkloadsScanned r; HostnamesFound := HostnamesFound r;
     HostnamesFiltered := HostnamesFiltered r; RecordsCreated := RecordsCreated r;
     RecordsExisted := RecordsExisted r; Errors := Errors r ++ [e];
     Duration := Duration r |}.

Definition setDuration (d : Z) (r : ReconcileResult) : ReconcileResult :=
  {| WorkloadsScanned := WorkloadsScanned r; HostnamesFound := HostnamesFound r;
     HostnamesFiltered := HostnamesFiltered r; RecordsCreated := RecordsCreated r;
     RecordsExisted := RecordsExisted r; Errors := Errors r; Duration := d |}.

(** [traefik.Parser]: [ExtractHosts] reads the hostnames off a label map
    with Go's regexp engine; the reconciler only calls it, so it is a field
    here. *)
Record Parser := { ExtractHosts : gmap string string -> list string }.

(** [Reconciler]: the configuration, the parser and the platform mode (only
    logged).  The DNS client, the docker client, the logger and the mutex are
    the collaborators [Prog] calls. *)
Record Reconciler := {
  cfg : Config;
  parser : Parser;
  dockerMode : string
}.

(** [func (r *Reconciler) ensureRecord(ctx, workloadName, hostname, result) error];
    [result] is updated in place, so the updated value is returned with the
    error. *)
Definition ensureRecord (r : Reconciler) (workloadName hostname : string)
  (result : ReconcileResult) : Prog (ReconcileResult * option error) :=
  (* Apply include/exclude filters *)
  if negb (MatchesFilters (cfg r) hostname)
  then LogMsg LevelDebug "hostname filtered out" (Ret (result, None))
  else
    let result := incHostnamesFiltered result in
    (* Dry run mode - log what would be created *)
    if DryRun (cfg r)
    then LogMsg LevelInfo "DRY RUN: would ensure A record"
           (Ret (incRecordsCreated result, None))
    else
      (* Ensure the A record exists *)
      x <- technitium.EnsureARecord (TechnitiumZone (cfg r)) hostname
             (TargetIP (cfg r)) (TTL (cfg r)) ;;
      match snd x with
      | Some err => Ret (result, Some ("creating A record: " +:+ err))
      | None =>
          if fst x
          then Metric "RecordDNSRecordCreated" (TechnitiumZone (cfg r))
                 (LogMsg LevelInfo "created A record"
                    (Ret (incRecordsCreated result, None)))
          else Metric "RecordDNSRecordExisted" (TechnitiumZone (cfg r))
                 (LogMsg LevelDebug "A record already exists"
                    (Ret (incRecordsExisted result, None)))
      end.

(** The loop of [processWorkload] over the extracted hosts: the first error
    returns from the function. *)
Fixpoint ensureHosts (r : Reconciler) (workloadName : string)
  (hosts : list string) (result : ReconcileResult)
  : Prog (ReconcileResult * option error) :=
  match hosts with
  | [] => Ret (result, None)
  | host :: rest =>
      x <- ensureRecord r workloadName host result ;;
      match snd x with
      | Some err =>
          Ret (fst x, Some ("ensuring record for " +:+ host +:+ ": " +:+ err))
      | None => ensureHosts r workloadName rest (fst x)
      end
  end.

(** [func (r *Reconciler) processWorkload(ctx, workload, result) error] *)
Definition processWorkload (r : Reconciler) (workload : Workload)
  (result : ReconcileResult) : Prog (ReconcileResult * option error) :=
  let hosts := ExtractHosts (parser r) (Labels workload) in
  if Nat.eqb (length hosts) 0
  then LogMsg LevelDebug "no traefik hosts found" (Ret (result, None))
  else
    let result := addHostnamesFound (Z.of_nat (length hosts)) result in
    LogMsg LevelDebug "found traefik hosts"
      (ensureHosts r (WName workload) hosts result).

(** The loop of [Reconcile] over the workloads. *)
Fixpoint processWorkloads (r : Reconciler) (workloads : list Workload)
  (result : ReconcileResult) : Prog ReconcileResult :=
  match workloads with
  | [] => Ret result
  | workload :: rest =>
      x <- processWorkload r workload result ;;
      match snd x with
      | Some err =>
          LogMsg LevelError "failed to process workload"
            (processWorkloads r rest
               (appendError ("workload " +:+ WName workload +:+ ": " +:+ err) (fst x)))
      | None => processWorkloads r rest (fst x)
      end
  end.

(** [func (r *Reconciler) Reconcile(ctx) (result, error)] *)
Definition Reconcile (r : Reconciler)
  : Prog (option ReconcileResult * option error) :=
  with_mutex
    (Now (fun start =>
     let result := emptyResult in
     LogMsg LevelInfo "starting reconciliation"
     (* List all workloads (services in Swarm, containers in standalone) *)
     (ListWorkloads (fun listed =>
      match listed with
      | Err err => Ret (None, Some ("listing workloads: " +:+ err))
      | Ok workloads =>
          let result := setWorkloadsScanned (Z.of_nat (length workloads)) result in
          LogMsg LevelDebug "scanned workloads"
          (result <- processWorkloads r workloads result ;;
           Now (fun stop =>
           let result := setDuration (stop - start) result in
           let status :=
             if Nat.ltb 0 (length (Errors result)) then "error" else "success" in
           Metric "RecordReconciliation" status
           (LogMsg LevelInfo "reconciliation complete"
              (Ret (Some result, None)))))
      end)))).

(** The loop of [ReconcileHostnames]. *)
Fixpoint ensureHostnames (r : Reconciler) (workloadName : string)
  (hostnames : list string) (result : ReconcileResult) : Prog ReconcileResult :=
  match hostnames with
  | [] => Ret result
  | hostname :: rest =>
      x <- ensureRecord r workloadName hostname result ;;
      match snd x with
      | Some err =>
          LogMsg LevelError "failed to ensure record"
            (ensureHostnames r workloadName rest
               (appendError ("hostname " +:+ hostname +:+ ": " +:+ err) (fst x)))
      | None => ensureHostnames r workloadName rest (fst x)
      end
  end.

(** [func (r *Reconciler) ReconcileHostnames(ctx, workloadName, hostnames) (result, error)] *)
Definition ReconcileHostnames (r : Reconciler) (workloadName : string)
  (hostnames : list string) : Prog (option ReconcileResult * option error) :=
  with_mutex
    (Now (fun start =>
     let result :=
       {| WorkloadsScanned := 0; HostnamesFound := Z.of_nat (length hostnames);
          HostnamesFiltered := 0; RecordsCreated := 0; RecordsExisted := 0;
          Errors := []; Duration := 0 |} in
     LogMsg LevelDebug "reconciling specific hostnames"
     (result <- ensureHostnames r workloadName hostnames result ;;
      Now (fun stop => Ret (Some (setDuration (stop - start) result), None))))).

(** The loop of [DeleteHostnames]; every [continue] goes on with the rest. *)
Fixpoint deleteLoop (r : Reconciler) (workloadName : string)
  (hostnames : list string) (deleted : Z) : Prog Z :=
  match hostnames with
  | [] => Ret deleted
  | hostname :: rest =>
      (* Apply include/exclude filters *)
      if negb (MatchesFilters (cfg r) hostname)
      then deleteLoop r workloadName rest deleted
      (* Dry run mode *)
      else if DryRun (cfg r)
      then LogMsg LevelInfo "DRY RUN: would delete A record"
             (deleteLoop r workloadName rest (deleted + 1))
      else
        (* Check if record exists before deleting *)
        x <- technitium.HasARecord (TechnitiumZone (cfg r)) hostname
               (TargetIP (cfg r)) ;;
        match snd x with
        | Some err =>
            LogMsg LevelError "failed to check record existence"
              (deleteLoop r workloadName rest deleted)
        | None =>
            if negb (fst x)
            then LogMsg LevelDebug "A record does not exist, skipping delete"
                   (deleteLoop r workloadName rest deleted)
            else
              (* Delete the record *)
              e <- technitium.DeleteARecord (TechnitiumZone (cfg r)) hostname
                     (TargetIP (cfg r)) ;;
              match e with
              | Some err =>
                  LogMsg LevelError "failed to delete A record"
                    (deleteLoop r workloadName rest deleted)
              | None =>
                  Metric "RecordDNSRecordDeleted" (TechnitiumZone (cfg r))
                    (LogMsg LevelInfo "deleted A record"
                       (deleteLoop r workloadName rest (deleted + 1)))
              end
        end
  end.

(** [func (r *Reconciler) DeleteHostnames(ctx, workloadName, hostnames) (int, error)] *)
Definition DeleteHostnames (r : Reconciler) (workloadName : string)
  (hostnames : list string) : Prog (Z * option error) :=
  with_mutex
    (LogMsg LevelDebug "deleting hostnames"
       (deleted <- deleteLoop r workloadName hostnames 0 ;;
        Ret (deleted, None))).

End reconciler.

(** ** Running a program against its collaborators *)

(** The network calls a pass issues. *)
Inductive Call :=
| CList
| CGet (zone host : string)
| CAdd (zone host ip : string) (ttl : Z)
| CDelete (zone host ip : string).

(** What a run leaves behind, in the order it happened. *)
Inductive Event :=
| ELock
| EUnlock
| ECall (c : Call) (ok : bool)   (* ok: the collaborator answered without error *)
| ELog (lvl : Level) (msg : string)
| EMetric (name label : string).

(** The collaborators, over a state [W] of the outside world: the clock,
    the container platform and the DNS server behind the API. *)
Record Env (W : Type) := {
  clock : W -> Z * W;
  docker_list : W -> result (list Workload) * W;
  records_get : string -> string -> W -> GetResponse * W;
  records_add : string -> string -> string -> Z -> W -> option error * W;
  records_delete : string -> string -> string -> W -> option error * W
}.
Arguments clock {W} e.
Arguments docker_list {W} e.
Arguments records_get {W} e.
Arguments records_add {W} e.
Arguments records_delete {W} e.

Definition listed_ok (r : result (list Workload)) : bool :=
  match r with Ok _ => true | Err _ => false end.
Definition get_ok (r : GetResponse) : bool :=
  match r with Payload _ => true | _ => false end.
Definition no_error (r : option string) : bool :=
  match r with None => true | Some _ => false end.

Definition emit {A W : Type} (e : Event) (x : A * W * list Event)
  : A * W * list Event :=
  (x.1.1, x.1.2, e :: x.2).

Fixpoint run {W A : Type} (env : Env W) (p : Prog A) (w : W)
  : A * W * list Event :=
  match p with
  | Ret a => (a, w, [])
  | LogMsg l s k => emit (ELog l s) (run env k w)
  | Metric n l k => emit (EMetric n l) (run env k w)
  | Now k => run env (k (clock env w).1) (clock env w).2
  | Lock k => emit ELock (run env k w)
  | Unlock k => emit EUnlock (run env k w)
  | ListWorkloads k =>
      emit (ECall CList (listed_ok (docker_list env w).1))
        (run env (k (docker_list env w).1) (docker_list env w).2)
  | ApiGet z h k =>
      emit (ECall (CGet z h) (get_ok (records_get env z h w).1))
        (run env (k (records_get env z h w).1) (records_get env z h w).2)
  | ApiAdd z h ip t k =>
      emit (ECall (CAdd z h ip t) (no_error (records_add env z h ip t w).1))
        (run env (k (records_add env z h ip t w).1) (records_add env z h ip t w).2)
  | ApiDelete z h ip k =>
      emit (ECall (CDelete z h ip) (no_error (records_delete env z h ip w).1))
        (run env (k (records_delete env z h ip w).1) (records_delete env z h ip w).2)
  end.

Definition value {A W : Type} (x : A * W * list Event) : A := x.1.1.
Definition world {A W : Type} (x : A * W * list Event) : W := x.1.2.
Definition trace {A W : Type} (x : A * W * list Event) : list Event := x.2.

(** The network calls of a trace. *)
Fixpoint calls (tr : list Event) : list Call :=
  match tr with
  | [] => []
  | ECall c _ :: rest => c :: calls rest
  | _ :: rest => calls rest
  end.

(** The calls of a trace that the collaborator answered without error. *)
Fixpoint performed (tr : list Event) : list Call :=
  match tr with
  | [] => []
  | ECall c true :: rest => c :: performed rest
  | _ :: rest => performed rest
  end.

Definition is_create (c : Call) : bool :=
  match c with CAdd _ _ _ _ => true | _ => false end.
Definition is_delete (c : Call) : bool :=
  match c with CDelete _ _ _ => true | _ => false end.
Definition is_dns (c : Call) : bool :=
  match c with CList => false | _ => true end.

Fixpoint count_calls (f : Call -> bool) (cs : list Call) : nat :=
  match cs with
  | [] => 0
  | c :: rest => (if f c then 1 else 0) + count_calls f rest
  end.

(** The kind of call at a node of a program. *)
Inductive OpKind :=
| KLog | KMetric | KNow | KLock | KUnlock | KList | KGet | KAdd | KDelete.

Definition kind_of (e : Event) : OpKind :=
  match e with
  | ELock => KLock
  | EUnlock => KUnlock
  | ECall CList _ => KList
  | ECall (CGet _ _) _ => KGet
  | ECall (CAdd _ _ _ _) _ => KAdd
  | ECall (CDelete _ _ _) _ => KDelete
  | ELog _ _ => KLog
  | EMetric _ _ => KMetric
  end.

(** [AllOps P p]: every call [p] can make, whatever its collaborators
    answer, is of a kind [P] allows. *)
Inductive AllOps {A : Type} (P : OpKind -> bool) : Prog A -> Prop :=
| AllOps_Ret a : AllOps P (Ret a)
| AllOps_Log l s k : P KLog = true -> AllOps P k -> AllOps P (LogMsg l s k)
| AllOps_Metric n l k : P KMetric = true -> AllOps P k -> AllOps P (Metric n l k)
| AllOps_Now k : P KNow = true -> (forall t, AllOps P (k t)) -> AllOps P (Now k)
| AllOps_Lock k : P KLock = true -> AllOps P k -> AllOps P (Lock k)
| AllOps_Unlock k : P KUnlock = true -> AllOps P k -> AllOps P (Unlock k)
| AllOps_List k :
    P KList = true -> (forall r, AllOps P (k r)) -> AllOps P (ListWorkloads k)
| AllOps_Get z h k :
    P KGet = true -> (forall r, AllOps P (k r)) -> AllOps P (ApiGet z h k)
| AllOps_Add z h ip t k :
    P KAdd = true -> (forall r, AllOps P (k r)) -> AllOps P (ApiAdd z h ip t k)
| AllOps_Delete z h ip k :
    P KDelete = true -> (forall r, AllOps P (k r)) -> AllOps P (ApiDelete z h ip k).

Definition not_delete (k : OpKind) : bool :=
  match k with KDelete => false | _ => true end.
Definition not_dns (k : OpKind) : bool :=
  match k with KGet | KAdd | KDelete => false | _ => true end.
Definition not_call (k : OpKind) : bool :=
  match k with KList | KGet | KAdd | KDelete => false | _ => true end.
Definition not_mutex (k : OpKind) : bool :=
  match k with KLock | KUnlock => false | _ => true end.
Definition log_only (k : OpKind) : bool :=
  match k with KLog | KMetric => true | _ => false end.

(** ** Package watcher *)

Module watcher.

(** [events.Actor] and [events.Message] of the docker API, with the fields
    the watcher reads. *)
Record Actor := { ID : string; Attributes : gmap string string }.

Record Message := {
  Type_ev : string;      (* events.Type: "service", "container", ... *)
  Action : string;       (* events.Action *)
  actor : Actor
}.

Definition ServiceEventType : string := "service".
Definition ContainerEventType : string := "container".
Definition ModeSwarm : string := "swarm".

Record Watcher := {
  rec : reconciler.Reconciler;
  dockerMode : string;
  debounceInterval : Z
}.

(** [func (w *Watcher) buildEventFilters() filters.Args], as the list of
    the pairs added. *)
Definition buildEventFilters (w : Watcher) : list (string * string) :=
  if String.eqb (dockerMode w) ModeSwarm
  then [("type", ServiceEventType); ("event", "create"); ("event", "update");
        ("event", "remove")]
  else [("type", ContainerEventType); ("event", "start"); ("event", "die");
        ("event", "destroy")].

(** [s[:12]]: Go panics when the string is shorter than 12 bytes. *)
Definition slice12 (s : string) : option string :=
  if Nat.leb 12 (String.length s) then Some (String.substring 0 12 s) else None.

(** [event.Actor.Attributes["name"]], and [event.Actor.ID[:12]] when that
    is empty. *)
Definition actorName (event : Message) : option string :=
  let name := default "" (Attributes (actor event) !! "name") in
  if String.eqb name "" then slice12 (ID (actor event)) else Some name.

(** [func (w *Watcher) handleServiceEvent(ctx, event)]; the value is [None]
    when the function panicked. *)
Definition handleServiceEvent (event : Message) : Prog (option unit) :=
  match actorName event with
  | None => Ret None
  | Some serviceName =>
      if String.eqb (Action event) "create" || String.eqb (Action event) "update"
      then LogMsg LevelInfo "service event received" (Ret (Some tt))
           (* Full reconciliation will be triggered by debounce timer *)
      else if String.eqb (Action event) "remove"
      then LogMsg LevelInfo "service removed"
             (* We don't auto-delete DNS records for removed services *)
             (LogMsg LevelDebug "orphan cleanup disabled - DNS records not removed"
                (Ret (Some tt)))
      else Ret (Some tt)
  end.

(** [func (w *Watcher) handleContainerEvent(ctx, event)] *)
Definition handleContainerEvent (event : Message) : Prog (option unit) :=
  match actorName event with
  | None => Ret None
  | Some containerName =>
      if String.eqb (Action event) "start"
      then LogMsg LevelInfo "container started" (Ret (Some tt))
           (* Full reconciliation will be triggered by debounce timer *)
      else if String.eqb (Action event) "die" || String.eqb (Action event) "destroy"
      then LogMsg LevelInfo "container stopped/destroyed"
             (* We don't auto-delete DNS records for stopped containers *)
             (LogMsg LevelDebug "orphan cleanup disabled - DNS records not removed"
                (Ret (Some tt)))
      else Ret (Some tt)
  end.

(** [func (w *Watcher) handleEvent(ctx, event)] *)
Definition handleEvent (event : Message) : Prog (option unit) :=
  Metric "RecordDockerEvent" (Type_ev event +:+ ":" +:+ Action event)
    (LogMsg LevelDebug "received event"
       (if String.eqb (Type_ev event) ServiceEventType
        then handleServiceEvent event
        else if String.eqb (Type_ev event) ContainerEventType
        then handleContainerEvent event
        else Ret (Some tt))).

(** The variables of [Watch] and the state of the timers it created.
    [pendingReconcile] and [debounceTimer] are the two variables of the
    function (the second is [None] for [nil], else the handle of the last
    timer created).  [armed] holds the timers waiting to fire; [returned]
    holds, for each callback that is back from [Reconcile] and has not yet
    stored [pendingReconcile = false], what [Reconcile] returned.  A
    callback runs on a goroutine of its own and shares [pendingReconcile]
    with the loop; its read and its write of the variable are taken as
    atomic. *)
Record State := {
  pendingReconcile : bool;
  debounceTimer : option nat;
  nextTimer : nat;
  armed : list nat;
  returned : list (nat * (option reconciler.ReconcileResult * option string))
}.

(** [pendingReconcile := false], no timer. *)
Definition initial : State :=
  {| pendingReconcile := false; debounceTimer := None; nextTimer := 0;
     armed := []; returned := [] |}.

(** What the [select] of [Watch] and the timer callbacks can do next. *)
Inductive Input :=
| CtxDone                          (* case <-ctx.Done() *)
| ErrRecv (err : option string)    (* case err := <-errCh *)
| EventRecv (event : Message)      (* case event := <-eventsCh *)
| TimerFire (t : nat)              (* timer t fires: its callback runs up to the return of Reconcile *)
| CallbackEnd (t : nat).           (* that callback logs and stores pendingReconcile = false *)

Inductive WEvent :=
| WRun (e : Event)                 (* an event of a handler or of a pass *)
| WAfterFunc (t : nat) (d : Z)     (* debounceTimer = time.AfterFunc(d, callback) *)
| WStop (t : nat)                  (* debounceTimer.Stop() *)
| WReconcile.                      (* the callback calls w.reconciler.Reconcile(ctx) *)

Inductive Outcome (W : Type) :=
| Continue (st : State) (world : W) (tr : list WEvent)   (* the loop goes on *)
| Returned (err : string) (tr : list WEvent)             (* Watch returned err *)
| Panicked (tr : list WEvent)                            (* a handler panicked *)
| Impossible.                                            (* the input cannot occur in this state *)
Arguments Continue {W} st world tr.
Arguments Returned {W} err tr.
Arguments Panicked {W} tr.
Arguments Impossible {W}.

Definition remove_timer (t : nat) (l : list nat) : list nat :=
  List.filter (fun t' => negb (Nat.eqb t t')) l.

Fixpoint take_returned (t : nat)
  (l : list (nat * (option reconciler.ReconcileResult * option string)))
  : option ((option reconciler.ReconcileResult * option string)
            * list (nat * (option reconciler.ReconcileResult * option string))) :=
  match l with
  | [] => None
  | (t', out) :: rest =>
      if Nat.eqb t t' then Some (out, rest)
      else match take_returned t rest with
           | Some (o, rest') => Some (o, (t', out) :: rest')
           | None => None
           end
  end.

(** One turn of the [for { select { ... } }] of [Watch], or one stretch of a
    timer callback. *)
Definition step {W : Type} (env : Env W) (w : Watcher) (st : State) (world0 : W)
  (i : Input) : Outcome W :=
  match i with
  | CtxDone =>
      Returned "context canceled"
        (match debounceTimer st with Some t => [WStop t] | None => [] end
         ++ [WRun (ELog LevelInfo "event watcher stopped")])
  | ErrRecv None => Continue st world0 []
  | ErrRecv (Some err) =>
      Returned ("event stream error: " +:+ err)
        [WRun (ELog LevelError "event stream error")]
  | EventRecv event =>
      let x := run env (handleEvent event) world0 in
      match value x with
      | None => Panicked (map WRun (trace x))
      | Some _ =>
          (* Debounce: schedule a full reconciliation *)
          if negb (pendingReconcile st)
          then Continue
                 {| pendingReconcile := true;
                    debounceTimer := Some (nextTimer st);
                    nextTimer := S (nextTimer st);
                    armed := nextTimer st :: armed st;
                    returned := returned st |}
                 (world x)
                 (map WRun (trace x) ++ [WAfterFunc (nextTimer st) (debounceInterval w)])
          else Continue st (world x) (map WRun (trace x))
      end
  | TimerFire t =>
      if existsb (Nat.eqb t) (armed st)
      then
        let x := run env (reconciler.Reconcile (rec w)) world0 in
        Continue
          {| pendingReconcile := pendingReconcile st;
             debounceTimer := debounceTimer st;
             nextTimer := nextTimer st;
             armed := remove_timer t (armed st);
             returned := (t, value x) :: returned st |}
          (world x)
          (WRun (ELog LevelDebug "debounce timer fired, triggering full reconciliation")
             :: WReconcile :: map WRun (trace x))
      else Impossible
  | CallbackEnd t =>
      match take_returned t (returned st) with
      | Some (out, rest) =>
          Continue
            {| pendingReconcile := false;
               debounceTimer := debounceTimer st;
               nextTimer := nextTimer st;
               armed := armed st;
               returned := rest |}
            world0
            [WRun (match out.2 with
                   | Some _ => ELog LevelError "reconciliation failed"
                   | None => ELog LevelInfo "reconciliation triggered by events"
                   end)]
      | None => Impossible
      end
  end.

Definition prefix_trace {W : Type} (tr : list WEvent) (o : Outcome W) : Outcome W :=
  match o with
  | Continue st world1 tr' => Continue st world1 (tr ++ tr')
  | Returned err tr' => Returned err (tr ++ tr')
  | Panicked tr' => Panicked (tr ++ tr')
  | Impossible => Impossible
  end.

(** [Watch] from a state over the inputs that come, one after the other. *)
Fixpoint steps {W : Type} (env : Env W) (w : Watcher) (st : State) (world0 : W)
  (inputs : list Input) : Outcome W :=
  match inputs with
  | [] => Continue st world0 []
  | i :: rest =>
      match step env w st world0 i with
      | Continue st' world1 tr => prefix_trace tr (steps env w st' world1 rest)
      | o => o
      end
  end.

Definition outcome_trace {W : Type} (o : Outcome W) : list WEvent :=
  match o with
  | Continue _ _ tr | Returned _ tr | Panicked tr => tr
  | Impossible => []
  end.

(** The events of handlers and passes in a watcher trace. *)
Fixpoint run_events (tr : list WEvent) : list Event :=
  match tr with
  | [] => []
  | WRun e :: rest => e :: run_events rest
  | _ :: rest => run_events rest
  end.

Fixpoint reconciles (tr : list WEvent) : nat :=
  match tr with
  | [] => 0
  | WReconcile :: rest => S (reconciles rest)
  | _ :: rest => reconciles rest
  end.

(** The timers a trace arms and the timers it stops. *)
Fixpoint timers_armed (tr : list WEvent) : list (nat * Z) :=
  match tr with
  | [] => []
  | WAfterFunc t d :: rest => (t, d) :: timers_armed rest
  | _ :: rest => timers_armed rest
  end.

Fixpoint timers_stopped (tr : list WEvent) : list nat :=
  match tr with
  | [] => []
  | WStop t :: rest => t :: timers_stopped rest
  | _ :: rest => timers_stopped rest
  end.

(** The watcher between two batches of events: no reconciliation pending,
    no timer waiting, no callback under way. *)
Definition idle (st : State) : Prop :=
  pendingReconcile st = false /\ armed st = [] /\ returned st = [].

(** An event whose actor can be named without a panic: it carries a name,
    or an identifier of 12 bytes or more (docker's are 25 or 64). *)
Definition named (event : Message) : bool :=
  negb (String.eqb (default "" (Attributes (actor event) !! "name")) "")
  || Nat.leb 12 (String.length (ID (actor event))).

End watcher.

(** ** A reference DNS server and platform

    The zone is the list of its records, each under its zone name; names
    listed in [unreachable] make every API call about them fail, and the
    platform listing answers [platform]. *)
Record RefWorld := {
  zoneRecords : list (string * DnsRecord);
  platform : result (list Workload);
  unreachable : list string;
  time : Z
}.

Definition setZone (z : list (string * DnsRecord)) (w : RefWorld) : RefWorld :=
  {| zoneRecords := z; platform := platform w; unreachable := unreachable w;
     time := time w |}.

Definition is_unreachable (h : string) (w : RefWorld) : bool :=
  existsb (String.eqb h) (unreachable w).

Definition at_name (zone host : string) (e : string * DnsRecord) : bool :=
  String.eqb e.1 zone && String.eqb (Name e.2) host.

Definition is_a_with (ip : string) (r : DnsRecord) : bool :=
  String.eqb (Type_ r) "A" && String.eqb (IPAddress (rData r)) ip.

Definition a_record (host ip : string) (ttl : Z) : DnsRecord :=
  {| Name := host; Type_ := "A"; RecTTL := ttl;
     rData := {| IPAddress := ip; Value := "" |}; Disabled := false |}.

Definition ref_get (zone host : string) (w : RefWorld) : GetResponse * RefWorld :=
  if is_unreachable host w then (RequestFailed "connection refused", w)
  else (Payload (map snd (List.filter (at_name zone host) (zoneRecords w))), w).

Definition ref_add (zone host ip : string) (ttl : Z) (w : RefWorld)
  : option error * RefWorld :=
  if is_unreachable host w then (Some "connection refused", w)
  else (None, setZone (zoneRecords w ++ [(zone, a_record host ip ttl)]) w).

Definition ref_delete (zone host ip : string) (w : RefWorld)
  : option error * RefWorld :=
  if is_unreachable host w then (Some "connection refused", w)
  else (None,
        setZone (List.filter
                   (fun e => negb (at_name zone host e && is_a_with ip e.2))
                   (zoneRecords w)) w).

Definition refEnv : Env RefWorld :=
  {| clock := fun w =>
       (time w, {| zoneRecords := zoneRecords w; platform := platform w;
                   unreachable := unreachable w; time := time w + 1 |});
     docker_list := fun w => (platform w, w);
     records_get := ref_get;
     records_add := ref_add;
     records_delete := ref_delete |}.

(** ** The filter policy in the words of the specification

    A missing include pattern matches every hostname; a missing exclude
    pattern excludes nothing. *)
Definition matches_include (c : config.Config) (h : string) : bool :=
  match config.IncludePattern c with
  | Some re => config.MatchString re h
  | None => true
  end.

Definition matches_exclude (c : config.Config) (h : string) : bool :=
  match config.ExcludePattern c with
  | Some ex => config.MatchString ex h
  | None => false
  end.

(** The gateway shows a pass its own creates: after a successful
    [records/add] of [(zone, host, ip)], the next [records/get] of
    [(zone, host)] answers with a record set in which [HasARecord] finds the
    address.  This is what "no external mutation between the calls" gives. *)
Definition read_your_writes {W : Type} (env : Env W) : Prop :=
  forall zone host ip ttl w w',
    records_add env zone host ip ttl w = (None, w') ->
    exists recs w'',
      records_get env zone host w' = (Payload recs, w'')
      /\ technitium.scanRecords recs ip = true.

(** ** Sample data for the concrete runs *)

Definition anyHost : config.Regexp := {| config.MatchString := fun _ => true |}.

(** [^test\.]: the hostnames starting with [test.]. *)
Definition testPrefix : config.Regexp :=
  {| config.MatchString := fun h => String.prefix "test." h |}.

Definition sampleConfig (dry : bool) : config.Config :=
  {| config.TechnitiumURL := "http://dns:5380";
     config.TechnitiumToken := "token";
     config.TechnitiumZone := "example.com";
     config.TargetIP := "10.0.0.1";
     config.TTL := 300;
     config.IncludePattern := Some anyHost;
     config.ExcludePattern := Some testPrefix;
     config.DockerHost := "unix:///var/run/docker.sock";
     config.DockerMode := "auto";
     config.ReconcileOnStartup := true;
     config.DryRun := dry;
     config.HealthPort := 8080;
     config.LogLevel := "info" |}.

(** [.*\.internal\.example\.com$]: the hostnames ending in
    [.internal.example.com]. *)
Definition internalSuffix : config.Regexp :=
  {| config.MatchString := fun h =>
       String.prefix (String.rev ".internal.example.com") (String.rev h) |}.

(** The filter pair of the specification's example. *)
Definition exampleFilter : config.Config :=
  {| config.TechnitiumURL := "http://dns:5380";
     config.TechnitiumToken := "token";
     config.TechnitiumZone := "example.com";
     config.TargetIP := "10.0.0.1";
     config.TTL := 300;
     config.IncludePattern := Some internalSuffix;
     config.ExcludePattern := Some testPrefix;
     config.DockerHost := "unix:///var/run/docker.sock";
     config.DockerMode := "auto";
     config.ReconcileOnStartup := true;
     config.DryRun := false;
     config.HealthPort := 8080;
     config.LogLevel := "info" |}.

(** A zone holding one disabled A record for [app.example.com]. *)
Definition disabledRecord : DnsRecord :=
  {| Name := "app.example.com"; Type_ := "A"; RecTTL := 300;
     rData := {| IPAddress := "10.0.0.1"; Value := "" |}; Disabled := true |}.

Definition worldWith (zone : list (string * DnsRecord))
  (listing : result (list Workload)) (down : list string) : RefWorld :=
  {| zoneRecords := zone; platform := listing; unreachable := down; time := 0 |}.

Definition emptyWorld : RefWorld := worldWith [] (Ok []) [].

Definition disabledWorld : RefWorld :=
  worldWith [("example.com", disabledRecord)] (Ok []) [].

Definition sampleParser : reconciler.Parser :=
  {| reconciler.ExtractHosts := fun labels =>
       omap (fun key => labels !! key)
         ["traefik.http.routers.web.rule"; "traefik.http.routers.test.rule";
          "traefik.http.routers.api.rule"] |}.

Definition sampleReconciler (dry : bool) : reconciler.Reconciler :=
  {| reconciler.cfg := sampleConfig dry;
     reconciler.parser := sampleParser;
     reconciler.dockerMode := "standalone" |}.

(** A zone that already holds the A record of [app.example.com]. *)
Definition presentWorld : RefWorld :=
  worldWith [("example.com", a_record "app.example.com" "10.0.0.1" 300)] (Ok []) [].

(** The hostnames of a list that pass the filter, with their repetitions. *)
Definition passing (c : config.Config) (hostnames : list string) : list string :=
  List.filter (config.MatchesFilters c) hostnames.

(** Adding to the four counters of a result at once. *)
Definition bump (found filtered created existed : Z)
  (res : reconciler.ReconcileResult) : reconciler.ReconcileResult :=
  {| reconciler.WorkloadsScanned := reconciler.WorkloadsScanned res;
     reconciler.HostnamesFound := reconciler.HostnamesFound res + found;
     reconciler.HostnamesFiltered := reconciler.HostnamesFiltered res + filtered;
     reconciler.RecordsCreated := reconciler.RecordsCreated res + created;
     reconciler.RecordsExisted := reconciler.RecordsExisted res + existed;
     reconciler.Errors := reconciler.Errors res;
     reconciler.Duration := reconciler.Duration res |}.

(** The number of hostnames of a list that pass the filter. *)
Definition passed (c : config.Config) (hostnames : list string) : Z :=
  Z.of_nat (length (passing c hostnames)).

(** The hostnames a full pass finds, workload after workload. *)
Definition foundHosts (r : reconciler.Reconciler) (workloads : list Workload)
  : list string :=
  concat (map (fun wl => reconciler.ExtractHosts (reconciler.parser r) (Labels wl))
            workloads).

(** Two workloads for the concrete runs: [web] routes [app.example.com] and
    [test.example.com], [api] routes [api.example.com]. *)
Definition sampleWorkloads : list Workload :=
  [ {| WID := "c0ffee00c0ffee00"; WName := "web";
       Labels := {[ "traefik.http.routers.web.rule" := "app.example.com";
                    "traefik.http.routers.test.rule" := "test.example.com" ]};
       WType := "container" |};
    {| WID := "deadbeefdeadbeef"; WName := "api";
       Labels := {[ "traefik.http.routers.api.rule" := "api.example.com" ]};
       WType := "container" |} ].

(** A run continued after a first stretch of events. *)
Definition after {A W : Type} (tr : list Event) (x : A * W * list Event)
  : A * W * list Event :=
  (value x, world x, tr ++ trace x).

(** The network calls of a trace, each with whether it was answered without
    error. *)
Fixpoint answers (tr : list Event) : list (Call * bool) :=
  match tr with
  | [] => []
  | ECall c ok :: rest => (c, ok) :: answers rest
  | _ :: rest => answers rest
  end.

(** Every delete of a list of calls comes right after an answered query of
    the same name in the same zone. *)
Fixpoint deletes_checked (cs : list (Call * bool)) : bool :=
  match cs with
  | [] => true
  | (CGet z h, true) :: (CDelete z' h' ip, _) :: rest =>
      String.eqb z z' && String.eqb h h' && deletes_checked rest
  | (CDelete _ _ _, _) :: _ => false
  | _ :: rest => deletes_checked rest
  end.

(** The hostnames the calls of a list are about. *)
Definition call_host (c : Call) : option string :=
  match c with
  | CList => None
  | CGet _ h | CAdd _ h _ _ | CDelete _ h _ => Some h
  end.

(** The log lines of a trace at a level. *)
Fixpoint logged (lvl : Level) (tr : list Event) : list string :=
  match tr with
  | [] => []
  | ELog l msg :: rest =>
      match l, lvl with
      | LevelDebug, LevelDebug | LevelInfo, LevelInfo | LevelError, LevelError =>
          msg :: logged lvl rest
      | _, _ => logged lvl rest
      end
  | _ :: rest => logged lvl rest
  end.

(** The calls of a trace that the collaborator answered with an error. *)
Fixpoint failed (tr : list Event) : list Call :=
  match tr with
  | [] => []
  | ECall c false :: rest => c :: failed rest
  | _ :: rest => failed rest
  end.

(** A call about one of the names of a list. *)
Definition about (names : list string) (c : Call) : Prop :=
  exists h, call_host c = Some h /\ In h names.

(** The zone of [presentWorld] behind a gateway that cannot be reached for
    [down.example.com]. *)
Definition flakyWorld : RefWorld :=
  worldWith [("example.com", a_record "app.example.com" "10.0.0.1" 300)]
    (Ok sampleWorkloads) ["down.example.com"].

(** Hostnames counted as passing the filter and not (yet) as created or as
    already present. *)
Definition unsettled (res : reconciler.ReconcileResult) : Z :=
  (reconciler.HostnamesFiltered res - reconciler.RecordsCreated res
   - reconciler.RecordsExisted res)%Z.

Definition failure_count (err : option string) : Z :=
  match err with Some _ => 1%Z | None => 0%Z end.

(** What a step of a pass may change of a result, given the error it
    returns: the hostnames found grow by [found], one more hostname is
    unsettled exactly when an error is returned, and the scanned count and
    the error list stay. *)
Definition step_frame (found : Z) (res : reconciler.ReconcileResult)
  (out : reconciler.ReconcileResult * option string) : Prop :=
  reconciler.WorkloadsScanned out.1 = reconciler.WorkloadsScanned res
  /\ reconciler.HostnamesFound out.1 = (reconciler.HostnamesFound res + found)%Z
  /\ reconciler.Errors out.1 = reconciler.Errors res
  /\ unsettled out.1 = (unsettled res + failure_count out.2)%Z.

(** The number of creates of a trace that the gateway carried out. *)
Definition created_in (tr : list Event) : Z :=
  Z.of_nat (count_calls is_create (performed tr)).

(** An empty zone behind a gateway that cannot be reached for
    [app.example.com], in front of the two sample workloads. *)
Definition partialWorld : RefWorld :=
  worldWith [] (Ok sampleWorkloads) ["app.example.com"].

(** ** Sample watcher data *)

Definition sampleWatcher (dry : bool) : watcher.Watcher :=
  {| watcher.rec := sampleReconciler dry;
     watcher.dockerMode := "standalone";
     watcher.debounceInterval := 5000000000 |}.

Definition containerEvent (action id name : string) : watcher.Message :=
  {| watcher.Type_ev := "container"; watcher.Action := action;
     watcher.actor := {| watcher.ID := id;
                         watcher.Attributes := {[ "name" := name ]} |} |}.

(** An event without a name attribute, as in the watcher's own test. *)
Definition namelessEvent : watcher.Message :=
  {| watcher.Type_ev := "service"; watcher.Action := "create";
     watcher.actor := {| watcher.ID := "abcdef123456789";
                         watcher.Attributes := ∅ |} |}.

(** A watcher trace in which no pass or handler issues a delete. *)
Definition delete_free (tr : list watcher.WEvent) : Prop :=
  Forall (fun e => not_delete (kind_of e) = true) (watcher.run_events tr).

(** ** Goroutines sharing the reconciler's mutex

    Each goroutine runs one program; a step of the pool is one call of one
    goroutine.  [Lock] can be taken only while the mutex is free, and the
    goroutine waits otherwise; [Unlock] frees it. *)

Definition thread_step {W A : Type} (env : Env W) (locked : bool) (w : W)
  (p : Prog A) : option (Prog A * bool * W * option Event) :=
  match p with
  | Ret _ => None
  | LogMsg l s k => Some (k, locked, w, Some (ELog l s))
  | Metric n l k => Some (k, locked, w, Some (EMetric n l))
  | Now k => Some (k (clock env w).1, locked, (clock env w).2, None)
  | Lock k => if locked then None else Some (k, true, w, Some ELock)
  | Unlock k => if locked then Some (k, false, w, Some EUnlock) else None
  | ListWorkloads k =>
      Some (k (docker_list env w).1, locked, (docker_list env w).2,
            Some (ECall CList (listed_ok (docker_list env w).1)))
  | ApiGet z h k =>
      Some (k (records_get env z h w).1, locked, (records_get env z h w).2,
            Some (ECall (CGet z h) (get_ok (records_get env z h w).1)))
  | ApiAdd z h ip t k =>
      Some (k (records_add env z h ip t w).1, locked, (records_add env z h ip t w).2,
            Some (ECall (CAdd z h ip t) (no_error (records_add env z h ip t w).1)))
  | ApiDelete z h ip k =>
      Some (k (records_delete env z h ip w).1, locked,
            (records_delete env z h ip w).2,
            Some (ECall (CDelete z h ip) (no_error (records_delete env z h ip w).1)))
  end.

(** The goroutines, the mutex, the outside world, and what happened so far
    (latest first), each event with the goroutine that made it. *)
Record Pool (W : Type) := {
  threads : list (Prog unit);
  locked : bool;
  shared : W;
  history : list (nat * Event)
}.
Arguments threads {W} p.
Arguments locked {W} p.
Arguments shared {W} p.
Arguments history {W} p.

Definition record_event (i : nat) (ev : option Event) (h : list (nat * Event))
  : list (nat * Event) :=
  match ev with Some e => (i, e) :: h | None => h end.

Inductive pool_step {W : Type} (env : Env W) : Pool W -> Pool W -> Prop :=
| PoolStep (s : Pool W) (i : nat) (p p' : Prog unit) (l' : bool) (w' : W)
    (ev : option Event) :
    threads s !! i = Some p ->
    thread_step env (locked s) (shared s) p = Some (p', l', w', ev) ->
    pool_step env s
      {| threads := <[i := p']> (threads s); locked := l'; shared := w';
         history := record_event i ev (history s) |}.

(** The calls the program makes on the reconciler: the startup pass, the
    passes of the timer callbacks, partial passes and deletions. *)
Inductive EntryCall :=
| CallReconcile
| CallReconcileHostnames (workloadName : string) (hostnames : list string)
| CallDeleteHostnames (workloadName : string) (hostnames : list string).

Definition discard {A : Type} (p : Prog A) : Prog unit := bind p (fun _ => Ret tt).

Definition spawn (r : reconciler.Reconciler) (c : EntryCall) : Prog unit :=
  match c with
  | CallReconcile => discard (reconciler.Reconcile r)
  | CallReconcileHostnames wn hs => discard (reconciler.ReconcileHostnames r wn hs)
  | CallDeleteHostnames wn hs => discard (reconciler.DeleteHostnames r wn hs)
  end.

Definition start {W : Type} (r : reconciler.Reconciler) (cs : list EntryCall)
  (w : W) : Pool W :=
  {| threads := map (spawn r) cs; locked := false; shared := w; history := [] |}.

(** Goroutine [i] is inside a pass: its latest mutex event is a [Lock]. *)
Fixpoint inside (i : nat) (h : list (nat * Event)) : bool :=
  match h with
  | [] => false
  | (j, ELock) :: rest => if Nat.eqb i j then true else inside i rest
  | (j, EUnlock) :: rest => if Nat.eqb i j then false else inside i rest
  | _ :: rest => inside i rest
  end.

Definition is_mutex_event (e : Event) : bool :=
  match e with ELock | EUnlock => true | _ => false end.

Definition is_call_event (e : Event) : bool :=
  match e with ECall _ _ => true | _ => false end.

(** Every network call of the history was made by a goroutine that was
    inside a pass at that moment, and it was the only one inside. *)
Fixpoint calls_exclusive (h : list (nat * Event)) : Prop :=
  match h with
  | [] => True
  | (i, e) :: rest =>
      (is_call_event e = true -> forall j, inside j rest = true <-> j = i)
      /\ calls_exclusive rest
  end.

(** The shapes of a goroutine's program: done with its pass, inside it
    (every path leads to one [Unlock] and makes no [Lock] before it), or
    about to take the lock. *)
Fixpoint finished {A : Type} (p : Prog A) : Prop :=
  match p with
  | Ret _ => True
  | LogMsg _ _ k | Metric _ _ k => finished k
  | _ => False
  end.

Fixpoint critical {A : Type} (p : Prog A) : Prop :=
  match p with
  | Ret _ => False
  | Lock _ => False
  | Unlock k => finished k
  | LogMsg _ _ k | Metric _ _ k => critical k
  | Now k => forall t, critical (k t)
  | ListWorkloads k => forall r, critical (k r)
  | ApiGet _ _ k => forall r, critical (k r)
  | ApiAdd _ _ _ _ k => forall r, critical (k r)
  | ApiDelete _ _ _ k => forall r, critical (k r)
  end.

Definition waiting {A : Type} (p : Prog A) : Prop :=
  match p with
  | Lock k => critical k
  | _ => False
  end.

(** What holds of a pool at every moment: a goroutine inside a pass is in
    its critical section, the others wait for the lock or are done; at most
    one goroutine is inside; the mutex is held exactly when one is; and
    every network call so far was made from inside. *)
Definition pool_inv {W : Type} (s : Pool W) : Prop :=
  (forall i p, threads s !! i = Some p ->
     if inside i (history s) then critical p else waiting p \/ finished p)
  /\ (forall i j, inside i (history s) = true -> inside j (history s) = true -> i = j)
  /\ (locked s = false -> forall i, inside i (history s) = false)
  /\ (locked s = true -> exists i, inside i (history s) = true)
  /\ calls_exclusive (history s).

(** The program of a goroutine once it has taken the lock. *)
Definition after_lock {A : Type} (p : Prog A) : Prog A :=
  match p with Lock k => k | _ => p end.

(** Two goroutines on the sample reconciler, a full pass and a deletion,
    at the moment the second has taken the lock. *)
Definition sampleCalls : list EntryCall :=
  [CallReconcile; CallDeleteHostnames "web" ["app.example.com"]].

Definition lockedPool : Pool RefWorld :=
  {| threads :=
       <[1 := after_lock (spawn (sampleReconciler false)
                            (CallDeleteHostnames "web" ["app.example.com"]))]>
         (threads (start (sampleReconciler false) sampleCalls presentWorld));
     locked := true;
     shared := presentWorld;
     history := [(1, ELock)] |}.

(** ** The exchanges of a pass with the gateway *)

(** How an exchange about one hostname ends: the query was not answered;
    the query was answered and showed that nothing is left to do; the
    change asked for was carried out; or the gateway refused it. *)
Inductive Reply := Unanswered | Settled | Changed | Refused.

Definition failing (o : Reply) : bool :=
  match o with
  | Unanswered | Refused => true
  | Settled | Changed => false
  end.

(** An exchange of ensure-record about a hostname [h], by what the gateway
    answers from its state [w]: the query of the name in the configured
    zone; when it is answered and its records hold no A record of the
    configured address, a create with the configured address and TTL, and
    nothing more in every other case.  The last argument is the state the
    gateway is left in. *)
Inductive exchange {W : Type} (env : Env W) (c : config.Config) (h : string) (w : W)
  : Reply -> list (Call * bool) -> W -> Prop :=
| exchange_unanswered :
    (forall recs, (records_get env (config.TechnitiumZone c) h w).1 <> Payload recs) ->
    exchange env c h w Unanswered
      [(CGet (config.TechnitiumZone c) h, false)]
      (records_get env (config.TechnitiumZone c) h w).2
| exchange_present recs w1 :
    records_get env (config.TechnitiumZone c) h w = (Payload recs, w1) ->
    technitium.scanRecords recs (config.TargetIP c) = true ->
    exchange env c h w Settled [(CGet (config.TechnitiumZone c) h, true)] w1
| exchange_created recs w1 w2 :
    records_get env (config.TechnitiumZone c) h w = (Payload recs, w1) ->
    technitium.scanRecords recs (config.TargetIP c) = false ->
    records_add env (config.TechnitiumZone c) h (config.TargetIP c) (config.TTL c) w1
    = (None, w2) ->
    exchange env c h w Changed
      [(CGet (config.TechnitiumZone c) h, true);
       (CAdd (config.TechnitiumZone c) h (config.TargetIP c) (config.TTL c), true)]
      w2
| exchange_refused recs w1 w2 e :
    records_get env (config.TechnitiumZone c) h w = (Payload recs, w1) ->
    technitium.scanRecords recs (config.TargetIP c) = false ->
    records_add env (config.TechnitiumZone c) h (config.TargetIP c) (config.TTL c) w1
    = (Some e, w2) ->
    exchange env c h w Refused
      [(CGet (config.TechnitiumZone c) h, true);
       (CAdd (config.TechnitiumZone c) h (config.TargetIP c) (config.TTL c), false)]
      w2.

(** An exchange of delete about a hostname [h]: the query of the name;
    when it is answered and its records hold an A record of the configured
    address, a delete of the name with that address, and nothing more in
    every other case. *)
Inductive removal {W : Type} (env : Env W) (c : config.Config) (h : string) (w : W)
  : Reply -> list (Call * bool) -> W -> Prop :=
| removal_unanswered :
    (forall recs, (records_get env (config.TechnitiumZone c) h w).1 <> Payload recs) ->
    removal env c h w Unanswered
      [(CGet (config.TechnitiumZone c) h, false)]
      (records_get env (config.TechnitiumZone c) h w).2
| removal_absent recs w1 :
    records_get env (config.TechnitiumZone c) h w = (Payload recs, w1) ->
    technitium.scanRecords recs (config.TargetIP c) = false ->
    removal env c h w Settled [(CGet (config.TechnitiumZone c) h, true)] w1
| removal_deleted recs w1 w2 :
    records_get env (config.TechnitiumZone c) h w = (Payload recs, w1) ->
    technitium.scanRecords recs (config.TargetIP c) = true ->
    records_delete env (config.TechnitiumZone c) h (config.TargetIP c) w1 = (None, w2) ->
    removal env c h w Changed
      [(CGet (config.TechnitiumZone c) h, true);
       (CDelete (config.TechnitiumZone c) h (config.TargetIP c), true)]
      w2
| removal_refused recs w1 w2 e :
    records_get env (config.TechnitiumZone c) h w = (Payload recs, w1) ->
    technitium.scanRecords recs (config.TargetIP c) = true ->
    records_delete env (config.TechnitiumZone c) h (config.TargetIP c) w1
    = (Some e, w2) ->
    removal env c h w Refused
      [(CGet (config.TechnitiumZone c) h, true);
       (CDelete (config.TechnitiumZone c) h (config.TargetIP c), false)]
      w2.

(** One step after the other over a list, each from the state the one
    before it left: what each step answered, the calls of all of them in
    order, and the state after the last. *)
Inductive sequence {W A L : Type}
  (step : A -> W -> L -> list (Call * bool) -> W -> Prop)
  : list A -> W -> list (A * L) -> list (Call * bool) -> W -> Prop :=
| sequence_nil w : sequence step [] w [] [] w
| sequence_cons a rest w l b w1 ls bs w2 :
    step a w l b w1 ->
    sequence step rest w1 ls bs w2 ->
    sequence step (a :: rest) w ((a, l) :: ls) (b ++ bs) w2.

(** The exchanges about the hostnames of one workload: one exchange after
    the other, in order, up to and including the first that fails; the
    hostnames after it get none. *)
Inductive attempt {W : Type} (env : Env W) (c : config.Config)
  : list string -> W -> list (string * Reply) -> list (Call * bool) -> W -> Prop :=
| attempt_nil w : attempt env c [] w [] [] w
| attempt_failed h rest w o b w1 :
    exchange env c h w o b w1 ->
    failing o = true ->
    attempt env c (h :: rest) w [(h, o)] b w1
| attempt_next h rest w o b w1 log bs w2 :
    exchange env c h w o b w1 ->
    failing o = false ->
    attempt env c rest w1 log bs w2 ->
    attempt env c (h :: rest) w ((h, o) :: log) (b ++ bs) w2.

(** The hostnames of a log whose exchange failed, those whose record was
    created or deleted, and those the query showed in order already. *)
Definition failures (log : list (string * Reply)) : list string :=
  map fst (List.filter (fun p => failing p.2) log).

Definition carried (log : list (string * Reply)) : Z :=
  Z.of_nat (length (List.filter (fun p => match p.2 with Changed => true | _ => false end)
                      log)).

Definition settled (log : list (string * Reply)) : Z :=
  Z.of_nat (length (List.filter (fun p => match p.2 with Settled => true | _ => false end)
                      log)).

(** The hostnames of a list a pass asks the gateway about: none in dry-run
    mode, else the ones that pass the filter. *)
Definition queried (c : config.Config) (hostnames : list string) : list string :=
  if config.DryRun c then [] else passing c hostnames.

(** The messages [EnsureARecord] can return for a hostname. *)
Definition client_error (h m : string) : Prop :=
  (exists e, m = "getting records for " +:+ h +:+ ": " +:+ e)
  \/ (exists e, m = "parsing records response: " +:+ e)
  \/ (exists e, m = "adding A record for " +:+ h +:+ ": " +:+ e).

(** An entry of [result.Errors] of a full pass over a list of workloads: it
    names a workload of the list and one of its hostnames that pass the
    filter, and ends in the message of the client. *)
Definition workload_error (r : reconciler.Reconciler) (workloads : list Workload)
  (e : string) : Prop :=
  exists wl h m,
    In wl workloads
    /\ In h (passing (reconciler.cfg r)
               (reconciler.ExtractHosts (reconciler.parser r) (Labels wl)))
    /\ client_error h m
    /\ e = "workload " +:+ WName wl +:+ ": ensuring record for " +:+ h
           +:+ ": creating A record: " +:+ m.

(** An entry of [result.Errors] of [ReconcileHostnames]. *)
Definition hostname_error (r : reconciler.Reconciler) (hostnames : list string)
  (e : string) : Prop :=
  exists h m,
    In h (passing (reconciler.cfg r) hostnames)
    /\ client_error h m
    /\ e = "hostname " +:+ h +:+ ": creating A record: " +:+ m.

(** The exchanges of a full pass about one workload: an attempt over the
    hostnames the parser finds in its labels, of those the ones the pass
    asks about. *)
Definition round {W : Type} (env : Env W) (r : reconciler.Reconciler) (wl : Workload)
  (w : W) (log : list (string * Reply)) (b : list (Call * bool)) (w' : W) : Prop :=
  attempt env (reconciler.cfg r)
    (queried (reconciler.cfg r)
       (reconciler.ExtractHosts (reconciler.parser r) (Labels wl)))
    w log b w'.

(** The workloads of a full pass that were given up, each with the hostname
    whose exchange failed. *)
Definition abandoned (logs : list (Workload * list (string * Reply)))
  : list (Workload * string) :=
  concat (map (fun p => map (pair p.1) (failures p.2)) logs).

(** The entry of [result.Errors] for a workload given up at a hostname,
    and the entry of [ReconcileHostnames] for a hostname. *)
Definition reported (p : Workload * string) (e : string) : Prop :=
  exists m,
    client_error p.2 m
    /\ e = "workload " +:+ WName p.1 +:+ ": ensuring record for " +:+ p.2
           +:+ ": creating A record: " +:+ m.

Definition reported_hostname (h e : string) : Prop :=
  exists m, client_error h m /\ e = "hostname " +:+ h +:+ ": creating A record: " +:+ m.

(** The zone of the reference server holds an A record of a name with an
    address. *)
Definition holds (zone host ip : string) (w : RefWorld) : bool :=
  technitium.scanRecords
    (map snd (List.filter (at_name zone host) (zoneRecords w))) ip.

(** The four ways a call of [EnsureARecord] can go. *)
Inductive ensured {W : Type} (env : Env W) (zone host ip : string) (ttl : Z) (w : W)
  : bool * option string * W * list Event -> Prop :=
| ensured_unanswered e :
    (forall recs, (records_get env zone host w).1 <> Payload recs) ->
    client_error host e ->
    ensured env zone host ip ttl w
      ((false, Some e), (records_get env zone host w).2,
       [ECall (CGet zone host) false])
| ensured_present recs w1 :
    records_get env zone host w = (Payload recs, w1) ->
    technitium.scanRecords recs ip = true ->
    ensured env zone host ip ttl w
      ((false, None), w1,
       [ECall (CGet zone host) true; ELog LevelDebug "retrieved records";
        ELog LevelDebug "A record already exists"])
| ensured_created recs w1 w2 :
    records_get env zone host w = (Payload recs, w1) ->
    technitium.scanRecords recs ip = false ->
    records_add env zone host ip ttl w1 = (None, w2) ->
    ensured env zone host ip ttl w
      ((true, None), w2,
       [ECall (CGet zone host) true; ELog LevelDebug "retrieved records";
        ECall (CAdd zone host ip ttl) true; ELog LevelInfo "added A record"])
| ensured_refused recs w1 w2 e :
    records_get env zone host w = (Payload recs, w1) ->
    technitium.scanRecords recs ip = false ->
    records_add env zone host ip ttl w1 = (Some e, w2) ->
    ensured env zone host ip ttl w
      ((false, Some ("adding A record for " +:+ host +:+ ": " +:+ e)), w2,
       [ECall (CGet zone host) true; ELog LevelDebug "retrieved records";
        ECall (CAdd zone host ip ttl) false]).


(** A workload that routes two hostnames, [app.example.com] first. *)
Definition twoHostWorkload : Workload :=
  {| WID := "feedfacefeedface"; WName := "shop";
     Labels := {[ "traefik.http.routers.web.rule" := "app.example.com";
                  "traefik.http.routers.api.rule" := "api.example.com" ]};
     WType := "container" |}.

(** The reference server after a stretch of a pass over a list of
    hostnames: the zone has grown by [added], an A record with the
    configured address and TTL for hostnames of the list that had none, no
    record twice, and nothing else has changed. *)
Definition grown (c : config.Config) (hosts : list string) (w w' : RefWorld)
  (added : list (string * DnsRecord)) : Prop :=
  zoneRecords w' = zoneRecords w ++ added
  /\ platform w' = platform w
  /\ unreachable w' = unreachable w
  /\ time w' = time w
  /\ Forall (fun e =>
               exists h,
                 In h hosts
                 /\ holds (config.TechnitiumZone c) h (config.TargetIP c) w = false
                 /\ e = (config.TechnitiumZone c,
                         a_record h (config.TargetIP c) (config.TTL c)))
       added
  /\ NoDup added.

(** What a stretch of a pass over [hosts] leaves on the reference server
    when every name can be reached: the zone grown by the records created,
    every hostname that passes the filter in the zone, and the counters
    moved accordingly. *)
Definition settles (r : reconciler.Reconciler) (found : Z) (hosts : list string)
  (res : reconciler.ReconcileResult) (w : RefWorld)
  (res' : reconciler.ReconcileResult) (w' : RefWorld) (tr : list Event) : Prop :=
  exists added,
    grown (reconciler.cfg r) (passing (reconciler.cfg r) hosts) w w' added
    /\ res' = bump found (passed (reconciler.cfg r) hosts) (Z.of_nat (length added))
                (passed (reconciler.cfg r) hosts - Z.of_nat (length added)) res
    /\ (forall h, In h (passing (reconciler.cfg r) hosts) ->
          holds (config.TechnitiumZone (reconciler.cfg r)) h
            (config.TargetIP (reconciler.cfg r)) w' = true)
    /\ count_calls is_create (calls tr) = length added.

(** ** The watcher over its whole run *)

(** The events among the inputs of the watcher. *)
Fixpoint received (inputs : list watcher.Input) : nat :=
  match inputs with
  | [] => 0
  | watcher.EventRecv _ :: rest => S (received rest)
  | _ :: rest => received rest
  end.

(** What holds of the variables of [Watch] between two turns of its loop:
    a reconciliation is pending exactly when one timer waits or one callback
    is under way, never more than one of the two; and a timer that waits is
    the one [debounceTimer] points to. *)
Definition watch_inv (st : watcher.State) : Prop :=
  length (watcher.armed st) + length (watcher.returned st)
  = (if watcher.pendingReconcile st then 1 else 0)
  /\ forall t, In t (watcher.armed st) -> watcher.debounceTimer st = Some t.

(** An event passes a list of docker event filters when its type is among
    the [type] values and its action among the [event] values. *)
Definition subscribed (filters : list (string * string)) (event : watcher.Message)
  : bool :=
  existsb (fun f => String.eqb f.1 "type" && String.eqb (watcher.Type_ev event) f.2)
    filters
  && existsb (fun f => String.eqb f.1 "event" && String.eqb (watcher.Action event) f.2)
       filters.

(** A start event of a container named [web]. *)
Definition startEvent : watcher.Message :=
  containerEvent "start" "c0ffee" "web".

(** ** Package traefik: the label parser *)

From Stdlib Require Import Ascii.

Module traefik.

(** [strings.HasPrefix(s, prefix)] *)
Fixpoint HasPrefix (s prefix : string) {struct prefix} : bool :=
  match prefix with
  | EmptyString => true
  | String a prefix' =>
      match s with
      | EmptyString => false
      | String b s' => Ascii.eqb a b && HasPrefix s' prefix'
      end
  end.

(** [strings.HasSuffix(s, suffix)]: [s] or one of its tails is [suffix]. *)
Fixpoint HasSuffix (s suffix : string) : bool :=
  String.eqb s suffix
  || match s with
     | EmptyString => false
     | String _ s' => HasSuffix s' suffix
     end.

(** [strings.Split(s, sep)] for a separator of one byte: the stretches of
    [s] between the separators, one more than there are separators. *)
Fixpoint Split (s : string) (sep : ascii) : list string :=
  match s with
  | EmptyString => [EmptyString]
  | String c s' =>
      if Ascii.eqb c sep then EmptyString :: Split s' sep
      else match Split s' sep with
           | part :: parts => String c part :: parts
           | [] => [String c EmptyString]
           end
  end.

Definition routerRuleSuffix : string := ".rule".

(** [func isRouterRuleLabel(key string) bool] *)
Definition isRouterRuleLabel (key : string) : bool :=
  (* Must start with traefik.http.routers. and end with .rule *)
  if negb (HasPrefix key "traefik.http.routers.") then false
  else if negb (HasSuffix key routerRuleSuffix) then false
  else
    (* Ensure there's a router name between routers. and .rule *)
    let parts := Split key "."%char in
    (* Expected: [traefik, http, routers, NAME, rule] *)
    if Nat.ltb (length parts) 5 then false else true.

(** A compiled [*regexp.Regexp], by what [FindAllStringSubmatch(s, -1)]
    answers: for each match, the match and its capture groups. *)
Record Regexp := { FindAllStringSubmatch : string -> list (list string) }.

Section Parser.

(** [hostRegex], the pattern [Host\(`([^`]+)`\)] compiled by Go's regexp
    engine, and [strings.TrimSpace]. *)
Variable hostRegex : Regexp.
Variable TrimSpace : string -> string.

(** The loop of [ExtractHosts] over the matches of one rule; [seen] and
    [hosts] are the two variables of the function. *)
Fixpoint addMatches (matches : list (list string)) (seen : gset string)
  (hosts : list string) : Prog (gset string * list string) :=
  match matches with
  | [] => Ret (seen, hosts)
  | m :: rest =>
      match m with
      | _ :: capture :: _ =>
          let hostname := TrimSpace capture in
          if String.eqb hostname "" then addMatches rest seen hosts
          (* Deduplicate *)
          else if decide (hostname ∈ seen) then addMatches rest seen hosts
          else LogMsg LevelDebug "extracted hostname"
                 (addMatches rest ({[hostname]} ∪ seen) (hosts ++ [hostname]))
      | _ => addMatches rest seen hosts   (* len(match) < 2 *)
      end
  end.

(** [for key, value := range labels]: Go yields the entries of a map in an
    order it does not specify, each once; [entries] is that sequence. *)
Fixpoint rangeLabels (entries : list (string * string)) (seen : gset string)
  (hosts : list string) : Prog (gset string * list string) :=
  match entries with
  | [] => Ret (seen, hosts)
  | (key, value) :: rest =>
      (* Only process traefik router rule labels *)
      if negb (isRouterRuleLabel key) then rangeLabels rest seen hosts
      else
        LogMsg LevelDebug "parsing traefik rule"
          (* Extract all Host() patterns from the rule *)
          (x <- addMatches (FindAllStringSubmatch hostRegex value) seen hosts ;;
           rangeLabels rest x.1 x.2)
  end.

(** [func (p *Parser) ExtractHosts(labels map[string]string) []string], on
    the entries of [labels] in the order the [range] yields them. *)
Definition ExtractHosts (entries : list (string * string)) : Prog (list string) :=
  x <- rangeLabels entries ∅ [] ;;
  LogMsg LevelDebug "extracted hosts from labels" (Ret x.2).

(** The loop of [ExtractHostsFromRule]. *)
Fixpoint collect (matches : list (list string)) (seen : gset string)
  (hosts : list string) : gset string * list string :=
  match matches with
  | [] => (seen, hosts)
  | m :: rest =>
      match m with
      | _ :: capture :: _ =>
          let hostname := TrimSpace capture in
          if String.eqb hostname "" then collect rest seen hosts
          else if decide (hostname ∈ seen) then collect rest seen hosts
          else collect rest ({[hostname]} ∪ seen) (hosts ++ [hostname])
      | _ => collect rest seen hosts
      end
  end.

(** [func ExtractHostsFromRule(rule string) []string] *)
Definition ExtractHostsFromRule (rule : string) : list string :=
  (collect (FindAllStringSubmatch hostRegex rule) ∅ []).2.

(** The hostnames the matches of a rule name: the first capture group of
    each match, trimmed, when that is not empty. *)
Definition captured (matches : list (list string)) : list string :=
  omap (fun m =>
          match m with
          | _ :: capture :: _ =>
              if String.eqb (TrimSpace capture) "" then None
              else Some (TrimSpace capture)
          | _ => None
          end) matches.

(** The hostnames the router rules of a sequence of labels name, in the
    order of the sequence, with their repetitions. *)
Definition candidates (entries : list (string * string)) : list string :=
  concat (map (fun e =>
                 if isRouterRuleLabel e.1
                 then captured (FindAllStringSubmatch hostRegex e.2)
                 else []) entries).

(** One turn of the deduplication. *)
Definition remember (st : gset string * list string) (hostname : string)
  : gset string * list string :=
  if decide (hostname ∈ st.1) then st
  else ({[hostname]} ∪ st.1, st.2 ++ [hostname]).

End Parser.

(** The separators of a string. *)
Fixpoint separators (s : string) (sep : ascii) : nat :=
  match s with
  | EmptyString => 0
  | String c s' => (if Ascii.eqb c sep then 1 else 0) + separators s' sep
  end.

End traefik.

(** A matcher for the concrete runs: it reads a rule as one [Host] clause
    and captures the whole rule. *)
Definition wholeRule : traefik.Regexp :=
  {| traefik.FindAllStringSubmatch := fun s => [[s; s]] |}.

(** The elements of a list, each once, in the order of their first
    occurrence. *)
Fixpoint first_occurrences (l : list string) : list string :=
  match l with
  | [] => []
  | x :: rest => x :: filter (fun y => y <> x) (first_occurrences rest)
  end.

(** ** Package config, continued: loading the configuration *)

Module config_load.
Import config.

(** Defaults *)
Definition DefaultTTL : Z := 300.
Definition DefaultIncludePattern : string := ".*".
Definition DefaultDockerHost : string := "unix:///var/run/docker.sock".
Definition DefaultDockerMode : string := "auto".
Definition DefaultReconcileOnStartup : bool := true.
Definition DefaultDryRun : bool := false.
Definition DefaultHealthPort : Z := 8080.
Definition DefaultLogLevel : string := "info".

(** The line feed of the error message of [Load]. *)
Definition newline : string := String "010" "".

(** [strings.TrimRight(s, cutset)] for a cutset of one byte. *)
Fixpoint TrimRight (s : string) (c : ascii) : string :=
  match s with
  | EmptyString => EmptyString
  | String a s' =>
      match TrimRight s' c with
      | EmptyString => if Ascii.eqb a c then EmptyString else String a EmptyString
      | t => String a t
      end
  end.

(** [func (c *Config) Validate() error]: the configuration as the call
    leaves it, and the error. *)
Definition Validate (c : Config) : Config * option error :=
  (* Ensure the Technitium URL doesn't have trailing slashes *)
  ({| TechnitiumURL := TrimRight (TechnitiumURL c) "/";
      TechnitiumToken := TechnitiumToken c;
      TechnitiumZone := TechnitiumZone c;
      TargetIP := TargetIP c;
      TTL := TTL c;
      IncludePattern := IncludePattern c;
      ExcludePattern := ExcludePattern c;
      DockerHost := DockerHost c;
      DockerMode := DockerMode c;
      ReconcileOnStartup := ReconcileOnStartup c;
      DryRun := DryRun c;
      HealthPort := HealthPort c;
      LogLevel := LogLevel c |}, None).

Section Load.

(** The process environment and the file system, and the functions of Go's
    library [Load] calls: [os.Getenv] (empty for a variable that is not
    set), [os.ReadFile], [strings.TrimSpace], [strings.ToLower],
    [strconv.Atoi], [net.ParseIP] (whether the result is not nil) and
    [regexp.Compile]. *)
Variable Getenv : string -> string.
Variable ReadFile : string -> result string.
Variable TrimSpace : string -> string.
Variable ToLower : string -> string.
Variable Atoi : string -> result Z.
Variable ParseIP : string -> bool.
Variable Compile : string -> result Regexp.

(** [func getEnvOrFile(key string) string] *)
Definition getEnvOrFile (key : string) : string :=
  (* First check if the direct value is set *)
  let val := Getenv key in
  if negb (String.eqb val "") then val
  else
    (* Check for _FILE suffix (Docker secrets) *)
    let fileKey := key +:+ "_FILE" in
    let filePath := Getenv fileKey in
    if negb (String.eqb filePath "")
    then match ReadFile filePath with
         | Err _ => ""
         | Ok data => TrimSpace data
         end
    else "".

(** [func parseBool(s string, defaultValue bool) bool] *)
Definition parseBool (s : string) (defaultValue : bool) : bool :=
  let s := ToLower (TrimSpace s) in
  if String.eqb s "true" || String.eqb s "1" || String.eqb s "yes"
     || String.eqb s "on"
  then true
  else if String.eqb s "false" || String.eqb s "0" || String.eqb s "no"
          || String.eqb s "off"
  then false
  else defaultValue.

(** The stretches of [Load], one per setting: each takes [errs] as it
    stands and gives the value it stores in [cfg] (the zero value when it
    stores none) with [errs] as it leaves it. *)

(** Required: Technitium URL *)
Definition loadURL (errs : list string) : string * list string :=
  let v := getEnvOrFile "TECHNITIUM_URL" in
  if String.eqb v "" then (v, errs ++ ["TECHNITIUM_URL is required"])
  else (v, errs).

(** Required: Technitium Token (supports _FILE for secrets) *)
Definition loadToken (errs : list string) : string * list string :=
  let v := getEnvOrFile "TECHNITIUM_TOKEN" in
  if String.eqb v ""
  then (v, errs ++ ["TECHNITIUM_TOKEN or TECHNITIUM_TOKEN_FILE is required"])
  else (v, errs).

(** Required: Zone *)
Definition loadZone (errs : list string) : string * list string :=
  let v := getEnvOrFile "TECHNITIUM_ZONE" in
  if String.eqb v "" then (v, errs ++ ["TECHNITIUM_ZONE is required"])
  else (v, errs).

(** Required: Target IP *)
Definition loadTargetIP (errs : list string) : string * list string :=
  let v := getEnvOrFile "TARGET_IP" in
  if String.eqb v "" then (v, errs ++ ["TARGET_IP is required"])
  else if negb (ParseIP v)
  then (v, errs ++ ["TARGET_IP is not a valid IP address: " +:+ v])
  else (v, errs).

(** Optional: TTL *)
Definition loadTTL (errs : list string) : Z * list string :=
  let ttlStr := Getenv "TTL" in
  if negb (String.eqb ttlStr "")
  then match Atoi ttlStr with
       | Err err => (0%Z, errs ++ ["TTL must be a valid integer: " +:+ err])
       | Ok ttl =>
           if (ttl <? 1)%Z then (0%Z, errs ++ ["TTL must be at least 1"])
           else (ttl, errs)
       end
  else (DefaultTTL, errs).

(** Optional: Include pattern *)
Definition loadInclude (errs : list string) : option Regexp * list string :=
  let includeStr := Getenv "INCLUDE_PATTERN" in
  let includeStr :=
    if String.eqb includeStr "" then DefaultIncludePattern else includeStr in
  match Compile includeStr with
  | Err err => (None, errs ++ ["INCLUDE_PATTERN is not a valid regex: " +:+ err])
  | Ok includeRe => (Some includeRe, errs)
  end.

(** Optional: Exclude pattern *)
Definition loadExclude (errs : list string) : option Regexp * list string :=
  let excludeStr := Getenv "EXCLUDE_PATTERN" in
  if negb (String.eqb excludeStr "")
  then match Compile excludeStr with
       | Err err => (None, errs ++ ["EXCLUDE_PATTERN is not a valid regex: " +:+ err])
       | Ok excludeRe => (Some excludeRe, errs)
       end
  else (None, errs).

(** Optional: Docker host *)
Definition loadDockerHost : string :=
  let v := Getenv "DOCKER_HOST" in
  if String.eqb v "" then DefaultDockerHost else v.

(** Optional: Docker mode *)
Definition loadDockerMode (errs : list string) : string * list string :=
  let v := ToLower (Getenv "DOCKER_MODE") in
  let v := if String.eqb v "" then DefaultDockerMode else v in
  if negb (String.eqb v "auto") && negb (String.eqb v "swarm")
     && negb (String.eqb v "standalone")
  then (v, errs ++ ["DOCKER_MODE must be 'auto', 'swarm', or 'standalone'"])
  else (v, errs).

(** Optional: Reconcile on startup *)
Definition loadReconcileOnStartup : bool :=
  let reconcileStr := Getenv "RECONCILE_ON_STARTUP" in
  if String.eqb reconcileStr "" then DefaultReconcileOnStartup
  else parseBool reconcileStr DefaultReconcileOnStartup.

(** Optional: Dry run *)
Definition loadDryRun : bool :=
  let dryRunStr := Getenv "DRY_RUN" in
  if String.eqb dryRunStr "" then DefaultDryRun
  else parseBool dryRunStr DefaultDryRun.

(** Optional: Health port *)
Definition loadHealthPort (errs : list string) : Z * list string :=
  let healthPortStr := Getenv "HEALTH_PORT" in
  if negb (String.eqb healthPortStr "")
  then match Atoi healthPortStr with
       | Err err => (0%Z, errs ++ ["HEALTH_PORT must be a valid integer: " +:+ err])
       | Ok port =>
           if (port <? 1)%Z || (65535 <? port)%Z
           then (0%Z, errs ++ ["HEALTH_PORT must be between 1 and 65535"])
           else (port, errs)
       end
  else (DefaultHealthPort, errs).

(** Optional: Log level *)
Definition loadLogLevel (errs : list string) : string * list string :=
  let v := ToLower (Getenv "LOG_LEVEL") in
  let v := if String.eqb v "" then DefaultLogLevel else v in
  if negb (String.eqb v "debug") && negb (String.eqb v "info")
     && negb (String.eqb v "warn") && negb (String.eqb v "error")
  then (v, errs ++ ["LOG_LEVEL must be 'debug', 'info', 'warn', or 'error'"])
  else (v, errs).

(** [func Load()]: the configuration, or the error. *)
Definition Load : option Config * option error :=
  let url := loadURL [] in
  let token := loadToken url.2 in
  let zone := loadZone token.2 in
  let ip := loadTargetIP zone.2 in
  let ttl := loadTTL ip.2 in
  let include := loadInclude ttl.2 in
  let exclude := loadExclude include.2 in
  let mode := loadDockerMode exclude.2 in
  let port := loadHealthPort mode.2 in
  let level := loadLogLevel port.2 in
  let errs := level.2 in
  if Nat.ltb 0 (length errs)
  then (None,
        Some ("configuration errors:" +:+ newline +:+ "  - "
              +:+ String.concat (newline +:+ "  - ") errs))
  else (Some {| TechnitiumURL := url.1;
                TechnitiumToken := token.1;
                TechnitiumZone := zone.1;
                TargetIP := ip.1;
                TTL := ttl.1;
                IncludePattern := include.1;
                ExcludePattern := exclude.1;
                DockerHost := loadDockerHost;
                DockerMode := mode.1;
                ReconcileOnStartup := loadReconcileOnStartup;
                DryRun := loadDryRun;
                HealthPort := port.1;
                LogLevel := level.1 |}, None).

(** The configuration [Load] returns when it returns one. *)
Definition loaded : Config :=
  {| TechnitiumURL := (loadURL []).1;
     TechnitiumToken := (loadToken []).1;
     TechnitiumZone := (loadZone []).1;
     TargetIP := (loadTargetIP []).1;
     TTL := (loadTTL []).1;
     IncludePattern := (loadInclude []).1;
     ExcludePattern := (loadExclude []).1;
     DockerHost := loadDockerHost;
     DockerMode := (loadDockerMode []).1;
     ReconcileOnStartup := loadReconcileOnStartup;
     DryRun := loadDryRun;
     HealthPort := (loadHealthPort []).1;
     LogLevel := (loadLogLevel []).1 |}.

(** The error lines of [Load], setting by setting. *)
Definition problems : list string :=
  (loadURL []).2 ++ (loadToken []).2 ++ (loadZone []).2 ++ (loadTargetIP []).2
  ++ (loadTTL []).2 ++ (loadInclude []).2 ++ (loadExclude []).2
  ++ (loadDockerMode []).2 ++ (loadHealthPort []).2 ++ (loadLogLevel []).2.

End Load.

(** A configuration that [Load] hands to the program: the required
    settings are present, the target parses as an address and the numbers
    and names are in their ranges. *)
Definition wellformed (ParseIP : string -> bool) (c : Config) : Prop :=
  TechnitiumURL c <> "" /\ TechnitiumToken c <> "" /\ TechnitiumZone c <> ""
  /\ TargetIP c <> "" /\ ParseIP (TargetIP c) = true
  /\ (1 <= TTL c)%Z
  /\ IncludePattern c <> None
  /\ DockerHost c <> ""
  /\ In (DockerMode c) ["auto"; "swarm"; "standalone"]
  /\ (1 <= HealthPort c <= 65535)%Z
  /\ In (LogLevel c) ["debug"; "info"; "warn"; "error"].

(** [n] times the byte [c]. *)
Fixpoint repeated (c : ascii) (n : nat) : string :=
  match n with
  | O => EmptyString
  | S n' => String c (repeated c n')
  end.

End config_load.

(** An environment for the concrete runs: the four required settings, the
    token from a secret file. *)
Definition sampleGetenv (key : string) : string :=
  if String.eqb key "TECHNITIUM_URL" then "http://dns:5380/"
  else if String.eqb key "TECHNITIUM_TOKEN_FILE" then "/run/secrets/token"
  else if String.eqb key "TECHNITIUM_ZONE" then "example.com"
  else if String.eqb key "TARGET_IP" then "10.0.0.1"
  else "".

(** The same environment with a misspelt [DRY_RUN]. *)
Definition typoGetenv (key : string) : string :=
  if String.eqb key "DRY_RUN" then "ture" else sampleGetenv key.

Definition sampleReadFile (path : string) : result string :=
  if String.eqb path "/run/secrets/token" then Ok "token"
  else Err "no such file or directory".

Definition sampleAtoi (s : string) : result Z :=
  Err ("strconv.Atoi: parsing: invalid syntax").

Definition sampleCompile (pattern : string) : result config.Regexp := Ok anyHost.

(** ** Package docker: the workloads of the platform *)

Module docker.

Definition ModeSwarm : string := "swarm".
Definition ModeStandalone : string := "standalone".

(** [swarm.Service] and [types.Container] of the docker API, with the fields
    the client reads. *)
Record ApiService := {
  ServiceID : string;
  SpecName : string;
  SpecLabels : gmap string string
}.

Record ApiContainer := {
  ContainerID : string;
  Names : list string;
  ContainerLabels : gmap string string
}.

(** The daemon, by what it answers to [ServiceList] and to [ContainerList]
    with the filter [status=running]. *)
Record Daemon := {
  ServiceList : result (list ApiService);
  ContainerList : result (list ApiContainer)
}.

Record Service := { SvcID : string; SvcName : string; SvcLabels : gmap string string }.

Record Container := { CtrID : string; CtrName : string; CtrLabels : gmap string string }.

(** [func (c *Client) ListServices(ctx) ([]Service, error)] *)
Definition ListServices (mode : string) (d : Daemon) : Prog (result (list Service)) :=
  if negb (String.eqb mode ModeSwarm)
  then Ret (Err "ListServices only available in swarm mode")
  else
    match ServiceList d with
    | Err err => Ret (Err ("listing services: " +:+ err))
    | Ok services =>
        let result :=
          map (fun svc => {| SvcID := ServiceID svc; SvcName := SpecName svc;
                             SvcLabels := SpecLabels svc |}) services in
        LogMsg LevelDebug "listed swarm services" (Ret (Ok result))
    end.

(** The name [ListContainers] gives a container: the first of its names,
    without the slash it starts with. *)
Definition containerName (names : list string) : string :=
  match names with
  | [] => ""
  | name :: _ =>
      match name with
      | String "/" rest => rest
      | _ => name
      end
  end.

(** [func (c *Client) ListContainers(ctx) ([]Container, error)] *)
Definition ListContainers (mode : string) (d : Daemon)
  : Prog (result (list Container)) :=
  if negb (String.eqb mode ModeStandalone)
  then Ret (Err "ListContainers only available in standalone mode")
  else
    match ContainerList d with
    | Err err => Ret (Err ("listing containers: " +:+ err))
    | Ok containers =>
        let result :=
          map (fun ctr => {| CtrID := ContainerID ctr;
                             CtrName := containerName (Names ctr);
                             CtrLabels := ContainerLabels ctr |}) containers in
        LogMsg LevelDebug "listed containers" (Ret (Ok result))
    end.

(** [func (c *Client) ListWorkloads(ctx) ([]Workload, error)] *)
Definition ListWorkloads (mode : string) (d : Daemon)
  : Prog (result (list Workload)) :=
  if String.eqb mode ModeSwarm
  then
    r <- ListServices mode d ;;
    match r with
    | Err err => Ret (Err err)
    | Ok services =>
        Ret (Ok (map (fun svc => {| WID := SvcID svc; WName := SvcName svc;
                                    Labels := SvcLabels svc; WType := "service" |})
                   services))
    end
  else
    r <- ListContainers mode d ;;
    match r with
    | Err err => Ret (Err err)
    | Ok containers =>
        Ret (Ok (map (fun ctr => {| WID := CtrID ctr; WName := CtrName ctr;
                                    Labels := CtrLabels ctr; WType := "container" |})
                   containers))
    end.

End docker.

(** A daemon with one running container, named [/web]. *)
Definition sampleDaemon : docker.Daemon :=
  {| docker.ServiceList := Err "This node is not a swarm manager";
     docker.ContainerList :=
       Ok [ {| docker.ContainerID := "c0ffee00c0ffee00";
               docker.Names := ["/web"; "/web-alias"];
               docker.ContainerLabels := ∅ |} ] |}.

(** ** Deleting on the reference server *)

(** A record of the zone that [DeleteHostnames] is after, for a
    configuration and a list of hostnames: an A record with the configured
    address, in the configured zone, under one of the hostnames that pass
    the filter. *)
Definition targeted (c : config.Config) (hostnames : list string)
  (e : string * DnsRecord) : bool :=
  existsb (fun h => at_name (config.TechnitiumZone c) h e
                    && is_a_with (config.TargetIP c) e.2)
    (passing c hostnames).

(** A zone that holds an A record of [app.example.com] with another
    address. *)
Definition staleWorld : RefWorld :=
  worldWith [("example.com", a_record "app.example.com" "10.0.0.9" 300)] (Ok []) [].

(** ** Package health: the two endpoints *)

Module health.

Inductive Status := StatusHealthy | StatusUnhealthy | StatusDegraded.

Record ComponentHealth := {
  CStatus : Status;
  Message : string;
  Latency : string
}.

Record HealthResponse := {
  RStatus : Status;
  Version : string;
  Uptime : string;
  Components : gmap string ComponentHealth   (* a nil map is the empty map *)
}.

(** What the loop over the checkers sees, for each registered checker in
    the order the [range] yields them (each name once): the name, the error
    the checker returned, and the latency measured, as text. *)
Definition Check : Type := string * option error * string.

Definition StatusOK : Z := 200.
Definition StatusServiceUnavailable : Z := 503.

(** The entry of [resp.Components] for one checker. *)
Definition component (check : Check) : ComponentHealth :=
  match check.1.2 with
  | Some err => {| CStatus := StatusUnhealthy; Message := err; Latency := check.2 |}
  | None => {| CStatus := StatusHealthy; Message := ""; Latency := check.2 |}
  end.

(** The loop of [handleHealth]; [status] is [resp.Status]. *)
Fixpoint healthLoop (checks : list Check) (status : Status)
  (components : gmap string ComponentHealth)
  : Status * gmap string ComponentHealth :=
  match checks with
  | [] => (status, components)
  | check :: rest =>
      match check.1.2 with
      | Some _ =>
          healthLoop rest StatusDegraded (<[check.1.1 := component check]> components)
      | None => healthLoop rest status (<[check.1.1 := component check]> components)
      end
  end.

(** [func (s *Server) handleHealth(w, r)]: the status code and the body
    handed to [writeJSON]. *)
Definition handleHealth (version uptime : string) (checks : list Check)
  : Z * HealthResponse :=
  let x := healthLoop checks StatusHealthy ∅ in
  let resp := {| RStatus := x.1; Version := version; Uptime := uptime;
                 Components := x.2 |} in
  let statusCode :=
    match RStatus resp with
    | StatusUnhealthy => StatusServiceUnavailable
    | _ => StatusOK
    end in
  (statusCode, resp).

(** The loop of [handleReady]. *)
Fixpoint readyLoop (checks : list Check) (allHealthy : bool)
  (components : gmap string ComponentHealth)
  : bool * gmap string ComponentHealth :=
  match checks with
  | [] => (allHealthy, components)
  | check :: rest =>
      match check.1.2 with
      | Some _ => readyLoop rest false (<[check.1.1 := component check]> components)
      | None => readyLoop rest allHealthy (<[check.1.1 := component check]> components)
      end
  end.

(** [func (s *Server) handleReady(w, r)]; the checkers are called only when
    [s.ready] is set. *)
Definition handleReady (ready : bool) (version : string) (checks : list Check)
  : Z * HealthResponse :=
  if negb ready
  then (StatusServiceUnavailable,
        {| RStatus := StatusUnhealthy; Version := version; Uptime := "";
           Components := ∅ |})
  else
    let x := readyLoop checks true ∅ in
    if negb x.1
    then (StatusServiceUnavailable,
          {| RStatus := StatusUnhealthy; Version := version; Uptime := "";
             Components := x.2 |})
    else (StatusOK,
          {| RStatus := StatusHealthy; Version := version; Uptime := "";
             Components := x.2 |}).

(** A checker that returned no error. *)
Definition passes (check : Check) : Prop := check.1.2 = None.

End health.

(** A goroutine that has returned from its call. *)
Definition is_done {A : Type} (p : Prog A) : bool :=
  match p with Ret _ => true | _ => false end.

(** Every event of the history was made by a goroutine of the pool. *)
Definition history_in_range {W : Type} (s : Pool W) : Prop :=
  forall i e, In (i, e) (history s) -> i < length (threads s).

(** ** The counters of the metrics *)

(** How often a trace increments the metric of a name. *)
Fixpoint metered (name : string) (tr : list Event) : Z :=
  match tr with
  | [] => 0
  | EMetric n _ :: rest => (if String.eqb n name then 1 else 0) + metered name rest
  | _ :: rest => metered name rest
  end.

(** What a dry run counts for a list of hostnames without doing it: the
    hostnames that pass the filter; nothing outside dry-run mode. *)
Definition would (c : config.Config) (hostnames : list string) : Z :=
  if config.DryRun c then passed c hostnames else 0.

(** What a stretch of a pass adds to the counters of a result: [found]
    hostnames found, and for the hostnames [hosts] it went through with the
    exchanges [log], one hostname filtered for each exchange, one record
    created for each create carried out and one existing for each query that
    showed the record; in dry-run mode, where there is no exchange, one
    hostname filtered and one record created for each hostname that passes
    the filter. *)
Definition counted (c : config.Config) (found : Z) (hosts : list string)
  (log : list (string * Reply)) (res res' : reconciler.ReconcileResult) : Prop :=
  reconciler.WorkloadsScanned res' = reconciler.WorkloadsScanned res
  /\ reconciler.HostnamesFound res' = (reconciler.HostnamesFound res + found)%Z
  /\ reconciler.HostnamesFiltered res'
     = (reconciler.HostnamesFiltered res + Z.of_nat (length log) + would c hosts)%Z
  /\ reconciler.RecordsCreated res'
     = (reconciler.RecordsCreated res + carried log + would c hosts)%Z
  /\ reconciler.RecordsExisted res' = (reconciler.RecordsExisted res + settled log)%Z.

(** * Properties *)

(** ** The hostname filter *)

Lemma MatchesFilters_unfold (c : config.Config) (h : string) :
  config.MatchesFilters c h = matches_include c h && negb (matches_exclude c h).
Proof.
  unfold config.MatchesFilters, matches_include, matches_exclude.
  destruct (config.IncludePattern c) as [re|], (config.ExcludePattern c) as [ex|];
    simpl; repeat match goal with |- context [config.MatchString ?r h] =>
      destruct (config.MatchString r h) end; reflexivity.
Qed.

(** C2 -- [MatchesFilters] holds of a hostname exactly when the hostname
    matches the include pattern (a missing one matches everything) and does
    not match the exclude pattern (a missing one excludes nothing); a match
    of the exclude pattern rejects the hostname whatever the include pattern
    says.  The predicate is a function of the configuration and the hostname
    alone. *)
Theorem MatchesFilters_iff (c : config.Config) (h : string) :
  (config.MatchesFilters c h = true <->
     matches_include c h = true /\ matches_exclude c h = false)
  /\ (matches_exclude c h = true -> config.MatchesFilters c h = false).
Proof.
  rewrite MatchesFilters_unfold. split.
  - rewrite andb_true_iff, negb_true_iff. tauto.
  - intros ->. apply andb_false_r.
Qed.

(** The example of the specification: include [.*\.internal\.example\.com$],
    exclude [^test\.]. *)
Example MatchesFilters_example :
  config.MatchesFilters exampleFilter "app.internal.example.com" = true
  /\ config.MatchesFilters exampleFilter "test.internal.example.com" = false
  /\ config.MatchesFilters exampleFilter "app.example.com" = false.
Proof. repeat split. Qed.

(** ** Programs, their runs and their calls *)

Section RunLemmas.
Context {W : Type} (env : Env W).

Lemma run_bind {A B : Type} (m : Prog A) (f : A -> Prog B) (w : W) :
  run env (bind m f) w =
  (value (run env (f (value (run env m w))) (world (run env m w))),
   world (run env (f (value (run env m w))) (world (run env m w))),
   trace (run env m w) ++ trace (run env (f (value (run env m w))) (world (run env m w)))).
Proof.
  revert w. induction m as [a|l s k IH|n l k IH|k IH|k IH|k IH|k IH|z h k IH
                           |z h ip t k IH|z h ip k IH]; intros w; simpl;
    try (rewrite IH; reflexivity).
  unfold value, world, trace; simpl.
  destruct (run env (f a) w) as [[b w'] tr]. reflexivity.
Qed.

Lemma value_bind {A B : Type} (m : Prog A) (f : A -> Prog B) (w : W) :
  value (run env (bind m f) w)
  = value (run env (f (value (run env m w))) (world (run env m w))).
Proof. rewrite run_bind. reflexivity. Qed.

Lemma world_bind {A B : Type} (m : Prog A) (f : A -> Prog B) (w : W) :
  world (run env (bind m f) w)
  = world (run env (f (value (run env m w))) (world (run env m w))).
Proof. rewrite run_bind. reflexivity. Qed.

Lemma trace_bind {A B : Type} (m : Prog A) (f : A -> Prog B) (w : W) :
  trace (run env (bind m f) w)
  = trace (run env m w)
    ++ trace (run env (f (value (run env m w))) (world (run env m w))).
Proof. rewrite run_bind. reflexivity. Qed.

Lemma AllOps_run {A : Type} (P : OpKind -> bool) (p : Prog A) :
  AllOps P p ->
  forall w, Forall (fun e => P (kind_of e) = true) (trace (run env p w)).
Proof.
  induction 1; intros w; simpl; unfold trace in *; simpl; auto.
Qed.

End RunLemmas.

Lemma value_emit {A W : Type} (e : Event) (x : A * W * list Event) :
  value (emit e x) = value x.
Proof. reflexivity. Qed.

Lemma world_emit {A W : Type} (e : Event) (x : A * W * list Event) :
  world (emit e x) = world x.
Proof. reflexivity. Qed.

Lemma trace_emit {A W : Type} (e : Event) (x : A * W * list Event) :
  trace (emit e x) = e :: trace x.
Proof. reflexivity. Qed.

Lemma calls_app (t1 t2 : list Event) : calls (t1 ++ t2) = calls t1 ++ calls t2.
Proof.
  induction t1 as [|e t1 IH]; simpl; [reflexivity|].
  destruct e; simpl; rewrite ?IH; reflexivity.
Qed.

Lemma count_calls_app (f : Call -> bool) (c1 c2 : list Call) :
  count_calls f (c1 ++ c2) = count_calls f c1 + count_calls f c2.
Proof. induction c1 as [|c c1 IH]; simpl; [reflexivity|]. rewrite IH. lia. Qed.

Lemma AllOps_bind {A B : Type} (P : OpKind -> bool) (m : Prog A) (f : A -> Prog B) :
  AllOps P m -> (forall a, AllOps P (f a)) -> AllOps P (bind m f).
Proof. induction 1; intros Hf; simpl; try constructor; auto. Qed.

Lemma AllOps_weaken {A : Type} (P Q : OpKind -> bool) (p : Prog A) :
  (forall k, P k = true -> Q k = true) -> AllOps P p -> AllOps Q p.
Proof. intros HPQ. induction 1; constructor; auto. Qed.

(** No call of a forbidden kind shows up among the network calls of a run. *)
Lemma no_delete_calls (tr : list Event) :
  Forall (fun e => not_delete (kind_of e) = true) tr ->
  count_calls is_delete (calls tr) = 0.
Proof.
  induction 1 as [|e tr He _ IH]; simpl; [reflexivity|].
  destruct e as [| |[] ?| |]; simpl in *; try assumption; discriminate.
Qed.

Lemma no_dns_calls (tr : list Event) :
  Forall (fun e => not_dns (kind_of e) = true) tr ->
  count_calls is_dns (calls tr) = 0.
Proof.
  induction 1 as [|e tr He _ IH]; simpl; [reflexivity|].
  destruct e as [| |[] ?| |]; simpl in *; try assumption; discriminate.
Qed.

Lemma no_calls (tr : list Event) :
  Forall (fun e => not_call (kind_of e) = true) tr -> calls tr = [].
Proof.
  induction 1 as [|e tr He _ IH]; simpl; [reflexivity|].
  destruct e as [| |[] ?| |]; simpl in *; try assumption; discriminate.
Qed.

(** ** The DNS client *)

Lemma scanRecords_true (records : list DnsRecord) (ip : string) :
  technitium.scanRecords records ip = true <->
  exists r, In r records /\ Type_ r = "A" /\ IPAddress (rData r) = ip.
Proof.
  induction records as [|r rest IH]; simpl.
  - split; [discriminate | intros (r & [] & _)].
  - destruct (String.eqb (Type_ r) "A" && String.eqb (IPAddress (rData r)) ip)
      eqn:E.
    + apply andb_true_iff in E as [E1 E2].
      apply String.eqb_eq in E1, E2.
      split; [intros _; exists r; auto | reflexivity].
    + rewrite IH. split.
      * intros (x & Hin & Hx). exists x. auto.
      * intros (x & [->|Hin] & Ht & Hip); [|exists x; auto].
        apply String.eqb_eq in Ht, Hip. rewrite Ht, Hip in E. discriminate.
Qed.

Section ClientRuns.
Context {W : Type} (env : Env W).
Implicit Types (zone host ip : string) (w : W).

Lemma run_HasARecord_payload zone host ip w recs w1 :
  records_get env zone host w = (Payload recs, w1) ->
  run env (technitium.HasARecord zone host ip) w
  = ((technitium.scanRecords recs ip, None), w1,
     [ECall (CGet zone host) true; ELog LevelDebug "retrieved records"]).
Proof. intros H. simpl. rewrite H. reflexivity. Qed.

Lemma run_HasARecord_failed zone host ip w :
  (forall recs, (records_get env zone host w).1 <> Payload recs) ->
  exists e,
    run env (technitium.HasARecord zone host ip) w
    = ((false, Some e), (records_get env zone host w).2, [ECall (CGet zone host) false]).
Proof.
  intros H. simpl. destruct (records_get env zone host w) as [[e|e|recs] w1];
    simpl in *; eauto.
  destruct (H recs). reflexivity.
Qed.

Lemma run_EnsureARecord_present zone host ip ttl w recs w1 :
  records_get env zone host w = (Payload recs, w1) ->
  technitium.scanRecords recs ip = true ->
  run env (technitium.EnsureARecord zone host ip ttl) w
  = ((false, None), w1,
     [ECall (CGet zone host) true; ELog LevelDebug "retrieved records";
      ELog LevelDebug "A record already exists"]).
Proof. intros H Hs. simpl. rewrite H. simpl. rewrite Hs. reflexivity. Qed.

Lemma run_EnsureARecord_absent zone host ip ttl w recs w1 w2 :
  records_get env zone host w = (Payload recs, w1) ->
  technitium.scanRecords recs ip = false ->
  records_add env zone host ip ttl w1 = (None, w2) ->
  run env (technitium.EnsureARecord zone host ip ttl) w
  = ((true, None), w2,
     [ECall (CGet zone host) true; ELog LevelDebug "retrieved records";
      ECall (CAdd zone host ip ttl) true; ELog LevelInfo "added A record"]).
Proof.
  intros H Hs Ha. simpl. rewrite H. simpl. rewrite Hs. simpl. rewrite Ha.
  reflexivity.
Qed.

Lemma run_EnsureARecord_add_failed zone host ip ttl w recs w1 w2 e :
  records_get env zone host w = (Payload recs, w1) ->
  technitium.scanRecords recs ip = false ->
  records_add env zone host ip ttl w1 = (Some e, w2) ->
  run env (technitium.EnsureARecord zone host ip ttl) w
  = ((false, Some ("adding A record for " +:+ host +:+ ": " +:+ e)), w2,
     [ECall (CGet zone host) true; ELog LevelDebug "retrieved records";
      ECall (CAdd zone host ip ttl) false]).
Proof.
  intros H Hs Ha. simpl. rewrite H. simpl. rewrite Hs. simpl. rewrite Ha.
  reflexivity.
Qed.

(** Called right after it created the record, [EnsureARecord] finds it. *)
Lemma EnsureARecord_twice zone host ip ttl w :
  read_your_writes env ->
  value (run env (technitium.EnsureARecord zone host ip ttl) w) = (true, None) ->
  value (run env (technitium.EnsureARecord zone host ip ttl)
           (world (run env (technitium.EnsureARecord zone host ip ttl) w)))
  = (false, None)
  /\ calls (trace (run env (technitium.EnsureARecord zone host ip ttl)
             (world (run env (technitium.EnsureARecord zone host ip ttl) w))))
     = [CGet zone host].
Proof.
  intros Hlaw H1.
  destruct (records_get env zone host w) as [resp w1] eqn:Hget.
  destruct resp as [e|e|recs];
    try (simpl in H1; rewrite Hget in H1; simpl in H1; discriminate).
  destruct (technitium.scanRecords recs ip) eqn:Hs.
  { rewrite (run_EnsureARecord_present _ _ _ _ _ _ _ Hget Hs) in H1.
    discriminate. }
  destruct (records_add env zone host ip ttl w1) as [[e|] w2] eqn:Hadd.
  { rewrite (run_EnsureARecord_add_failed _ _ _ _ _ _ _ _ _ Hget Hs Hadd) in H1.
    discriminate. }
  rewrite (run_EnsureARecord_absent _ _ _ _ _ _ _ _ Hget Hs Hadd).
  cbv [world fst snd].
  destruct (Hlaw _ _ _ _ _ _ Hadd) as (recs' & w3 & Hget' & Hs').
  rewrite (run_EnsureARecord_present _ _ _ _ _ _ _ Hget' Hs').
  split; reflexivity.
Qed.

End ClientRuns.

(** C9 -- the existence check looks at the record type and the address
    only: when the gateway answers with a record of type "A" whose address
    is the target, whatever its [Disabled] flag (so also when it is
    disabled), [HasARecord] reports it, and [EnsureARecord] issues no create
    and reports the record as existing. *)
Theorem disabled_record_counts_as_present {W : Type} (env : Env W)
  (zone host ip : string) (ttl : Z) (w w1 : W) (recs : list DnsRecord)
  (r : DnsRecord) (d : bool) :
  records_get env zone host w = (Payload recs, w1) ->
  In r recs -> Type_ r = "A" -> IPAddress (rData r) = ip -> Disabled r = d ->
  value (run env (technitium.HasARecord zone host ip) w) = (true, None)
  /\ value (run env (technitium.EnsureARecord zone host ip ttl) w) = (false, None)
  /\ calls (trace (run env (technitium.EnsureARecord zone host ip ttl) w))
     = [CGet zone host]
  /\ count_calls is_create
       (calls (trace (run env (technitium.EnsureARecord zone host ip ttl) w))) = 0.
Proof.
  intros Hget Hin Ht Hip _.
  assert (Hs : technitium.scanRecords recs ip = true)
    by (apply scanRecords_true; exists r; auto).
  rewrite (run_HasARecord_payload env _ _ _ _ _ _ Hget), Hs.
  rewrite (run_EnsureARecord_present env _ _ _ _ _ _ _ Hget Hs).
  repeat split.
Qed.

Lemma disabled_record_counts_as_present_witness :
  value (run refEnv (technitium.HasARecord "example.com" "app.example.com" "10.0.0.1")
           disabledWorld) = (true, None)
  /\ value (run refEnv (technitium.EnsureARecord "example.com" "app.example.com"
                          "10.0.0.1" 300) disabledWorld) = (false, None)
  /\ calls (trace (run refEnv (technitium.EnsureARecord "example.com"
                                 "app.example.com" "10.0.0.1" 300) disabledWorld))
     = [CGet "example.com" "app.example.com"]
  /\ count_calls is_create
       (calls (trace (run refEnv (technitium.EnsureARecord "example.com"
                                    "app.example.com" "10.0.0.1" 300) disabledWorld)))
     = 0.
Proof.
  apply (disabled_record_counts_as_present refEnv "example.com" "app.example.com"
           "10.0.0.1" 300 disabledWorld disabledWorld [disabledRecord]
           disabledRecord true).
  - reflexivity.
  - simpl. auto.
  - reflexivity.
  - reflexivity.
  - reflexivity.
Defined.

(** ** [ensureRecord] *)

Section EnsureRecord.
Import config reconciler.
Context {W : Type} (env : Env W) (r : Reconciler).
Implicit Types (host : string) (res : ReconcileResult) (w : W).

Lemma run_ensureRecord_filtered wn host res w :
  MatchesFilters (cfg r) host = false ->
  run env (ensureRecord r wn host res) w
  = ((res, None), w, [ELog LevelDebug "hostname filtered out"]).
Proof. intros H. unfold ensureRecord. rewrite H. reflexivity. Qed.

Lemma run_ensureRecord_dry wn host res w :
  MatchesFilters (cfg r) host = true ->
  DryRun (cfg r) = true ->
  run env (ensureRecord r wn host res) w
  = ((incRecordsCreated (incHostnamesFiltered res), None), w,
     [ELog LevelInfo "DRY RUN: would ensure A record"]).
Proof. intros H Hd. unfold ensureRecord. rewrite H, Hd. reflexivity. Qed.

Lemma run_ensureRecord_live wn host res w :
  MatchesFilters (cfg r) host = true ->
  DryRun (cfg r) = false ->
  run env (ensureRecord r wn host res) w
  = let x := run env (technitium.EnsureARecord (TechnitiumZone (cfg r)) host
                        (TargetIP (cfg r)) (TTL (cfg r))) w in
    match (value x).2 with
    | Some err =>
        ((incHostnamesFiltered res, Some ("creating A record: " +:+ err)),
         world x, trace x)
    | None =>
        if (value x).1
        then ((incRecordsCreated (incHostnamesFiltered res), None), world x,
              trace x ++ [EMetric "RecordDNSRecordCreated" (TechnitiumZone (cfg r));
                          ELog LevelInfo "created A record"])
        else ((incRecordsExisted (incHostnamesFiltered res), None), world x,
              trace x ++ [EMetric "RecordDNSRecordExisted" (TechnitiumZone (cfg r));
                          ELog LevelDebug "A record already exists"])
    end.
Proof.
  intros H Hd. unfold ensureRecord. rewrite H, Hd. cbn [negb].
  rewrite run_bind. cbv zeta.
  destruct (value (run env (technitium.EnsureARecord (TechnitiumZone (cfg r)) host
                              (TargetIP (cfg r)) (TTL (cfg r))) w)) as [created [err|]];
    cbn [fst snd].
  - cbn [run]. unfold value, world, trace. cbn [fst snd]. rewrite app_nil_r.
    reflexivity.
  - destruct created; reflexivity.
Qed.

(** Whatever happens, [ensureRecord] only adds to the counters and leaves
    the error list and the other fields alone. *)
Lemma ensureRecord_errors wn host res w :
  Errors (value (run env (ensureRecord r wn host res) w)).1 = Errors res.
Proof.
  destruct (MatchesFilters (cfg r) host) eqn:H.
  2: { rewrite run_ensureRecord_filtered by assumption. reflexivity. }
  destruct (DryRun (cfg r)) eqn:Hd.
  { rewrite run_ensureRecord_dry by assumption. reflexivity. }
  rewrite run_ensureRecord_live by assumption. cbv zeta.
  destruct (run env (technitium.EnsureARecord _ _ _ _) w)
    as [[[created [err|]] w'] tr]; unfold value; cbn [fst snd]; [reflexivity|].
  destruct created; reflexivity.
Qed.

End EnsureRecord.

(** C1 (as amended) -- ensure-record outside dry-run mode, for a hostname
    that passes the filter and a gateway that answers the query and shows
    the pass its own creates.  When a record with the target address is
    already there, the call counts "already present" after the one query
    and creates nothing.  When none is there and the create succeeds, the
    first call counts "created" after one query and exactly one create, and
    a second call made right after it counts "already present" after one
    query and no create. *)
Theorem ensureRecord_twice {W : Type} (env : Env W) (r : reconciler.Reconciler)
  (wn host : string) (res : reconciler.ReconcileResult) (w w1 : W)
  (recs : list DnsRecord) :
  read_your_writes env ->
  config.MatchesFilters (reconciler.cfg r) host = true ->
  config.DryRun (reconciler.cfg r) = false ->
  records_get env (config.TechnitiumZone (reconciler.cfg r)) host w
    = (Payload recs, w1) ->
  let zone := config.TechnitiumZone (reconciler.cfg r) in
  let ip := config.TargetIP (reconciler.cfg r) in
  let ttl := config.TTL (reconciler.cfg r) in
  let first := run env (reconciler.ensureRecord r wn host res) w in
  let second :=
    run env (reconciler.ensureRecord r wn host (value first).1) (world first) in
  if technitium.scanRecords recs ip
  then value first
         = (reconciler.incRecordsExisted (reconciler.incHostnamesFiltered res), None)
       /\ calls (trace first) = [CGet zone host]
  else forall w2, records_add env zone host ip ttl w1 = (None, w2) ->
       value first
         = (reconciler.incRecordsCreated (reconciler.incHostnamesFiltered res), None)
       /\ calls (trace first) = [CGet zone host; CAdd zone host ip ttl]
       /\ value second
          = (reconciler.incRecordsExisted
               (reconciler.incHostnamesFiltered
                  (reconciler.incRecordsCreated (reconciler.incHostnamesFiltered res))),
             None)
       /\ calls (trace second) = [CGet zone host].
Proof.
  intros Hlaw Hf Hd Hget. cbv zeta.
  destruct (technitium.scanRecords recs (config.TargetIP (reconciler.cfg r)))
    eqn:Hs.
  - rewrite (run_ensureRecord_live env r _ _ _ _ Hf Hd). cbv zeta.
    rewrite (run_EnsureARecord_present env _ _ _ _ _ _ _ Hget Hs).
    split; reflexivity.
  - intros w2 Hadd.
    rewrite (run_ensureRecord_live env r _ _ _ _ Hf Hd). cbv zeta.
    rewrite (run_EnsureARecord_absent env _ _ _ _ _ _ _ _ Hget Hs Hadd).
    cbv [value world trace fst snd].
    destruct (Hlaw _ _ _ _ _ _ Hadd) as (recs' & w3 & Hget' & Hs').
    rewrite (run_ensureRecord_live env r _ _ _ _ Hf Hd). cbv zeta.
    rewrite (run_EnsureARecord_present env _ _ _ _ _ _ _ Hget' Hs').
    repeat split.
Qed.

Lemma refEnv_read_your_writes : read_your_writes refEnv.
Proof.
  intros zone host ip ttl w w' Hadd. simpl in *. unfold ref_add in Hadd.
  unfold ref_get. destruct (is_unreachable host w) eqn:Hu; [discriminate|].
  injection Hadd as <-.
  unfold is_unreachable in *. simpl. rewrite Hu.
  eexists _, _. split; [reflexivity|].
  apply scanRecords_true. exists (a_record host ip ttl).
  split; [|split; reflexivity].
  apply in_map_iff. exists (zone, a_record host ip ttl). split; [reflexivity|].
  apply filter_In. split.
  - apply in_or_app. right. left. reflexivity.
  - unfold at_name. simpl. rewrite !String.eqb_refl. reflexivity.
Qed.

Lemma ensureRecord_twice_witness :
  let r := sampleReconciler false in
  let first :=
    run refEnv (reconciler.ensureRecord r "web" "app.example.com"
                  reconciler.emptyResult) emptyWorld in
  let second :=
    run refEnv (reconciler.ensureRecord r "web" "app.example.com" (value first).1)
      (world first) in
  value first
    = (reconciler.incRecordsCreated
         (reconciler.incHostnamesFiltered reconciler.emptyResult), None)
  /\ calls (trace first)
     = [CGet "example.com" "app.example.com";
        CAdd "example.com" "app.example.com" "10.0.0.1" 300]
  /\ value second
     = (reconciler.incRecordsExisted
          (reconciler.incHostnamesFiltered
             (reconciler.incRecordsCreated
                (reconciler.incHostnamesFiltered reconciler.emptyResult))), None)
  /\ calls (trace second) = [CGet "example.com" "app.example.com"].
Proof.
  exact (ensureRecord_twice refEnv (sampleReconciler false) "web" "app.example.com"
           reconciler.emptyResult emptyWorld emptyWorld []
           refEnv_read_your_writes eq_refl eq_refl eq_refl
           (ref_add "example.com" "app.example.com" "10.0.0.1" 300 emptyWorld).2
           eq_refl).
Defined.

(** C1, as first stated, fails in two ways.  When the record is already
    there, the first call is "already present" and not "created"; and in
    dry-run mode both calls count as "created" while nothing is queried. *)
Lemma ensure_twice_counterexample :
  (value (run refEnv (technitium.EnsureARecord "example.com" "app.example.com"
                        "10.0.0.1" 300) presentWorld) = (false, None)
   /\ let first :=
        run refEnv (reconciler.ensureRecord (sampleReconciler false) "web"
                      "app.example.com" reconciler.emptyResult) presentWorld in
      reconciler.RecordsCreated (value first).1 = 0%Z
      /\ reconciler.RecordsExisted (value first).1 = 1%Z
      /\ calls (trace first) = [CGet "example.com" "app.example.com"])
  /\ (let r := sampleReconciler true in
      let first :=
        run refEnv (reconciler.ensureRecord r "web" "app.example.com"
                      reconciler.emptyResult) emptyWorld in
      let second :=
        run refEnv (reconciler.ensureRecord r "web" "app.example.com"
                      (value first).1) (world first) in
      reconciler.RecordsCreated (value first).1 = 1%Z
      /\ reconciler.RecordsCreated (value second).1 = 2%Z
      /\ reconciler.RecordsExisted (value second).1 = 0%Z
      /\ calls (trace first ++ trace second) = []).
Proof. repeat split. Qed.

(** ** The kinds of calls the reconciler makes *)

Ltac allops :=
  repeat match goal with
  | |- forall _, _ => intro
  | |- AllOps _ (bind _ _) => apply AllOps_bind
  | |- AllOps _ (match ?x with _ => _ end) => destruct x eqn:?
  | |- AllOps _ _ => constructor
  | H : ?a = false -> _ |- _ =>
      match goal with E : a = false |- _ => specialize (H E); destruct H end
  end; auto.

Section Kinds.
Import config reconciler.
Context (P : OpKind -> bool) (r : Reconciler).
Hypothesis PLog : P KLog = true.
Hypothesis PMetric : P KMetric = true.

Lemma AllOps_HasARecord zone host ip :
  P KGet = true -> AllOps P (technitium.HasARecord zone host ip).
Proof. intros. unfold technitium.HasARecord, technitium.GetRecords. allops. Qed.

Lemma AllOps_EnsureARecord zone host ip ttl :
  P KGet = true -> P KAdd = true ->
  AllOps P (technitium.EnsureARecord zone host ip ttl).
Proof.
  intros. unfold technitium.EnsureARecord. apply AllOps_bind.
  - apply AllOps_HasARecord; assumption.
  - unfold technitium.AddARecord. allops.
Qed.

Lemma AllOps_ensureRecord wn host res :
  (DryRun (cfg r) = false -> P KGet = true /\ P KAdd = true) ->
  AllOps P (ensureRecord r wn host res).
Proof.
  intros Hlive. unfold ensureRecord.
  destruct (negb (MatchesFilters (cfg r) host)); [allops|].
  destruct (DryRun (cfg r)); [allops|].
  destruct Hlive as [HG HA]; [reflexivity|].
  apply AllOps_bind; [apply AllOps_EnsureARecord; assumption|]. allops.
Qed.

Lemma AllOps_ensureHosts wn hosts res :
  (DryRun (cfg r) = false -> P KGet = true /\ P KAdd = true) ->
  AllOps P (ensureHosts r wn hosts res).
Proof.
  intros Hlive. revert res. induction hosts as [|h rest IH]; intros res; simpl.
  - constructor.
  - apply AllOps_bind; [apply AllOps_ensureRecord; assumption|].
    intros [res' [e|]]; simpl; [constructor | apply IH].
Qed.

Lemma AllOps_processWorkload workload res :
  (DryRun (cfg r) = false -> P KGet = true /\ P KAdd = true) ->
  AllOps P (processWorkload r workload res).
Proof.
  intros Hlive. unfold processWorkload.
  destruct (Nat.eqb _ 0); constructor; auto; [constructor|].
  apply AllOps_ensureHosts; assumption.
Qed.

Lemma AllOps_processWorkloads workloads res :
  (DryRun (cfg r) = false -> P KGet = true /\ P KAdd = true) ->
  AllOps P (processWorkloads r workloads res).
Proof.
  intros Hlive. revert res.
  induction workloads as [|wl rest IH]; intros res; simpl.
  - constructor.
  - apply AllOps_bind; [apply AllOps_processWorkload; assumption|].
    intros [res' [e|]]; simpl; [constructor; auto | apply IH].
Qed.

Lemma AllOps_ensureHostnames wn hostnames res :
  (DryRun (cfg r) = false -> P KGet = true /\ P KAdd = true) ->
  AllOps P (ensureHostnames r wn hostnames res).
Proof.
  intros Hlive. revert res.
  induction hostnames as [|h rest IH]; intros res; simpl.
  - constructor.
  - apply AllOps_bind; [apply AllOps_ensureRecord; assumption|].
    intros [res' [e|]]; simpl; [constructor; auto | apply IH].
Qed.

Lemma AllOps_deleteLoop wn hostnames deleted :
  (DryRun (cfg r) = false -> P KGet = true /\ P KDelete = true) ->
  AllOps P (deleteLoop r wn hostnames deleted).
Proof.
  intros Hlive. revert deleted.
  induction hostnames as [|h rest IH]; intros deleted; cbn [deleteLoop].
  - constructor.
  - destruct (negb (MatchesFilters (cfg r) h)); [apply IH|].
    destruct (DryRun (cfg r)); [constructor; auto|].
    destruct Hlive as [HG HD]; [reflexivity|].
    apply AllOps_bind; [apply AllOps_HasARecord; assumption|].
    intros [found [e|]]; cbn [fst snd]; [constructor; auto|].
    destruct found; cbn [negb]; [|constructor; auto].
    apply AllOps_bind; [unfold technitium.DeleteARecord; allops|].
    intros [e|]; repeat (constructor; auto).
Qed.

(** The bodies of the three entry points, between [Lock] and [Unlock]. *)
Lemma AllOps_with_mutex {A : Type} (body : Prog A) :
  P KLock = true -> P KUnlock = true -> AllOps P body ->
  AllOps P (with_mutex body).
Proof.
  intros HL HU Hb. unfold with_mutex. constructor; [assumption|].
  apply AllOps_bind; [assumption|]. intros a. constructor; [assumption|constructor].
Qed.

End Kinds.

(** ** Dry-run mode *)

Lemma bump_bump a b c d a' b' c' d' res :
  bump a b c d (bump a' b' c' d' res) = bump (a' + a) (b' + b) (c' + c) (d' + d) res.
Proof. unfold bump; simpl. f_equal; lia. Qed.

Lemma bump_zero res : bump 0 0 0 0 res = res.
Proof. destruct res. unfold bump; simpl. f_equal; lia. Qed.

Lemma addHostnamesFound_bump n res :
  reconciler.addHostnamesFound n res = bump n 0 0 0 res.
Proof.
  destruct res. unfold bump, reconciler.addHostnamesFound; simpl. f_equal; lia.
Qed.

Lemma incHostnamesFiltered_bump res :
  reconciler.incHostnamesFiltered res = bump 0 1 0 0 res.
Proof.
  destruct res. unfold bump, reconciler.incHostnamesFiltered; simpl. f_equal; lia.
Qed.

Lemma incRecordsCreated_bump res :
  reconciler.incRecordsCreated res = bump 0 0 1 0 res.
Proof.
  destruct res. unfold bump, reconciler.incRecordsCreated; simpl. f_equal; lia.
Qed.

Lemma incRecordsExisted_bump res :
  reconciler.incRecordsExisted res = bump 0 0 0 1 res.
Proof.
  destruct res. unfold bump, reconciler.incRecordsExisted; simpl. f_equal; lia.
Qed.

Lemma passed_cons c h hs :
  passed c (h :: hs) = ((if config.MatchesFilters c h then 1 else 0) + passed c hs)%Z.
Proof.
  unfold passed, passing. simpl. destruct (config.MatchesFilters c h); simpl; lia.
Qed.

Lemma passed_app c hs1 hs2 : passed c (hs1 ++ hs2) = (passed c hs1 + passed c hs2)%Z.
Proof.
  unfold passed, passing. rewrite List.filter_app, length_app. lia.
Qed.

Section DryRun.
Import config reconciler.
Context {W : Type} (env : Env W) (r : Reconciler).
Hypothesis Hdry : DryRun (cfg r) = true.

Lemma run_ensureRecord_dry_any wn host res w :
  value (run env (ensureRecord r wn host res) w)
  = (bump 0 (passed (cfg r) [host]) (passed (cfg r) [host]) 0 res, None)
  /\ world (run env (ensureRecord r wn host res) w) = w.
Proof.
  rewrite passed_cons. destruct (MatchesFilters (cfg r) host) eqn:Hf.
  - rewrite run_ensureRecord_dry by assumption. split; [|reflexivity].
    unfold value; simpl. f_equal.
    rewrite incRecordsCreated_bump, incHostnamesFiltered_bump, bump_bump.
    reflexivity.
  - rewrite run_ensureRecord_filtered by assumption. split; [|reflexivity].
    unfold value, passed; simpl. rewrite bump_zero. reflexivity.
Qed.

Lemma ensureHosts_dry wn hosts res w :
  value (run env (ensureHosts r wn hosts res) w)
  = (bump 0 (passed (cfg r) hosts) (passed (cfg r) hosts) 0 res, None)
  /\ world (run env (ensureHosts r wn hosts res) w) = w.
Proof.
  revert res w. induction hosts as [|h rest IH]; intros res w.
  - split; [|reflexivity]. unfold passed; simpl. rewrite bump_zero. reflexivity.
  - cbn [ensureHosts]. rewrite value_bind, world_bind.
    destruct (run_ensureRecord_dry_any wn h res w) as [-> ->]. cbn [fst snd].
    destruct (IH (bump 0 (passed (cfg r) [h]) (passed (cfg r) [h]) 0 res) w)
      as [-> ->].
    split; [|reflexivity]. rewrite bump_bump.
    change (h :: rest) with ([h] ++ rest). rewrite passed_app. reflexivity.
Qed.

Lemma ensureHostnames_dry wn hostnames res w :
  value (run env (ensureHostnames r wn hostnames res) w)
  = bump 0 (passed (cfg r) hostnames) (passed (cfg r) hostnames) 0 res
  /\ world (run env (ensureHostnames r wn hostnames res) w) = w.
Proof.
  revert res w. induction hostnames as [|h rest IH]; intros res w.
  - split; [|reflexivity]. unfold passed; simpl. rewrite bump_zero. reflexivity.
  - cbn [ensureHostnames]. rewrite value_bind, world_bind.
    destruct (run_ensureRecord_dry_any wn h res w) as [-> ->]. cbn [fst snd].
    destruct (IH (bump 0 (passed (cfg r) [h]) (passed (cfg r) [h]) 0 res) w)
      as [-> ->].
    split; [|reflexivity]. rewrite bump_bump.
    change (h :: rest) with ([h] ++ rest). rewrite passed_app. reflexivity.
Qed.

Lemma processWorkload_dry wl res w :
  let hosts := ExtractHosts (parser r) (Labels wl) in
  value (run env (processWorkload r wl res) w)
  = (bump (Z.of_nat (length hosts)) (passed (cfg r) hosts) (passed (cfg r) hosts) 0
       res, None)
  /\ world (run env (processWorkload r wl res) w) = w.
Proof.
  cbv zeta. unfold processWorkload.
  destruct (ExtractHosts (parser r) (Labels wl)) as [|h hs] eqn:Hx.
  - split; [|reflexivity]. unfold passed; simpl. rewrite bump_zero. reflexivity.
  - cbn [length Nat.eqb]. cbn [run]. rewrite value_emit, world_emit.
    destruct (ensureHosts_dry (WName wl) (h :: hs)
                (addHostnamesFound (Z.of_nat (S (length hs))) res) w) as [-> ->].
    split; [|reflexivity]. f_equal.
    rewrite addHostnamesFound_bump, bump_bump. reflexivity.
Qed.

Lemma processWorkloads_dry workloads res w :
  let hosts := foundHosts r workloads in
  value (run env (processWorkloads r workloads res) w)
  = bump (Z.of_nat (length hosts)) (passed (cfg r) hosts) (passed (cfg r) hosts) 0 res
  /\ world (run env (processWorkloads r workloads res) w) = w.
Proof.
  cbv zeta. revert res w. induction workloads as [|wl rest IH]; intros res w.
  - split; [|reflexivity]. unfold passed; simpl. rewrite bump_zero. reflexivity.
  - cbn [processWorkloads]. rewrite value_bind, world_bind.
    destruct (processWorkload_dry wl res w) as [-> ->]. cbn [fst snd].
    match goal with |- context [processWorkloads r rest ?x] =>
      destruct (IH x w) as [-> ->] end.
    split; [|reflexivity]. rewrite bump_bump.
    unfold foundHosts. cbn [map concat]. fold (foundHosts r rest).
    rewrite passed_app, length_app, Nat2Z.inj_add. reflexivity.
Qed.

Lemma deleteLoop_dry wn hostnames deleted w :
  value (run env (deleteLoop r wn hostnames deleted) w)
  = (deleted + passed (cfg r) hostnames)%Z
  /\ world (run env (deleteLoop r wn hostnames deleted) w) = w.
Proof.
  revert deleted w. induction hostnames as [|h rest IH]; intros deleted w.
  - split; [|reflexivity]. unfold passed, value; simpl. lia.
  - cbn [deleteLoop]. rewrite passed_cons.
    destruct (MatchesFilters (cfg r) h); cbn [negb].
    + rewrite Hdry. cbn [run]. rewrite value_emit, world_emit.
      destruct (IH (deleted + 1)%Z w) as [-> ->]. split; [lia|reflexivity].
    + destruct (IH deleted w) as [-> ->]. split; [lia|reflexivity].
Qed.

End DryRun.

(** ** The three entry points *)

Section EntryPoints.
Import config reconciler.
Context (P : OpKind -> bool) (r : Reconciler).
Hypothesis PLog : P KLog = true.
Hypothesis PMetric : P KMetric = true.
Hypothesis PNow : P KNow = true.
Hypothesis PList : P KList = true.

Lemma Reconcile_body :
  (DryRun (cfg r) = false -> P KGet = true /\ P KAdd = true) ->
  exists body, Reconcile r = with_mutex body /\ AllOps P body.
Proof.
  intros Hlive. eexists. split; [reflexivity|].
  constructor; [assumption|]. intros start. constructor; [assumption|].
  constructor; [assumption|]. intros [workloads|e]; [|constructor].
  constructor; [assumption|]. apply AllOps_bind.
  - apply AllOps_processWorkloads; assumption.
  - intros res. repeat (constructor; auto; try intro).
Qed.

Lemma ReconcileHostnames_body wn hostnames :
  (DryRun (cfg r) = false -> P KGet = true /\ P KAdd = true) ->
  exists body, ReconcileHostnames r wn hostnames = with_mutex body /\ AllOps P body.
Proof.
  intros Hlive. eexists. split; [reflexivity|].
  constructor; [assumption|]. intros start. constructor; [assumption|].
  apply AllOps_bind.
  - apply AllOps_ensureHostnames; assumption.
  - intros res. repeat (constructor; auto; try intro).
Qed.

Lemma DeleteHostnames_body wn hostnames :
  (DryRun (cfg r) = false -> P KGet = true /\ P KDelete = true) ->
  exists body, DeleteHostnames r wn hostnames = with_mutex body /\ AllOps P body.
Proof.
  intros Hlive. eexists. split; [reflexivity|].
  constructor; [assumption|]. apply AllOps_bind.
  - apply AllOps_deleteLoop; assumption.
  - intros res. constructor.
Qed.

Hypothesis PLock : P KLock = true.
Hypothesis PUnlock : P KUnlock = true.

Lemma AllOps_Reconcile :
  (DryRun (cfg r) = false -> P KGet = true /\ P KAdd = true) ->
  AllOps P (Reconcile r).
Proof.
  intros Hlive. destruct (Reconcile_body Hlive) as (body & -> & Hb).
  apply AllOps_with_mutex; assumption.
Qed.

Lemma AllOps_ReconcileHostnames wn hostnames :
  (DryRun (cfg r) = false -> P KGet = true /\ P KAdd = true) ->
  AllOps P (ReconcileHostnames r wn hostnames).
Proof.
  intros Hlive.
  destruct (ReconcileHostnames_body wn hostnames Hlive) as (body & -> & Hb).
  apply AllOps_with_mutex; assumption.
Qed.

Lemma AllOps_DeleteHostnames wn hostnames :
  (DryRun (cfg r) = false -> P KGet = true /\ P KDelete = true) ->
  AllOps P (DeleteHostnames r wn hostnames).
Proof.
  intros Hlive.
  destruct (DeleteHostnames_body wn hostnames Hlive) as (body & -> & Hb).
  apply AllOps_with_mutex; assumption.
Qed.

End EntryPoints.

Section EntryRuns.
Import config reconciler.
Context {W : Type} (env : Env W) (r : Reconciler).

Lemma run_with_mutex {A : Type} (body : Prog A) (w : W) :
  run env (with_mutex body) w
  = (value (run env body w), world (run env body w),
     ELock :: trace (run env body w) ++ [EUnlock]).
Proof.
  unfold with_mutex. cbn [run]. rewrite run_bind. reflexivity.
Qed.

Lemma value_Reconcile_failed w e w' :
  docker_list env (clock env w).2 = (Err e, w') ->
  run env (Reconcile r) w
  = ((None, Some ("listing workloads: " +:+ e)), w',
     [ELock; ELog LevelInfo "starting reconciliation"; ECall CList false; EUnlock]).
Proof.
  intros H. unfold Reconcile. rewrite run_with_mutex. cbn [run]. rewrite H.
  reflexivity.
Qed.

Lemma value_Reconcile_listed w workloads w' :
  docker_list env (clock env w).2 = (Ok workloads, w') ->
  value (run env (Reconcile r) w)
  = (Some (setDuration
             ((clock env (world (run env (processWorkloads r workloads
                 (setWorkloadsScanned (Z.of_nat (length workloads)) emptyResult)) w'))).1
              - (clock env w).1)
             (value (run env (processWorkloads r workloads
                (setWorkloadsScanned (Z.of_nat (length workloads)) emptyResult)) w'))),
     None).
Proof.
  intros H. unfold Reconcile. rewrite run_with_mutex. unfold value at 1.
  cbn [fst snd]. cbn [run]. rewrite H. cbn [fst snd run].
  rewrite !value_emit, value_bind. cbn [run]. rewrite !value_emit.
  reflexivity.
Qed.

Lemma value_ReconcileHostnames wn hostnames w :
  value (run env (ReconcileHostnames r wn hostnames) w)
  = (Some (setDuration
             ((clock env (world (run env (ensureHostnames r wn hostnames
                 (addHostnamesFound (Z.of_nat (length hostnames)) emptyResult))
                 (clock env w).2))).1 - (clock env w).1)
             (value (run env (ensureHostnames r wn hostnames
                (addHostnamesFound (Z.of_nat (length hostnames)) emptyResult))
                (clock env w).2))),
     None).
Proof.
  unfold ReconcileHostnames. rewrite run_with_mutex. unfold value at 1.
  cbn [fst snd]. cbn [run]. rewrite !value_emit. rewrite value_bind. reflexivity.
Qed.

Lemma value_DeleteHostnames wn hostnames w :
  value (run env (DeleteHostnames r wn hostnames) w)
  = (value (run env (deleteLoop r wn hostnames 0) w), None).
Proof.
  unfold DeleteHostnames. rewrite run_with_mutex. unfold value at 1.
  cbn [fst snd]. cbn [run]. rewrite !value_emit. rewrite value_bind. reflexivity.
Qed.

End EntryRuns.

Section DryEntryPoints.
Import config reconciler.
Context {W : Type} (env : Env W) (r : Reconciler).
Hypothesis Hdry : DryRun (cfg r) = true.

Lemma dry_live (P : OpKind -> bool) (k1 k2 : OpKind) :
  DryRun (cfg r) = false -> P k1 = true /\ P k2 = true.
Proof. intros E. rewrite Hdry in E. discriminate. Qed.

Lemma dry_run_no_dns :
  AllOps not_dns (Reconcile r)
  /\ forall wn hs,
       AllOps not_dns (ReconcileHostnames r wn hs)
       /\ AllOps not_dns (DeleteHostnames r wn hs).
Proof.
  split; [apply AllOps_Reconcile; auto using dry_live|].
  intros wn hs. split;
    [apply AllOps_ReconcileHostnames | apply AllOps_DeleteHostnames];
    auto using dry_live.
Qed.

Lemma dry_run_partial_calls w wn hs :
  calls (trace (run env (ReconcileHostnames r wn hs) w)) = []
  /\ calls (trace (run env (DeleteHostnames r wn hs) w)) = [].
Proof.
  split.
  - destruct (ReconcileHostnames_body not_call r eq_refl eq_refl eq_refl wn hs
                (dry_live not_call _ _)) as (body & -> & Hb).
    rewrite run_with_mutex. unfold trace at 1. cbn [snd]. cbn [calls].
    rewrite calls_app. rewrite (no_calls _ (AllOps_run env _ _ Hb w)).
    reflexivity.
  - destruct (DeleteHostnames_body not_call r eq_refl eq_refl wn hs
                (dry_live not_call _ _)) as (body & -> & Hb).
    rewrite run_with_mutex. unfold trace at 1. cbn [snd]. cbn [calls].
    rewrite calls_app. rewrite (no_calls _ (AllOps_run env _ _ Hb w)).
    reflexivity.
Qed.

Lemma dry_run_delete_value wn hs w :
  value (run env (DeleteHostnames r wn hs) w) = (passed (cfg r) hs, None)
  /\ world (run env (DeleteHostnames r wn hs) w) = w.
Proof.
  split.
  - rewrite value_DeleteHostnames.
    destruct (deleteLoop_dry env r Hdry wn hs 0%Z w) as [-> _]. reflexivity.
  - unfold DeleteHostnames. rewrite run_with_mutex.
    unfold world at 1. cbn [fst snd]. cbn [run]. rewrite world_emit, world_bind.
    destruct (deleteLoop_dry env r Hdry wn hs 0%Z w) as [_ ->]. reflexivity.
Qed.

End DryEntryPoints.

(** C4 -- with dry-run enabled, none of the three entry points can issue a
    query, a create or a delete against the DNS gateway, whatever its
    collaborators answer; [ensureRecord] still adds one to [RecordsCreated]
    for a hostname that passes the filter, so that a partial or a full pass
    reports as created every hostname that passed; and [DeleteHostnames]
    still returns the number of hostnames that passed. *)
Theorem dry_run_frame {W : Type} (env : Env W) (r : reconciler.Reconciler) :
  config.DryRun (reconciler.cfg r) = true ->
  (AllOps not_dns (reconciler.Reconcile r)
   /\ forall wn hs,
        AllOps not_dns (reconciler.ReconcileHostnames r wn hs)
        /\ AllOps not_dns (reconciler.DeleteHostnames r wn hs))
  /\ (forall w wn hs,
        count_calls is_dns (calls (trace (run env (reconciler.Reconcile r) w))) = 0
        /\ calls (trace (run env (reconciler.ReconcileHostnames r wn hs) w)) = []
        /\ calls (trace (run env (reconciler.DeleteHostnames r wn hs) w)) = [])
  /\ (forall wn h res w,
        config.MatchesFilters (reconciler.cfg r) h = true ->
        reconciler.RecordsCreated
          (value (run env (reconciler.ensureRecord r wn h res) w)).1
        = (reconciler.RecordsCreated res + 1)%Z)
  /\ (forall wn hs w, exists res,
        value (run env (reconciler.ReconcileHostnames r wn hs) w) = (Some res, None)
        /\ reconciler.RecordsCreated res = passed (reconciler.cfg r) hs)
  /\ (forall w workloads w',
        docker_list env (clock env w).2 = (Ok workloads, w') ->
        exists res,
          value (run env (reconciler.Reconcile r) w) = (Some res, None)
          /\ reconciler.RecordsCreated res
             = passed (reconciler.cfg r) (foundHosts r workloads))
  /\ (forall wn hs w,
        value (run env (reconciler.DeleteHostnames r wn hs) w)
        = (passed (reconciler.cfg r) hs, None)).
Proof.
  intros Hdry.
  split; [|split; [|split; [|split; [|split]]]].
  - apply dry_run_no_dns; assumption.
  - intros w wn hs. split.
    + apply no_dns_calls, AllOps_run, (dry_run_no_dns r Hdry).
    + apply dry_run_partial_calls; assumption.
  - intros wn h res w Hf. rewrite run_ensureRecord_dry by assumption.
    reflexivity.
  - intros wn hs w. eexists. rewrite value_ReconcileHostnames.
    split; [reflexivity|].
    destruct (ensureHostnames_dry env r Hdry wn hs
                (reconciler.addHostnamesFound (Z.of_nat (length hs))
                   reconciler.emptyResult) (clock env w).2) as [-> _].
    simpl. reflexivity.
  - intros w workloads w' Hlist. eexists.
    rewrite (value_Reconcile_listed env r _ _ _ Hlist). split; [reflexivity|].
    destruct (processWorkloads_dry env r Hdry workloads
                (reconciler.setWorkloadsScanned (Z.of_nat (length workloads))
                   reconciler.emptyResult) w') as [-> _].
    simpl. reflexivity.
  - intros wn hs w. apply dry_run_delete_value; assumption.
Qed.

Lemma dry_run_frame_witness :
  value (run refEnv
           (reconciler.DeleteHostnames (sampleReconciler true) "web"
              ["app.example.com"; "test.example.com"; "api.example.com"])
           presentWorld) = (2%Z, None)
  /\ calls (trace (run refEnv
                     (reconciler.DeleteHostnames (sampleReconciler true) "web"
                        ["app.example.com"; "test.example.com"; "api.example.com"])
                     presentWorld)) = []
  /\ calls (trace (run refEnv
                     (reconciler.ReconcileHostnames (sampleReconciler true) "web"
                        ["app.example.com"; "test.example.com"; "api.example.com"])
                     presentWorld)) = [].
Proof.
  destruct (dry_run_frame refEnv (sampleReconciler true) eq_refl)
    as (_ & Hcalls & _ & _ & _ & Hdel).
  split; [|split].
  - exact (Hdel "web" ["app.example.com"; "test.example.com"; "api.example.com"]
             presentWorld).
  - apply (Hcalls presentWorld "web").
  - apply (Hcalls presentWorld "web").
Defined.

(** C10 -- in dry-run mode [DeleteHostnames] asks the gateway nothing, not
    even whether the record exists, leaves the world as it was, and returns
    the number of entries of its input that pass the filter, repetitions
    and names without a record included. *)
Theorem dry_run_delete_counts {W : Type} (env : Env W) (r : reconciler.Reconciler)
  (wn : string) (hostnames : list string) (w : W) :
  config.DryRun (reconciler.cfg r) = true ->
  value (run env (reconciler.DeleteHostnames r wn hostnames) w)
    = (Z.of_nat (length (passing (reconciler.cfg r) hostnames)), None)
  /\ calls (trace (run env (reconciler.DeleteHostnames r wn hostnames) w)) = []
  /\ world (run env (reconciler.DeleteHostnames r wn hostnames) w) = w
  /\ AllOps not_dns (reconciler.DeleteHostnames r wn hostnames).
Proof.
  intros Hdry.
  destruct (dry_run_delete_value env r Hdry wn hostnames w) as [Hv Hw].
  split; [exact Hv|]. split; [apply dry_run_partial_calls; assumption|].
  split; [exact Hw|]. apply (dry_run_no_dns r Hdry).
Qed.

Lemma dry_run_delete_counts_witness :
  value (run refEnv
           (reconciler.DeleteHostnames (sampleReconciler true) "web"
              ["app.example.com"; "app.example.com"; "gone.example.com"])
           emptyWorld) = (3%Z, None)
  /\ zoneRecords emptyWorld = []
  /\ calls (trace (run refEnv
                     (reconciler.DeleteHostnames (sampleReconciler true) "web"
                        ["app.example.com"; "app.example.com"; "gone.example.com"])
                     emptyWorld)) = [].
Proof.
  destruct (dry_run_delete_counts refEnv (sampleReconciler true) "web"
              ["app.example.com"; "app.example.com"; "gone.example.com"]
              emptyWorld eq_refl) as (Hv & Hc & _).
  split; [exact Hv|]. split; [reflexivity | exact Hc].
Defined.

(** ** [DeleteHostnames] outside dry-run mode *)

Section DeleteLoop.
Import config reconciler.
Context {W : Type} (env : Env W) (r : Reconciler).
Abbreviation zone := (TechnitiumZone (cfg r)).
Abbreviation ip := (TargetIP (cfg r)).

(** One turn of the loop, whatever the mode. *)
Lemma run_deleteLoop_cons wn h rest d w :
  run env (deleteLoop r wn (h :: rest) d) w
  = if negb (MatchesFilters (cfg r) h)
    then run env (deleteLoop r wn rest d) w
    else if DryRun (cfg r)
    then after [ELog LevelInfo "DRY RUN: would delete A record"]
           (run env (deleteLoop r wn rest (d + 1)) w)
    else
      match records_get env zone h w with
      | (Payload recs, w1) =>
          if technitium.scanRecords recs ip
          then
            match records_delete env zone h ip w1 with
            | (None, w2) =>
                after [ECall (CGet zone h) true; ELog LevelDebug "retrieved records";
                       ECall (CDelete zone h ip) true; ELog LevelInfo "deleted A record";
                       EMetric "RecordDNSRecordDeleted" zone;
                       ELog LevelInfo "deleted A record"]
                  (run env (deleteLoop r wn rest (d + 1)) w2)
            | (Some e, w2) =>
                after [ECall (CGet zone h) true; ELog LevelDebug "retrieved records";
                       ECall (CDelete zone h ip) false;
                       ELog LevelError "failed to delete A record"]
                  (run env (deleteLoop r wn rest d) w2)
            end
          else
            after [ECall (CGet zone h) true; ELog LevelDebug "retrieved records";
                   ELog LevelDebug "A record does not exist, skipping delete"]
              (run env (deleteLoop r wn rest d) w1)
      | (_, w1) =>
          after [ECall (CGet zone h) false;
                 ELog LevelError "failed to check record existence"]
            (run env (deleteLoop r wn rest d) w1)
      end.
Proof.
  cbn [deleteLoop].
  destruct (negb (MatchesFilters (cfg r) h)); [reflexivity|].
  destruct (DryRun (cfg r)); [reflexivity|].
  rewrite run_bind.
  destruct (records_get env zone h w) as [[e|e|recs] w1] eqn:Hget.
  - cbn [run technitium.HasARecord technitium.GetRecords bind].
    rewrite Hget. reflexivity.
  - cbn [run technitium.HasARecord technitium.GetRecords bind].
    rewrite Hget. reflexivity.
  - rewrite (run_HasARecord_payload env _ _ _ _ _ _ Hget).
    cbv [value world trace fst snd].
    destruct (technitium.scanRecords recs ip); cbn [negb]; [|reflexivity].
    rewrite run_bind.
    cbn [run technitium.DeleteARecord].
    destruct (records_delete env zone h ip w1) as [[e|] w2]; reflexivity.
Qed.

End DeleteLoop.

Lemma performed_app (t1 t2 : list Event) :
  performed (t1 ++ t2) = performed t1 ++ performed t2.
Proof.
  induction t1 as [|e t1 IH]; simpl; [reflexivity|].
  destruct e as [| |c []| |]; simpl; rewrite ?IH; reflexivity.
Qed.

Lemma failed_app (t1 t2 : list Event) : failed (t1 ++ t2) = failed t1 ++ failed t2.
Proof.
  induction t1 as [|e t1 IH]; simpl; [reflexivity|].
  destruct e as [| |c []| |]; simpl; rewrite ?IH; reflexivity.
Qed.

Lemma logged_app (lvl : Level) (t1 t2 : list Event) :
  logged lvl (t1 ++ t2) = logged lvl t1 ++ logged lvl t2.
Proof.
  induction t1 as [|e t1 IH]; simpl; [reflexivity|].
  destruct e as [| |c ?|l ?|]; simpl; rewrite ?IH; try reflexivity.
  destruct l, lvl; simpl; rewrite ?IH; reflexivity.
Qed.

Lemma value_after {A W : Type} tr (x : A * W * list Event) :
  value (after tr x) = value x.
Proof. reflexivity. Qed.

Lemma world_after {A W : Type} tr (x : A * W * list Event) :
  world (after tr x) = world x.
Proof. reflexivity. Qed.

Lemma trace_after {A W : Type} tr (x : A * W * list Event) :
  trace (after tr x) = tr ++ trace x.
Proof. reflexivity. Qed.

Lemma after_after {A W : Type} t1 t2 (x : A * W * list Event) :
  after t1 (after t2 x) = after (t1 ++ t2) x.
Proof. unfold after. simpl. rewrite app_assoc. reflexivity. Qed.

Lemma after_nil {A W : Type} (x : A * W * list Event) : after [] x = x.
Proof. destruct x as [[a w] tr]. reflexivity. Qed.

Lemma answers_app (t1 t2 : list Event) : answers (t1 ++ t2) = answers t1 ++ answers t2.
Proof.
  induction t1 as [|e t1 IH]; simpl; [reflexivity|].
  destruct e; simpl; rewrite ?IH; reflexivity.
Qed.

Lemma deletes_checked_get z h ok cs :
  deletes_checked cs = true -> deletes_checked ((CGet z h, ok) :: cs) = true.
Proof. destruct ok, cs as [|[[] ?] cs]; simpl; auto; discriminate. Qed.

Lemma deletes_checked_get_delete z h ip ok cs :
  deletes_checked ((CGet z h, true) :: (CDelete z h ip, ok) :: cs)
  = deletes_checked cs.
Proof. simpl. rewrite !String.eqb_refl. reflexivity. Qed.

Lemma about_mono (n1 n2 : list string) (cs : list Call) :
  (forall h, In h n1 -> In h n2) -> Forall (about n1) cs -> Forall (about n2) cs.
Proof.
  intros Hsub HF. eapply Forall_impl; [exact HF|].
  intros c (h & Hc & Hin). exists h. auto.
Qed.

Section DeleteFacts.
Import config reconciler.
Context {W : Type} (env : Env W) (r : Reconciler).
Abbreviation dzone := (TechnitiumZone (cfg r)).
Abbreviation dip := (TargetIP (cfg r)).

(** A failure does not end the loop: the names after it are handled from
    the count and the world the names before them left. *)
Lemma deleteLoop_app wn hs1 hs2 d w :
  run env (deleteLoop r wn (hs1 ++ hs2) d) w
  = after (trace (run env (deleteLoop r wn hs1 d) w))
      (run env (deleteLoop r wn hs2 (value (run env (deleteLoop r wn hs1 d) w)))
         (world (run env (deleteLoop r wn hs1 d) w))).
Proof.
  revert d w. induction hs1 as [|h rest IH]; intros d w.
  - simpl. cbv [value world trace fst snd]. rewrite after_nil. reflexivity.
  - rewrite <- app_comm_cons. rewrite !run_deleteLoop_cons.
    destruct (negb (MatchesFilters (cfg r) h)); [apply IH|].
    destruct (DryRun (cfg r)).
    { rewrite IH, value_after, world_after, trace_after, after_after.
      reflexivity. }
    destruct (records_get env dzone h w) as [[e|e|recs] w1].
    + rewrite IH, value_after, world_after, trace_after, after_after.
      reflexivity.
    + rewrite IH, value_after, world_after, trace_after, after_after.
      reflexivity.
    + destruct (technitium.scanRecords recs dip).
      * destruct (records_delete env dzone h dip w1) as [[e|] w2];
          rewrite IH, value_after, world_after, trace_after, after_after;
          reflexivity.
      * rewrite IH, value_after, world_after, trace_after, after_after.
        reflexivity.
Qed.

Lemma passing_cons_incl h rest x :
  In x (passing (cfg r) rest) -> In x (passing (cfg r) (h :: rest)).
Proof.
  unfold passing. simpl. destruct (MatchesFilters (cfg r) h); simpl; auto.
Qed.

Lemma deleteLoop_trace wn hs d w :
  deletes_checked (answers (trace (run env (deleteLoop r wn hs d) w))) = true
  /\ Forall (about (passing (cfg r) hs))
       (calls (trace (run env (deleteLoop r wn hs d) w)))
  /\ length (logged LevelError (trace (run env (deleteLoop r wn hs d) w)))
     = length (failed (trace (run env (deleteLoop r wn hs d) w))).
Proof.
  revert d w. induction hs as [|h rest IH]; intros d w.
  - simpl. repeat split. constructor.
  - rewrite run_deleteLoop_cons.
    destruct (MatchesFilters (cfg r) h) eqn:Hf; cbn [negb].
    2: { destruct (IH d w) as (H1 & H2 & H3). repeat split; auto.
         eapply about_mono; [|exact H2]. apply passing_cons_incl. }
    assert (Hin : In h (passing (cfg r) (h :: rest))).
    { unfold passing. simpl. rewrite Hf. left. reflexivity. }
    assert (Hab : forall c, call_host c = Some h ->
                            about (passing (cfg r) (h :: rest)) c)
      by (intros c Hc; exists h; auto).
    assert (Hrest : forall d' w',
              Forall (about (passing (cfg r) (h :: rest)))
                (calls (trace (run env (deleteLoop r wn rest d') w')))).
    { intros d' w'. destruct (IH d' w') as (_ & H2 & _).
      eapply about_mono; [|exact H2]. apply passing_cons_incl. }
    destruct (DryRun (cfg r)).
    { rewrite trace_after. destruct (IH (d + 1)%Z w) as (H1 & H2 & H3).
      simpl. repeat split; auto. }
    destruct (records_get env dzone h w) as [[e|e|recs] w1].
    + rewrite trace_after. destruct (IH d w1) as (H1 & H2 & H3). simpl.
      split; [first [assumption | apply deletes_checked_get; assumption]|].
      split; [constructor; auto|]. simpl in H3. rewrite H3. reflexivity.
    + rewrite trace_after. destruct (IH d w1) as (H1 & H2 & H3). simpl.
      split; [first [assumption | apply deletes_checked_get; assumption]|].
      split; [constructor; auto|]. simpl in H3. rewrite H3. reflexivity.
    + destruct (technitium.scanRecords recs dip).
      * destruct (records_delete env dzone h dip w1) as [[e|] w2];
          rewrite trace_after.
        -- destruct (IH d w2) as (H1 & H2 & H3).
           cbn [app calls answers logged failed length].
           rewrite deletes_checked_get_delete.
           split; [assumption|]. split; [repeat (constructor; auto)|].
           rewrite H3. reflexivity.
        -- destruct (IH (d + 1)%Z w2) as (H1 & H2 & H3).
           cbn [app calls answers logged failed length].
           rewrite deletes_checked_get_delete.
           split; [assumption|]. split; [repeat (constructor; auto)|].
           assumption.
      * rewrite trace_after. destruct (IH d w1) as (H1 & H2 & H3).
        cbn [app calls answers logged failed length].
        split; [apply deletes_checked_get; assumption|].
        split; [constructor; auto|]. assumption.
Qed.

(** Outside dry-run mode the count is that of the deletes the gateway
    carried out. *)
Lemma deleteLoop_count wn hs d w :
  DryRun (cfg r) = false ->
  value (run env (deleteLoop r wn hs d) w)
  = (d + Z.of_nat (count_calls is_delete
                     (performed (trace (run env (deleteLoop r wn hs d) w)))))%Z.
Proof.
  intros Hlive. revert d w. induction hs as [|h rest IH]; intros d w.
  - simpl. unfold value; simpl. lia.
  - rewrite run_deleteLoop_cons, Hlive.
    destruct (negb (MatchesFilters (cfg r) h)); [apply IH|].
    destruct (records_get env dzone h w) as [[e|e|recs] w1];
      try (rewrite value_after, trace_after, IH; simpl; reflexivity).
    destruct (technitium.scanRecords recs dip);
      [|rewrite value_after, trace_after, IH; simpl; reflexivity].
    destruct (records_delete env dzone h dip w1) as [[e|] w2];
      rewrite value_after, trace_after, IH; simpl; [reflexivity|].
    lia.
Qed.

End DeleteFacts.

Lemma run_DeleteHostnames {W : Type} (env : Env W) (r : reconciler.Reconciler)
  (wn : string) (hs : list string) (w : W) :
  run env (reconciler.DeleteHostnames r wn hs) w
  = ((value (run env (reconciler.deleteLoop r wn hs 0) w), None),
     world (run env (reconciler.deleteLoop r wn hs 0) w),
     ELock :: ELog LevelDebug "deleting hostnames"
       :: trace (run env (reconciler.deleteLoop r wn hs 0) w) ++ [EUnlock]).
Proof.
  unfold reconciler.DeleteHostnames. rewrite run_with_mutex. cbn [run].
  rewrite value_emit, world_emit, trace_emit, run_bind.
  cbv [value world trace fst snd run]. rewrite app_nil_r. reflexivity.
Qed.

(** C7, as first stated, fails in dry-run mode: for a name that has no
    record the existence check is not made, the name is not skipped but
    counted, and the count returned is 1 while no delete was carried out. *)
Lemma DeleteHostnames_counterexample :
  let x :=
    run refEnv
      (reconciler.DeleteHostnames (sampleReconciler true) "web" ["gone.example.com"])
      emptyWorld in
  value x = (1%Z, None)
  /\ calls (trace x) = []
  /\ count_calls is_delete (performed (trace x)) = 0.
Proof. repeat split. Qed.

(** ** The full pass *)

Section FullPass.
Import config reconciler.
Context {W : Type} (env : Env W) (r : Reconciler).

Lemma ensureRecord_frame wn host res w :
  step_frame 0 res (value (run env (ensureRecord r wn host res) w)).
Proof.
  unfold step_frame, unsettled, failure_count.
  destruct (MatchesFilters (cfg r) host) eqn:Hf.
  2: { rewrite run_ensureRecord_filtered by assumption.
       unfold value; simpl. repeat split; lia. }
  destruct (DryRun (cfg r)) eqn:Hd.
  { rewrite run_ensureRecord_dry by assumption.
    unfold value; simpl. repeat split; lia. }
  rewrite run_ensureRecord_live by assumption. cbv zeta.
  destruct (run env (technitium.EnsureARecord _ _ _ _) w)
    as [[[created [err|]] w'] tr]; unfold value; cbn [fst snd].
  - simpl. repeat split; lia.
  - destruct created; simpl; repeat split; lia.
Qed.

Lemma ensureHosts_frame wn hosts res w :
  step_frame 0 res (value (run env (ensureHosts r wn hosts res) w)).
Proof.
  revert res w. induction hosts as [|h rest IH]; intros res w.
  - unfold step_frame, value; simpl. repeat split; lia.
  - cbn [ensureHosts]. rewrite value_bind.
    pose proof (ensureRecord_frame wn h res w) as Hstep.
    destruct (value (run env (ensureRecord r wn h res) w)) as [res1 [e|]];
      cbn [fst snd] in *.
    + exact Hstep.
    + specialize (IH res1 (world (run env (ensureRecord r wn h res) w))).
      unfold step_frame in *. cbn [fst snd] in *.
      destruct Hstep as (A1 & A2 & A3 & A4), IH as (B1 & B2 & B3 & B4).
      unfold failure_count in *. repeat split; try lia; congruence.
Qed.

Lemma processWorkload_frame wl res w :
  step_frame (Z.of_nat (length (ExtractHosts (parser r) (Labels wl)))) res
    (value (run env (processWorkload r wl res) w)).
Proof.
  unfold processWorkload.
  destruct (ExtractHosts (parser r) (Labels wl)) as [|h hs].
  - unfold step_frame, value; simpl. repeat split; lia.
  - cbn [length Nat.eqb run]. rewrite value_emit.
    pose proof (ensureHosts_frame (WName wl) (h :: hs)
                  (addHostnamesFound (Z.of_nat (S (length hs))) res) w) as H.
    unfold step_frame in *. destruct H as (B1 & B2 & B3 & B4).
    unfold unsettled in *; simpl in *. repeat split; try lia; congruence.
Qed.

(** One turn of the loop of [Reconcile]: an error of the workload is logged
    and appended, and the loop goes on with the workloads after it. *)
Lemma run_processWorkloads_cons wl rest res w :
  run env (processWorkloads r (wl :: rest) res) w
  = match (value (run env (processWorkload r wl res) w)).2 with
    | Some err =>
        after (trace (run env (processWorkload r wl res) w)
               ++ [ELog LevelError "failed to process workload"])
          (run env
             (processWorkloads r rest
                (appendError ("workload " +:+ WName wl +:+ ": " +:+ err)
                   (value (run env (processWorkload r wl res) w)).1))
             (world (run env (processWorkload r wl res) w)))
    | None =>
        after (trace (run env (processWorkload r wl res) w))
          (run env
             (processWorkloads r rest (value (run env (processWorkload r wl res) w)).1)
             (world (run env (processWorkload r wl res) w)))
    end.
Proof.
  cbn [processWorkloads]. rewrite run_bind.
  destruct (value (run env (processWorkload r wl res) w)) as [res1 [e|]];
    cbn [fst snd]; [|reflexivity].
  cbn [run]. unfold after, emit, value, world, trace. cbn [fst snd].
  rewrite <- app_assoc. reflexivity.
Qed.

Lemma processWorkloads_app ws1 ws2 res w :
  run env (processWorkloads r (ws1 ++ ws2) res) w
  = after (trace (run env (processWorkloads r ws1 res) w))
      (run env (processWorkloads r ws2 (value (run env (processWorkloads r ws1 res) w)))
         (world (run env (processWorkloads r ws1 res) w))).
Proof.
  revert res w. induction ws1 as [|wl rest IH]; intros res w.
  - simpl. cbv [value world trace fst snd]. rewrite after_nil. reflexivity.
  - rewrite <- app_comm_cons. rewrite !run_processWorkloads_cons.
    destruct ((value (run env (processWorkload r wl res) w)).2);
      rewrite IH, value_after, world_after, trace_after, after_after;
      reflexivity.
Qed.

Lemma processWorkloads_frame workloads res w :
  let res' := value (run env (processWorkloads r workloads res) w) in
  WorkloadsScanned res' = WorkloadsScanned res
  /\ HostnamesFound res'
     = (HostnamesFound res + Z.of_nat (length (foundHosts r workloads)))%Z
  /\ (unsettled res' - Z.of_nat (length (Errors res'))
      = unsettled res - Z.of_nat (length (Errors res)))%Z
  /\ (length (Errors res') <= length (Errors res) + length workloads)%nat.
Proof.
  cbv zeta. revert res w. induction workloads as [|wl rest IH]; intros res w.
  - unfold value; simpl. repeat split; lia.
  - rewrite run_processWorkloads_cons.
    pose proof (processWorkload_frame wl res w) as Hstep.
    unfold foundHosts. cbn [map concat]. fold (foundHosts r rest).
    rewrite length_app, Nat2Z.inj_add.
    unfold step_frame in Hstep.
    destruct (value (run env (processWorkload r wl res) w)) as [res1 [e|]];
      cbn [fst snd] in *; rewrite value_after;
      destruct Hstep as (H1 & H2 & H3 & H4);
      match goal with |- context [processWorkloads r rest ?x] =>
        destruct (IH x (world (run env (processWorkload r wl res) w)))
          as (I1 & I2 & I3 & I4) end.
    + unfold unsettled, failure_count in *. simpl in *.
      rewrite H3, length_app in *. simpl in *. repeat split; lia.
    + unfold unsettled, failure_count in *. simpl in *.
      rewrite H3 in *. repeat split; lia.
Qed.

End FullPass.

Lemma created_in_app (t1 t2 : list Event) :
  created_in (t1 ++ t2) = (created_in t1 + created_in t2)%Z.
Proof. unfold created_in. rewrite performed_app, count_calls_app. lia. Qed.

Section Created.
Import config reconciler.
Context {W : Type} (env : Env W) (r : Reconciler).
Hypothesis Hlive : DryRun (cfg r) = false.

Lemma EnsureARecord_created zone host ip ttl w :
  created_in (trace (run env (technitium.EnsureARecord zone host ip ttl) w))
  = if (value (run env (technitium.EnsureARecord zone host ip ttl) w)).1
    then 1%Z else 0%Z.
Proof.
  destruct (records_get env zone host w) as [[e|e|recs] w1] eqn:Hget;
    try (simpl; rewrite Hget; reflexivity).
  destruct (technitium.scanRecords recs ip) eqn:Hs.
  { rewrite (run_EnsureARecord_present env _ _ _ _ _ _ _ Hget Hs). reflexivity. }
  destruct (records_add env zone host ip ttl w1) as [[e|] w2] eqn:Hadd.
  - rewrite (run_EnsureARecord_add_failed env _ _ _ _ _ _ _ _ _ Hget Hs Hadd).
    reflexivity.
  - rewrite (run_EnsureARecord_absent env _ _ _ _ _ _ _ _ Hget Hs Hadd).
    reflexivity.
Qed.

Lemma EnsureARecord_created_ok zone host ip ttl w :
  (value (run env (technitium.EnsureARecord zone host ip ttl) w)).1 = true ->
  (value (run env (technitium.EnsureARecord zone host ip ttl) w)).2 = None.
Proof.
  destruct (records_get env zone host w) as [[e|e|recs] w1] eqn:Hget;
    try (simpl; rewrite Hget; simpl; discriminate).
  destruct (technitium.scanRecords recs ip) eqn:Hs.
  { rewrite (run_EnsureARecord_present env _ _ _ _ _ _ _ Hget Hs). discriminate. }
  destruct (records_add env zone host ip ttl w1) as [[e|] w2] eqn:Hadd.
  - rewrite (run_EnsureARecord_add_failed env _ _ _ _ _ _ _ _ _ Hget Hs Hadd).
    discriminate.
  - rewrite (run_EnsureARecord_absent env _ _ _ _ _ _ _ _ Hget Hs Hadd).
    reflexivity.
Qed.

Lemma ensureRecord_created wn host res w :
  RecordsCreated (value (run env (ensureRecord r wn host res) w)).1
  = (RecordsCreated res
     + created_in (trace (run env (ensureRecord r wn host res) w)))%Z.
Proof.
  destruct (MatchesFilters (cfg r) host) eqn:Hf.
  2: { rewrite run_ensureRecord_filtered by assumption.
       unfold value, trace, created_in; simpl. lia. }
  rewrite run_ensureRecord_live by assumption. cbv zeta.
  pose proof (EnsureARecord_created (TechnitiumZone (cfg r)) host
                (TargetIP (cfg r)) (TTL (cfg r)) w) as Hc.
  pose proof (EnsureARecord_created_ok (TechnitiumZone (cfg r)) host
                (TargetIP (cfg r)) (TTL (cfg r)) w) as Hok.
  destruct (run env (technitium.EnsureARecord _ _ _ _) w)
    as [[[created [err|]] w'] tr]; unfold value, trace in *; cbn [fst snd] in *.
  - destruct created; [specialize (Hok eq_refl); discriminate|].
    simpl. lia.
  - destruct created; cbn [fst snd]; rewrite created_in_app, Hc;
      unfold created_in; simpl; lia.
Qed.

Lemma ensureHosts_created wn hosts res w :
  RecordsCreated (value (run env (ensureHosts r wn hosts res) w)).1
  = (RecordsCreated res
     + created_in (trace (run env (ensureHosts r wn hosts res) w)))%Z.
Proof.
  revert res w. induction hosts as [|h rest IH]; intros res w.
  - unfold value, trace, created_in; simpl. lia.
  - cbn [ensureHosts]. rewrite value_bind, trace_bind, created_in_app.
    pose proof (ensureRecord_created wn h res w) as Hstep.
    destruct (value (run env (ensureRecord r wn h res) w)) as [res1 [e|]];
      cbn [fst snd] in *.
    + cbn [run]. cbv [value trace fst snd] in *.
      change (created_in []) with 0%Z. lia.
    + rewrite IH. lia.
Qed.

Lemma processWorkload_created wl res w :
  RecordsCreated (value (run env (processWorkload r wl res) w)).1
  = (RecordsCreated res
     + created_in (trace (run env (processWorkload r wl res) w)))%Z.
Proof.
  unfold processWorkload.
  destruct (ExtractHosts (parser r) (Labels wl)) as [|h hs].
  - unfold value, trace, created_in; simpl. lia.
  - cbn [length Nat.eqb run]. rewrite value_emit, trace_emit.
    rewrite ensureHosts_created.
    change (ELog ?l ?m :: ?t) with ([ELog l m] ++ t).
    rewrite created_in_app. unfold created_in at 2; simpl. lia.
Qed.

Lemma processWorkloads_created workloads res w :
  RecordsCreated (value (run env (processWorkloads r workloads res) w))
  = (RecordsCreated res
     + created_in (trace (run env (processWorkloads r workloads res) w)))%Z.
Proof.
  revert res w. induction workloads as [|wl rest IH]; intros res w.
  - unfold value, trace, created_in; simpl. lia.
  - rewrite run_processWorkloads_cons.
    pose proof (processWorkload_created wl res w) as Hstep.
    destruct (value (run env (processWorkload r wl res) w)) as [res1 [e|]];
      cbn [fst snd] in *; rewrite value_after, trace_after, IH,
        !created_in_app.
    + unfold created_in at 3; simpl. lia.
    + lia.
Qed.

End Created.

Section ReconcileRuns.
Import config reconciler.
Context {W : Type} (env : Env W) (r : Reconciler).

Lemma run_Reconcile_listed w workloads w' :
  docker_list env (clock env w).2 = (Ok workloads, w') ->
  let x := run env (processWorkloads r workloads
                      (setWorkloadsScanned (Z.of_nat (length workloads)) emptyResult))
             w' in
  let res := setDuration ((clock env (world x)).1 - (clock env w).1) (value x) in
  run env (Reconcile r) w
  = ((Some res, None), (clock env (world x)).2,
     ELock :: ELog LevelInfo "starting reconciliation" :: ECall CList true
       :: ELog LevelDebug "scanned workloads"
       :: trace x
       ++ [EMetric "RecordReconciliation"
             (if Nat.ltb 0 (length (Errors res)) then "error" else "success");
           ELog LevelInfo "reconciliation complete"; EUnlock]).
Proof.
  intros H. cbv zeta. unfold Reconcile. rewrite run_with_mutex.
  cbn [run]. rewrite H. cbn [fst snd run listed_ok].
  rewrite !value_emit, !world_emit, !trace_emit, run_bind.
  cbn [run]. cbv [value world trace emit fst snd]. cbn [app].
  rewrite <- app_assoc. reflexivity.
Qed.

End ReconcileRuns.

(** A pass over the two sample workloads with the gateway out of reach for
    [app.example.com]: [web] fails on its first hostname, [api] is still
    processed and its record created. *)
Example Reconcile_isolates_failure :
  let x := run refEnv (reconciler.Reconcile (sampleReconciler false)) partialWorld in
  exists res,
    value x = (Some res, None)
    /\ reconciler.WorkloadsScanned res = 2%Z
    /\ reconciler.HostnamesFound res = 3%Z
    /\ reconciler.HostnamesFiltered res = 2%Z
    /\ reconciler.RecordsCreated res = 1%Z
    /\ reconciler.RecordsExisted res = 0%Z
    /\ reconciler.Errors res
       = ["workload web: ensuring record for app.example.com: creating A record: "
          +:+ "getting records for app.example.com: connection refused"]
    /\ calls (trace x)
       = [CList; CGet "example.com" "app.example.com";
          CGet "example.com" "api.example.com";
          CAdd "example.com" "api.example.com" "10.0.0.1" 300].
Proof. eexists. repeat split. Qed.

(** ** The event watcher *)

Section WatcherLemmas.
Import watcher.
Context {W : Type} (env : Env W) (w : Watcher).

Lemma AllOps_handleEvent (event : Message) : AllOps log_only (handleEvent event).
Proof.
  unfold handleEvent, handleServiceEvent, handleContainerEvent.
  repeat (constructor; [reflexivity|]).
  destruct (String.eqb (Type_ev event) ServiceEventType);
    [|destruct (String.eqb (Type_ev event) ContainerEventType)];
    try constructor;
    destruct (actorName event); try constructor;
    repeat match goal with
           | |- AllOps _ (if ?b then _ else _) => destruct b
           | |- AllOps _ _ => constructor; try reflexivity
           end.
Qed.

(** A program that only logs and counts leaves the world alone. *)
Lemma log_only_world {A : Type} (p : Prog A) (world0 : W) :
  AllOps log_only p -> world (run env p world0) = world0.
Proof.
  induction 1; simpl; try discriminate; try reflexivity;
    rewrite world_emit; assumption.
Qed.

Lemma log_only_calls {A : Type} (p : Prog A) (world0 : W) :
  AllOps log_only p -> calls (trace (run env p world0)) = [].
Proof.
  intros H. apply no_calls. eapply Forall_impl; [apply AllOps_run, H|].
  intros e He. simpl in He. destruct (kind_of e); simpl in *; congruence.
Qed.

Lemma handleEvent_named (event : Message) (world0 : W) :
  named event = true -> value (run env (handleEvent event) world0) = Some tt.
Proof.
  intros Hn. unfold handleEvent. cbn [run]. rewrite !value_emit.
  assert (Hname : exists n, actorName event = Some n).
  { unfold actorName, named, slice12 in *.
    destruct (String.eqb (default "" (Attributes (actor event) !! "name")) "");
      [|eauto].
    cbn [negb orb] in Hn. rewrite Hn. eauto. }
  destruct Hname as [n Hname].
  unfold handleServiceEvent, handleContainerEvent. rewrite Hname.
  destruct (String.eqb (Type_ev event) ServiceEventType);
    [|destruct (String.eqb (Type_ev event) ContainerEventType)];
    repeat match goal with
           | |- context [if ?b then _ else _] => destruct b
           end; reflexivity.
Qed.

Lemma reconciles_app t1 t2 : reconciles (t1 ++ t2) = reconciles t1 + reconciles t2.
Proof.
  induction t1 as [|e t1 IH]; simpl; [reflexivity|].
  destruct e; simpl; rewrite IH; reflexivity.
Qed.

Lemma timers_armed_app t1 t2 :
  timers_armed (t1 ++ t2) = timers_armed t1 ++ timers_armed t2.
Proof.
  induction t1 as [|e t1 IH]; simpl; [reflexivity|].
  destruct e; simpl; rewrite IH; reflexivity.
Qed.

Lemma timers_stopped_app t1 t2 :
  timers_stopped (t1 ++ t2) = timers_stopped t1 ++ timers_stopped t2.
Proof.
  induction t1 as [|e t1 IH]; simpl; [reflexivity|].
  destruct e; simpl; rewrite IH; reflexivity.
Qed.

Lemma run_events_app t1 t2 : run_events (t1 ++ t2) = run_events t1 ++ run_events t2.
Proof.
  induction t1 as [|e t1 IH]; simpl; [reflexivity|].
  destruct e; simpl; rewrite IH; reflexivity.
Qed.

Lemma WRun_quiet (l : list Event) :
  reconciles (map WRun l) = 0 /\ timers_armed (map WRun l) = []
  /\ timers_stopped (map WRun l) = [] /\ run_events (map WRun l) = l.
Proof.
  induction l as [|e l (H1 & H2 & H3 & H4)]; simpl; [auto|].
  rewrite H4. auto.
Qed.

Lemma prefix_prefix (t1 t2 : list WEvent) (o : Outcome W) :
  prefix_trace t1 (prefix_trace t2 o) = prefix_trace (t1 ++ t2) o.
Proof. destruct o; simpl; rewrite ?app_assoc; reflexivity. Qed.

Lemma steps_app st world0 i1 i2 :
  steps env w st world0 (i1 ++ i2)
  = match steps env w st world0 i1 with
    | Continue st' world1 tr => prefix_trace tr (steps env w st' world1 i2)
    | o => o
    end.
Proof.
  revert st world0. induction i1 as [|i rest IH]; intros st world0.
  - simpl. destruct (steps env w st world0 i2); reflexivity.
  - simpl. destruct (step env w st world0 i) as [st' world1 tr| | |];
      try reflexivity.
    rewrite IH.
    destruct (steps env w st' world1 rest) as [st2 world2 tr2| | |];
      simpl; try reflexivity.
    apply prefix_prefix.
Qed.

(** While a reconciliation is pending, an event is handled and nothing
    else happens: the state and the world stay, no timer is armed or
    stopped, no pass is started. *)
Lemma step_event_pending st world0 event :
  pendingReconcile st = true -> named event = true ->
  step env w st world0 (EventRecv event)
  = Continue st world0 (map WRun (trace (run env (handleEvent event) world0))).
Proof.
  intros Hp Hn. unfold step.
  rewrite (handleEvent_named _ _ Hn), Hp. cbn [negb].
  rewrite (log_only_world _ _ (AllOps_handleEvent event)). reflexivity.
Qed.

Lemma steps_events_pending st world0 events :
  pendingReconcile st = true ->
  Forall (fun ev => named ev = true) events ->
  exists tr,
    steps env w st world0 (map EventRecv events) = Continue st world0 tr
    /\ reconciles tr = 0 /\ timers_armed tr = [] /\ timers_stopped tr = []
    /\ calls (run_events tr) = [].
Proof.
  intros Hp. induction 1 as [|ev rest Hn _ (tr & IH & H1 & H2 & H3 & H4)].
  - exists []. repeat split.
  - cbn [steps map]. rewrite (step_event_pending _ _ _ Hp Hn), IH.
    cbn [prefix_trace]. eexists. split; [reflexivity|].
    destruct (WRun_quiet (trace (run env (handleEvent ev) world0)))
      as (Q1 & Q2 & Q3 & Q4).
    rewrite reconciles_app, timers_armed_app, timers_stopped_app, run_events_app,
      calls_app, Q1, Q2, Q3, Q4, H1, H2, H3, H4,
      (log_only_calls _ _ (AllOps_handleEvent ev)).
    repeat split.
Qed.

End WatcherLemmas.

(** C5 -- coalescing.  From an idle watcher, a batch of one or more events
    arms one timer, with the first event; when that timer fires its
    callback starts one pass; events that come while the pass is pending
    (before the timer fires, or while the callback is under way) are handled
    and change nothing: no second timer, no stop, no reset; and once the
    callback has finished the watcher is idle again, whatever [Reconcile]
    returned. *)
Theorem watcher_coalesces {W : Type} (env : Env W) (w : watcher.Watcher)
  (st : watcher.State) (world0 : W) (events during : list watcher.Message) :
  watcher.idle st ->
  events <> [] ->
  Forall (fun ev => watcher.named ev = true) (events ++ during) ->
  let t := watcher.nextTimer st in
  (exists st' tr,
      watcher.steps env w st world0
        (map watcher.EventRecv events ++ [watcher.TimerFire t]
         ++ map watcher.EventRecv during ++ [watcher.CallbackEnd t])
      = watcher.Continue st'
          (world (run env (reconciler.Reconcile (watcher.rec w)) world0)) tr
      /\ watcher.reconciles tr = 1
      /\ watcher.timers_armed tr = [(t, watcher.debounceInterval w)]
      /\ watcher.timers_stopped tr = []
      /\ watcher.idle st')
  /\ (forall st1 world1 ev,
        watcher.pendingReconcile st1 = true -> watcher.named ev = true ->
        exists tr,
          watcher.step env w st1 world1 (watcher.EventRecv ev)
          = watcher.Continue st1 world1 tr
          /\ watcher.reconciles tr = 0
          /\ watcher.timers_armed tr = []
          /\ watcher.timers_stopped tr = []).
Proof.
  intros (Hpend & Harmed & Hret) Hne Hnamed. cbv zeta. split.
  2: { intros st1 world1 ev Hp Hn. rewrite (step_event_pending env w _ _ _ Hp Hn).
       eexists. split; [reflexivity|].
       destruct (WRun_quiet (trace (run env (watcher.handleEvent ev) world1)))
         as (Q1 & Q2 & Q3 & _). auto. }
  destruct events as [|ev1 events]; [congruence|].
  rewrite <- app_comm_cons in Hnamed. apply Forall_cons in Hnamed as [Hn1 Hnamed].
  apply Forall_app in Hnamed as [Hn Hd].
  pose proof (log_only_world env _ world0 (AllOps_handleEvent ev1)) as Hw1.
  destruct (WRun_quiet (trace (run env (watcher.handleEvent ev1) world0)))
    as (Q1 & Q2 & Q3 & _).
  set (t := watcher.nextTimer st).
  set (st1 := {| watcher.pendingReconcile := true;
                 watcher.debounceTimer := Some t;
                 watcher.nextTimer := S t;
                 watcher.armed := [t];
                 watcher.returned := [] |}).
  set (x := run env (reconciler.Reconcile (watcher.rec w)) world0).
  set (st2 := {| watcher.pendingReconcile := true;
                 watcher.debounceTimer := Some t;
                 watcher.nextTimer := S t;
                 watcher.armed := [];
                 watcher.returned := [(t, value x)] |}).
  destruct (steps_events_pending env w st1 world0 events eq_refl Hn)
    as (tr1 & E1 & A1 & A2 & A3 & _).
  destruct (steps_events_pending env w st2 (world x) during eq_refl Hd)
    as (tr2 & E2 & B1 & B2 & B3 & _).
  cbn [map app watcher.steps]. unfold watcher.step at 1.
  rewrite (handleEvent_named env _ _ Hn1), Hpend, Hw1, Harmed, Hret.
  cbn [negb]. fold t. fold st1.
  rewrite steps_app, E1. cbn [watcher.prefix_trace watcher.steps app].
  unfold watcher.step at 1. cbn [watcher.armed st1 existsb].
  rewrite Nat.eqb_refl. cbn [orb]. fold x.
  unfold watcher.remove_timer. cbn [List.filter st1 watcher.pendingReconcile
    watcher.debounceTimer watcher.nextTimer watcher.armed watcher.returned].
  rewrite Nat.eqb_refl. cbn [negb]. fold st2.
  rewrite steps_app, E2. cbn [watcher.prefix_trace watcher.steps].
  unfold watcher.step at 1.
  cbn [st2 watcher.returned watcher.take_returned]. rewrite Nat.eqb_refl.
  cbn [watcher.prefix_trace].
  eexists _, _. split; [reflexivity|].
  destruct (WRun_quiet (trace x)) as (R1 & R2 & R3 & _).
  repeat rewrite ?reconciles_app, ?timers_armed_app, ?timers_stopped_app.
  cbn [watcher.reconciles watcher.timers_armed watcher.timers_stopped app].
  repeat rewrite ?reconciles_app, ?timers_armed_app, ?timers_stopped_app.
  cbn [watcher.reconciles watcher.timers_armed watcher.timers_stopped app].
  rewrite Q1, Q2, Q3, A1, A2, A3, B1, B2, B3, R1, R2, R3.
  repeat split.
Qed.

Lemma watcher_coalesces_witness :
  exists st' tr,
    watcher.steps refEnv (sampleWatcher false) watcher.initial flakyWorld
      (map watcher.EventRecv
         [containerEvent "start" "c0ffee" "web"; containerEvent "die" "c0ffee" "web";
          namelessEvent]
       ++ [watcher.TimerFire 0]
       ++ map watcher.EventRecv [containerEvent "destroy" "c0ffee" "web"]
       ++ [watcher.CallbackEnd 0])
    = watcher.Continue st'
        (world (run refEnv (reconciler.Reconcile (sampleReconciler false)) flakyWorld))
        tr
    /\ watcher.reconciles tr = 1
    /\ watcher.timers_armed tr = [(0, 5000000000%Z)]
    /\ watcher.timers_stopped tr = []
    /\ watcher.idle st'.
Proof.
  refine (proj1 (watcher_coalesces refEnv (sampleWatcher false) watcher.initial
                   flakyWorld
                   [containerEvent "start" "c0ffee" "web";
                    containerEvent "die" "c0ffee" "web"; namelessEvent]
                   [containerEvent "destroy" "c0ffee" "web"] _ _ _)).
  - repeat split.
  - discriminate.
  - repeat constructor.
Defined.

(** ** No delete from lifecycle events *)

Section NoDelete.
Import watcher.
Context {W : Type} (env : Env W) (w : Watcher).

Lemma delete_free_app t1 t2 :
  delete_free t1 -> delete_free t2 -> delete_free (t1 ++ t2).
Proof.
  unfold delete_free. rewrite run_events_app. intros. apply Forall_app. auto.
Qed.

Lemma delete_free_run {A : Type} (p : Prog A) (world0 : W) :
  AllOps not_delete p -> delete_free (map WRun (trace (run env p world0))).
Proof.
  intros H. unfold delete_free.
  destruct (WRun_quiet (trace (run env p world0))) as (_ & _ & _ & ->).
  apply AllOps_run. assumption.
Qed.

Lemma AllOps_Reconcile_not_delete r : AllOps not_delete (reconciler.Reconcile r).
Proof. apply AllOps_Reconcile; auto. Qed.

Lemma step_delete_free st world0 i :
  delete_free (outcome_trace (step env w st world0 i)).
Proof.
  destruct i as [|[err|]|event|t|t]; unfold step.
  - destruct (debounceTimer st); repeat constructor.
  - repeat constructor.
  - constructor.
  - assert (Hh : delete_free (map WRun (trace (run env (handleEvent event) world0)))).
    { apply delete_free_run.
      eapply AllOps_weaken; [|apply AllOps_handleEvent].
      intros [] E; simpl in *; congruence. }
    cbv zeta.
    destruct (value (run env (handleEvent event) world0)); [|exact Hh].
    destruct (negb (pendingReconcile st)); cbn [outcome_trace]; [|exact Hh].
    apply delete_free_app; [exact Hh | constructor].
  - destruct (existsb (Nat.eqb t) (armed st)); cbv zeta; cbn [outcome_trace];
      [|constructor].
    constructor; [reflexivity|].
    apply (delete_free_run _ world0 (AllOps_Reconcile_not_delete (rec w))).
  - destruct (take_returned t (returned st)) as [[out rest]|];
      cbn [outcome_trace]; [|constructor].
    destruct out.2; repeat constructor.
Qed.

Lemma steps_delete_free st world0 inputs :
  delete_free (outcome_trace (steps env w st world0 inputs)).
Proof.
  revert st world0. induction inputs as [|i rest IH]; intros st world0.
  - constructor.
  - cbn [steps]. pose proof (step_delete_free st world0 i) as Hs.
    destruct (step env w st world0 i) as [st' world1 tr| | |]; try exact Hs.
    specialize (IH st' world1).
    destruct (steps env w st' world1 rest); simpl in *;
      try (apply delete_free_app; assumption).
    constructor.
Qed.

End NoDelete.

(** C6 -- no delete from lifecycle events.  Handling an event, a removal
    or a stop like any other, only logs and counts; the pass a timer
    callback starts can issue no delete, whatever the collaborators
    answer; so no run of the watcher, over any inputs from any state,
    issues a delete against the DNS gateway. *)
Theorem lifecycle_events_never_delete {W : Type} (env : Env W)
  (w : watcher.Watcher) :
  (forall event, AllOps log_only (watcher.handleEvent event))
  /\ AllOps not_delete (reconciler.Reconcile (watcher.rec w))
  /\ (forall st world0 event,
        calls (watcher.run_events
                 (watcher.outcome_trace
                    (watcher.step env w st world0 (watcher.EventRecv event)))) = [])
  /\ (forall st world0 inputs,
        count_calls is_delete
          (calls (watcher.run_events
                    (watcher.outcome_trace (watcher.steps env w st world0 inputs))))
        = 0).
Proof.
  split; [apply AllOps_handleEvent|].
  split; [apply AllOps_Reconcile_not_delete|]. split.
  - intros st world0 event. unfold watcher.step. cbv zeta.
    pose proof (log_only_calls env _ world0 (AllOps_handleEvent event)) as Hc.
    destruct (WRun_quiet (trace (run env (watcher.handleEvent event) world0)))
      as (_ & _ & _ & Q).
    destruct (value (run env (watcher.handleEvent event) world0));
      cbn [watcher.outcome_trace]; [|rewrite Q; exact Hc].
    destruct (negb (watcher.pendingReconcile st)); cbn [watcher.outcome_trace];
      rewrite ?run_events_app, Q, ?calls_app, Hc; reflexivity.
  - intros st world0 inputs. apply no_delete_calls, steps_delete_free.
Qed.

(** ** One pass at a time *)

Lemma critical_bind2 {A B C : Type} (m : Prog A) (g : A -> Prog B) (h : B -> Prog C) :
  AllOps not_mutex m ->
  (forall a, critical (bind (g a) h)) ->
  critical (bind (bind m g) h).
Proof. induction 1; intros Hg; simpl; try discriminate; auto. Qed.

Lemma discard_with_mutex_waiting {A : Type} (body : Prog A) :
  AllOps not_mutex body -> waiting (discard (with_mutex body)).
Proof.
  intros Hb. unfold discard, with_mutex. simpl.
  apply critical_bind2; [assumption|]. intros a. simpl. exact I.
Qed.

Lemma spawn_waiting (r : reconciler.Reconciler) (c : EntryCall) :
  waiting (spawn r c).
Proof.
  destruct c as [|wn hs|wn hs]; unfold spawn.
  - destruct (Reconcile_body not_mutex r eq_refl eq_refl eq_refl eq_refl)
      as (body & -> & Hb); [auto|].
    apply discard_with_mutex_waiting, Hb.
  - destruct (ReconcileHostnames_body not_mutex r eq_refl eq_refl eq_refl wn hs)
      as (body & -> & Hb); [auto|].
    apply discard_with_mutex_waiting, Hb.
  - destruct (DeleteHostnames_body not_mutex r eq_refl eq_refl wn hs)
      as (body & -> & Hb); [auto|].
    apply discard_with_mutex_waiting, Hb.
Qed.

Lemma inside_quiet (i j : nat) (e : Event) (h : list (nat * Event)) :
  is_mutex_event e = false -> inside i ((j, e) :: h) = inside i h.
Proof. destruct e; simpl; intros; congruence. Qed.

Section PoolInvariant.
Context {W : Type} (env : Env W).

Lemma start_inv r cs (w : W) : pool_inv (start r cs w).
Proof.
  unfold pool_inv, start. simpl. repeat split; try discriminate; auto.
  intros i p Hi. left.
  rewrite list_lookup_fmap in Hi.
  destruct (cs !! i) as [c|]; simpl in Hi; [|discriminate].
  injection Hi as <-. apply spawn_waiting.
Qed.

(** A step that is not on the mutex. *)
Lemma quiet_step_inv (s : Pool W) (i : nat) (p p' : Prog unit) (w' : W)
  (ev : option Event) :
  pool_inv s ->
  threads s !! i = Some p ->
  (forall e, ev = Some e -> is_mutex_event e = false) ->
  (critical p -> critical p') ->
  ~ waiting p ->
  (finished p -> finished p' /\ forall e, ev = Some e -> is_call_event e = false) ->
  pool_inv {| threads := <[i := p']> (threads s); locked := locked s;
              shared := w'; history := record_event i ev (history s) |}.
Proof.
  intros (Hshape & Huniq & Hfree & Hheld & Hcalls) Hi Hev Hcrit Hwait Hfin.
  assert (Hin : forall j, inside j (record_event i ev (history s))
                          = inside j (history s)).
  { intros j. destruct ev as [e|]; [|reflexivity].
    apply inside_quiet, Hev. reflexivity. }
  assert (Hlt : i < length (threads s)) by (eapply lookup_lt_Some; eauto).
  unfold pool_inv. cbn [threads locked history].
  split; [|split; [|split; [|split]]].
  - intros j q Hj. rewrite Hin.
    destruct (decide (i = j)) as [<-|Hne].
    + rewrite list_lookup_insert_eq in Hj by assumption. injection Hj as <-.
      specialize (Hshape i p Hi).
      destruct (inside i (history s)); [auto|].
      destruct Hshape as [Hw|Hf]; [contradiction|]. right. apply Hfin, Hf.
    + rewrite list_lookup_insert_ne in Hj by assumption. apply Hshape, Hj.
  - intros j k. rewrite !Hin. apply Huniq.
  - intros Hl j. rewrite Hin. apply Hfree, Hl.
  - intros Hl. destruct (Hheld Hl) as [j Hj]. exists j. rewrite Hin. exact Hj.
  - destruct ev as [e|]; [|exact Hcalls]. cbn [record_event calls_exclusive].
    split; [|exact Hcalls]. intros Hc.
    assert (Hi_in : inside i (history s) = true).
    { specialize (Hshape i p Hi).
      destruct (inside i (history s)); [reflexivity|].
      destruct Hshape as [Hw|Hf]; [contradiction|].
      destruct (Hfin Hf) as [_ Hc']. rewrite (Hc' _ eq_refl) in Hc.
      discriminate. }
    intros j. split; [intros Hj; apply Huniq; assumption | intros ->; exact Hi_in].
Qed.

Lemma pool_step_inv (s s' : Pool W) : pool_inv s -> pool_step env s s' -> pool_inv s'.
Proof.
  intros Hinv Hstep. destruct Hstep as [s i p p' l' w' ev Hi Hts].
  destruct p as [a|l m k|n l k|k|k|k|k|z h k|z h ip t k|z h ip k];
    cbn [thread_step] in Hts; try discriminate Hts.
  - injection Hts as <- <- <- <-.
    apply (quiet_step_inv s i _ _ _ _ Hinv Hi); simpl; auto.
    + intros e [= <-]. reflexivity.
    + intros Hf. split; [assumption|]. intros e [= <-]. reflexivity.
  - injection Hts as <- <- <- <-.
    apply (quiet_step_inv s i _ _ _ _ Hinv Hi); simpl; auto.
    + intros e [= <-]. reflexivity.
    + intros Hf. split; [assumption|]. intros e [= <-]. reflexivity.
  - injection Hts as <- <- <- <-.
    apply (quiet_step_inv s i _ _ _ _ Hinv Hi); simpl; auto.
    + discriminate.
    + intros [].
  - (* Lock *)
    destruct (locked s) eqn:Hl; [discriminate|]. injection Hts as <- <- <- <-.
    destruct Hinv as (Hshape & Huniq & Hfree & Hheld & Hcalls).
    assert (Hlt : i < length (threads s)) by (eapply lookup_lt_Some; eauto).
    pose proof (Hfree Hl) as Hnone.
    unfold pool_inv. cbn [threads locked history record_event].
    split; [|split; [|split; [|split]]].
    + intros j q Hj. cbn [inside].
      destruct (Nat.eqb_spec j i) as [->|Hne].
      * rewrite list_lookup_insert_eq in Hj by assumption. injection Hj as <-.
        specialize (Hshape i _ Hi). rewrite Hnone in Hshape.
        destruct Hshape as [Hw|[]]. exact Hw.
      * rewrite list_lookup_insert_ne in Hj by auto.
        apply Hshape, Hj.
    + intros j j'. cbn [inside].
      destruct (Nat.eqb_spec j i) as [->|Hj], (Nat.eqb_spec j' i) as [->|Hj'];
        rewrite ?Hnone; congruence.
    + discriminate.
    + intros _. exists i. cbn [inside]. rewrite Nat.eqb_refl. reflexivity.
    + cbn [calls_exclusive]. split; [discriminate | exact Hcalls].
  - (* Unlock *)
    destruct (locked s) eqn:Hl; [|discriminate]. injection Hts as <- <- <- <-.
    destruct Hinv as (Hshape & Huniq & Hfree & Hheld & Hcalls).
    assert (Hlt : i < length (threads s)) by (eapply lookup_lt_Some; eauto).
    assert (Hin : inside i (history s) = true).
    { specialize (Hshape i _ Hi). destruct (inside i (history s)); [reflexivity|].
      destruct Hshape as [[]|[]]. }
    assert (Hnone : forall j, inside j ((i, EUnlock) :: history s) = false).
    { intros j. cbn [inside]. destruct (Nat.eqb_spec j i) as [->|Hne];
        [reflexivity|].
      destruct (inside j (history s)) eqn:Hj; [|reflexivity].
      destruct Hne. apply Huniq; assumption. }
    unfold pool_inv. cbn [threads locked history record_event].
    split; [|split; [|split; [|split]]].
    + intros j q Hj. rewrite Hnone.
      destruct (decide (i = j)) as [<-|Hne].
      * rewrite list_lookup_insert_eq in Hj by assumption. injection Hj as <-.
        specialize (Hshape i _ Hi). rewrite Hin in Hshape. right. exact Hshape.
      * rewrite list_lookup_insert_ne in Hj by assumption.
        specialize (Hshape j q Hj).
        destruct (inside j (history s)) eqn:Hjin; [|exact Hshape].
        destruct Hne. apply Huniq; assumption.
    + intros j j' Hj. rewrite Hnone in Hj. discriminate.
    + intros _. exact Hnone.
    + discriminate.
    + cbn [calls_exclusive]. split; [discriminate | exact Hcalls].
  - injection Hts as <- <- <- <-.
    apply (quiet_step_inv s i _ _ _ _ Hinv Hi); simpl; auto.
    + intros e [= <-]. reflexivity.
    + intros [].
  - injection Hts as <- <- <- <-.
    apply (quiet_step_inv s i _ _ _ _ Hinv Hi); simpl; auto.
    + intros e [= <-]. reflexivity.
    + intros [].
  - injection Hts as <- <- <- <-.
    apply (quiet_step_inv s i _ _ _ _ Hinv Hi); simpl; auto.
    + intros e [= <-]. reflexivity.
    + intros [].
  - injection Hts as <- <- <- <-.
    apply (quiet_step_inv s i _ _ _ _ Hinv Hi); simpl; auto.
    + intros e [= <-]. reflexivity.
    + intros [].
Qed.

Lemma reachable_inv (s s' : Pool W) :
  pool_inv s -> rtc (pool_step env) s s' -> pool_inv s'.
Proof.
  intros Hinv Hrtc. induction Hrtc as [|x y z Hxy _ IH]; [assumption|].
  apply IH. eapply pool_step_inv; eassumption.
Qed.

End PoolInvariant.

(** C8 -- one pass at a time.  Each of the three entry points is its body
    between [Lock] and the deferred [Unlock], and the body never touches
    the mutex.  So, however the goroutines that call them are scheduled: at
    most one is inside a pass; the mutex is held exactly when one is; a
    goroutine inside a pass reaches its [Unlock] on every path; and every
    network call was made by the one goroutine inside a pass at that
    moment, so the calls of two passes never interleave. *)
Theorem one_pass_at_a_time {W : Type} (env : Env W) (r : reconciler.Reconciler)
  (cs : list EntryCall) (w : W) (s : Pool W) :
  rtc (pool_step env) (start r cs w) s ->
  (forall i j, inside i (history s) = true -> inside j (history s) = true -> i = j)
  /\ (locked s = true <-> exists i, inside i (history s) = true)
  /\ calls_exclusive (history s)
  /\ (forall i p, threads s !! i = Some p ->
        if inside i (history s) then critical p else waiting p \/ finished p)
  /\ (exists body,
        reconciler.Reconcile r = with_mutex body /\ AllOps not_mutex body)
  /\ (forall wn hs,
        (exists body,
            reconciler.ReconcileHostnames r wn hs = with_mutex body
            /\ AllOps not_mutex body)
        /\ (exists body,
              reconciler.DeleteHostnames r wn hs = with_mutex body
              /\ AllOps not_mutex body)).
Proof.
  intros Hreach.
  destruct (reachable_inv env _ _ (start_inv r cs w) Hreach)
    as (Hshape & Huniq & Hfree & Hheld & Hcalls).
  split; [exact Huniq|]. split.
  { split; [exact Hheld|]. intros [i Hi].
    destruct (locked s) eqn:Hl; [reflexivity|].
    rewrite (Hfree eq_refl i) in Hi. discriminate. }
  split; [exact Hcalls|]. split; [exact Hshape|]. split.
  - apply Reconcile_body; auto.
  - intros wn hs. split.
    + apply ReconcileHostnames_body; auto.
    + apply DeleteHostnames_body; auto.
Qed.

Lemma lockedPool_reachable :
  rtc (pool_step refEnv) (start (sampleReconciler false) sampleCalls presentWorld)
    lockedPool.
Proof.
  apply rtc_once.
  exact (PoolStep refEnv
           (start (sampleReconciler false) sampleCalls presentWorld) 1
           (spawn (sampleReconciler false)
              (CallDeleteHostnames "web" ["app.example.com"]))
           (after_lock (spawn (sampleReconciler false)
                          (CallDeleteHostnames "web" ["app.example.com"])))
           true presentWorld (Some ELock) eq_refl eq_refl).
Qed.

Lemma one_pass_at_a_time_witness :
  (forall i j,
      inside i (history lockedPool) = true -> inside j (history lockedPool) = true ->
      i = j)
  /\ (locked lockedPool = true <-> exists i, inside i (history lockedPool) = true)
  /\ calls_exclusive (history lockedPool).
Proof.
  destruct (one_pass_at_a_time refEnv (sampleReconciler false) sampleCalls
              presentWorld lockedPool lockedPool_reachable)
    as (H1 & H2 & H3 & _).
  exact (conj H1 (conj H2 H3)).
Defined.

(** While the deletion holds the lock, the full pass cannot take it. *)
Example full_pass_waits :
  threads lockedPool !! 0 = Some (spawn (sampleReconciler false) CallReconcile)
  /\ thread_step refEnv (locked lockedPool) (shared lockedPool)
       (spawn (sampleReconciler false) CallReconcile) = None.
Proof. split; reflexivity. Qed.

(** * Further properties of the code *)

Lemma value_triple {A W : Type} (a : A) (w : W) (tr : list Event) :
  value (a, w, tr) = a.
Proof. reflexivity. Qed.

Lemma world_triple {A W : Type} (a : A) (w : W) (tr : list Event) :
  world (a, w, tr) = w.
Proof. reflexivity. Qed.

Lemma trace_triple {A W : Type} (a : A) (w : W) (tr : list Event) :
  trace (a, w, tr) = tr.
Proof. reflexivity. Qed.

(** ** The exchanges of [EnsureARecord] *)

Section ClientExchange.
Context {W : Type} (env : Env W).
Implicit Types (zone host ip : string) (w : W).

Lemma run_EnsureARecord_unanswered zone host ip ttl w :
  (forall recs, (records_get env zone host w).1 <> Payload recs) ->
  exists e,
    run env (technitium.EnsureARecord zone host ip ttl) w
    = ((false, Some e), (records_get env zone host w).2,
       [ECall (CGet zone host) false])
    /\ client_error host e.
Proof.
  intros Hno.
  destruct (records_get env zone host w) as [[e|e|recs] w1] eqn:Hget.
  - eexists. split; [simpl; rewrite Hget; reflexivity|].
    left. eexists. reflexivity.
  - eexists. split; [simpl; rewrite Hget; reflexivity|].
    right. left. eexists. reflexivity.
  - exfalso. apply (Hno recs). reflexivity.
Qed.

Lemma EnsureARecord_ensured zone host ip ttl w :
  ensured env zone host ip ttl w (run env (technitium.EnsureARecord zone host ip ttl) w).
Proof.
  destruct (records_get env zone host w) as [[e|e|recs] w1] eqn:Hget.
  1,2: destruct (run_EnsureARecord_unanswered zone host ip ttl w) as (m & -> & Hm);
    [rewrite Hget; discriminate|];
    apply ensured_unanswered; [rewrite Hget; discriminate | exact Hm].
  destruct (technitium.scanRecords recs ip) eqn:Hs.
  { rewrite (run_EnsureARecord_present env _ _ _ _ _ _ _ Hget Hs).
    eapply ensured_present; eassumption. }
  destruct (records_add env zone host ip ttl w1) as [[e|] w2] eqn:Hadd.
  - rewrite (run_EnsureARecord_add_failed env _ _ _ _ _ _ _ _ _ Hget Hs Hadd).
    eapply ensured_refused; eassumption.
  - rewrite (run_EnsureARecord_absent env _ _ _ _ _ _ _ _ Hget Hs Hadd).
    eapply ensured_created; eassumption.
Qed.

End ClientExchange.

(** X1 -- the protocol of [EnsureARecord].  Whatever the gateway answers,
    a call makes one query of the name and at most one create after it, with
    the zone, name, address and TTL it was given, and nothing else; it
    creates only after the query was answered with a record set that holds
    no A record of the address; it reports "created" exactly when the
    gateway carried out the create, and returns an error exactly when one of
    its calls failed. *)
Theorem EnsureARecord_protocol {W : Type} (env : Env W)
  (zone host ip : string) (ttl : Z) (w : W) :
  let x := run env (technitium.EnsureARecord zone host ip ttl) w in
  (calls (trace x) = [CGet zone host]
   \/ calls (trace x) = [CGet zone host; CAdd zone host ip ttl])
  /\ (In (CAdd zone host ip ttl) (calls (trace x)) <->
      exists recs w1,
        records_get env zone host w = (Payload recs, w1)
        /\ technitium.scanRecords recs ip = false)
  /\ ((value x).1 = true <->
      performed (trace x) = [CGet zone host; CAdd zone host ip ttl])
  /\ ((value x).2 = None <-> failed (trace x) = []).
Proof.
  cbv zeta.
  destruct (EnsureARecord_ensured env zone host ip ttl w)
    as [e Hno He|recs w1 Hget Hs|recs w1 w2 Hget Hs Hadd|recs w1 w2 e Hget Hs Hadd];
    cbv [value trace fst snd]; cbn [calls performed failed In].
  - split; [left; reflexivity|]. split; [|split; split; discriminate].
    split.
    + intros [H|[]]. discriminate.
    + intros (recs & w1 & Hget & _). exfalso. apply (Hno recs).
      rewrite Hget. reflexivity.
  - split; [left; reflexivity|]. split; [|split; split; try discriminate; auto].
    split.
    + intros [H|[]]. discriminate.
    + intros (recs' & w1' & Hget' & Hs'). rewrite Hget in Hget'.
      injection Hget' as <- <-. congruence.
  - split; [right; reflexivity|]. split; [|split; split; auto].
    split; [eauto | auto].
  - split; [right; reflexivity|]. split; [|split; split; discriminate].
    split; [eauto | auto].
Qed.

(** ** What one hostname costs a pass *)

Lemma queried_single (c : config.Config) (h : string) :
  queried c [h]
  = if config.DryRun c then []
    else if config.MatchesFilters c h then [h] else [].
Proof. unfold queried, passing. cbn [List.filter]. reflexivity. Qed.

Lemma queried_app (c : config.Config) (hs1 hs2 : list string) :
  queried c (hs1 ++ hs2) = queried c hs1 ++ queried c hs2.
Proof.
  unfold queried, passing. destruct (config.DryRun c); [reflexivity|].
  apply List.filter_app.
Qed.

Lemma queried_cons (c : config.Config) (h : string) (hs : list string) :
  queried c (h :: hs) = queried c [h] ++ queried c hs.
Proof. apply (queried_app c [h] hs). Qed.

Lemma queried_passing (c : config.Config) (hs : list string) (h : string) :
  In h (queried c hs) -> In h (passing c hs).
Proof. unfold queried. destruct (config.DryRun c); [intros []|auto]. Qed.

Lemma passing_app (c : config.Config) (hs1 hs2 : list string) :
  passing c (hs1 ++ hs2) = passing c hs1 ++ passing c hs2.
Proof. apply List.filter_app. Qed.

Section Passes.
Import config reconciler.
Context {W : Type} (env : Env W) (r : Reconciler).
Implicit Types (host : string) (res : ReconcileResult) (w : W).

(** One call of [ensureRecord]: the calls that fail, what it counts, and
    what its error says. *)
Lemma ensureRecord_facts wn host res w :
  let x := run env (ensureRecord r wn host res) w in
  Z.of_nat (length (failed (trace x))) = failure_count (value x).2
  /\ logged LevelError (trace x) = []
  /\ HostnamesFiltered (value x).1
     = (HostnamesFiltered res + passed (cfg r) [host])%Z
  /\ (forall err, (value x).2 = Some err ->
        MatchesFilters (cfg r) host = true
        /\ exists m, client_error host m /\ err = "creating A record: " +:+ m).
Proof.
  cbv zeta. rewrite passed_cons.
  destruct (MatchesFilters (cfg r) host) eqn:Hf.
  2: { rewrite run_ensureRecord_filtered by assumption.
       cbv [value trace fst snd]. cbn [answers failed logged length failure_count].
       unfold passed, passing. cbn [List.filter length].
       split; [lia|split; [reflexivity|split; [simpl; lia|discriminate]]]. }
  destruct (DryRun (cfg r)) eqn:Hd.
  { rewrite run_ensureRecord_dry by assumption.
    cbv [value trace fst snd]. cbn [answers failed logged length failure_count].
    unfold passed, passing. cbn [List.filter length].
    split; [lia|split; [reflexivity|split; [simpl; lia|discriminate]]]. }
  rewrite run_ensureRecord_live by assumption. cbv zeta.
  unfold passed, passing. cbn [List.filter length].
  destruct (EnsureARecord_ensured env (TechnitiumZone (cfg r)) host (TargetIP (cfg r))
              (TTL (cfg r)) w)
    as [e Hno He|recs w1 Hget Hs|recs w1 w2 Hget Hs Hadd|recs w1 w2 e Hget Hs Hadd];
    cbv [value trace fst snd];
    cbn [app answers failed logged length failure_count concat
         incHostnamesFiltered incRecordsCreated incRecordsExisted HostnamesFiltered].
  - split; [lia|split; [reflexivity|split; [simpl; lia|]]].
    intros err [= <-]. split; [reflexivity|]. eauto.
  - split; [lia|split; [reflexivity|split; [simpl; lia|discriminate]]].
  - split; [lia|split; [reflexivity|split; [simpl; lia|discriminate]]].
  - split; [lia|split; [reflexivity|split; [simpl; lia|]]].
    intros err [= <-]. split; [reflexivity|].
    eexists. split; [|reflexivity]. right. right. eauto.
Qed.

(** One turn of the loop of [ReconcileHostnames]. *)
Lemma run_ensureHostnames_cons wn h rest res w :
  run env (ensureHostnames r wn (h :: rest) res) w
  = match (value (run env (ensureRecord r wn h res) w)).2 with
    | Some err =>
        after (trace (run env (ensureRecord r wn h res) w)
               ++ [ELog LevelError "failed to ensure record"])
          (run env
             (ensureHostnames r wn rest
                (appendError ("hostname " +:+ h +:+ ": " +:+ err)
                   (value (run env (ensureRecord r wn h res) w)).1))
             (world (run env (ensureRecord r wn h res) w)))
    | None =>
        after (trace (run env (ensureRecord r wn h res) w))
          (run env
             (ensureHostnames r wn rest (value (run env (ensureRecord r wn h res) w)).1)
             (world (run env (ensureRecord r wn h res) w)))
    end.
Proof.
  cbn [ensureHostnames]. rewrite run_bind.
  destruct (value (run env (ensureRecord r wn h res) w)) as [res1 [e|]];
    cbn [fst snd]; [|reflexivity].
  cbn [run]. unfold after, emit, value, world, trace. cbn [fst snd].
  rewrite <- app_assoc. reflexivity.
Qed.

Lemma ensureHostnames_app wn hs1 hs2 res w :
  run env (ensureHostnames r wn (hs1 ++ hs2) res) w
  = after (trace (run env (ensureHostnames r wn hs1 res) w))
      (run env (ensureHostnames r wn hs2 (value (run env (ensureHostnames r wn hs1 res) w)))
         (world (run env (ensureHostnames r wn hs1 res) w))).
Proof.
  revert res w. induction hs1 as [|h rest IH]; intros res w.
  - simpl. cbv [value world trace fst snd]. rewrite after_nil. reflexivity.
  - rewrite <- app_comm_cons. rewrite !run_ensureHostnames_cons.
    destruct ((value (run env (ensureRecord r wn h res) w)).2);
      rewrite IH, value_after, world_after, trace_after, after_after;
      reflexivity.
Qed.

Lemma hostname_error_cons h hs e :
  hostname_error r hs e -> hostname_error r (h :: hs) e.
Proof.
  intros (h' & m & Hin & Hm & ->). exists h', m. split; [|auto].
  apply passing_cons_incl. exact Hin.
Qed.

(** The loop of [ReconcileHostnames]: every failure is one more entry of
    [Errors] and one line of the error log. *)
Lemma ensureHostnames_facts wn hs res w :
  let x := run env (ensureHostnames r wn hs res) w in
  length (logged LevelError (trace x)) = length (failed (trace x))
  /\ HostnamesFiltered (value x) = (HostnamesFiltered res + passed (cfg r) hs)%Z
  /\ (exists new,
        Errors (value x) = Errors res ++ new
        /\ length new = length (failed (trace x))
        /\ Forall (hostname_error r hs) new).
Proof.
  cbv zeta. revert res w. induction hs as [|h rest IH]; intros res w.
  - cbv [value trace fst snd]. cbn [run answers logged failed length].
    split; [reflexivity|]. split; [unfold passed, passing; cbn; lia|].
    exists []. rewrite app_nil_r. repeat split. constructor.
  - rewrite run_ensureHostnames_cons, passed_cons.
    destruct (ensureRecord_facts wn h res w) as (Hf1 & Hl1 & Hc1 & He1).
    pose proof (ensureRecord_errors env r wn h res w) as Hkeep.
    rewrite passed_cons in Hc1. unfold passed at 1 in Hc1.
    cbn [passing List.filter length] in Hc1.
    destruct (value (run env (ensureRecord r wn h res) w)) as [res1 [err|]] eqn:Hv;
      cbn [fst snd failure_count] in *;
      rewrite value_after, trace_after;
      match goal with |- context [ensureHostnames r wn rest ?x] =>
        destruct (IH x (world (run env (ensureRecord r wn h res) w)))
          as (Hl2 & Hc2 & (new & Hn2 & Hn3 & Hn4)) end.
    + destruct (He1 err eq_refl) as (Hf & m & Hm & ->).
      rewrite !logged_app, !failed_app, !length_app, Hl1.
      cbn [answers logged failed length app].
      split; [lia|].
      split; [rewrite Hc2; cbn [appendError HostnamesFiltered]; rewrite Hc1; lia|].
      exists (("hostname " +:+ h +:+ ": " +:+ "creating A record: " +:+ m) :: new).
      split; [rewrite Hn2; cbn [appendError Errors]; rewrite Hkeep, <- app_assoc;
              reflexivity|].
      split; [cbn [length]; lia|].
      constructor.
      * exists h, m. split; [|auto].
        unfold passing. cbn [List.filter]. rewrite Hf. left. reflexivity.
      * eapply Forall_impl; [exact Hn4|]. intros e. apply hostname_error_cons.
    + rewrite !logged_app, !failed_app, !length_app, Hl1.
      cbn [length].
      split; [lia|].
      split; [rewrite Hc2, Hc1; lia|].
      exists new.
      split; [rewrite Hn2, Hkeep; reflexivity|].
      split; [lia|].
      eapply Forall_impl; [exact Hn4|]. intros e. apply hostname_error_cons.
Qed.

End Passes.

(** ** The partial pass *)

Section PartialPass.
Import config reconciler.
Context {W : Type} (env : Env W) (r : Reconciler).

Lemma run_ReconcileHostnames wn hs w :
  let x := run env (ensureHostnames r wn hs
                      (addHostnamesFound (Z.of_nat (length hs)) emptyResult))
             (clock env w).2 in
  run env (ReconcileHostnames r wn hs) w
  = ((Some (setDuration ((clock env (world x)).1 - (clock env w).1) (value x)), None),
     (clock env (world x)).2,
     ELock :: ELog LevelDebug "reconciling specific hostnames" :: trace x ++ [EUnlock]).
Proof.
  cbv zeta. unfold ReconcileHostnames. rewrite run_with_mutex.
  cbn [run]. rewrite !value_emit, !world_emit, !trace_emit, run_bind.
  cbn [run]. cbv [value world trace emit fst snd]. rewrite app_nil_r.
  reflexivity.
Qed.

Lemma ensureHostnames_frame wn hs res w :
  let res' := value (run env (ensureHostnames r wn hs res) w) in
  WorkloadsScanned res' = WorkloadsScanned res
  /\ HostnamesFound res' = HostnamesFound res
  /\ (unsettled res' - Z.of_nat (length (Errors res'))
      = unsettled res - Z.of_nat (length (Errors res)))%Z.
Proof.
  cbv zeta. revert res w. induction hs as [|h rest IH]; intros res w.
  - unfold value; simpl. repeat split; lia.
  - rewrite run_ensureHostnames_cons.
    pose proof (ensureRecord_frame env r wn h res w) as Hstep.
    unfold step_frame in Hstep.
    destruct (value (run env (ensureRecord r wn h res) w)) as [res1 [e|]];
      cbn [fst snd] in *; rewrite value_after;
      destruct Hstep as (H1 & H2 & H3 & H4);
      match goal with |- context [ensureHostnames r wn rest ?x] =>
        destruct (IH x (world (run env (ensureRecord r wn h res) w)))
          as (I1 & I2 & I3) end.
    + unfold unsettled, failure_count in *. simpl in *.
      rewrite H3, length_app in *. simpl in *. repeat split; lia.
    + unfold unsettled, failure_count in *. simpl in *.
      rewrite H3 in *. repeat split; lia.
Qed.

Lemma ensureHostnames_created wn hs res w :
  DryRun (cfg r) = false ->
  RecordsCreated (value (run env (ensureHostnames r wn hs res) w))
  = (RecordsCreated res
     + created_in (trace (run env (ensureHostnames r wn hs res) w)))%Z.
Proof.
  intros Hlive. revert res w. induction hs as [|h rest IH]; intros res w.
  - unfold value, trace, created_in; simpl. lia.
  - rewrite run_ensureHostnames_cons.
    pose proof (ensureRecord_created env r Hlive wn h res w) as Hstep.
    destruct (value (run env (ensureRecord r wn h res) w)) as [res1 [e|]];
      cbn [fst snd] in *; rewrite value_after, trace_after, IH,
        !created_in_app.
    + unfold created_in at 3; simpl. lia.
    + lia.
Qed.

End PartialPass.

(** X2 -- the accounts of [ReconcileHostnames].  The function never returns
    an error: it returns a result that counts no workload, counts every
    hostname it was given as found and every one that passes the filter as
    filtered; each of those is counted as created, as already present, or
    stands behind one entry of [Errors]; there is one entry of [Errors] and
    one line of the error log for each call the gateway failed, each entry
    naming its hostname; and outside dry-run mode the created count is that
    of the creates the gateway carried out. *)
Theorem ReconcileHostnames_accounts {W : Type} (env : Env W)
  (r : reconciler.Reconciler) (wn : string) (hostnames : list string) (w : W) :
  let x := run env (reconciler.ReconcileHostnames r wn hostnames) w in
  exists res,
    value x = (Some res, None)
    /\ reconciler.WorkloadsScanned res = 0%Z
    /\ reconciler.HostnamesFound res = Z.of_nat (length hostnames)
    /\ reconciler.HostnamesFiltered res = passed (reconciler.cfg r) hostnames
    /\ reconciler.HostnamesFiltered res
       = (reconciler.RecordsCreated res + reconciler.RecordsExisted res
          + Z.of_nat (length (reconciler.Errors res)))%Z
    /\ length (reconciler.Errors res) = length (failed (trace x))
    /\ length (logged LevelError (trace x)) = length (failed (trace x))
    /\ Forall (hostname_error r hostnames) (reconciler.Errors res)
    /\ (config.DryRun (reconciler.cfg r) = false ->
        reconciler.RecordsCreated res = created_in (trace x)).
Proof.
  cbv zeta. rewrite run_ReconcileHostnames. cbv zeta.
  set (init := reconciler.addHostnamesFound (Z.of_nat (length hostnames))
                 reconciler.emptyResult).
  destruct (ensureHostnames_facts env r wn hostnames init (clock env w).2)
    as (Hlog & Hfil & (new & Hnew & Hlen & Hform)).
  destruct (ensureHostnames_frame env r wn hostnames init (clock env w).2)
    as (Hscan & Hfound & Hbal).
  set (x := run env (reconciler.ensureHostnames r wn hostnames init) (clock env w).2)
    in *.
  eexists. split; [reflexivity|].
  rewrite !trace_triple.
  cbn [logged failed]. rewrite logged_app, failed_app, !length_app.
  cbn [logged failed length]. rewrite !Nat.add_0_r.
  cbn [reconciler.setDuration reconciler.WorkloadsScanned reconciler.HostnamesFound
       reconciler.HostnamesFiltered reconciler.RecordsCreated
       reconciler.RecordsExisted reconciler.Errors].
  unfold init in Hscan, Hfound, Hfil, Hbal, Hnew. unfold unsettled in Hbal.
  cbn in Hscan, Hfound, Hfil, Hbal, Hnew. subst new.
  repeat split; try assumption; try lia.
  - intros Hlive.
    unfold x.
    rewrite (ensureHostnames_created env r wn hostnames init (clock env w).2 Hlive).
    unfold created_in. cbn [performed]. rewrite performed_app.
    cbn [performed]. rewrite app_nil_r. unfold init. cbn. reflexivity.
Qed.

(** ** The full pass, call by call *)

Section FullPassCalls.
Import config reconciler.
Context {W : Type} (env : Env W) (r : Reconciler).
Implicit Types (host : string) (res : ReconcileResult) (w : W).

(** One turn of the loop of [processWorkload]: the first error returns. *)
Lemma run_ensureHosts_cons wn h rest res w :
  run env (ensureHosts r wn (h :: rest) res) w
  = match (value (run env (ensureRecord r wn h res) w)).2 with
    | Some err =>
        (((value (run env (ensureRecord r wn h res) w)).1,
          Some ("ensuring record for " +:+ h +:+ ": " +:+ err)),
         world (run env (ensureRecord r wn h res) w),
         trace (run env (ensureRecord r wn h res) w))
    | None =>
        after (trace (run env (ensureRecord r wn h res) w))
          (run env
             (ensureHosts r wn rest (value (run env (ensureRecord r wn h res) w)).1)
             (world (run env (ensureRecord r wn h res) w)))
    end.
Proof.
  cbn [ensureHosts]. rewrite run_bind.
  destruct (value (run env (ensureRecord r wn h res) w)) as [res1 [e|]];
    cbn [fst snd]; [|reflexivity].
  cbn [run]. rewrite value_triple, world_triple, trace_triple, app_nil_r.
  reflexivity.
Qed.

Lemma ensureHosts_stops wn hs1 hs2 res w e :
  (value (run env (ensureHosts r wn hs1 res) w)).2 = Some e ->
  run env (ensureHosts r wn (hs1 ++ hs2) res) w
  = run env (ensureHosts r wn hs1 res) w.
Proof.
  revert res w. induction hs1 as [|h rest IH]; intros res w.
  - cbn [ensureHosts run]. rewrite value_triple. discriminate.
  - rewrite <- app_comm_cons, !run_ensureHosts_cons.
    destruct ((value (run env (ensureRecord r wn h res) w)).2) as [err|];
      [reflexivity|].
    rewrite value_after. intros H. rewrite (IH _ _ H). reflexivity.
Qed.

Lemma ensureHosts_facts wn hosts res w :
  let x := run env (ensureHosts r wn hosts res) w in
  Z.of_nat (length (failed (trace x))) = failure_count (value x).2
  /\ logged LevelError (trace x) = []
  /\ (forall err, (value x).2 = Some err ->
        exists h m,
          In h (passing (cfg r) hosts) /\ client_error h m
          /\ err = "ensuring record for " +:+ h +:+ ": creating A record: " +:+ m).
Proof.
  cbv zeta. revert res w. induction hosts as [|h rest IH]; intros res w.
  - cbn [ensureHosts run]. rewrite value_triple, trace_triple.
    cbn [answers failed logged length failure_count snd].
    split; [reflexivity|split; [reflexivity|discriminate]].
  - rewrite run_ensureHosts_cons.
    destruct (ensureRecord_facts env r wn h res w) as (Hf1 & Hl1 & _ & He1).
    destruct (value (run env (ensureRecord r wn h res) w)) as [res1 [err|]] eqn:Hv;
      cbn [fst snd] in *.
    + rewrite value_triple, trace_triple. cbn [snd].
      destruct (He1 err eq_refl) as (Hf & m & Hm & ->).
      split; [exact Hf1|split; [exact Hl1|]].
      intros ? [= <-]. exists h, m. split; [|auto].
      unfold passing. cbn [List.filter]. rewrite Hf. left. reflexivity.
    + rewrite value_after, trace_after.
      destruct (IH res1 (world (run env (ensureRecord r wn h res) w)))
        as (Hf2 & Hl2 & He2).
      rewrite failed_app, logged_app, length_app, Hl1, Hl2.
      cbn [failure_count] in Hf1.
      split; [lia|split; [reflexivity|]].
      intros err Herr. destruct (He2 err Herr) as (h' & m & Hin & Hm & ->).
      exists h', m. split; [apply passing_cons_incl; exact Hin|auto].
Qed.

Lemma processWorkload_facts wl res w :
  let hosts := ExtractHosts (parser r) (Labels wl) in
  let x := run env (processWorkload r wl res) w in
  Z.of_nat (length (failed (trace x))) = failure_count (value x).2
  /\ logged LevelError (trace x) = []
  /\ (forall err, (value x).2 = Some err ->
        exists h m,
          In h (passing (cfg r) hosts) /\ client_error h m
          /\ err = "ensuring record for " +:+ h +:+ ": creating A record: " +:+ m).
Proof.
  cbv zeta. unfold processWorkload.
  destruct (ExtractHosts (parser r) (Labels wl)) as [|h hs] eqn:Hx.
  - cbn [length Nat.eqb run]. rewrite value_emit, trace_emit, value_triple, trace_triple.
    cbn [answers failed logged length failure_count snd].
    split; [reflexivity|split; [reflexivity|discriminate]].
  - cbn [length Nat.eqb run]. rewrite value_emit, trace_emit.
    cbn [answers failed logged].
    apply ensureHosts_facts.
Qed.

Lemma workload_error_cons wl workloads e :
  workload_error r workloads e -> workload_error r (wl :: workloads) e.
Proof.
  intros (wl' & h & m & Hin & H). exists wl', h, m. split; [right; exact Hin|exact H].
Qed.

Lemma foundHosts_cons wl workloads :
  foundHosts r (wl :: workloads)
  = ExtractHosts (parser r) (Labels wl) ++ foundHosts r workloads.
Proof. reflexivity. Qed.

(** The loop of [Reconcile]: every failure is one more entry of [Errors]
    and one line of the error log. *)
Lemma processWorkloads_facts workloads res w :
  let x := run env (processWorkloads r workloads res) w in
  (exists new,
      Errors (value x) = Errors res ++ new
      /\ length new = length (failed (trace x))
      /\ Forall (workload_error r workloads) new)
  /\ length (logged LevelError (trace x)) = length (failed (trace x)).
Proof.
  cbv zeta. revert res w. induction workloads as [|wl rest IH]; intros res w.
  - cbn [processWorkloads run]. rewrite value_triple, trace_triple.
    cbn [answers failed logged length].
    split; [|reflexivity].
    exists []. rewrite app_nil_r.
    split; [reflexivity|]. split; [reflexivity|constructor].
  - rewrite run_processWorkloads_cons.
    destruct (processWorkload_facts wl res w) as (Hf1 & Hl1 & He1).
    destruct (processWorkload_frame env r wl res w) as (_ & _ & Hkeep & _).
    destruct (value (run env (processWorkload r wl res) w)) as [res1 [err|]] eqn:Hv;
      cbn [fst snd failure_count] in *;
      rewrite value_after, trace_after;
      match goal with |- context [processWorkloads r rest ?x] =>
        destruct (IH x (world (run env (processWorkload r wl res) w)))
          as ((new & Hn2 & Hlen2 & Hform2) & Hl2)
      end.
    + destruct (He1 err eq_refl) as (h & m & Hin & Hm & ->).
      rewrite !logged_app, !failed_app, !length_app, Hl1.
      cbn [answers logged failed length app].
      split; [|lia].
      exists (("workload " +:+ WName wl +:+ ": " +:+ "ensuring record for " +:+ h
               +:+ ": creating A record: " +:+ m) :: new).
      split; [rewrite Hn2; cbn [appendError Errors]; rewrite Hkeep, <- app_assoc;
              reflexivity|].
      split; [cbn [length]; lia|].
      constructor.
      * exists wl, h, m. split; [left; reflexivity|auto].
      * eapply Forall_impl; [exact Hform2|]. intros e. apply workload_error_cons.
    + rewrite !logged_app, !failed_app, !length_app, Hl1.
      cbn [length].
      split; [|lia].
      exists new.
      split; [rewrite Hn2, Hkeep; reflexivity|].
      split; [lia|].
      eapply Forall_impl; [exact Hform2|]. intros e. apply workload_error_cons.
Qed.

End FullPassCalls.

(** X4 -- [processWorkload] gives up a workload at its first failing
    hostname.  When the hostnames of a workload are [hs1 ++ hs2] and the
    loop fails within [hs1], [processWorkload] returns that error, its calls
    and the state of the gateway are those of the loop over [hs1] alone: the
    hostnames of [hs2] are never asked about; they are counted in
    [HostnamesFound] all the same. *)
Theorem processWorkload_stops_at_first_failure {W : Type} (env : Env W)
  (r : reconciler.Reconciler) (wl : Workload) (res : reconciler.ReconcileResult)
  (w : W) (hs1 hs2 : list string) (e : string) :
  reconciler.ExtractHosts (reconciler.parser r) (Labels wl) = hs1 ++ hs2 ->
  let res0 := reconciler.addHostnamesFound (Z.of_nat (length (hs1 ++ hs2))) res in
  let part := run env (reconciler.ensureHosts r (WName wl) hs1 res0) w in
  (value part).2 = Some e ->
  let x := run env (reconciler.processWorkload r wl res) w in
  (value x).2 = Some e
  /\ calls (trace x) = calls (trace part)
  /\ world x = world part
  /\ reconciler.HostnamesFound (value x).1
     = (reconciler.HostnamesFound res + Z.of_nat (length (hs1 ++ hs2)))%Z.
Proof.
  intros Hx res0 part He x. subst x part.
  unfold reconciler.processWorkload. rewrite Hx. fold res0.
  destruct (hs1 ++ hs2) as [|h hs] eqn:Happ.
  { destruct hs1; [|discriminate].
    cbn [reconciler.ensureHosts run] in He. rewrite value_triple in He.
    discriminate. }
  cbn [length Nat.eqb run]. rewrite <- Happ.
  rewrite value_emit, world_emit, trace_emit.
  rewrite (ensureHosts_stops env r _ hs1 hs2 res0 w e He).
  cbn [calls]. split; [exact He|]. split; [reflexivity|]. split; [reflexivity|].
  destruct (ensureHosts_frame env r (WName wl) hs1 res0 w) as (_ & Hfound & _).
  rewrite Hfound. unfold res0. cbn. lia.
Qed.

Lemma processWorkload_stops_at_first_failure_witness :
  let r := sampleReconciler false in
  let x := run refEnv (reconciler.processWorkload r twoHostWorkload
                         reconciler.emptyResult) partialWorld in
  (value x).2
    = Some ("ensuring record for app.example.com: creating A record: "
            +:+ "getting records for app.example.com: connection refused")
  /\ calls (trace x) = [CGet "example.com" "app.example.com"]
  /\ world x = partialWorld
  /\ reconciler.HostnamesFound (value x).1 = 2%Z.
Proof.
  apply (processWorkload_stops_at_first_failure refEnv (sampleReconciler false)
           twoHostWorkload reconciler.emptyResult partialWorld
           ["app.example.com"] ["api.example.com"]).
  - reflexivity.
  - reflexivity.
Defined.

(** X6 -- every failure of a full pass is reported once.  When the listing
    succeeds, [Reconcile] returns a result whose [Errors] has one entry for
    each call the gateway failed, and the error log one line for each; an
    entry names a listed workload and one of its hostnames that pass the
    filter, and ends in the message of the client; and the pass is counted
    in the reconciliation metric as "error" when there is an entry, as
    "success" when there is none. *)
Theorem Reconcile_reports_failures {W : Type} (env : Env W)
  (r : reconciler.Reconciler) (w w' : W) (workloads : list Workload) :
  docker_list env (clock env w).2 = (Ok workloads, w') ->
  let x := run env (reconciler.Reconcile r) w in
  exists res,
    value x = (Some res, None)
    /\ length (reconciler.Errors res) = length (failed (trace x))
    /\ length (logged LevelError (trace x)) = length (failed (trace x))
    /\ Forall (workload_error r workloads) (reconciler.Errors res)
    /\ In (EMetric "RecordReconciliation"
             (match reconciler.Errors res with [] => "success" | _ => "error" end))
          (trace x).
Proof.
  intros Hlist. cbv zeta. rewrite (run_Reconcile_listed env r w workloads w' Hlist).
  cbv zeta.
  set (init := reconciler.setWorkloadsScanned (Z.of_nat (length workloads))
                 reconciler.emptyResult).
  destruct (processWorkloads_facts env r workloads init w')
    as ((new & Hn & Hlen & Hform) & Hlog).
  set (x := run env (reconciler.processWorkloads r workloads init) w') in *.
  unfold init in Hn.
  cbn [reconciler.setWorkloadsScanned reconciler.Errors reconciler.emptyResult app]
    in Hn.
  eexists. split; [reflexivity|].
  rewrite trace_triple. cbn [reconciler.setDuration reconciler.Errors].
  cbn [logged failed]. rewrite logged_app, failed_app, !length_app.
  cbn [logged failed length]. rewrite !Nat.add_0_r, Hn.
  split; [exact Hlen|]. split; [exact Hlog|]. split; [exact Hform|].
  right. right. right. right. apply in_or_app. right. left.
  destruct new; reflexivity.
Qed.

Lemma Reconcile_reports_failures_witness :
  let x := run refEnv (reconciler.Reconcile (sampleReconciler false)) partialWorld in
  exists res,
    value x = (Some res, None)
    /\ length (reconciler.Errors res) = length (failed (trace x))
    /\ length (logged LevelError (trace x)) = length (failed (trace x))
    /\ Forall (workload_error (sampleReconciler false) sampleWorkloads)
         (reconciler.Errors res)
    /\ In (EMetric "RecordReconciliation"
             (match reconciler.Errors res with [] => "success" | _ => "error" end))
          (trace x).
Proof.
  apply (Reconcile_reports_failures refEnv (sampleReconciler false) partialWorld
           {| zoneRecords := []; platform := Ok sampleWorkloads;
              unreachable := ["app.example.com"]; time := 1 |} sampleWorkloads).
  reflexivity.
Defined.

(** ** Passes against the reference server *)

Lemma scanRecords_app (l1 l2 : list DnsRecord) (ip : string) :
  technitium.scanRecords (l1 ++ l2) ip
  = technitium.scanRecords l1 ip || technitium.scanRecords l2 ip.
Proof.
  induction l1 as [|x l1 IH]; [reflexivity|].
  cbn [app technitium.scanRecords].
  destruct (String.eqb (Type_ x) "A" && String.eqb (IPAddress (rData x)) ip);
    [reflexivity|exact IH].
Qed.

Lemma holds_app (zone host ip : string) (w w' : RefWorld)
  (added : list (string * DnsRecord)) :
  zoneRecords w' = zoneRecords w ++ added ->
  holds zone host ip w'
  = holds zone host ip w
    || technitium.scanRecords (map snd (List.filter (at_name zone host) added)) ip.
Proof.
  intros H. unfold holds. rewrite H, List.filter_app, map_app, scanRecords_app.
  reflexivity.
Qed.

Lemma holds_grow (zone host ip : string) (w w' : RefWorld)
  (added : list (string * DnsRecord)) :
  zoneRecords w' = zoneRecords w ++ added ->
  holds zone host ip w = true -> holds zone host ip w' = true.
Proof. intros H Hh. rewrite (holds_app _ _ _ _ _ _ H), Hh. reflexivity. Qed.

Lemma holds_added (zone host ip : string) (ttl : Z) (w : RefWorld) :
  holds zone host ip
    (setZone (zoneRecords w ++ [(zone, a_record host ip ttl)]) w) = true.
Proof.
  rewrite (holds_app zone host ip w
             (setZone (zoneRecords w ++ [(zone, a_record host ip ttl)]) w)
             [(zone, a_record host ip ttl)] eq_refl).
  cbn [List.filter]. unfold at_name. cbn [fst snd a_record Name].
  rewrite !String.eqb_refl. cbn [andb map snd technitium.scanRecords].
  cbn [a_record Type_ rData IPAddress]. rewrite !String.eqb_refl.
  apply orb_true_r.
Qed.

Lemma holds_existsb (zone host ip : string) (w : RefWorld) :
  holds zone host ip w
  = existsb (fun e => at_name zone host e && is_a_with ip e.2) (zoneRecords w).
Proof.
  unfold holds. induction (zoneRecords w) as [|e l IH]; [reflexivity|].
  cbn [List.filter existsb]. destruct (at_name zone host e); cbn [andb orb map].
  - cbn [technitium.scanRecords]. unfold is_a_with at 1.
    destruct (String.eqb (Type_ e.2) "A" && String.eqb (IPAddress (rData e.2)) ip);
      [reflexivity|exact IH].
  - exact IH.
Qed.

Lemma holds_in (zone host ip : string) (ttl : Z) (w : RefWorld) :
  In (zone, a_record host ip ttl) (zoneRecords w) -> holds zone host ip w = true.
Proof.
  intros Hin. rewrite holds_existsb. apply existsb_exists.
  exists (zone, a_record host ip ttl). split; [exact Hin|].
  unfold at_name, is_a_with. cbn [fst snd a_record Name Type_ rData IPAddress].
  rewrite !String.eqb_refl. reflexivity.
Qed.

Lemma grown_refl (c : config.Config) (hosts : list string) (w : RefWorld) :
  grown c hosts w w [].
Proof. unfold grown. rewrite app_nil_r. repeat split; constructor. Qed.

Lemma grown_trans (c : config.Config) (h1 h2 : list string) (w w1 w2 : RefWorld)
  (a1 a2 : list (string * DnsRecord)) :
  grown c h1 w w1 a1 -> grown c h2 w1 w2 a2 -> grown c (h1 ++ h2) w w2 (a1 ++ a2).
Proof.
  intros (Z1 & P1 & U1 & T1 & F1 & N1) (Z2 & P2 & U2 & T2 & F2 & N2).
  unfold grown. rewrite Z2, Z1, app_assoc.
  split; [reflexivity|]. split; [congruence|]. split; [congruence|].
  split; [congruence|]. split; [|apply NoDup_app; split; [exact N1|split; [|exact N2]]].
  2: { intros e H1 H2. apply list_elem_of_In in H1, H2.
       rewrite List.Forall_forall in F2.
       destruct (F2 e H2) as (h & _ & Hno & ->).
       rewrite (holds_in _ _ _ (config.TTL c) w1) in Hno; [discriminate|].
       rewrite Z1. apply in_or_app. right. exact H1. }
  apply Forall_app. split.
  - eapply Forall_impl; [exact F1|]. intros e (h & Hin & Hh & ->).
    exists h. split; [apply in_or_app; left; exact Hin|auto].
  - eapply Forall_impl; [exact F2|]. intros e (h & Hin & Hh & ->).
    exists h. split; [apply in_or_app; right; exact Hin|].
    split; [|reflexivity].
    destruct (holds (config.TechnitiumZone c) h (config.TargetIP c) w) eqn:E;
      [|reflexivity].
    rewrite (holds_grow _ _ _ _ _ _ Z1 E) in Hh. discriminate.
Qed.

Section ReferencePass.
Import config reconciler.
Context (r : Reconciler).
Hypothesis Hlive : DryRun (cfg r) = false.
Local Abbreviation zone := (TechnitiumZone (cfg r)).
Local Abbreviation ip := (TargetIP (cfg r)).
Local Abbreviation ttl := (TTL (cfg r)).

Lemma ref_EnsureARecord (host : string) (w : RefWorld) :
  unreachable w = [] ->
  run refEnv (technitium.EnsureARecord zone host ip ttl) w
  = if holds zone host ip w
    then ((false, None), w,
          [ECall (CGet zone host) true; ELog LevelDebug "retrieved records";
           ELog LevelDebug "A record already exists"])
    else ((true, None), setZone (zoneRecords w ++ [(zone, a_record host ip ttl)]) w,
          [ECall (CGet zone host) true; ELog LevelDebug "retrieved records";
           ECall (CAdd zone host ip ttl) true; ELog LevelInfo "added A record"]).
Proof.
  intros Hup.
  assert (Hget : records_get refEnv zone host w
                 = (Payload (map snd (List.filter (at_name zone host) (zoneRecords w))),
                    w)).
  { cbn [records_get refEnv]. unfold ref_get, is_unreachable. rewrite Hup.
    reflexivity. }
  unfold holds.
  destruct (technitium.scanRecords _ ip) eqn:Hs.
  - apply (run_EnsureARecord_present refEnv _ _ _ _ _ _ _ Hget Hs).
  - apply (run_EnsureARecord_absent refEnv _ _ _ _ _ _ _ _ Hget Hs).
    cbn [records_add refEnv]. unfold ref_add, is_unreachable. rewrite Hup.
    reflexivity.
Qed.

Lemma passed_nil : passed (cfg r) [] = 0%Z.
Proof. reflexivity. Qed.

Lemma settles_app f1 f2 hs1 hs2 res res1 res2 (w w1 w2 : RefWorld) tr1 tr2 :
  settles r f1 hs1 res w res1 w1 tr1 ->
  settles r f2 hs2 res1 w1 res2 w2 tr2 ->
  settles r (f1 + f2) (hs1 ++ hs2) res w res2 w2 (tr1 ++ tr2).
Proof.
  intros (a1 & G1 & R1 & H1 & C1) (a2 & G2 & R2 & H2 & C2).
  exists (a1 ++ a2). rewrite passing_app, passed_app, length_app, Nat2Z.inj_add.
  split; [eapply grown_trans; eassumption|].
  split; [rewrite R2, R1, bump_bump; f_equal; lia|].
  split.
  - intros h Hin. apply in_app_or in Hin as [Hin|Hin]; [|auto].
    destruct G2 as (Z2 & _). eapply holds_grow; [exact Z2|]. auto.
  - rewrite calls_app, count_calls_app. lia.
Qed.

Lemma settles_found f g hs res res' (w w' : RefWorld) tr :
  settles r f hs (bump g 0 0 0 res) w res' w' tr ->
  settles r (g + f) hs res w res' w' tr.
Proof.
  intros (a & G & R & H & C). exists a. split; [exact G|].
  split; [rewrite R, bump_bump; f_equal; lia|]. split; assumption.
Qed.

Lemma settles_unreachable f hs res res' (w w' : RefWorld) tr :
  settles r f hs res w res' w' tr -> unreachable w' = unreachable w.
Proof. intros (a & (_ & _ & U & _) & _). exact U. Qed.

Lemma ref_ensureRecord wn h res (w : RefWorld) :
  unreachable w = [] ->
  let x := run refEnv (ensureRecord r wn h res) w in
  (value x).2 = None /\ settles r 0 [h] res w (value x).1 (world x) (trace x).
Proof.
  intros Hup. cbv zeta. unfold settles. rewrite passed_cons, passed_nil.
  unfold passing. cbn [List.filter].
  destruct (MatchesFilters (cfg r) h) eqn:Hf.
  2: { rewrite run_ensureRecord_filtered by assumption.
       rewrite value_triple, world_triple, trace_triple. split; [reflexivity|].
       exists []. split; [apply grown_refl|].
       split; [cbn [fst length]; rewrite <- (bump_zero res) at 1; f_equal; lia|].
       split; [intros ? []|reflexivity]. }
  rewrite run_ensureRecord_live by assumption. cbv zeta.
  rewrite (ref_EnsureARecord h w Hup).
  destruct (holds zone h ip w) eqn:Hh;
    rewrite value_triple, world_triple, trace_triple; cbn [fst snd];
    (split; [reflexivity|]).
  - exists []. split; [apply grown_refl|].
    split; [rewrite incRecordsExisted_bump, incHostnamesFiltered_bump, bump_bump;
            cbn [length]; f_equal; lia|].
    split; [intros ? [<-|[]]; exact Hh|reflexivity].
  - exists [(zone, a_record h ip ttl)].
    split; [unfold grown; split; [reflexivity|]; split; [reflexivity|];
            split; [reflexivity|]; split; [reflexivity|];
            split; [repeat constructor; exists h; split; [left; reflexivity|auto]
                   |apply NoDup_singleton]|].
    split; [rewrite incRecordsCreated_bump, incHostnamesFiltered_bump, bump_bump;
            cbn [length]; f_equal; lia|].
    split; [intros ? [<-|[]]; apply holds_added|reflexivity].
Qed.

Lemma ref_ensureHosts wn hosts res (w : RefWorld) :
  unreachable w = [] ->
  let x := run refEnv (ensureHosts r wn hosts res) w in
  (value x).2 = None /\ settles r 0 hosts res w (value x).1 (world x) (trace x).
Proof.
  cbv zeta. revert res w. induction hosts as [|h rest IH]; intros res w Hup.
  - cbn [ensureHosts run]. rewrite value_triple, world_triple, trace_triple.
    split; [reflexivity|]. exists []. split; [apply grown_refl|].
    split; [cbn [fst length]; rewrite passed_nil, <- (bump_zero res) at 1;
            f_equal; lia|].
    split; [intros ? []|reflexivity].
  - rewrite run_ensureHosts_cons.
    destruct (ref_ensureRecord wn h res w Hup) as (Hn & Hs).
    rewrite Hn. rewrite value_after, world_after, trace_after.
    pose proof (settles_unreachable _ _ _ _ _ _ _ Hs) as Hup1. rewrite Hup in Hup1.
    destruct (IH (value (run refEnv (ensureRecord r wn h res) w)).1
                (world (run refEnv (ensureRecord r wn h res) w)) Hup1) as (Hn2 & Hs2).
    split; [exact Hn2|].
    apply (settles_app 0 0 [h] rest _ _ _ _ _ _ _ _ Hs Hs2).
Qed.

Lemma ref_processWorkload wl res (w : RefWorld) :
  unreachable w = [] ->
  let hosts := ExtractHosts (parser r) (Labels wl) in
  let x := run refEnv (processWorkload r wl res) w in
  (value x).2 = None
  /\ settles r (Z.of_nat (length hosts)) hosts res w (value x).1 (world x) (trace x).
Proof.
  intros Hup. cbv zeta. unfold processWorkload.
  destruct (ExtractHosts (parser r) (Labels wl)) as [|h hs] eqn:Hx.
  - cbn [length Nat.eqb run].
    rewrite value_emit, world_emit, trace_emit, value_triple, world_triple,
      trace_triple.
    split; [reflexivity|]. exists []. split; [apply grown_refl|].
    split; [cbn [fst length]; rewrite passed_nil, <- (bump_zero res) at 1;
            f_equal; lia|].
    split; [intros ? []|reflexivity].
  - cbn [length Nat.eqb run]. rewrite value_emit, world_emit, trace_emit.
    destruct (ref_ensureHosts (WName wl) (h :: hs)
                (addHostnamesFound (Z.of_nat (S (length hs))) res) w Hup)
      as (Hn & Hs).
    split; [exact Hn|].
    rewrite addHostnamesFound_bump in Hs |- *. apply settles_found in Hs.
    rewrite Z.add_0_r in Hs.
    destruct Hs as (a & G & R & H & C). exists a.
    split; [exact G|]. split; [exact R|]. split; [exact H|exact C].
Qed.

Lemma ref_processWorkloads workloads res (w : RefWorld) :
  unreachable w = [] ->
  let x := run refEnv (processWorkloads r workloads res) w in
  settles r (Z.of_nat (length (foundHosts r workloads))) (foundHosts r workloads)
    res w (value x) (world x) (trace x).
Proof.
  cbv zeta. revert res w. induction workloads as [|wl rest IH]; intros res w Hup.
  - cbn [processWorkloads run]. rewrite value_triple, world_triple, trace_triple.
    exists []. split; [apply grown_refl|].
    split; [cbn [foundHosts map concat length]; rewrite passed_nil,
              <- (bump_zero res) at 1; f_equal; lia|].
    split; [intros ? []|reflexivity].
  - rewrite run_processWorkloads_cons, foundHosts_cons, length_app, Nat2Z.inj_add.
    destruct (ref_processWorkload wl res w Hup) as (Hn & Hs).
    rewrite Hn. rewrite value_after, world_after, trace_after.
    pose proof (settles_unreachable _ _ _ _ _ _ _ Hs) as Hup1. rewrite Hup in Hup1.
    apply (settles_app _ _ _ _ _ _ _ _ _ _ _ _ Hs (IH _ _ Hup1)).
Qed.

End ReferencePass.

Section ReferenceReconcile.
Import config reconciler.
Context (r : Reconciler).
Hypothesis Hlive : DryRun (cfg r) = false.
Local Abbreviation zone := (TechnitiumZone (cfg r)).
Local Abbreviation ip := (TargetIP (cfg r)).
Local Abbreviation ttl := (TTL (cfg r)).

Lemma ref_Reconcile (w : RefWorld) (workloads : list Workload) :
  platform w = Ok workloads ->
  unreachable w = [] ->
  let hosts := passing (cfg r) (foundHosts r workloads) in
  let x := run refEnv (Reconcile r) w in
  exists res added,
    value x = (Some res, None)
    /\ zoneRecords (world x) = zoneRecords w ++ added
    /\ platform (world x) = platform w
    /\ unreachable (world x) = []
    /\ Forall (fun e =>
                 exists h, In h hosts /\ holds zone h ip w = false
                           /\ e = (zone, a_record h ip ttl)) added
    /\ NoDup added
    /\ Errors res = []
    /\ HostnamesFiltered res = Z.of_nat (length hosts)
    /\ RecordsCreated res = Z.of_nat (length added)
    /\ RecordsExisted res = (Z.of_nat (length hosts) - Z.of_nat (length added))%Z
    /\ (forall h, In h hosts -> holds zone h ip (world x) = true)
    /\ count_calls is_create (calls (trace x)) = length added.
Proof.
  intros Hplat Hup. cbv zeta.
  assert (Hlist : docker_list refEnv (clock refEnv w).2
                  = (Ok workloads, (clock refEnv w).2)).
  { cbn [docker_list clock refEnv snd platform]. rewrite Hplat. reflexivity. }
  rewrite (run_Reconcile_listed refEnv r w workloads _ Hlist). cbv zeta.
  set (init := setWorkloadsScanned (Z.of_nat (length workloads)) emptyResult).
  assert (Hup0 : unreachable (clock refEnv w).2 = []) by exact Hup.
  destruct (ref_processWorkloads r Hlive workloads init (clock refEnv w).2 Hup0)
    as (added & (Z1 & P1 & U1 & T1 & F1 & ND1) & R1 & H1 & C1).
  set (x := run refEnv (processWorkloads r workloads init) (clock refEnv w).2) in *.
  exists (setDuration ((clock refEnv (world x)).1 - (clock refEnv w).1) (value x)),
    added.
  rewrite value_triple, world_triple, trace_triple.
  split; [reflexivity|].
  split; [exact Z1|]. split; [exact P1|]. split; [rewrite <- Hup0; exact U1|].
  split; [exact F1|]. split; [exact ND1|].
  rewrite R1. unfold init, passed.
  cbn [setDuration bump setWorkloadsScanned emptyResult Errors HostnamesFiltered
       RecordsCreated RecordsExisted].
  split; [reflexivity|]. split; [lia|]. split; [lia|]. split; [lia|].
  split; [exact H1|].
  cbn [calls count_calls is_create]. rewrite calls_app, count_calls_app, C1.
  cbn [calls count_calls]. lia.
Qed.

End ReferenceReconcile.

(** X7 -- a full pass converges.  Against a server that stores what is
    created and can be reached for every name, outside dry-run mode: a pass
    reports no error and leaves the zone grown by exactly one A record, with
    the configured address and TTL, for each hostname that the listed
    workloads route, the filter passes and the zone did not hold, however
    often and by however many workloads the hostname is routed: the records
    added are such records, none of them twice, and each such hostname has
    its record among them; nothing else is added and no record is changed or
    removed; after the pass the zone holds every such hostname.  A second
    pass right after it creates nothing: it counts every filtered hostname
    as already present, issues no create and leaves the zone as it is. *)
Theorem Reconcile_converges (r : reconciler.Reconciler) (w : RefWorld)
  (workloads : list Workload) :
  config.DryRun (reconciler.cfg r) = false ->
  platform w = Ok workloads ->
  unreachable w = [] ->
  let zone := config.TechnitiumZone (reconciler.cfg r) in
  let ip := config.TargetIP (reconciler.cfg r) in
  let ttl := config.TTL (reconciler.cfg r) in
  let hosts := passing (reconciler.cfg r) (foundHosts r workloads) in
  let x1 := run refEnv (reconciler.Reconcile r) w in
  let x2 := run refEnv (reconciler.Reconcile r) (world x1) in
  exists res1 res2 added,
    value x1 = (Some res1, None)
    /\ reconciler.Errors res1 = []
    /\ zoneRecords (world x1) = zoneRecords w ++ added
    /\ Forall (fun e =>
                 exists h, In h hosts /\ holds zone h ip w = false
                           /\ e = (zone, a_record h ip ttl)) added
    /\ NoDup added
    /\ (forall h, In h hosts -> holds zone h ip w = false ->
          In (zone, a_record h ip ttl) added)
    /\ reconciler.RecordsCreated res1 = Z.of_nat (length added)
    /\ (forall h, In h hosts -> holds zone h ip (world x1) = true)
    /\ value x2 = (Some res2, None)
    /\ reconciler.Errors res2 = []
    /\ reconciler.RecordsCreated res2 = 0%Z
    /\ reconciler.RecordsExisted res2 = reconciler.HostnamesFiltered res2
    /\ count_calls is_create (calls (trace x2)) = 0
    /\ zoneRecords (world x2) = zoneRecords (world x1).
Proof.
  intros Hlive Hplat Hup. cbv zeta.
  destruct (ref_Reconcile r Hlive w workloads Hplat Hup)
    as (res1 & added & V1 & Z1 & P1 & U1 & F1 & D1 & E1 & Fi1 & C1 & X1 & H1 & N1).
  rewrite Hplat in P1.
  destruct (ref_Reconcile r Hlive _ workloads P1 U1)
    as (res2 & added2 & V2 & Z2 & P2 & U2 & F2 & D2 & E2 & Fi2 & C2 & X2 & H2 & N2).
  assert (added2 = []) as ->.
  { destruct added2 as [|e rest]; [reflexivity|].
    apply Forall_cons in F2 as [(h & Hin & Hno & _) _].
    rewrite (H1 h Hin) in Hno. discriminate. }
  assert (Hall : forall h,
             In h (passing (reconciler.cfg r) (foundHosts r workloads)) ->
             holds (config.TechnitiumZone (reconciler.cfg r)) h
               (config.TargetIP (reconciler.cfg r)) w = false ->
             In (config.TechnitiumZone (reconciler.cfg r),
                 a_record h (config.TargetIP (reconciler.cfg r))
                   (config.TTL (reconciler.cfg r))) added).
  { intros h Hin Hno. specialize (H1 h Hin).
    rewrite (holds_app _ _ _ _ _ _ Z1), Hno in H1. cbn [orb] in H1.
    apply scanRecords_true in H1 as (rec & Hrec & _).
    apply in_map_iff in Hrec as (e & <- & He).
    apply filter_In in He as (He & Hat).
    rewrite List.Forall_forall in F1.
    destruct (F1 e He) as (h' & _ & _ & ->).
    unfold at_name in Hat. cbn [fst snd a_record Name] in Hat.
    apply andb_true_iff in Hat as (_ & Hname).
    apply String.eqb_eq in Hname. subst h'. exact He. }
  exists res1, res2, added. cbn [length] in *. rewrite app_nil_r in Z2.
  repeat split; try assumption; lia.
Qed.

Lemma Reconcile_converges_witness :
  let workloads := twoHostWorkload :: sampleWorkloads in
  let w := worldWith [("example.com", disabledRecord)] (Ok workloads) [] in
  let x1 := run refEnv (reconciler.Reconcile (sampleReconciler false)) w in
  let x2 := run refEnv (reconciler.Reconcile (sampleReconciler false)) (world x1) in
  exists res1 res2 added,
    value x1 = (Some res1, None)
    /\ reconciler.Errors res1 = []
    /\ zoneRecords (world x1) = [("example.com", disabledRecord)] ++ added
    /\ Forall (fun e =>
                 exists h,
                   In h (passing (sampleConfig false)
                           (foundHosts (sampleReconciler false) workloads))
                   /\ holds "example.com" h "10.0.0.1" w = false
                   /\ e = ("example.com", a_record h "10.0.0.1" 300)) added
    /\ NoDup added
    /\ (forall h,
          In h (passing (sampleConfig false)
                  (foundHosts (sampleReconciler false) workloads)) ->
          holds "example.com" h "10.0.0.1" w = false ->
          In ("example.com", a_record h "10.0.0.1" 300) added)
    /\ reconciler.RecordsCreated res1 = Z.of_nat (length added)
    /\ (forall h,
          In h (passing (sampleConfig false)
                  (foundHosts (sampleReconciler false) workloads)) ->
          holds "example.com" h "10.0.0.1" (world x1) = true)
    /\ value x2 = (Some res2, None)
    /\ reconciler.Errors res2 = []
    /\ reconciler.RecordsCreated res2 = 0%Z
    /\ reconciler.RecordsExisted res2 = reconciler.HostnamesFiltered res2
    /\ count_calls is_create (calls (trace x2)) = 0
    /\ zoneRecords (world x2) = zoneRecords (world x1).
Proof.
  apply (Reconcile_converges (sampleReconciler false)
           (worldWith [("example.com", disabledRecord)]
              (Ok (twoHostWorkload :: sampleWorkloads)) [])
           (twoHostWorkload :: sampleWorkloads)); reflexivity.
Defined.

(** The pass of the witness: [api.example.com] is routed by two workloads
    and gets one record. *)
Example Reconcile_shared_hostname :
  let w := worldWith [] (Ok (twoHostWorkload :: sampleWorkloads)) [] in
  let x := run refEnv (reconciler.Reconcile (sampleReconciler false)) w in
  zoneRecords (world x)
  = [("example.com", a_record "app.example.com" "10.0.0.1" 300);
     ("example.com", a_record "api.example.com" "10.0.0.1" 300)]
  /\ calls (trace x)
     = [CList;
        CGet "example.com" "app.example.com";
        CAdd "example.com" "app.example.com" "10.0.0.1" 300;
        CGet "example.com" "api.example.com";
        CAdd "example.com" "api.example.com" "10.0.0.1" 300;
        CGet "example.com" "app.example.com";
        CGet "example.com" "api.example.com"].
Proof. split; reflexivity. Qed.

(** ** The watcher over its whole run *)

Section WatchRun.
Import watcher.
Context {W : Type} (env : Env W) (w : Watcher).

Lemma take_returned_length t l out rest :
  take_returned t l = Some (out, rest) -> length l = S (length rest).
Proof.
  revert out rest. induction l as [|[t' o] l IH]; intros out rest; cbn [take_returned].
  - discriminate.
  - destruct (Nat.eqb t t').
    + intros [= <- <-]. reflexivity.
    + destruct (take_returned t l) as [[o' rest']|]; [|discriminate].
      intros [= <- <-]. cbn [length]. rewrite (IH o' rest' eq_refl). reflexivity.
Qed.

Lemma watch_inv_initial : watch_inv initial.
Proof. split; [reflexivity|intros t []]. Qed.

(** One turn of the loop, or one stretch of a callback, from a state that
    satisfies the invariant. *)
Lemma step_watch st world0 i :
  watch_inv st ->
  let o := step env w st world0 i in
  let tr := outcome_trace o in
  length (timers_armed tr) <= received [i]
  /\ Forall (fun p => p.2 = debounceInterval w) (timers_armed tr)
  /\ match o with
     | Continue st' _ _ =>
         watch_inv st'
         /\ length (timers_armed tr) + length (armed st)
            = reconciles tr + length (armed st')
         /\ timers_stopped tr = []
     | _ => reconciles tr = 0 /\ timers_armed tr = []
     end.
Proof.
  intros (Hcount & Hptr). cbv zeta.
  destruct i as [|[err|]|event|t|t]; unfold step; cbv zeta.
  - cbn [outcome_trace]. rewrite timers_armed_app, reconciles_app.
    destruct (debounceTimer st); cbn; repeat split; auto.
  - cbn. repeat split; auto.
  - cbn. repeat split; auto.
  - destruct (WRun_quiet (trace (run env (handleEvent event) world0)))
      as (Q1 & Q2 & Q3 & _).
    destruct (value (run env (handleEvent event) world0)).
    2: { cbn [outcome_trace]. rewrite Q1, Q2. cbn. repeat split; auto. }
    destruct (pendingReconcile st) eqn:Hp; cbn [negb outcome_trace].
    + rewrite Q1, Q2, Q3. cbn [length received].
      split; [lia|]. split; [constructor|].
      split; [split; [rewrite Hp; exact Hcount|exact Hptr]|]. split; reflexivity.
    + rewrite timers_armed_app, timers_stopped_app, reconciles_app, Q1, Q2, Q3.
      cbn [timers_armed timers_stopped reconciles app length received].
      destruct (armed st) as [|? ?]; [|cbn in Hcount; lia].
      destruct (returned st) as [|? ?]; [|cbn in Hcount; lia].
      split; [lia|]. split; [repeat constructor|].
      split; [|split; reflexivity].
      split; cbn; [reflexivity|]. intros t [<-|[]]. reflexivity.
  - destruct (existsb (Nat.eqb t) (armed st)) eqn:Hin.
    2: { cbn. repeat split; auto. }
    destruct (WRun_quiet (trace (run env (reconciler.Reconcile (rec w)) world0)))
      as (Q1 & Q2 & Q3 & _).
    cbn [outcome_trace timers_armed timers_stopped reconciles].
    rewrite Q1, Q2, Q3. cbn [length received].
    destruct (armed st) as [|t' [|? ?]] eqn:Harmed; cbn [existsb] in Hin;
      [discriminate| |destruct (pendingReconcile st); cbn in Hcount; lia].
    rewrite orb_false_r in Hin. apply Nat.eqb_eq in Hin. subst t'.
    destruct (pendingReconcile st) eqn:Hp; cbn [length] in Hcount; [|lia].
    destruct (returned st) as [|? ?] eqn:Hret; [|cbn in Hcount; lia].
    split; [lia|]. split; [constructor|].
    split; [|split; [|reflexivity]].
    + split; cbn [armed returned pendingReconcile debounceTimer remove_timer
                  List.filter]; rewrite Nat.eqb_refl; cbn [negb length].
      * reflexivity.
      * intros ? [].
    + cbn [armed remove_timer List.filter]. rewrite Nat.eqb_refl. reflexivity.
  - destruct (take_returned t (returned st)) as [[out rest]|] eqn:Htake.
    2: { cbn. repeat split; auto. }
    apply take_returned_length in Htake.
    cbn [outcome_trace timers_armed timers_stopped reconciles length received].
    destruct (pendingReconcile st); rewrite Htake in Hcount; [|lia].
    destruct (armed st) as [|? ?] eqn:Harmed; [|cbn in Hcount; lia].
    destruct rest as [|? ?]; [|cbn in Hcount; lia].
    split; [lia|]. split; [constructor|].
    split; [|split; reflexivity].
    split; cbn [armed returned pendingReconcile debounceTimer length].
    + reflexivity.
    + intros ? [].
Qed.

Lemma outcome_trace_prefix (tr : list WEvent) (o : Outcome W) :
  outcome_trace (prefix_trace tr o)
  = match o with Impossible => [] | _ => tr ++ outcome_trace o end.
Proof. destruct o; reflexivity. Qed.

Lemma steps_watch st world0 inputs :
  watch_inv st ->
  let o := steps env w st world0 inputs in
  let tr := outcome_trace o in
  reconciles tr <= length (timers_armed tr) + length (armed st)
  /\ length (timers_armed tr) <= received inputs
  /\ Forall (fun p => p.2 = debounceInterval w) (timers_armed tr)
  /\ match o with
     | Continue st' _ _ =>
         watch_inv st'
         /\ length (timers_armed tr) + length (armed st)
            = reconciles tr + length (armed st')
         /\ timers_stopped tr = []
     | _ => True
     end.
Proof.
  cbv zeta. revert st world0. induction inputs as [|i rest IH]; intros st world0 Hinv.
  - cbn [steps outcome_trace timers_armed reconciles timers_stopped length received].
    split; [lia|]. split; [lia|]. split; [constructor|].
    split; [exact Hinv|]. split; reflexivity.
  - cbn [steps]. destruct (step_watch st world0 i Hinv) as (S1 & S2 & S3).
    assert (Hrec : received (i :: rest) = received [i] + received rest)
      by (destruct i; reflexivity).
    rewrite Hrec.
    destruct (step env w st world0 i) as [st1 world1 tr1| | |];
      cbn [outcome_trace] in *.
    + destruct S3 as (Hinv1 & Heq & Hstop).
      destruct (IH st1 world1 Hinv1) as (I1 & I2 & I3 & I4).
      destruct (steps env w st1 world1 rest) as [st2 world2 tr2| | |];
        cbn [prefix_trace outcome_trace] in *;
        rewrite ?timers_armed_app, ?reconciles_app, ?timers_stopped_app, ?length_app;
        cbn [timers_armed reconciles length];
        (split; [lia|]); (split; [lia|]);
        (split; [try apply Forall_app; auto|]); auto.
      destruct I4 as (Hinv2 & Heq2 & Hstop2).
      split; [exact Hinv2|]. split; [lia|]. rewrite Hstop, Hstop2. reflexivity.
    + destruct S3 as (-> & ->). cbn. repeat split; auto; lia.
    + destruct S3 as (-> & ->). cbn. repeat split; auto; lia.
    + cbn. repeat split; auto; lia.
Qed.

End WatchRun.

(** X8 -- the watcher starts at most one pass per timer and one timer per
    event.  Over any inputs from its initial state, whatever the outcome:
    the passes started are never more than the timers armed, and those never
    more than the events received; every timer is armed with the configured
    debounce interval.  While the loop goes on, a reconciliation is pending
    exactly when one timer waits or one callback is under way, never more
    than one of the two, every timer armed has fired except the one that
    waits, and no timer was stopped. *)
Theorem Watch_passes_bounded {W : Type} (env : Env W) (w : watcher.Watcher)
  (world0 : W) (inputs : list watcher.Input) :
  let o := watcher.steps env w watcher.initial world0 inputs in
  let tr := watcher.outcome_trace o in
  watcher.reconciles tr <= length (watcher.timers_armed tr)
  /\ length (watcher.timers_armed tr) <= received inputs
  /\ Forall (fun p => p.2 = watcher.debounceInterval w) (watcher.timers_armed tr)
  /\ match o with
     | watcher.Continue st _ _ =>
         length (watcher.armed st) + length (watcher.returned st)
         = (if watcher.pendingReconcile st then 1 else 0)
         /\ length (watcher.timers_armed tr)
            = watcher.reconciles tr + length (watcher.armed st)
         /\ watcher.timers_stopped tr = []
     | _ => True
     end.
Proof.
  cbv zeta.
  destruct (steps_watch env w watcher.initial world0 inputs watch_inv_initial)
    as (H1 & H2 & H3 & H4).
  cbn [watcher.initial watcher.armed length] in H1, H4. rewrite Nat.add_0_r in H1.
  split; [exact H1|]. split; [exact H2|]. split; [exact H3|].
  destruct (watcher.steps env w watcher.initial world0 inputs); [|exact I..].
  destruct H4 as ((Hc & _) & Heq & Hs). rewrite Nat.add_0_r in Heq.
  split; [exact Hc|]. split; [exact Heq|exact Hs].
Qed.

(** X9 -- how [Watch] returns.  From any state the loop can reach: when the
    context is done, [Watch] stops the timer that waits, if there is one, so
    that no pass starts after it has returned, and returns the context's
    error; when the event stream fails, it returns the wrapped error without
    stopping anything, so a timer that waits stays armed. *)
Theorem Watch_return_stops_timer {W : Type} (env : Env W) (w : watcher.Watcher)
  (world0 world1 : W) (inputs : list watcher.Input) (st : watcher.State)
  (tr : list watcher.WEvent) :
  watcher.steps env w watcher.initial world0 inputs = watcher.Continue st world1 tr ->
  (exists tr1,
      watcher.step env w st world1 watcher.CtxDone
      = watcher.Returned "context canceled" tr1
      /\ (forall t, In t (watcher.armed st) -> watcher.timers_stopped tr1 = [t])
      /\ watcher.reconciles tr1 = 0)
  /\ (forall e, exists tr2,
        watcher.step env w st world1 (watcher.ErrRecv (Some e))
        = watcher.Returned ("event stream error: " +:+ e) tr2
        /\ watcher.timers_stopped tr2 = []
        /\ watcher.reconciles tr2 = 0).
Proof.
  intros Hsteps.
  destruct (steps_watch env w watcher.initial world0 inputs watch_inv_initial)
    as (_ & _ & _ & H4).
  rewrite Hsteps in H4. destruct H4 as ((_ & Hptr) & _).
  split.
  - eexists. split; [reflexivity|]. split.
    + intros t Hin. rewrite (Hptr t Hin). reflexivity.
    + destruct (watcher.debounceTimer st); reflexivity.
  - intros e. eexists. repeat split.
Qed.

Lemma Watch_return_stops_timer_witness :
  let st :=
    {| watcher.pendingReconcile := true; watcher.debounceTimer := Some 0;
       watcher.nextTimer := 1; watcher.armed := [0]; watcher.returned := [] |} in
  (exists tr1,
      watcher.step refEnv (sampleWatcher false) st emptyWorld watcher.CtxDone
      = watcher.Returned "context canceled" tr1
      /\ (forall t, In t (watcher.armed st) -> watcher.timers_stopped tr1 = [t])
      /\ watcher.reconciles tr1 = 0)
  /\ (forall e, exists tr2,
        watcher.step refEnv (sampleWatcher false) st emptyWorld
          (watcher.ErrRecv (Some e))
        = watcher.Returned ("event stream error: " +:+ e) tr2
        /\ watcher.timers_stopped tr2 = []
        /\ watcher.reconciles tr2 = 0).
Proof.
  eapply (Watch_return_stops_timer refEnv (sampleWatcher false) emptyWorld emptyWorld
            [watcher.EventRecv startEvent]).
  reflexivity.
Defined.

(** X10 -- when a handler panics.  [handleEvent] panics exactly on a
    service or container event whose actor has no (or an empty) [name]
    attribute and an identifier shorter than 12 bytes, whatever its action;
    an event of any other type never panics.  In [Watch] the panic comes
    before the debounce: the event arms no timer. *)
Theorem handleEvent_panics_iff {W : Type} (env : Env W) (w : watcher.Watcher)
  (st : watcher.State) (event : watcher.Message) (world0 : W) :
  let nameless :=
    (watcher.Type_ev event = "service" \/ watcher.Type_ev event = "container")
    /\ default "" (watcher.Attributes (watcher.actor event) !! "name") = ""
    /\ String.length (watcher.ID (watcher.actor event)) < 12 in
  (value (run env (watcher.handleEvent event) world0) = None <-> nameless)
  /\ (nameless ->
      exists tr,
        watcher.step env w st world0 (watcher.EventRecv event) = watcher.Panicked tr
        /\ watcher.timers_armed tr = [] /\ watcher.reconciles tr = 0).
Proof.
  cbv zeta.
  assert (Hiff :
    value (run env (watcher.handleEvent event) world0) = None <->
    (watcher.Type_ev event = "service" \/ watcher.Type_ev event = "container")
    /\ default "" (watcher.Attributes (watcher.actor event) !! "name") = ""
    /\ String.length (watcher.ID (watcher.actor event)) < 12).
  { unfold watcher.handleEvent. cbn [run]. rewrite !value_emit.
    unfold watcher.handleServiceEvent, watcher.handleContainerEvent,
      watcher.actorName, watcher.slice12,
      watcher.ServiceEventType, watcher.ContainerEventType.
    destruct (String.eqb_spec (watcher.Type_ev event) "service") as [Hs|Hs];
      [|destruct (String.eqb_spec (watcher.Type_ev event) "container") as [Hc|Hc]].
    3: { cbn [run]. rewrite value_triple. split; [discriminate|].
         intros ([?|?] & _); contradiction. }
    all: destruct (String.eqb_spec
                     (default "" (watcher.Attributes (watcher.actor event) !! "name"))
                     "") as [Hn|Hn];
      [destruct (Nat.leb_spec 12 (String.length (watcher.ID (watcher.actor event))))
         as [Hl|Hl]|];
      repeat match goal with
             | |- context [if ?b then _ else _] => destruct b
             end;
      cbn [run]; rewrite ?value_emit, ?value_triple;
      (split; [try discriminate; intros _; auto|]);
      try (intros (_ & Hn' & Hl'); try contradiction; lia);
      reflexivity. }
  split; [exact Hiff|].
  intros Hno. apply Hiff in Hno. unfold watcher.step. rewrite Hno.
  eexists. split; [reflexivity|].
  destruct (WRun_quiet (trace (run env (watcher.handleEvent event) world0)))
    as (Q1 & Q2 & _).
  split; assumption.
Qed.

(** X11 -- the subscription and the handlers agree.  A nameable event is
    logged at info level, once, exactly when it passes the filters that
    [buildEventFilters] builds for swarm mode or those it builds for any
    other mode: every subscribed event has its case in the handlers, and the
    handlers have no case that no mode subscribes to. *)
Theorem filters_agree_with_handlers {W : Type} (env : Env W)
  (ws wc : watcher.Watcher) (event : watcher.Message) (world0 : W) :
  watcher.dockerMode ws = "swarm" ->
  watcher.dockerMode wc <> "swarm" ->
  watcher.named event = true ->
  length (logged LevelInfo (trace (run env (watcher.handleEvent event) world0)))
  = if subscribed (watcher.buildEventFilters ws) event
       || subscribed (watcher.buildEventFilters wc) event
    then 1 else 0.
Proof.
  intros Hs Hc Hn.
  assert (Hname : exists n, watcher.actorName event = Some n).
  { unfold watcher.actorName, watcher.named, watcher.slice12 in *.
    destruct (String.eqb
                (default "" (watcher.Attributes (watcher.actor event) !! "name")) "");
      [|eauto].
    cbn [negb orb] in Hn. rewrite Hn. eauto. }
  destruct Hname as [n Hname].
  unfold watcher.buildEventFilters, watcher.ModeSwarm. rewrite Hs.
  apply String.eqb_neq in Hc. rewrite Hc. cbn [String.eqb Ascii.eqb Bool.eqb].
  unfold subscribed, watcher.handleEvent, watcher.handleServiceEvent,
    watcher.handleContainerEvent, watcher.ServiceEventType,
    watcher.ContainerEventType.
  rewrite Hname. cbn [existsb fst snd].
  destruct event as [ty act a]. cbn [watcher.Type_ev watcher.Action].
  cbn [run]. rewrite !trace_emit. cbn [logged].
  destruct (String.eqb_spec ty "service") as [->|Hty].
  - destruct (String.eqb_spec act "create") as [->|H1];
      [reflexivity|].
    destruct (String.eqb_spec act "update") as [->|H2]; [reflexivity|].
    destruct (String.eqb_spec act "remove") as [->|H3]; reflexivity.
  - destruct (String.eqb_spec ty "container") as [->|Hty2].
    + destruct (String.eqb_spec act "start") as [->|H1]; [reflexivity|].
      destruct (String.eqb_spec act "die") as [->|H2]; [reflexivity|].
      destruct (String.eqb_spec act "destroy") as [->|H3]; reflexivity.
    + cbn. repeat match goal with
                  | |- context [String.eqb ?a ?b] => destruct (String.eqb a b)
                  end; reflexivity.
Qed.

Lemma filters_agree_with_handlers_witness :
  length (logged LevelInfo
            (trace (run refEnv (watcher.handleEvent startEvent) emptyWorld)))
  = 1.
Proof.
  apply (filters_agree_with_handlers refEnv
           {| watcher.rec := sampleReconciler false; watcher.dockerMode := "swarm";
              watcher.debounceInterval := 5000000000 |}
           (sampleWatcher false) startEvent emptyWorld).
  - reflexivity.
  - discriminate.
  - reflexivity.
Defined.

(** ** The label parser *)

Lemma append_cons (c : ascii) (s t : string) : String c s +:+ t = String c (s +:+ t).
Proof. reflexivity. Qed.

Lemma append_nil_l (t : string) : "" +:+ t = t.
Proof. reflexivity. Qed.

Lemma append_assoc (s1 s2 s3 : string) : s1 +:+ s2 +:+ s3 = (s1 +:+ s2) +:+ s3.
Proof.
  induction s1 as [|c s1 IH]; [reflexivity|].
  rewrite !append_cons, IH. reflexivity.
Qed.

Lemma HasPrefix_app (s p : string) :
  traefik.HasPrefix s p = true <-> exists rest, s = p +:+ rest.
Proof.
  revert s. induction p as [|a p IH]; intros s; cbn [traefik.HasPrefix].
  - split; [intros _; exists s; reflexivity|reflexivity].
  - destruct s as [|b s]; [split; [discriminate|intros (rest & [=])]|].
    rewrite andb_true_iff, IH, Ascii.eqb_eq. split.
    + intros (-> & rest & ->). exists rest. reflexivity.
    + intros (rest & [= -> ->]). eauto.
Qed.

Lemma HasSuffix_app (s suffix : string) :
  traefik.HasSuffix s suffix = true <-> exists p, s = p +:+ suffix.
Proof.
  induction s as [|c s IH]; cbn [traefik.HasSuffix]; rewrite orb_true_iff.
  - split.
    + intros [H|H]; [|discriminate]. apply String.eqb_eq in H. exists "".
      exact H.
    + intros ([|? ?] & H); [left; apply String.eqb_eq; exact H|discriminate].
  - rewrite IH, String.eqb_eq. split.
    + intros [H|(p & ->)]; [exists ""; exact H|exists (String c p); reflexivity].
    + intros ([|a p] & H); [left; exact H|right].
      injection H as -> ->. eauto.
Qed.

Lemma Split_length (s : string) (sep : ascii) :
  length (traefik.Split s sep) = S (traefik.separators s sep).
Proof.
  induction s as [|c s IH]; [reflexivity|].
  cbn [traefik.Split traefik.separators].
  destruct (Ascii.eqb c sep); cbn [length]; [rewrite IH; reflexivity|].
  destruct (traefik.Split s sep); cbn [length] in *; lia.
Qed.

Lemma separators_app (s1 s2 : string) (sep : ascii) :
  traefik.separators (s1 +:+ s2) sep
  = traefik.separators s1 sep + traefik.separators s2 sep.
Proof.
  induction s1 as [|c s1 IH]; [reflexivity|].
  rewrite append_cons. cbn [traefik.separators]. rewrite IH. lia.
Qed.

Lemma isRouterRuleLabel_named (name : string) :
  traefik.isRouterRuleLabel ("traefik.http.routers." +:+ name +:+ ".rule") = true.
Proof.
  unfold traefik.isRouterRuleLabel.
  assert (H1 : traefik.HasPrefix ("traefik.http.routers." +:+ name +:+ ".rule")
                 "traefik.http.routers." = true)
    by (apply HasPrefix_app; eauto).
  assert (H2 : traefik.HasSuffix ("traefik.http.routers." +:+ name +:+ ".rule")
                 traefik.routerRuleSuffix = true).
  { apply HasSuffix_app. exists ("traefik.http.routers." +:+ name).
    unfold traefik.routerRuleSuffix. apply append_assoc. }
  rewrite H1, H2. cbn [negb]. cbv zeta.
  rewrite Split_length, !separators_app.
  cbn [traefik.separators Ascii.eqb Bool.eqb]. cbn.
  destruct (traefik.separators name "."%char); reflexivity.
Qed.

(** X12 -- which label keys are router rules.  [isRouterRuleLabel] accepts
    exactly the keys [traefik.http.routers.NAME.rule], for any [NAME]: the
    count of the dotted parts only rejects [traefik.http.routers.rule],
    where prefix and suffix share their dot; it does not ask [NAME] to be
    non-empty, nor to be free of dots. *)
Theorem isRouterRuleLabel_iff (key : string) :
  (traefik.isRouterRuleLabel key = true <->
     exists name, key = "traefik.http.routers." +:+ name +:+ ".rule")
  /\ traefik.isRouterRuleLabel "traefik.http.routers.rule" = false
  /\ traefik.isRouterRuleLabel "traefik.http.routers..rule" = true.
Proof.
  split; [|split; reflexivity].
  split.
  - unfold traefik.isRouterRuleLabel.
    destruct (traefik.HasPrefix key "traefik.http.routers.") eqn:Hp;
      [|discriminate].
    destruct (traefik.HasSuffix key traefik.routerRuleSuffix) eqn:Hs;
      [|discriminate].
    cbn [negb]. cbv zeta.
    apply HasPrefix_app in Hp as (rest & ->).
    unfold traefik.routerRuleSuffix in Hs.
    rewrite !append_cons, append_nil_l in Hs.
    cbn [traefik.HasSuffix String.eqb Ascii.eqb Bool.eqb andb orb] in Hs.
    apply orb_true_iff in Hs as [Hs|Hs].
    + apply String.eqb_eq in Hs. subst rest. discriminate.
    + apply HasSuffix_app in Hs as (name & ->). intros _. exists name.
      reflexivity.
  - intros (name & ->). apply isRouterRuleLabel_named.
Qed.

(** The deduplication keeps the first occurrence of every hostname. *)
Lemma fold_remember (cs : list string) (seen : gset string) (hosts : list string) :
  (forall h, h ∈ seen <-> h ∈ hosts) ->
  NoDup hosts ->
  let st := fold_left traefik.remember cs (seen, hosts) in
  (forall h, h ∈ st.1 <-> h ∈ st.2)
  /\ NoDup st.2
  /\ (forall h, h ∈ st.2 <-> h ∈ hosts \/ h ∈ cs)
  /\ exists new, st.2 = hosts ++ new /\ new `sublist_of` cs.
Proof.
  cbv zeta. revert seen hosts. induction cs as [|c cs IH]; intros seen hosts Hco Hnd.
  - cbn [fold_left fst snd]. split; [exact Hco|]. split; [exact Hnd|].
    split; [intros h; split; [auto|intros [H|H]; [exact H|inversion H]]|].
    exists []. rewrite app_nil_r. split; [reflexivity|].
    constructor.
  - cbn [fold_left].
    assert (Hr : traefik.remember (seen, hosts) c
                 = if decide (c ∈ seen) then (seen, hosts)
                   else ({[c]} ∪ seen, hosts ++ [c])) by reflexivity.
    rewrite Hr. clear Hr.
    destruct (decide (c ∈ seen)) as [Hin|Hin].
    + destruct (IH seen hosts Hco Hnd) as (I1 & I2 & I3 & new & I4 & I5).
      split; [exact I1|]. split; [exact I2|].
      split; [intros h; rewrite I3, elem_of_cons; apply Hco in Hin;
              split; [intros [?|?]; auto|intros [?|[->|?]]; auto]|].
      exists new. split; [exact I4|]. apply sublist_cons. exact I5.
    + assert (Hco' : forall h, h ∈ ({[c]} ∪ seen : gset string) <-> h ∈ hosts ++ [c]).
      { intros h. rewrite elem_of_union, elem_of_singleton, elem_of_app,
          list_elem_of_singleton, Hco. tauto. }
      assert (Hnd' : NoDup (hosts ++ [c])).
      { apply NoDup_app. split; [exact Hnd|]. split; [|apply NoDup_singleton].
        intros x Hx Hc. apply list_elem_of_singleton in Hc. subst x.
        apply Hin, Hco, Hx. }
      destruct (IH _ _ Hco' Hnd') as (I1 & I2 & I3 & new & I4 & I5).
      split; [exact I1|]. split; [exact I2|].
      split; [intros h; rewrite I3, elem_of_app, list_elem_of_singleton, elem_of_cons;
              tauto|].
      exists (c :: new). split; [rewrite I4, <- app_assoc; reflexivity|].
      apply sublist_skip. exact I5.
Qed.

Lemma filter_all (P : string -> Prop) `{!forall x, Decision (P x)} (l : list string) :
  (forall x, P x) -> filter P l = l.
Proof.
  intros HP. induction l as [|x l IH]; [reflexivity|].
  rewrite filter_cons_True by apply HP. rewrite IH. reflexivity.
Qed.

(** The deduplication lists the hostnames in the order of their first
    occurrence. *)
Lemma fold_remember_order (cs : list string) (seen : gset string)
  (hosts : list string) :
  (forall h, h ∈ seen <-> h ∈ hosts) ->
  (fold_left traefik.remember cs (seen, hosts)).2
  = hosts ++ filter (fun y => y ∉ hosts) (first_occurrences cs).
Proof.
  revert seen hosts. induction cs as [|c cs IH]; intros seen hosts Hco.
  - cbn [fold_left first_occurrences snd]. rewrite filter_nil, app_nil_r.
    reflexivity.
  - cbn [fold_left first_occurrences].
    assert (Hr : traefik.remember (seen, hosts) c
                 = if decide (c ∈ seen) then (seen, hosts)
                   else ({[c]} ∪ seen, hosts ++ [c])) by reflexivity.
    rewrite Hr. clear Hr.
    destruct (decide (c ∈ seen)) as [Hin|Hin].
    + rewrite (IH seen hosts Hco).
      rewrite filter_cons_False by (intros Hn; apply Hn, Hco, Hin).
      rewrite list_filter_filter. f_equal. apply list_filter_iff.
      intros y. split; [|tauto]. intros Hy. split; [exact Hy|].
      intros ->. apply Hy, Hco, Hin.
    + assert (Hco' : forall h, h ∈ ({[c]} ∪ seen : gset string) <-> h ∈ hosts ++ [c]).
      { intros h. rewrite elem_of_union, elem_of_singleton, elem_of_app,
          list_elem_of_singleton, Hco. tauto. }
      rewrite (IH _ _ Hco').
      rewrite filter_cons_True by (intros Hn; apply Hin, Hco, Hn).
      rewrite list_filter_filter, <- app_assoc. cbn [app]. do 2 f_equal.
      apply list_filter_iff. intros y.
      rewrite elem_of_app, list_elem_of_singleton. tauto.
Qed.

Section ParserLemmas.
Context {W : Type} (env : Env W) (hostRegex : traefik.Regexp)
  (TrimSpace : string -> string).

(** The logging loop of [ExtractHosts] and the loop of
    [ExtractHostsFromRule] compute the same. *)
Lemma run_addMatches matches seen hosts (w : W) :
  value (run env (traefik.addMatches TrimSpace matches seen hosts) w)
  = traefik.collect TrimSpace matches seen hosts
  /\ world (run env (traefik.addMatches TrimSpace matches seen hosts) w) = w
  /\ AllOps log_only (traefik.addMatches TrimSpace matches seen hosts).
Proof.
  revert seen hosts. induction matches as [|m rest IH]; intros seen hosts.
  - cbn [traefik.addMatches traefik.collect run]. repeat split. constructor.
  - cbn [traefik.addMatches traefik.collect].
    destruct m as [|m0 [|capture m1]]; try apply IH.
    cbv zeta. destruct (String.eqb (TrimSpace capture) ""); [apply IH|].
    destruct (decide (TrimSpace capture ∈ seen)); [apply IH|].
    cbn [run]. rewrite value_emit, world_emit.
    destruct (IH ({[TrimSpace capture]} ∪ seen) (hosts ++ [TrimSpace capture]))
      as (H1 & H2 & H3).
    split; [exact H1|]. split; [exact H2|]. constructor; [reflexivity|exact H3].
Qed.

Lemma collect_fold matches seen hosts :
  traefik.collect TrimSpace matches seen hosts
  = fold_left traefik.remember (traefik.captured TrimSpace matches) (seen, hosts).
Proof.
  revert seen hosts. induction matches as [|m rest IH]; intros seen hosts.
  - reflexivity.
  - cbn [traefik.collect traefik.captured omap list_omap].
    fold (traefik.captured TrimSpace rest).
    destruct m as [|m0 [|capture m1]]; try apply IH.
    cbv zeta. destruct (String.eqb (TrimSpace capture) ""); [apply IH|].
    cbn [fold_left]. unfold traefik.remember at 2. cbn [fst snd].
    destruct (decide (TrimSpace capture ∈ seen)); apply IH.
Qed.

Lemma candidates_cons key rule entries :
  traefik.candidates hostRegex TrimSpace ((key, rule) :: entries)
  = (if traefik.isRouterRuleLabel key
     then traefik.captured TrimSpace (traefik.FindAllStringSubmatch hostRegex rule)
     else [])
    ++ traefik.candidates hostRegex TrimSpace entries.
Proof. reflexivity. Qed.

Lemma run_rangeLabels entries seen hosts (w : W) :
  value (run env (traefik.rangeLabels hostRegex TrimSpace entries seen hosts) w)
  = fold_left traefik.remember (traefik.candidates hostRegex TrimSpace entries)
      (seen, hosts)
  /\ world (run env (traefik.rangeLabels hostRegex TrimSpace entries seen hosts) w) = w
  /\ AllOps log_only (traefik.rangeLabels hostRegex TrimSpace entries seen hosts).
Proof.
  revert seen hosts. induction entries as [|[key rule] rest IH]; intros seen hosts.
  - cbn [traefik.rangeLabels run]. repeat split. constructor.
  - cbn [traefik.rangeLabels]. rewrite candidates_cons.
    destruct (traefik.isRouterRuleLabel key); cbn [negb app]; [|apply IH].
    cbn [run]. rewrite value_emit, world_emit, value_bind, world_bind.
    destruct (run_addMatches (traefik.FindAllStringSubmatch hostRegex rule) seen hosts w)
      as (H1 & H2 & H3).
    rewrite H1, H2, collect_fold, fold_left_app.
    destruct (fold_left traefik.remember _ (seen, hosts)) as [seen1 hosts1].
    cbn [fst snd]. destruct (IH seen1 hosts1) as (I1 & I2 & I3).
    split; [exact I1|]. split; [exact I2|].
    constructor; [reflexivity|]. apply AllOps_bind; [exact H3|].
    intros [s h]. apply IH.
Qed.

Lemma captured_spec (matches : list (list string)) (h : string) :
  h ∈ traefik.captured TrimSpace matches <->
  h <> "" /\ exists first capture others,
               (first :: capture :: others) ∈ matches /\ h = TrimSpace capture.
Proof.
  unfold traefik.captured. rewrite list_elem_of_omap. split.
  - intros ([|m0 [|capture m1]] & Hin & Hm); try discriminate.
    destruct (String.eqb_spec (TrimSpace capture) ""); [discriminate|].
    injection Hm as <-. split; [assumption|]. eauto.
  - intros (Hne & first & capture & others & Hin & ->).
    eexists. split; [exact Hin|]. cbn.
    destruct (String.eqb_spec (TrimSpace capture) ""); [contradiction|reflexivity].
Qed.

Lemma candidates_spec (entries : list (string * string)) (h : string) :
  h ∈ traefik.candidates hostRegex TrimSpace entries <->
  h <> "" /\ exists key rule first capture others,
               (key, rule) ∈ entries
               /\ traefik.isRouterRuleLabel key = true
               /\ (first :: capture :: others)
                    ∈ traefik.FindAllStringSubmatch hostRegex rule
               /\ h = TrimSpace capture.
Proof.
  induction entries as [|[key rule] rest IH].
  - cbn. split; [intros H; inversion H|].
    intros (_ & ? & ? & ? & ? & ? & H & _). inversion H.
  - rewrite candidates_cons, elem_of_app, IH. split.
    + intros [H|(Hne & k & ru & f & c & o & Hin & Hk & Hm & ->)].
      * destruct (traefik.isRouterRuleLabel key) eqn:Hk; [|inversion H].
        apply captured_spec in H as (Hne & f & c & o & Hm & ->).
        split; [assumption|]. exists key, rule, f, c, o.
        split; [left|]. auto.
      * split; [assumption|]. exists k, ru, f, c, o. split; [right; exact Hin|auto].
    + intros (Hne & k & ru & f & c & o & Hin & Hk & Hm & ->).
      apply elem_of_cons in Hin as [[= -> ->]|Hin].
      * left. rewrite Hk. apply captured_spec. split; [assumption|]. eauto.
      * right. split; [assumption|]. exists k, ru, f, c, o. auto.
Qed.

Lemma run_ExtractHosts entries (w : W) :
  value (run env (traefik.ExtractHosts hostRegex TrimSpace entries) w)
  = (fold_left traefik.remember (traefik.candidates hostRegex TrimSpace entries)
       (∅, [])).2
  /\ world (run env (traefik.ExtractHosts hostRegex TrimSpace entries) w) = w
  /\ AllOps log_only (traefik.ExtractHosts hostRegex TrimSpace entries).
Proof.
  unfold traefik.ExtractHosts. rewrite value_bind, world_bind.
  destruct (run_rangeLabels entries ∅ [] w) as (H1 & H2 & H3).
  cbn [run]. rewrite value_emit, world_emit, value_triple, world_triple, H1, H2.
  split; [reflexivity|]. split; [reflexivity|].
  apply AllOps_bind; [exact H3|]. intros x. constructor; [reflexivity|constructor].
Qed.

End ParserLemmas.

(** X13 -- what [ExtractHosts] returns.  Whatever order the labels come
    in, the hostnames returned are without repetition and never empty; a
    hostname is returned exactly when it is the trimmed first capture group
    of a match of [hostRegex] in the value of a label that
    [isRouterRuleLabel] accepts; they come in the order of their first
    occurrence, label after label in the order the labels are ranged over
    and match after match within a label: the list returned is the list of
    all those captures with every repetition after the first struck out;
    and the function only logs. *)
Theorem ExtractHosts_deduplicates {W : Type} (env : Env W)
  (hostRegex : traefik.Regexp) (TrimSpace : string -> string)
  (entries : list (string * string)) (w : W) :
  let x := run env (traefik.ExtractHosts hostRegex TrimSpace entries) w in
  NoDup (value x)
  /\ (forall h,
        h ∈ value x <->
        h <> ""
        /\ exists key rule first capture others,
             (key, rule) ∈ entries
             /\ traefik.isRouterRuleLabel key = true
             /\ (first :: capture :: others)
                  ∈ traefik.FindAllStringSubmatch hostRegex rule
             /\ h = TrimSpace capture)
  /\ value x = first_occurrences (traefik.candidates hostRegex TrimSpace entries)
  /\ value x `sublist_of` traefik.candidates hostRegex TrimSpace entries
  /\ world x = w
  /\ calls (trace x) = [].
Proof.
  cbv zeta.
  destruct (run_ExtractHosts env hostRegex TrimSpace entries w) as (Hv & Hw & Hops).
  rewrite Hv, Hw.
  destruct (fold_remember (traefik.candidates hostRegex TrimSpace entries) ∅ [])
    as (_ & Hnd & Hmem & new & Hnew & Hsub).
  { intros h. split; intros H; inversion H. }
  { constructor. }
  split; [exact Hnd|].
  split; [intros h; rewrite Hmem, <- candidates_spec;
          split; [intros [H|H]; [inversion H|exact H]|auto]|].
  split; [rewrite fold_remember_order
            by (intros h; split; intros H; inversion H);
          apply filter_all; intros y H; inversion H|].
  split; [rewrite Hnew; exact Hsub|].
  split; [reflexivity|]. apply log_only_calls. exact Hops.
Qed.

(** A hostname that comes again after another keeps its first place. *)
Example ExtractHosts_first_occurrence :
  value (run refEnv
           (traefik.ExtractHosts wholeRule id
              [("traefik.http.routers.web.rule", "app.example.com");
               ("traefik.http.routers.api.rule", "api.example.com");
               ("traefik.http.routers.www.rule", "app.example.com")]) emptyWorld)
  = ["app.example.com"; "api.example.com"]
  /\ first_occurrences ["app.example.com"; "api.example.com"; "app.example.com"]
     = ["app.example.com"; "api.example.com"].
Proof. split; vm_compute; reflexivity. Qed.

(** X14 -- the order of the labels does not change what is found.  Go
    yields the entries of the label map in an order it does not specify:
    the hostnames [ExtractHosts] returns for two orders of the same entries
    are the same, up to their order. *)
Theorem ExtractHosts_order_independent {W : Type} (env : Env W)
  (hostRegex : traefik.Regexp) (TrimSpace : string -> string)
  (entries1 entries2 : list (string * string)) (w : W) :
  entries1 ≡ₚ entries2 ->
  value (run env (traefik.ExtractHosts hostRegex TrimSpace entries1) w)
  ≡ₚ value (run env (traefik.ExtractHosts hostRegex TrimSpace entries2) w).
Proof.
  intros Hperm.
  destruct (run_ExtractHosts env hostRegex TrimSpace entries1 w) as (-> & _).
  destruct (run_ExtractHosts env hostRegex TrimSpace entries2 w) as (-> & _).
  destruct (fold_remember (traefik.candidates hostRegex TrimSpace entries1) ∅ [])
    as (_ & Hnd1 & Hmem1 & _);
    [intros h; split; intros H; inversion H|constructor|].
  destruct (fold_remember (traefik.candidates hostRegex TrimSpace entries2) ∅ [])
    as (_ & Hnd2 & Hmem2 & _);
    [intros h; split; intros H; inversion H|constructor|].
  apply NoDup_Permutation; [exact Hnd1|exact Hnd2|].
  intros h. rewrite Hmem1, Hmem2, !candidates_spec.
  split; (intros [H|(Hne & k & ru & f & c & o & Hin & Hrest)]; [inversion H|]);
    right; (split; [exact Hne|]); exists k, ru, f, c, o;
    (split; [|exact Hrest]).
  - rewrite <- Hperm. exact Hin.
  - rewrite Hperm. exact Hin.
Qed.

Lemma ExtractHosts_order_independent_witness :
  value (run refEnv
           (traefik.ExtractHosts wholeRule id
              [("traefik.http.routers.web.rule", "app.example.com");
               ("traefik.http.routers.api.rule", "api.example.com")]) emptyWorld)
  ≡ₚ value (run refEnv
              (traefik.ExtractHosts wholeRule id
                 [("traefik.http.routers.api.rule", "api.example.com");
                  ("traefik.http.routers.web.rule", "app.example.com")]) emptyWorld).
Proof.
  apply (ExtractHosts_order_independent refEnv wholeRule id). apply perm_swap.
Defined.

(** X15 -- [ExtractHostsFromRule] is [ExtractHosts] on one router rule.
    The hostnames [ExtractHosts] returns for a single label
    [traefik.http.routers.NAME.rule] are those [ExtractHostsFromRule]
    returns for the value of the label, in the same order; so they are
    without repetition, never empty, and the trimmed captures of the
    matches of the rule. *)
Theorem ExtractHostsFromRule_agrees {W : Type} (env : Env W)
  (hostRegex : traefik.Regexp) (TrimSpace : string -> string)
  (name rule : string) (w : W) :
  value (run env
           (traefik.ExtractHosts hostRegex TrimSpace
              [("traefik.http.routers." +:+ name +:+ ".rule", rule)]) w)
  = traefik.ExtractHostsFromRule hostRegex TrimSpace rule
  /\ NoDup (traefik.ExtractHostsFromRule hostRegex TrimSpace rule)
  /\ forall h,
       h ∈ traefik.ExtractHostsFromRule hostRegex TrimSpace rule <->
       h <> ""
       /\ exists first capture others,
            (first :: capture :: others)
              ∈ traefik.FindAllStringSubmatch hostRegex rule
            /\ h = TrimSpace capture.
Proof.
  unfold traefik.ExtractHostsFromRule. rewrite collect_fold.
  destruct (run_ExtractHosts env hostRegex TrimSpace
              [("traefik.http.routers." +:+ name +:+ ".rule", rule)] w) as (-> & _).
  rewrite candidates_cons, isRouterRuleLabel_named.
  change (traefik.candidates hostRegex TrimSpace []) with (@nil string).
  rewrite app_nil_r.
  destruct (fold_remember
              (traefik.captured TrimSpace (traefik.FindAllStringSubmatch hostRegex rule))
              ∅ [])
    as (_ & Hnd & Hmem & _);
    [intros h; split; intros H; inversion H|constructor|].
  split; [reflexivity|]. split; [exact Hnd|].
  intros h. rewrite Hmem, captured_spec.
  split; [intros [H|H]; [inversion H|exact H]|auto].
Qed.

(** ** Loading the configuration *)

Section LoadLemmas.
Import config config_load.
Context (Getenv : string -> string) (ReadFile : string -> result string)
  (TrimSpace ToLower : string -> string) (Atoi : string -> result Z)
  (ParseIP : string -> bool) (Compile : string -> result Regexp).

Local Abbreviation getEnvOrFile' := (getEnvOrFile Getenv ReadFile TrimSpace).
Local Abbreviation loadURL' := (loadURL Getenv ReadFile TrimSpace).
Local Abbreviation loadToken' := (loadToken Getenv ReadFile TrimSpace).
Local Abbreviation loadZone' := (loadZone Getenv ReadFile TrimSpace).
Local Abbreviation loadTargetIP' := (loadTargetIP Getenv ReadFile TrimSpace ParseIP).
Local Abbreviation loadTTL' := (loadTTL Getenv Atoi).
Local Abbreviation loadInclude' := (loadInclude Getenv Compile).
Local Abbreviation loadExclude' := (loadExclude Getenv Compile).
Local Abbreviation loadDockerMode' := (loadDockerMode Getenv ToLower).
Local Abbreviation loadHealthPort' := (loadHealthPort Getenv Atoi).
Local Abbreviation loadLogLevel' := (loadLogLevel Getenv ToLower).
Local Abbreviation Load' :=
  (Load Getenv ReadFile TrimSpace ToLower Atoi ParseIP Compile).
Local Abbreviation loaded' :=
  (loaded Getenv ReadFile TrimSpace ToLower Atoi ParseIP Compile).
Local Abbreviation problems' :=
  (problems Getenv ReadFile TrimSpace ToLower Atoi ParseIP Compile).

Ltac load_step :=
  intros;
  repeat match goal with
         | |- context [if ?b then _ else _] => destruct b
         | |- context [match ?x with Ok _ => _ | Err _ => _ end] => destruct x
         end;
  cbn [fst snd]; rewrite ?app_nil_r; reflexivity.

Lemma loadURL_app errs : loadURL' errs = ((loadURL' []).1, errs ++ (loadURL' []).2).
Proof. unfold loadURL. cbv zeta. load_step. Qed.

Lemma loadToken_app errs :
  loadToken' errs = ((loadToken' []).1, errs ++ (loadToken' []).2).
Proof. unfold loadToken. cbv zeta. load_step. Qed.

Lemma loadZone_app errs : loadZone' errs = ((loadZone' []).1, errs ++ (loadZone' []).2).
Proof. unfold loadZone. cbv zeta. load_step. Qed.

Lemma loadTargetIP_app errs :
  loadTargetIP' errs = ((loadTargetIP' []).1, errs ++ (loadTargetIP' []).2).
Proof. unfold loadTargetIP. cbv zeta. load_step. Qed.

Lemma loadTTL_app errs : loadTTL' errs = ((loadTTL' []).1, errs ++ (loadTTL' []).2).
Proof. unfold loadTTL. cbv zeta. load_step. Qed.

Lemma loadInclude_app errs :
  loadInclude' errs = ((loadInclude' []).1, errs ++ (loadInclude' []).2).
Proof. unfold loadInclude. cbv zeta. load_step. Qed.

Lemma loadExclude_app errs :
  loadExclude' errs = ((loadExclude' []).1, errs ++ (loadExclude' []).2).
Proof. unfold loadExclude. cbv zeta. load_step. Qed.

Lemma loadDockerMode_app errs :
  loadDockerMode' errs = ((loadDockerMode' []).1, errs ++ (loadDockerMode' []).2).
Proof. unfold loadDockerMode. cbv zeta. load_step. Qed.

Lemma loadHealthPort_app errs :
  loadHealthPort' errs = ((loadHealthPort' []).1, errs ++ (loadHealthPort' []).2).
Proof. unfold loadHealthPort. cbv zeta. load_step. Qed.

Lemma loadLogLevel_app errs :
  loadLogLevel' errs = ((loadLogLevel' []).1, errs ++ (loadLogLevel' []).2).
Proof. unfold loadLogLevel. cbv zeta. load_step. Qed.

(** [Load] fails exactly when one of its settings has an error line, and
    returns the configuration of the values read otherwise. *)
Lemma Load_unfold :
  Load'
  = if Nat.ltb 0 (length problems')
    then (None,
          Some ("configuration errors:" +:+ newline +:+ "  - "
                +:+ String.concat (newline +:+ "  - ") problems'))
    else (Some loaded', None).
Proof.
  unfold Load, loaded, problems. cbv zeta.
  rewrite (loadToken_app (loadURL' []).2). cbn [fst snd].
  rewrite (loadZone_app ((loadURL' []).2 ++ _)). cbn [fst snd].
  rewrite (loadTargetIP_app (((loadURL' []).2 ++ _) ++ _)). cbn [fst snd].
  rewrite (loadTTL_app ((((loadURL' []).2 ++ _) ++ _) ++ _)). cbn [fst snd].
  rewrite (loadInclude_app (((((loadURL' []).2 ++ _) ++ _) ++ _) ++ _)).
  cbn [fst snd].
  rewrite (loadExclude_app ((((((loadURL' []).2 ++ _) ++ _) ++ _) ++ _) ++ _)).
  cbn [fst snd].
  rewrite (loadDockerMode_app
             (((((((loadURL' []).2 ++ _) ++ _) ++ _) ++ _) ++ _) ++ _)).
  cbn [fst snd].
  rewrite (loadHealthPort_app
             ((((((((loadURL' []).2 ++ _) ++ _) ++ _) ++ _) ++ _) ++ _) ++ _)).
  cbn [fst snd].
  rewrite (loadLogLevel_app
             (((((((((loadURL' []).2 ++ _) ++ _) ++ _) ++ _) ++ _) ++ _) ++ _) ++ _)).
  cbn [fst snd].
  rewrite <- !app_assoc. reflexivity.
Qed.

Lemma loaded_wellformed : problems' = [] -> wellformed ParseIP loaded'.
Proof.
  unfold problems. intros H.
  repeat match type of H with
         | _ ++ _ = [] => apply app_eq_nil in H; destruct H as [? H]
         end.
  assert (Hport : (1 <= (loadHealthPort' []).1 <= 65535)%Z).
  { unfold loadHealthPort, DefaultHealthPort in *. cbv zeta in *.
    destruct (String.eqb (Getenv "HEALTH_PORT") ""); cbn in *; [lia|].
    destruct (Atoi (Getenv "HEALTH_PORT")) as [port|]; [|discriminate].
    destruct (Z.ltb_spec port 1); cbn in *; [discriminate|].
    destruct (Z.ltb_spec 65535 port); cbn in *; [discriminate|lia]. }
  unfold wellformed, loaded.
  cbn [TechnitiumURL TechnitiumToken TechnitiumZone TargetIP TTL IncludePattern
       DockerHost DockerMode HealthPort LogLevel].
  repeat match goal with
         | |- _ /\ _ => split
         end.
  - unfold loadURL in *. cbv zeta in *.
    destruct (String.eqb_spec (getEnvOrFile' "TECHNITIUM_URL") "");
      [discriminate|assumption].
  - unfold loadToken in *. cbv zeta in *.
    destruct (String.eqb_spec (getEnvOrFile' "TECHNITIUM_TOKEN") "");
      [discriminate|assumption].
  - unfold loadZone in *. cbv zeta in *.
    destruct (String.eqb_spec (getEnvOrFile' "TECHNITIUM_ZONE") "");
      [discriminate|assumption].
  - unfold loadTargetIP in *. cbv zeta in *.
    destruct (String.eqb_spec (getEnvOrFile' "TARGET_IP") "");
      [discriminate|].
    destruct (ParseIP (getEnvOrFile' "TARGET_IP")); cbn in *;
      [assumption|discriminate].
  - unfold loadTargetIP in *. cbv zeta in *.
    destruct (String.eqb (getEnvOrFile' "TARGET_IP") ""); [discriminate|].
    destruct (ParseIP (getEnvOrFile' "TARGET_IP")) eqn:E; cbn in *;
      [exact E|discriminate].
  - unfold loadTTL, DefaultTTL in *. cbv zeta in *.
    destruct (String.eqb (Getenv "TTL") ""); cbn in *; [lia|].
    destruct (Atoi (Getenv "TTL")) as [ttl|]; [|discriminate].
    destruct (Z.ltb_spec ttl 1); cbn in *; [discriminate|lia].
  - unfold loadInclude in *. cbv zeta in *.
    destruct (Compile _); cbn in *; [discriminate|discriminate].
  - unfold loadDockerHost, DefaultDockerHost. cbv zeta.
    destruct (String.eqb_spec (Getenv "DOCKER_HOST") ""); [discriminate|assumption].
  - unfold loadDockerMode in *. cbv zeta in *.
    match goal with
    | |- context [if String.eqb ?v "" then _ else _] =>
        generalize dependent (if String.eqb v "" then DefaultDockerMode else v)
    end.
    intros v Hv.
    destruct (String.eqb_spec v "auto") as [E|E]; [subst v; left; reflexivity|].
    destruct (String.eqb_spec v "swarm") as [E1|E1];
      [subst v; right; left; reflexivity|].
    destruct (String.eqb_spec v "standalone") as [E2|E2];
      [subst v; right; right; left; reflexivity|].
    cbn in Hv. discriminate.
  - apply Hport.
  - apply Hport.
  - unfold loadLogLevel in *. cbv zeta in *.
    match goal with
    | |- context [if String.eqb ?v "" then _ else _] =>
        generalize dependent (if String.eqb v "" then DefaultLogLevel else v)
    end.
    intros v Hv.
    destruct (String.eqb_spec v "debug") as [E|E]; [subst v; left; reflexivity|].
    destruct (String.eqb_spec v "info") as [E1|E1];
      [subst v; right; left; reflexivity|].
    destruct (String.eqb_spec v "warn") as [E2|E2];
      [subst v; right; right; left; reflexivity|].
    destruct (String.eqb_spec v "error") as [E3|E3];
      [subst v; right; right; right; left; reflexivity|].
    cbn in Hv. discriminate.
Qed.

End LoadLemmas.

(** X16 -- what [Load] returns.  [Load] returns either a configuration and
    no error, or no configuration and an error, never both and never
    neither; and a configuration it returns is well formed: URL, token, zone
    and target are not empty, the target parses as an IP address, the TTL
    is at least 1, the include pattern is compiled (never nil), the docker
    host is not empty, the docker mode is one of auto, swarm and standalone,
    the health port lies between 1 and 65535, and the log level is one of
    debug, info, warn and error. *)
Theorem Load_returns_wellformed (Getenv : string -> string)
  (ReadFile : string -> result string) (TrimSpace ToLower : string -> string)
  (Atoi : string -> result Z) (ParseIP : string -> bool)
  (Compile : string -> result config.Regexp) :
  match config_load.Load Getenv ReadFile TrimSpace ToLower Atoi ParseIP Compile with
  | (Some c, None) => config_load.wellformed ParseIP c
  | (None, Some _) => True
  | _ => False
  end.
Proof.
  rewrite Load_unfold.
  destruct (config_load.problems Getenv ReadFile TrimSpace ToLower Atoi ParseIP Compile)
    eqn:Hp; cbn [length Nat.ltb Nat.leb]; [|exact I].
  apply loaded_wellformed. exact Hp.
Qed.

(** X17 -- the defaults of [Load].  When the four required settings are
    given (directly or through their [_FILE] variable) with a target that
    parses, and none of the optional variables is set, [Load] returns the
    configuration of these four with TTL 300, the include pattern [.*], no
    exclude pattern, the docker socket, mode auto, reconciliation on
    startup, no dry run, health port 8080 and log level info. *)
Theorem Load_defaults (Getenv : string -> string)
  (ReadFile : string -> result string) (TrimSpace ToLower : string -> string)
  (Atoi : string -> result Z) (ParseIP : string -> bool)
  (Compile : string -> result config.Regexp)
  (url token zone ip : string) (re : config.Regexp) :
  let get := config_load.getEnvOrFile Getenv ReadFile TrimSpace in
  get "TECHNITIUM_URL" = url -> get "TECHNITIUM_TOKEN" = token ->
  get "TECHNITIUM_ZONE" = zone -> get "TARGET_IP" = ip ->
  Forall (fun v => v <> "") [url; token; zone; ip] ->
  ParseIP ip = true ->
  Forall (fun key => Getenv key = "")
    ["TTL"; "INCLUDE_PATTERN"; "EXCLUDE_PATTERN"; "DOCKER_HOST"; "DOCKER_MODE";
     "RECONCILE_ON_STARTUP"; "DRY_RUN"; "HEALTH_PORT"; "LOG_LEVEL"] ->
  ToLower "" = "" ->
  Compile ".*" = Ok re ->
  config_load.Load Getenv ReadFile TrimSpace ToLower Atoi ParseIP Compile
  = (Some {| config.TechnitiumURL := url;
             config.TechnitiumToken := token;
             config.TechnitiumZone := zone;
             config.TargetIP := ip;
             config.TTL := 300;
             config.IncludePattern := Some re;
             config.ExcludePattern := None;
             config.DockerHost := "unix:///var/run/docker.sock";
             config.DockerMode := "auto";
             config.ReconcileOnStartup := true;
             config.DryRun := false;
             config.HealthPort := 8080;
             config.LogLevel := "info" |}, None).
Proof.
  intros get Hurl Htoken Hzone Hip Hreq Hparse Hopt Hlower Hre. subst get.
  apply Forall_cons in Hreq as [N1 Hreq]. apply Forall_cons in Hreq as [N2 Hreq].
  apply Forall_cons in Hreq as [N3 Hreq]. apply Forall_cons in Hreq as [N4 _].
  repeat match type of Hopt with
         | Forall _ (_ :: _) =>
             let E := fresh "E" in apply Forall_cons in Hopt as [E Hopt]
         end.
  apply String.eqb_neq in N1, N2, N3, N4.
  assert (S1 : config_load.loadURL Getenv ReadFile TrimSpace [] = (url, []))
    by (unfold config_load.loadURL; cbv zeta; rewrite Hurl, N1; reflexivity).
  assert (S2 : config_load.loadToken Getenv ReadFile TrimSpace [] = (token, []))
    by (unfold config_load.loadToken; cbv zeta; rewrite Htoken, N2; reflexivity).
  assert (S3 : config_load.loadZone Getenv ReadFile TrimSpace [] = (zone, []))
    by (unfold config_load.loadZone; cbv zeta; rewrite Hzone, N3; reflexivity).
  assert (S4 : config_load.loadTargetIP Getenv ReadFile TrimSpace ParseIP []
               = (ip, []))
    by (unfold config_load.loadTargetIP; cbv zeta; rewrite Hip, N4, Hparse;
        reflexivity).
  assert (S5 : config_load.loadTTL Getenv Atoi [] = (300%Z, []))
    by (unfold config_load.loadTTL; cbv zeta; rewrite E; reflexivity).
  assert (S6 : config_load.loadInclude Getenv Compile [] = (Some re, []))
    by (unfold config_load.loadInclude, config_load.DefaultIncludePattern;
        cbv zeta; rewrite E0; cbn [String.eqb]; rewrite Hre; reflexivity).
  assert (S7 : config_load.loadExclude Getenv Compile [] = (None, []))
    by (unfold config_load.loadExclude; cbv zeta; rewrite E1; reflexivity).
  assert (S8 : config_load.loadDockerHost Getenv = "unix:///var/run/docker.sock")
    by (unfold config_load.loadDockerHost; cbv zeta; rewrite E2; reflexivity).
  assert (S9 : config_load.loadDockerMode Getenv ToLower [] = ("auto", []))
    by (unfold config_load.loadDockerMode; cbv zeta; rewrite E3, Hlower;
        reflexivity).
  assert (S10 : config_load.loadReconcileOnStartup Getenv TrimSpace ToLower = true)
    by (unfold config_load.loadReconcileOnStartup; cbv zeta; rewrite E4;
        reflexivity).
  assert (S11 : config_load.loadDryRun Getenv TrimSpace ToLower = false)
    by (unfold config_load.loadDryRun; cbv zeta; rewrite E5; reflexivity).
  assert (S12 : config_load.loadHealthPort Getenv Atoi [] = (8080%Z, []))
    by (unfold config_load.loadHealthPort; cbv zeta; rewrite E6; reflexivity).
  assert (S13 : config_load.loadLogLevel Getenv ToLower [] = ("info", []))
    by (unfold config_load.loadLogLevel; cbv zeta; rewrite E7, Hlower;
        reflexivity).
  rewrite Load_unfold. unfold config_load.problems, config_load.loaded.
  rewrite S1, S2, S3, S4, S5, S6, S7, S8, S9, S10, S11, S12, S13. reflexivity.
Qed.

Lemma Load_defaults_witness :
  config_load.Load sampleGetenv sampleReadFile id id sampleAtoi (fun _ => true)
    sampleCompile
  = (Some {| config.TechnitiumURL := "http://dns:5380/";
             config.TechnitiumToken := "token";
             config.TechnitiumZone := "example.com";
             config.TargetIP := "10.0.0.1";
             config.TTL := 300;
             config.IncludePattern := Some anyHost;
             config.ExcludePattern := None;
             config.DockerHost := "unix:///var/run/docker.sock";
             config.DockerMode := "auto";
             config.ReconcileOnStartup := true;
             config.DryRun := false;
             config.HealthPort := 8080;
             config.LogLevel := "info" |}, None).
Proof.
  apply (Load_defaults sampleGetenv sampleReadFile id id sampleAtoi (fun _ => true)
           sampleCompile);
    try reflexivity.
  - repeat constructor; discriminate.
  - repeat constructor.
Defined.

(** X18 -- the two switches.  In a configuration [Load] returns, dry-run
    mode is on exactly when [DRY_RUN] is set and reads, trimmed and in
    lower case, true, 1, yes or on; and the startup reconciliation is off
    exactly when [RECONCILE_ON_STARTUP] is set and reads false, 0, no or
    off.  Any other value, a misspelt one included, leaves the default
    without an error. *)
Theorem Load_switches (Getenv : string -> string)
  (ReadFile : string -> result string) (TrimSpace ToLower : string -> string)
  (Atoi : string -> result Z) (ParseIP : string -> bool)
  (Compile : string -> result config.Regexp) (c : config.Config) :
  (config_load.Load Getenv ReadFile TrimSpace ToLower Atoi ParseIP Compile).1
    = Some c ->
  (config.DryRun c = true <->
     Getenv "DRY_RUN" <> ""
     /\ In (ToLower (TrimSpace (Getenv "DRY_RUN"))) ["true"; "1"; "yes"; "on"])
  /\ (config.ReconcileOnStartup c = false <->
        Getenv "RECONCILE_ON_STARTUP" <> ""
        /\ In (ToLower (TrimSpace (Getenv "RECONCILE_ON_STARTUP")))
             ["false"; "0"; "no"; "off"]).
Proof.
  rewrite Load_unfold.
  destruct (Nat.ltb 0 _); cbn [fst]; [discriminate|]. intros [= <-].
  unfold config_load.loaded.
  cbn [config.DryRun config.ReconcileOnStartup].
  unfold config_load.loadDryRun, config_load.loadReconcileOnStartup,
    config_load.parseBool, config_load.DefaultDryRun,
    config_load.DefaultReconcileOnStartup.
  cbv zeta. split.
  - destruct (String.eqb_spec (Getenv "DRY_RUN") "") as [E|E].
    { split; [discriminate|intros [N _]; contradiction]. }
    generalize (ToLower (TrimSpace (Getenv "DRY_RUN"))). intros s. cbn [In].
    destruct (String.eqb_spec s "true"); [subst; cbn; tauto|].
    destruct (String.eqb_spec s "1"); [subst; cbn; tauto|].
    destruct (String.eqb_spec s "yes"); [subst; cbn; tauto|].
    destruct (String.eqb_spec s "on"); [subst; cbn; tauto|].
    cbn [orb].
    split; [|intros (_ & [?|[?|[?|[?|[]]]]]); congruence].
    destruct (_ || _); discriminate.
  - destruct (String.eqb_spec (Getenv "RECONCILE_ON_STARTUP") "") as [E|E].
    { split; [discriminate|intros [N _]; contradiction]. }
    generalize (ToLower (TrimSpace (Getenv "RECONCILE_ON_STARTUP"))). intros s.
    cbn [In].
    destruct (String.eqb_spec s "true");
      [subst; cbn; split; [discriminate|intros (_ & [?|[?|[?|[?|[]]]]]); discriminate]|].
    destruct (String.eqb_spec s "1");
      [subst; cbn; split; [discriminate|intros (_ & [?|[?|[?|[?|[]]]]]); discriminate]|].
    destruct (String.eqb_spec s "yes");
      [subst; cbn; split; [discriminate|intros (_ & [?|[?|[?|[?|[]]]]]); discriminate]|].
    destruct (String.eqb_spec s "on");
      [subst; cbn; split; [discriminate|intros (_ & [?|[?|[?|[?|[]]]]]); discriminate]|].
    cbn [orb].
    destruct (String.eqb_spec s "false"); [subst; cbn; tauto|].
    destruct (String.eqb_spec s "0"); [subst; cbn; tauto|].
    destruct (String.eqb_spec s "no"); [subst; cbn; tauto|].
    destruct (String.eqb_spec s "off"); [subst; cbn; tauto|].
    cbn [orb].
    split; [discriminate|intros (_ & [?|[?|[?|[?|[]]]]]); congruence].
Qed.

Lemma Load_switches_witness :
  (false = true <->
     typoGetenv "DRY_RUN" <> "" /\ In "ture" ["true"; "1"; "yes"; "on"])
  /\ (true = false <->
        typoGetenv "RECONCILE_ON_STARTUP" <> ""
        /\ In "" ["false"; "0"; "no"; "off"]).
Proof.
  apply (Load_switches typoGetenv sampleReadFile id id sampleAtoi (fun _ => true)
           sampleCompile
           {| config.TechnitiumURL := "http://dns:5380/";
              config.TechnitiumToken := "token";
              config.TechnitiumZone := "example.com";
              config.TargetIP := "10.0.0.1";
              config.TTL := 300;
              config.IncludePattern := Some anyHost;
              config.ExcludePattern := None;
              config.DockerHost := "unix:///var/run/docker.sock";
              config.DockerMode := "auto";
              config.ReconcileOnStartup := true;
              config.DryRun := false;
              config.HealthPort := 8080;
              config.LogLevel := "info" |}).
  reflexivity.
Defined.

(** ** [Validate] *)

Lemma TrimRight_cons (a c : ascii) (s : string) :
  config_load.TrimRight (String a s) c
  = match config_load.TrimRight s c with
    | EmptyString => if Ascii.eqb a c then EmptyString else String a EmptyString
    | t => String a t
    end.
Proof. reflexivity. Qed.

Lemma TrimRight_decompose (s : string) (c : ascii) :
  exists n, s = config_load.TrimRight s c +:+ config_load.repeated c n.
Proof.
  induction s as [|a s (n & IH)]; [exists 0; reflexivity|].
  rewrite TrimRight_cons.
  destruct (config_load.TrimRight s c) as [|b t] eqn:Ht.
  - rewrite append_nil_l in IH. destruct (Ascii.eqb_spec a c) as [->|Hne].
    + exists (S n). rewrite append_nil_l. cbn [config_load.repeated]. rewrite <- IH.
      reflexivity.
    + exists n. rewrite append_cons, append_nil_l, <- IH. reflexivity.
  - exists n. rewrite append_cons, <- IH. reflexivity.
Qed.

Lemma TrimRight_no_trailing (s : string) (c : ascii) :
  traefik.HasSuffix (config_load.TrimRight s c) (String c "") = false.
Proof.
  induction s as [|a s IH]; [reflexivity|].
  rewrite TrimRight_cons.
  destruct (config_load.TrimRight s c) as [|b t] eqn:Ht.
  - destruct (Ascii.eqb_spec a c) as [->|Hne]; [reflexivity|].
    cbn [traefik.HasSuffix String.eqb]. apply Ascii.eqb_neq in Hne. rewrite Hne.
    reflexivity.
  - cbn [traefik.HasSuffix String.eqb] in *.
    destruct (Ascii.eqb a c); exact IH.
Qed.

Lemma TrimRight_fixed (s : string) (c : ascii) :
  traefik.HasSuffix s (String c "") = false -> config_load.TrimRight s c = s.
Proof.
  induction s as [|a s IH]; [reflexivity|].
  cbn [traefik.HasSuffix]. intros H. apply orb_false_iff in H as [H1 H2].
  rewrite TrimRight_cons, (IH H2).
  destruct s as [|b t]; [|reflexivity].
  cbn [String.eqb] in H1. destruct (Ascii.eqb a c); [discriminate|reflexivity].
Qed.

(** X19 -- [Validate] strips the trailing slashes of the URL.  It never
    returns an error; the URL it leaves is the one it found without the
    slashes at its end, all of them and nothing else; it touches no other
    setting that the engine reads; and validating twice changes nothing
    more. *)
Theorem Validate_trims_trailing_slashes (c : config.Config) :
  let c' := (config_load.Validate c).1 in
  (config_load.Validate c).2 = None
  /\ (exists n,
        config.TechnitiumURL c
        = config.TechnitiumURL c' +:+ config_load.repeated "/" n)
  /\ traefik.HasSuffix (config.TechnitiumURL c') "/" = false
  /\ (forall h, config.MatchesFilters c' h = config.MatchesFilters c h)
  /\ (config.TechnitiumZone c', config.TargetIP c', config.TTL c', config.DryRun c')
     = (config.TechnitiumZone c, config.TargetIP c, config.TTL c, config.DryRun c)
  /\ config_load.Validate c' = (c', None).
Proof.
  cbv zeta. unfold config_load.Validate. cbn [fst snd config.TechnitiumURL
    config.TechnitiumToken config.TechnitiumZone config.TargetIP config.TTL
    config.IncludePattern config.ExcludePattern config.DockerHost config.DockerMode
    config.ReconcileOnStartup config.DryRun config.HealthPort config.LogLevel].
  split; [reflexivity|]. split; [apply TrimRight_decompose|].
  split; [apply TrimRight_no_trailing|]. split; [reflexivity|].
  split; [reflexivity|].
  rewrite (TrimRight_fixed _ _ (TrimRight_no_trailing (config.TechnitiumURL c) "/")).
  reflexivity.
Qed.

(** ** The workloads of the platform *)

(** X20 -- [ListWorkloads] by mode.  In swarm mode the function returns
    the services the daemon lists, in standalone mode the running containers
    it lists: one workload each and in the daemon's order, with the
    identifier, the name and the labels of the service or container, of type
    [service], resp. [container]; a container is named by the first of its
    names without its leading slash.  When the daemon fails the listing of
    the mode, the function fails with the daemon's error, wrapped.  In any
    other mode it fails without the daemon's answer mattering.  So it
    succeeds only in swarm and standalone mode, when the daemon answers the
    listing of that mode.  The function only logs. *)
Theorem ListWorkloads_by_mode {W : Type} (env : Env W) (mode : string)
  (d : docker.Daemon) (w : W) :
  let x := run env (docker.ListWorkloads mode d) w in
  (mode = "swarm" ->
   match docker.ServiceList d with
   | Ok services =>
       exists workloads,
         value x = Ok workloads
         /\ Forall2 (fun svc wl =>
                       WID wl = docker.ServiceID svc
                       /\ WName wl = docker.SpecName svc
                       /\ Labels wl = docker.SpecLabels svc
                       /\ WType wl = "service") services workloads
   | Err e => value x = Err ("listing services: " +:+ e)
   end)
  /\ (mode = "standalone" ->
      match docker.ContainerList d with
      | Ok containers =>
          exists workloads,
            value x = Ok workloads
            /\ Forall2 (fun ctr wl =>
                          WID wl = docker.ContainerID ctr
                          /\ WName wl = docker.containerName (docker.Names ctr)
                          /\ Labels wl = docker.ContainerLabels ctr
                          /\ WType wl = "container") containers workloads
      | Err e => value x = Err ("listing containers: " +:+ e)
      end)
  /\ (forall workloads,
        value x = Ok workloads ->
        (mode = "swarm"
         /\ exists services,
              docker.ServiceList d = Ok services
              /\ map WID workloads = map docker.ServiceID services
              /\ map WName workloads = map docker.SpecName services
              /\ Forall (fun wl => WType wl = "service") workloads)
        \/ (mode = "standalone"
            /\ exists containers,
                 docker.ContainerList d = Ok containers
                 /\ map WID workloads = map docker.ContainerID containers
                 /\ map WName workloads
                    = map (fun ctr => docker.containerName (docker.Names ctr))
                        containers
                 /\ Forall (fun wl => WType wl = "container") workloads))
  /\ (mode <> "swarm" -> mode <> "standalone" ->
      value x = Err "ListContainers only available in standalone mode")
  /\ world x = w
  /\ calls (trace x) = [].
Proof.
  cbv zeta. unfold docker.ListWorkloads, docker.ListServices, docker.ListContainers,
    docker.ModeSwarm, docker.ModeStandalone.
  destruct (String.eqb_spec mode "swarm") as [->|Hs].
  - cbn [String.eqb Ascii.eqb Bool.eqb negb andb].
    destruct (docker.ServiceList d) as [services|e] eqn:Hl;
      cbn [bind run]; rewrite ?value_emit, ?world_emit, ?trace_emit,
        ?value_triple, ?world_triple, ?trace_triple; cbn [calls].
    + split; [intros _; eexists; split; [reflexivity|];
              clear Hl; induction services as [|svc ss IH]; cbn [map];
              constructor; [repeat split|exact IH]|].
      split; [discriminate|].
      split; [|split; [intros H; contradiction|split; reflexivity]].
      intros workloads [= <-]. left. split; [reflexivity|].
      exists services. split; [reflexivity|].
      rewrite !map_map. cbn. split; [reflexivity|]. split; [reflexivity|].
      apply List.Forall_forall. intros wl Hin.
      apply in_map_iff in Hin as (x & <- & _). reflexivity.
    + split; [reflexivity|]. split; [discriminate|]. split; [discriminate|].
      split; [intros H; contradiction|split; reflexivity].
  - cbn [negb].
    destruct (String.eqb_spec mode "standalone") as [->|Hc].
    + cbn [negb].
      destruct (docker.ContainerList d) as [containers|e] eqn:Hl;
        cbn [bind run]; rewrite ?value_emit, ?world_emit, ?trace_emit,
          ?value_triple, ?world_triple, ?trace_triple; cbn [calls].
      * split; [discriminate|].
        split; [intros _; eexists; split; [reflexivity|];
                clear Hl; induction containers as [|ctr cs IH]; cbn [map];
                constructor; [repeat split|exact IH]|].
        split; [|split; [intros _ H; contradiction|split; reflexivity]].
        intros workloads [= <-]. right. split; [reflexivity|].
        exists containers. split; [reflexivity|].
        rewrite !map_map. cbn. split; [reflexivity|]. split; [reflexivity|].
        apply List.Forall_forall. intros wl Hin.
        apply in_map_iff in Hin as (x & <- & _). reflexivity.
      * split; [discriminate|]. split; [reflexivity|]. split; [discriminate|].
        split; [intros _ H; contradiction|split; reflexivity].
    + cbn [negb bind run].
      rewrite ?value_triple, ?world_triple, ?trace_triple. cbn [calls].
      split; [intros H; contradiction|]. split; [intros H; contradiction|].
      split; [discriminate|]. split; [reflexivity|split; reflexivity].
Qed.

Example ListWorkloads_standalone :
  value (run refEnv (docker.ListWorkloads "standalone" sampleDaemon) emptyWorld)
  = Ok [ {| WID := "c0ffee00c0ffee00"; WName := "web"; Labels := ∅;
            WType := "container" |} ]
  /\ value (run refEnv (docker.ListWorkloads "auto" sampleDaemon) emptyWorld)
     = Err "ListContainers only available in standalone mode".
Proof. split; reflexivity. Qed.

(** ** Deleting on the reference server *)

Lemma targeted_cons_skip (c : config.Config) (h : string) (hs : list string) e :
  config.MatchesFilters c h = false -> targeted c (h :: hs) e = targeted c hs e.
Proof. intros H. unfold targeted, passing. cbn [List.filter]. rewrite H. reflexivity. Qed.

Lemma targeted_cons (c : config.Config) (h : string) (hs : list string) e :
  config.MatchesFilters c h = true ->
  targeted c (h :: hs) e
  = at_name (config.TechnitiumZone c) h e && is_a_with (config.TargetIP c) e.2
    || targeted c hs e.
Proof. intros H. unfold targeted, passing. cbn [List.filter]. rewrite H. reflexivity. Qed.

Lemma filter_ext_in_list {A : Type} (f g : A -> bool) (l : list A) :
  (forall x, In x l -> f x = g x) -> List.filter f l = List.filter g l.
Proof.
  induction l as [|x l IH]; intros H; [reflexivity|].
  cbn [List.filter]. rewrite (H x (or_introl eq_refl)), IH; [reflexivity|].
  intros y Hy. apply H. right. exact Hy.
Qed.

Lemma filter_twice {A : Type} (f g : A -> bool) (l : list A) :
  List.filter f (List.filter g l) = List.filter (fun x => g x && f x) l.
Proof.
  induction l as [|x l IH]; [reflexivity|].
  cbn [List.filter]. destruct (g x); cbn [andb List.filter]; rewrite IH; reflexivity.
Qed.

Section ReferenceDelete.
Import config reconciler.
Context (r : Reconciler).
Hypothesis Hlive : DryRun (cfg r) = false.
Local Abbreviation zone := (TechnitiumZone (cfg r)).
Local Abbreviation ip := (TargetIP (cfg r)).
Local Abbreviation ttl := (TTL (cfg r)).

(** The loop of [DeleteHostnames] on the reference server, when every name
    can be reached: what is left of the zone is what the loop was not
    after. *)
Lemma ref_deleteLoop wn hs d (w : RefWorld) :
  unreachable w = [] ->
  let x := run refEnv (deleteLoop r wn hs d) w in
  zoneRecords (world x)
  = List.filter (fun e => negb (targeted (cfg r) hs e)) (zoneRecords w)
  /\ unreachable (world x) = []
  /\ platform (world x) = platform w
  /\ failed (trace x) = [].
Proof.
  cbv zeta. revert d w. induction hs as [|h rest IH]; intros d w Hup.
  - cbn [deleteLoop run]. rewrite world_triple, trace_triple.
    split; [|repeat split; assumption].
    symmetry. rewrite <- (filter_ext_in_list (fun _ => true)).
    + induction (zoneRecords w) as [|e l IHl]; [reflexivity|].
      cbn [List.filter]. rewrite IHl. reflexivity.
    + reflexivity.
  - rewrite run_deleteLoop_cons.
    destruct (MatchesFilters (cfg r) h) eqn:Hf; cbn [negb].
    2: { destruct (IH d w Hup) as (I1 & I2 & I3 & I4).
         split; [rewrite I1; apply filter_ext_in_list; intros e _;
                 rewrite (targeted_cons_skip _ _ _ _ Hf); reflexivity|].
         repeat split; assumption. }
    rewrite Hlive.
    assert (Hget : records_get refEnv zone h w
                   = (Payload (map snd (List.filter (at_name zone h) (zoneRecords w))),
                      w)).
    { cbn [records_get refEnv]. unfold ref_get, is_unreachable. rewrite Hup.
      reflexivity. }
    rewrite Hget. fold (holds zone h ip w).
    destruct (holds zone h ip w) eqn:Hh.
    + assert (Hdel : records_delete refEnv zone h ip w
                     = (None,
                        setZone (List.filter
                                   (fun e => negb (at_name zone h e && is_a_with ip e.2))
                                   (zoneRecords w)) w)).
      { cbn [records_delete refEnv]. unfold ref_delete, is_unreachable.
        rewrite Hup. reflexivity. }
      rewrite Hdel. rewrite world_after, trace_after, failed_app.
      destruct (IH (d + 1)%Z
                  (setZone (List.filter
                              (fun e => negb (at_name zone h e && is_a_with ip e.2))
                              (zoneRecords w)) w) Hup)
        as (I1 & I2 & I3 & I4).
      split; [|split; [exact I2|split; [exact I3|rewrite I4; reflexivity]]].
      rewrite I1. cbn [setZone zoneRecords]. rewrite filter_twice.
      apply filter_ext_in_list. intros e _.
      rewrite (targeted_cons _ _ _ _ Hf), negb_orb. reflexivity.
    + rewrite world_after, trace_after, failed_app.
      destruct (IH d w Hup) as (I1 & I2 & I3 & I4).
      split; [|split; [exact I2|split; [exact I3|rewrite I4; reflexivity]]].
      rewrite I1. apply filter_ext_in_list. intros e He.
      rewrite (targeted_cons _ _ _ _ Hf).
      rewrite holds_existsb in Hh.
      assert (Hm : at_name zone h e && is_a_with ip e.2 = false).
      { destruct (at_name zone h e && is_a_with ip e.2) eqn:Em; [|reflexivity].
        rewrite <- Hh. symmetry. apply existsb_exists. exists e. auto. }
      rewrite Hm. reflexivity.
Qed.

Lemma ref_ensureHostnames wn hs res (w : RefWorld) :
  unreachable w = [] ->
  let x := run refEnv (ensureHostnames r wn hs res) w in
  settles r 0 hs res w (value x) (world x) (trace x).
Proof.
  cbv zeta. revert res w. induction hs as [|h rest IH]; intros res w Hup.
  - cbn [ensureHostnames run]. rewrite value_triple, world_triple, trace_triple.
    exists []. split; [apply grown_refl|].
    split; [cbn [length]; rewrite passed_nil, <- (bump_zero res) at 1; f_equal; lia|].
    split; [intros ? []|reflexivity].
  - rewrite run_ensureHostnames_cons.
    destruct (ref_ensureRecord r Hlive wn h res w Hup) as (Hn & Hs).
    rewrite Hn. rewrite value_after, world_after, trace_after.
    pose proof (settles_unreachable _ _ _ _ _ _ _ _ Hs) as Hup1. rewrite Hup in Hup1.
    apply (settles_app r 0 0 [h] rest _ _ _ _ _ _ _ _ Hs (IH _ _ Hup1)).
Qed.

End ReferenceDelete.

Lemma targeted_holds (c : config.Config) (hs : list string) (w w' : RefWorld)
  (h : string) :
  zoneRecords w' = List.filter (fun e => negb (targeted c hs e)) (zoneRecords w) ->
  In h (passing c hs) ->
  holds (config.TechnitiumZone c) h (config.TargetIP c) w' = false.
Proof.
  intros Hz Hin. rewrite holds_existsb, Hz.
  destruct (existsb _ _) eqn:E; [|reflexivity].
  apply existsb_exists in E as (e & He & Hm).
  apply filter_In in He as (_ & Hk).
  assert (Ht : targeted c hs e = true).
  { unfold targeted. apply existsb_exists. exists h. auto. }
  rewrite Ht in Hk. discriminate.
Qed.

Lemma ref_DeleteHostnames (r : reconciler.Reconciler) (w : RefWorld)
  (wn : string) (hostnames : list string) :
  config.DryRun (reconciler.cfg r) = false ->
  unreachable w = [] ->
  let x := run refEnv (reconciler.DeleteHostnames r wn hostnames) w in
  zoneRecords (world x)
  = List.filter (fun e => negb (targeted (reconciler.cfg r) hostnames e))
      (zoneRecords w)
  /\ (value x).2 = None
  /\ failed (trace x) = [].
Proof.
  intros Hlive Hup. cbv zeta. rewrite run_DeleteHostnames.
  rewrite world_triple, value_triple, trace_triple.
  destruct (ref_deleteLoop r Hlive wn hostnames 0 w Hup) as (Hz & _ & _ & Hf).
  split; [exact Hz|]. split; [reflexivity|].
  cbn [failed]. rewrite failed_app, Hf. reflexivity.
Qed.

(** X21 -- what [DeleteHostnames] leaves.  Against a server that can be
    reached for every name, outside dry-run mode: the zone after the call is
    the zone before it without the A records that carry the configured
    address, in the configured zone, under a hostname of the list that
    passes the filter; every other record (another name, type, address or
    zone) is kept, in its place; after the call none of those hostnames has
    such a record; no call fails and no error is returned. *)
Theorem DeleteHostnames_removes_exactly (r : reconciler.Reconciler) (w : RefWorld)
  (wn : string) (hostnames : list string) :
  config.DryRun (reconciler.cfg r) = false ->
  unreachable w = [] ->
  let zone := config.TechnitiumZone (reconciler.cfg r) in
  let ip := config.TargetIP (reconciler.cfg r) in
  let x := run refEnv (reconciler.DeleteHostnames r wn hostnames) w in
  zoneRecords (world x)
  = List.filter (fun e => negb (targeted (reconciler.cfg r) hostnames e))
      (zoneRecords w)
  /\ (forall h, In h (passing (reconciler.cfg r) hostnames) ->
        holds zone h ip (world x) = false)
  /\ (value x).2 = None
  /\ failed (trace x) = [].
Proof.
  intros Hlive Hup. cbv zeta.
  destruct (ref_DeleteHostnames r w wn hostnames Hlive Hup) as (Hz & Hv & Hf).
  split; [exact Hz|]. split; [|split; assumption].
  intros h Hin. apply (targeted_holds _ hostnames w); assumption.
Qed.

Lemma DeleteHostnames_removes_exactly_witness :
  let x := run refEnv
             (reconciler.DeleteHostnames (sampleReconciler false) "web"
                ["app.example.com"; "test.example.com"]) presentWorld in
  zoneRecords (world x)
  = List.filter
      (fun e => negb (targeted (sampleConfig false)
                        ["app.example.com"; "test.example.com"] e))
      (zoneRecords presentWorld)
  /\ (forall h,
        In h (passing (sampleConfig false) ["app.example.com"; "test.example.com"]) ->
        holds "example.com" h "10.0.0.1" (world x) = false)
  /\ (value x).2 = None
  /\ failed (trace x) = [].
Proof.
  apply (DeleteHostnames_removes_exactly (sampleReconciler false) presentWorld "web"
           ["app.example.com"; "test.example.com"]); reflexivity.
Defined.

(** X22 -- [DeleteHostnames] undoes [ReconcileHostnames].  Against a
    server that can be reached for every name, outside dry-run mode, for
    hostnames that have no A record with the configured address yet:
    [ReconcileHostnames] leaves every hostname that passes the filter with
    such a record, and [DeleteHostnames] of the same hostnames right after
    it leaves the zone exactly as it was before the two calls. *)
Theorem DeleteHostnames_undoes_ReconcileHostnames (r : reconciler.Reconciler)
  (w : RefWorld) (wn : string) (hostnames : list string) :
  config.DryRun (reconciler.cfg r) = false ->
  unreachable w = [] ->
  let zone := config.TechnitiumZone (reconciler.cfg r) in
  let ip := config.TargetIP (reconciler.cfg r) in
  (forall h, In h (passing (reconciler.cfg r) hostnames) -> holds zone h ip w = false) ->
  let x1 := run refEnv (reconciler.ReconcileHostnames r wn hostnames) w in
  let x2 := run refEnv (reconciler.DeleteHostnames r wn hostnames) (world x1) in
  (forall h, In h (passing (reconciler.cfg r) hostnames) ->
     holds zone h ip (world x1) = true)
  /\ zoneRecords (world x2) = zoneRecords w
  /\ (value x1).2 = None
  /\ (value x2).2 = None.
Proof.
  intros Hlive Hup. cbv zeta. intros Hnone.
  rewrite run_ReconcileHostnames. cbv zeta.
  rewrite world_triple, value_triple.
  set (init := reconciler.addHostnamesFound (Z.of_nat (length hostnames))
                 reconciler.emptyResult).
  assert (Hup0 : unreachable (clock refEnv w).2 = []) by exact Hup.
  destruct (ref_ensureHostnames r Hlive wn hostnames init (clock refEnv w).2 Hup0)
    as (added & (Z1 & P1 & U1 & T1 & F1 & ND1) & R1 & H1 & C1).
  set (x := run refEnv (reconciler.ensureHostnames r wn hostnames init)
              (clock refEnv w).2) in *.
  assert (Hup1 : unreachable (clock refEnv (world x)).2 = [])
    by (cbn [clock refEnv snd unreachable]; rewrite U1; exact Hup).
  destruct (ref_DeleteHostnames r (clock refEnv (world x)).2 wn hostnames Hlive Hup1)
    as (Hz & Hv & _).
  split; [exact H1|]. split; [|split; [reflexivity|exact Hv]].
  rewrite Hz. change (zoneRecords (clock refEnv (world x)).2) with (zoneRecords (world x)).
  rewrite Z1. change (zoneRecords (clock refEnv w).2) with (zoneRecords w).
  rewrite List.filter_app.
  assert (Hkeep : List.filter
                    (fun e => negb (targeted (reconciler.cfg r) hostnames e))
                    (zoneRecords w) = zoneRecords w).
  { rewrite <- (filter_ext_in_list (fun _ => true)).
    - induction (zoneRecords w) as [|e l IHl]; [reflexivity|].
      cbn [List.filter]. rewrite IHl. reflexivity.
    - intros e He. symmetry. apply negb_true_iff.
      destruct (targeted (reconciler.cfg r) hostnames e) eqn:Et; [|reflexivity].
      unfold targeted in Et. apply existsb_exists in Et as (h & Hin & Hm).
      rewrite <- (Hnone h Hin), holds_existsb. symmetry.
      apply existsb_exists. exists e. auto. }
  assert (Hdrop : List.filter
                    (fun e => negb (targeted (reconciler.cfg r) hostnames e)) added
                  = []).
  { clear - F1. induction added as [|e l IHl]; [reflexivity|].
    apply Forall_cons in F1 as [(h & Hin & _ & ->) F1].
    cbn [List.filter].
    assert (Ht : targeted (reconciler.cfg r) hostnames
                   (config.TechnitiumZone (reconciler.cfg r),
                    a_record h (config.TargetIP (reconciler.cfg r))
                      (config.TTL (reconciler.cfg r))) = true).
    { unfold targeted. apply existsb_exists. exists h. split; [exact Hin|].
      unfold at_name, is_a_with. cbn [fst snd a_record Name Type_ rData IPAddress].
      rewrite !String.eqb_refl. reflexivity. }
    rewrite Ht. cbn [negb]. apply IHl. exact F1. }
  rewrite Hkeep, Hdrop, app_nil_r. reflexivity.
Qed.

Lemma DeleteHostnames_undoes_ReconcileHostnames_witness :
  let hs := ["app.example.com"; "test.example.com"; "app.example.com"] in
  let x1 := run refEnv
              (reconciler.ReconcileHostnames (sampleReconciler false) "web" hs)
              staleWorld in
  let x2 := run refEnv
              (reconciler.DeleteHostnames (sampleReconciler false) "web" hs)
              (world x1) in
  (forall h, In h (passing (sampleConfig false) hs) ->
     holds "example.com" h "10.0.0.1" (world x1) = true)
  /\ zoneRecords (world x2) = zoneRecords staleWorld
  /\ (value x1).2 = None
  /\ (value x2).2 = None.
Proof.
  apply (DeleteHostnames_undoes_ReconcileHostnames (sampleReconciler false)
           staleWorld "web"
           ["app.example.com"; "test.example.com"; "app.example.com"]).
  - reflexivity.
  - reflexivity.
  - intros h [<-|[<-|[]]]; reflexivity.
Defined.

(** ** The health endpoints *)

Lemma healthLoop_facts (checks : list health.Check) (status : health.Status)
  (components : gmap string health.ComponentHealth) :
  status <> health.StatusUnhealthy ->
  let x := health.healthLoop checks status components in
  x.1 <> health.StatusUnhealthy
  /\ (x.1 = health.StatusHealthy <->
      status = health.StatusHealthy /\ Forall health.passes checks)
  /\ (forall name,
        is_Some (x.2 !! name) <->
        is_Some (components !! name) \/ In name (map (fun c => c.1.1) checks)).
Proof.
  cbv zeta. revert status components.
  induction checks as [|[[name err] lat] rest IH]; intros status components Hs.
  - cbn [health.healthLoop fst snd map In]. split; [exact Hs|].
    split; [split; [intros H; split; [exact H|constructor]|intros [H _]; exact H]|].
    intros n. tauto.
  - cbn [health.healthLoop fst snd map In].
    destruct err as [e|].
    + destruct (IH health.StatusDegraded
                  (<[name := health.component (name, Some e, lat)]> components))
        as (I1 & I2 & I3); [discriminate|].
      split; [exact I1|]. split.
      * rewrite I2. split; [intros [H _]; discriminate|].
        intros [_ H]. apply Forall_cons in H as [H _]. discriminate.
      * intros n. rewrite I3, lookup_insert_is_Some.
        destruct (decide (name = n)); tauto.
    + destruct (IH status
                  (<[name := health.component (name, None, lat)]> components) Hs)
        as (I1 & I2 & I3).
      split; [exact I1|]. split.
      * rewrite I2, Forall_cons. unfold health.passes at 2. cbn [fst snd]. tauto.
      * intros n. rewrite I3, lookup_insert_is_Some.
        destruct (decide (name = n)); tauto.
Qed.

Lemma readyLoop_facts (checks : list health.Check) (allHealthy : bool)
  (components : gmap string health.ComponentHealth) :
  let x := health.readyLoop checks allHealthy components in
  (x.1 = true <-> allHealthy = true /\ Forall health.passes checks)
  /\ (forall name,
        is_Some (x.2 !! name) <->
        is_Some (components !! name) \/ In name (map (fun c => c.1.1) checks)).
Proof.
  cbv zeta. revert allHealthy components.
  induction checks as [|[[name err] lat] rest IH]; intros allHealthy components.
  - cbn [health.readyLoop fst snd map In].
    split; [split; [intros H; split; [exact H|constructor]|intros [H _]; exact H]|].
    intros n. tauto.
  - cbn [health.readyLoop fst snd map In].
    destruct err as [e|].
    + destruct (IH false
                  (<[name := health.component (name, Some e, lat)]> components))
        as (I2 & I3).
      split.
      * rewrite I2. split; [intros [H _]; discriminate|].
        intros [_ H]. apply Forall_cons in H as [H _]. discriminate.
      * intros n. rewrite I3, lookup_insert_is_Some.
        destruct (decide (name = n)); tauto.
    + destruct (IH allHealthy
                  (<[name := health.component (name, None, lat)]> components))
        as (I2 & I3).
      split.
      * rewrite I2, Forall_cons. unfold health.passes at 2. cbn [fst snd]. tauto.
      * intros n. rewrite I3, lookup_insert_is_Some.
        destruct (decide (name = n)); tauto.
Qed.

(** X23 -- the liveness endpoint never answers 503.  Whatever the checkers
    return, [handleHealth] answers with status code 200: the status of the
    body is healthy when every checker passed and degraded as soon as one
    failed, never unhealthy, so the branch that would answer 503 is never
    taken.  The body has an entry for every checker. *)
Theorem handleHealth_always_ok (version uptime : string)
  (checks : list health.Check) :
  let x := health.handleHealth version uptime checks in
  x.1 = 200%Z
  /\ (health.RStatus x.2 = health.StatusHealthy <-> Forall health.passes checks)
  /\ (health.RStatus x.2 = health.StatusDegraded <-> ~ Forall health.passes checks)
  /\ (forall name,
        is_Some (health.Components x.2 !! name) <->
        In name (map (fun c => c.1.1) checks)).
Proof.
  cbv zeta. unfold health.handleHealth. cbv zeta.
  cbn [fst snd health.RStatus health.Components].
  destruct (healthLoop_facts checks health.StatusHealthy ∅) as (H1 & H2 & H3);
    [discriminate|].
  destruct (health.healthLoop checks health.StatusHealthy ∅) as [status comps].
  cbn [fst snd] in *.
  split; [destruct status; [reflexivity|contradiction|reflexivity]|].
  split; [rewrite H2; tauto|]. split.
  - destruct status; [|contradiction|].
    + split; [discriminate|]. intros Hn. exfalso. apply Hn, H2. reflexivity.
    + split; [|reflexivity]. intros _ Hall.
      assert (health.StatusDegraded = health.StatusHealthy) by (apply H2; auto).
      discriminate.
  - intros name. rewrite H3, lookup_empty. split; [intros [[? H]|H]; [discriminate|exact H]|auto].
Qed.

(** X24 -- the readiness endpoint.  [handleReady] answers 200 exactly when
    the server was marked ready and every checker passed, and 503 otherwise;
    the status of the body is healthy with 200 and unhealthy with 503; and
    while the server is not ready the body lists no component. *)
Theorem handleReady_iff (ready : bool) (version : string)
  (checks : list health.Check) :
  let x := health.handleReady ready version checks in
  (x.1 = 200%Z <-> ready = true /\ Forall health.passes checks)
  /\ (x.1 = 200%Z \/ x.1 = 503%Z)
  /\ (x.1 = 200%Z <-> health.RStatus x.2 = health.StatusHealthy)
  /\ (x.1 = 503%Z <-> health.RStatus x.2 = health.StatusUnhealthy)
  /\ (ready = false -> health.Components x.2 = ∅)
  /\ (ready = true ->
      forall name,
        is_Some (health.Components x.2 !! name) <->
        In name (map (fun c => c.1.1) checks)).
Proof.
  cbv zeta. unfold health.handleReady, health.StatusOK,
    health.StatusServiceUnavailable.
  destruct ready; cbn [negb].
  2: { cbn [fst snd health.RStatus health.Components].
       repeat split; try discriminate; auto.
       intros [H _]. discriminate. }
  cbv zeta. destruct (readyLoop_facts checks true ∅) as (H2 & H3).
  destruct (health.readyLoop checks true ∅) as [[|] comps]; cbn [fst snd negb] in *;
    cbn [fst snd health.RStatus health.Components].
  - split; [split; [intros _; split; [reflexivity|apply H2; reflexivity]|reflexivity]|].
    split; [left; reflexivity|]. split; [split; reflexivity|].
    split; [split; discriminate|]. split; [discriminate|].
    intros _ name. rewrite H3, lookup_empty.
    split; [intros [[? H]|H]; [discriminate|exact H]|auto].
  - split; [split; [discriminate|];
            intros [_ H]; assert (false = true) by (apply H2; auto); discriminate|].
    split; [right; reflexivity|]. split; [split; discriminate|].
    split; [split; reflexivity|]. split; [discriminate|].
    intros _ name. rewrite H3, lookup_empty.
    split; [intros [[? H]|H]; [discriminate|exact H]|auto].
Qed.

(** ** Progress of the goroutines *)

Lemma inside_made (i : nat) (h : list (nat * Event)) :
  inside i h = true -> exists e, In (i, e) h.
Proof.
  induction h as [|[j e] h IH]; cbn [inside]; [discriminate|].
  destruct e; try (intros H; destruct (IH H) as [e' He']; exists e'; right; exact He').
  - destruct (Nat.eqb_spec i j) as [->|_].
    + intros _. exists ELock. left. reflexivity.
    + intros H. destruct (IH H) as [e' He']. exists e'. right. exact He'.
  - destruct (Nat.eqb_spec i j) as [->|_]; [discriminate|].
    intros H. destruct (IH H) as [e' He']. exists e'. right. exact He'.
Qed.

Section Progress.
Context {W : Type} (env : Env W).

Lemma step_in_range (s s' : Pool W) :
  history_in_range s -> pool_step env s s' -> history_in_range s'.
Proof.
  intros Hr Hstep. destruct Hstep as [s i p p' l' w' ev Hi Hts].
  unfold history_in_range. cbn [history threads]. rewrite length_insert.
  intros j e Hin. destruct ev as [e0|]; cbn [record_event] in Hin.
  - destruct Hin as [[= <- <-]|Hin]; [|eapply Hr; exact Hin].
    apply lookup_lt_Some in Hi. exact Hi.
  - eapply Hr; exact Hin.
Qed.

Lemma reachable_in_range (s s' : Pool W) :
  history_in_range s -> rtc (pool_step env) s s' -> history_in_range s'.
Proof.
  intros Hr Hrtc. induction Hrtc as [|x y z Hxy _ IH]; [assumption|].
  apply IH. eapply step_in_range; eassumption.
Qed.

(** Inside its pass a goroutine can always go on. *)
Lemma critical_steps (p : Prog unit) (w : W) :
  critical p -> exists out, thread_step env true w p = Some out.
Proof. destruct p; cbn [critical thread_step]; intros H; try contradiction; eauto. Qed.

(** While the mutex is free, a goroutine that waits for it or logs the end
    of its pass can go on. *)
Lemma idle_steps (p : Prog unit) (w : W) :
  waiting p \/ finished p -> is_done p = false ->
  exists out, thread_step env false w p = Some out.
Proof.
  intros [H|H] Hd; destruct p; cbn [waiting finished thread_step is_done] in *;
    try contradiction; try discriminate; eauto.
Qed.

Lemma step_of (s : Pool W) (i : nat) (p : Prog unit) out :
  threads s !! i = Some p ->
  thread_step env (locked s) (shared s) p = Some out ->
  exists s', pool_step env s s'.
Proof.
  intros Hi Hts. destruct out as [[[p' l'] w'] ev].
  eexists. eapply PoolStep; eassumption.
Qed.

End Progress.

(** X25 -- the passes never deadlock.  However the goroutines that call
    [Reconcile], [ReconcileHostnames] and [DeleteHostnames] are scheduled,
    at every moment either every one of them has returned, or one of them
    can take its next step: the goroutine that holds the mutex is never
    blocked, and when the mutex is free a goroutine that waits for it can
    take it. *)
Theorem passes_never_deadlock {W : Type} (env : Env W) (r : reconciler.Reconciler)
  (cs : list EntryCall) (w : W) (s : Pool W) :
  rtc (pool_step env) (start r cs w) s ->
  Forall (fun p => is_done p = true) (threads s)
  \/ exists s', pool_step env s s'.
Proof.
  intros Hreach.
  destruct (reachable_inv env _ _ (start_inv r cs w) Hreach)
    as (Hshape & _ & Hfree & Hheld & _).
  assert (Hrange : history_in_range s).
  { eapply reachable_in_range; [|exact Hreach]. intros i e []. }
  destruct (locked s) eqn:Hl.
  - right. destruct (Hheld eq_refl) as [i Hi].
    destruct (inside_made _ _ Hi) as [e He].
    destruct (lookup_lt_is_Some_2 (threads s) i (Hrange i e He)) as [p Hp].
    pose proof (Hshape i p Hp) as Hc. rewrite Hi in Hc.
    destruct (critical_steps env p (shared s) Hc) as [out Hout].
    eapply (step_of env s i p out Hp). rewrite Hl. exact Hout.
  - assert (Hall : forall i p, threads s !! i = Some p -> waiting p \/ finished p).
    { intros i p Hp. pose proof (Hshape i p Hp) as Hc.
      rewrite (Hfree eq_refl i) in Hc. exact Hc. }
    destruct (Forall_Exists_dec (fun p : Prog unit => is_done p = true)
                (fun p => is_done p = false)
                (fun p => sumbool_of_bool (is_done p)) (threads s)) as [Hd|Hnd].
    + left. exact Hd.
    + right. apply Exists_exists in Hnd as (p & Hin & Hp).
      apply list_elem_of_lookup in Hin as [i Hi].
      destruct (idle_steps env p (shared s) (Hall i p Hi) Hp) as [out Hout].
      eapply (step_of env s i p out Hi). rewrite Hl. exact Hout.
Qed.

Lemma passes_never_deadlock_witness :
  Forall (fun p => is_done p = true) (threads lockedPool)
  \/ exists s', pool_step refEnv lockedPool s'.
Proof.
  apply (passes_never_deadlock refEnv (sampleReconciler false) sampleCalls
           presentWorld lockedPool).
  apply rtc_once.
  exact (PoolStep refEnv
           (start (sampleReconciler false) sampleCalls presentWorld) 1
           (spawn (sampleReconciler false)
              (CallDeleteHostnames "web" ["app.example.com"]))
           (after_lock (spawn (sampleReconciler false)
                          (CallDeleteHostnames "web" ["app.example.com"])))
           true presentWorld (Some ELock) eq_refl eq_refl).
Defined.

(** ** The counters of the metrics *)

Lemma metered_app (name : string) (t1 t2 : list Event) :
  metered name (t1 ++ t2) = (metered name t1 + metered name t2)%Z.
Proof.
  induction t1 as [|e t1 IH]; [reflexivity|].
  destruct e; cbn [app metered]; rewrite IH; lia.
Qed.

Lemma would_app (c : config.Config) (hs1 hs2 : list string) :
  would c (hs1 ++ hs2) = (would c hs1 + would c hs2)%Z.
Proof. unfold would. destruct (config.DryRun c); [apply passed_app|reflexivity]. Qed.

Lemma would_cons (c : config.Config) (h : string) (hs : list string) :
  would c (h :: hs)
  = ((if config.DryRun c && config.MatchesFilters c h then 1 else 0) + would c hs)%Z.
Proof.
  unfold would. rewrite passed_cons.
  destruct (config.DryRun c), (config.MatchesFilters c h); cbn [andb]; lia.
Qed.

Section Metered.
Import config reconciler.
Context {W : Type} (env : Env W) (r : Reconciler).
Local Abbreviation created := "RecordDNSRecordCreated".
Local Abbreviation existed := "RecordDNSRecordExisted".
Local Abbreviation deleted := "RecordDNSRecordDeleted".

Lemma ensureRecord_metered wn h res w :
  let x := run env (ensureRecord r wn h res) w in
  RecordsCreated (value x).1
  = (RecordsCreated res + metered created (trace x) + would (cfg r) [h])%Z
  /\ RecordsExisted (value x).1 = (RecordsExisted res + metered existed (trace x))%Z
  /\ ((value x).2 <> None -> DryRun (cfg r) = false).
Proof.
  cbv zeta. unfold would. rewrite passed_cons.
  destruct (MatchesFilters (cfg r) h) eqn:Hf.
  2: { rewrite run_ensureRecord_filtered by assumption.
       rewrite value_triple, trace_triple. cbn [metered fst snd].
       unfold passed, passing. cbn [List.filter length].
       split; [destruct (DryRun (cfg r)); lia|]. split; [lia|].
       intros H; contradiction. }
  destruct (DryRun (cfg r)) eqn:Hd.
  { rewrite run_ensureRecord_dry by assumption.
    rewrite value_triple, trace_triple. cbn [metered fst snd].
    unfold passed, passing. cbn [List.filter length].
    split; [simpl; lia|]. split; [simpl; lia|]. intros H; contradiction. }
  rewrite run_ensureRecord_live by assumption. cbv zeta.
  destruct (EnsureARecord_ensured env (TechnitiumZone (cfg r)) h (TargetIP (cfg r))
              (TTL (cfg r)) w)
    as [e Hno He|recs w1 Hget Hs|recs w1 w2 Hget Hs Hadd|recs w1 w2 e Hget Hs Hadd];
    rewrite ?value_triple, ?trace_triple; cbn [fst snd];
    rewrite ?value_triple, ?trace_triple; cbn [fst snd app metered String.eqb];
    (split; [simpl; lia|]); (split; [simpl; lia|]); reflexivity.
Qed.

Lemma ensureHosts_metered wn hosts res w :
  let x := run env (ensureHosts r wn hosts res) w in
  RecordsCreated (value x).1
  = (RecordsCreated res + metered created (trace x) + would (cfg r) hosts)%Z
  /\ RecordsExisted (value x).1 = (RecordsExisted res + metered existed (trace x))%Z.
Proof.
  cbv zeta. revert res w. induction hosts as [|h rest IH]; intros res w.
  - cbn [ensureHosts run]. rewrite value_triple, trace_triple. cbn [metered fst].
    unfold would, passed. cbn. destruct (DryRun (cfg r)); split; lia.
  - rewrite run_ensureHosts_cons. change (h :: rest) with ([h] ++ rest).
    rewrite would_app.
    destruct (ensureRecord_metered wn h res w) as (C1 & E1 & D1).
    destruct (value (run env (ensureRecord r wn h res) w)) as [res1 [err|]] eqn:Hv;
      cbn [fst snd] in *.
    + rewrite value_triple, trace_triple. cbn [fst].
      assert (Hlive : DryRun (cfg r) = false) by (apply D1; discriminate).
      unfold would in *. rewrite Hlive in *. split; lia.
    + rewrite value_after, trace_after, !metered_app.
      destruct (IH res1 (world (run env (ensureRecord r wn h res) w))) as (C2 & E2).
      split; lia.
Qed.

Lemma processWorkload_metered wl res w :
  let x := run env (processWorkload r wl res) w in
  RecordsCreated (value x).1
  = (RecordsCreated res + metered created (trace x)
     + would (cfg r) (ExtractHosts (parser r) (Labels wl)))%Z
  /\ RecordsExisted (value x).1 = (RecordsExisted res + metered existed (trace x))%Z.
Proof.
  cbv zeta. unfold processWorkload.
  destruct (ExtractHosts (parser r) (Labels wl)) as [|h hs] eqn:Hx.
  - cbn [length Nat.eqb run]. rewrite value_emit, trace_emit, value_triple, trace_triple.
    cbn [metered fst]. unfold would, passed. cbn.
    destruct (DryRun (cfg r)); split; lia.
  - cbn [length Nat.eqb run]. rewrite value_emit, trace_emit. cbn [metered].
    apply (ensureHosts_metered (WName wl) (h :: hs)
             (addHostnamesFound (Z.of_nat (S (length hs))) res) w).
Qed.

Lemma processWorkloads_metered workloads res w :
  let x := run env (processWorkloads r workloads res) w in
  RecordsCreated (value x)
  = (RecordsCreated res + metered created (trace x)
     + would (cfg r) (foundHosts r workloads))%Z
  /\ RecordsExisted (value x) = (RecordsExisted res + metered existed (trace x))%Z.
Proof.
  cbv zeta. revert res w. induction workloads as [|wl rest IH]; intros res w.
  - cbn [processWorkloads run]. rewrite value_triple, trace_triple. cbn [metered].
    unfold would, passed. cbn. destruct (DryRun (cfg r)); split; lia.
  - rewrite run_processWorkloads_cons, foundHosts_cons, would_app.
    destruct (processWorkload_metered wl res w) as (C1 & E1).
    destruct (value (run env (processWorkload r wl res) w)) as [res1 [err|]] eqn:Hv;
      cbn [fst snd] in *; rewrite value_after, trace_after, !metered_app;
      match goal with |- context [processWorkloads r rest ?x] =>
        destruct (IH x (world (run env (processWorkload r wl res) w))) as (C2 & E2)
      end; cbn [appendError RecordsCreated RecordsExisted metered] in *;
      split; lia.
Qed.

Lemma ensureHostnames_metered wn hs res w :
  let x := run env (ensureHostnames r wn hs res) w in
  RecordsCreated (value x)
  = (RecordsCreated res + metered created (trace x) + would (cfg r) hs)%Z
  /\ RecordsExisted (value x) = (RecordsExisted res + metered existed (trace x))%Z.
Proof.
  cbv zeta. revert res w. induction hs as [|h rest IH]; intros res w.
  - cbn [ensureHostnames run]. rewrite value_triple, trace_triple. cbn [metered].
    unfold would, passed. cbn. destruct (DryRun (cfg r)); split; lia.
  - rewrite run_ensureHostnames_cons. change (h :: rest) with ([h] ++ rest).
    rewrite would_app.
    destruct (ensureRecord_metered wn h res w) as (C1 & E1 & _).
    destruct (value (run env (ensureRecord r wn h res) w)) as [res1 [err|]] eqn:Hv;
      cbn [fst snd] in *; rewrite value_after, trace_after, !metered_app;
      match goal with |- context [ensureHostnames r wn rest ?x] =>
        destruct (IH x (world (run env (ensureRecord r wn h res) w))) as (C2 & E2)
      end; cbn [appendError RecordsCreated RecordsExisted metered] in *;
      split; lia.
Qed.

Lemma deleteLoop_metered wn hs d w :
  value (run env (deleteLoop r wn hs d) w)
  = (d + metered deleted (trace (run env (deleteLoop r wn hs d) w))
     + would (cfg r) hs)%Z.
Proof.
  revert d w. induction hs as [|h rest IH]; intros d w.
  - cbn [deleteLoop run]. rewrite value_triple, trace_triple. cbn [metered].
    unfold would, passed. cbn. destruct (DryRun (cfg r)); lia.
  - rewrite run_deleteLoop_cons, would_cons.
    destruct (MatchesFilters (cfg r) h); cbn [negb andb].
    2: { rewrite IH. destruct (DryRun (cfg r)); cbn [andb]; lia. }
    destruct (DryRun (cfg r)) eqn:Hd; cbn [andb].
    { rewrite value_after, trace_after, metered_app, IH. cbn [metered]. lia. }
    destruct (records_get env (TechnitiumZone (cfg r)) h w) as [[e|e|recs] w1];
      try (rewrite value_after, trace_after, metered_app, IH; cbn; lia).
    destruct (technitium.scanRecords recs (TargetIP (cfg r)));
      [|rewrite value_after, trace_after, metered_app, IH; cbn; lia].
    destruct (records_delete env (TechnitiumZone (cfg r)) h (TargetIP (cfg r)) w1)
      as [[e|] w2];
      rewrite value_after, trace_after, metered_app, IH; cbn; lia.
Qed.

End Metered.

(** X26 -- the metrics and the results.  For the three entry points, with
    the listing answered: the result of a full or a partial pass counts as
    already present exactly as often as the pass increments the existed
    metric.  Outside dry-run mode it counts as created exactly as often as
    the pass increments the created metric, and [DeleteHostnames] returns
    exactly as often as it increments the deleted metric.  In dry-run mode
    none of the three metrics is incremented, while the created count and the
    count returned by [DeleteHostnames] are the number of hostnames that
    pass the filter, and the already-present count is zero. *)
Theorem metrics_agree_with_results {W : Type} (env : Env W)
  (r : reconciler.Reconciler) (w w' : W) (workloads : list Workload)
  (wn : string) (hostnames : list string) :
  docker_list env (clock env w).2 = (Ok workloads, w') ->
  let full := run env (reconciler.Reconcile r) w in
  let part := run env (reconciler.ReconcileHostnames r wn hostnames) w in
  let del := run env (reconciler.DeleteHostnames r wn hostnames) w in
  exists res1 res2,
    value full = (Some res1, None)
    /\ value part = (Some res2, None)
    /\ reconciler.RecordsExisted res1 = metered "RecordDNSRecordExisted" (trace full)
    /\ reconciler.RecordsExisted res2 = metered "RecordDNSRecordExisted" (trace part)
    /\ if config.DryRun (reconciler.cfg r)
       then metered "RecordDNSRecordCreated" (trace full) = 0%Z
            /\ metered "RecordDNSRecordExisted" (trace full) = 0%Z
            /\ reconciler.RecordsCreated res1
               = passed (reconciler.cfg r) (foundHosts r workloads)
            /\ metered "RecordDNSRecordCreated" (trace part) = 0%Z
            /\ metered "RecordDNSRecordExisted" (trace part) = 0%Z
            /\ reconciler.RecordsCreated res2 = passed (reconciler.cfg r) hostnames
            /\ metered "RecordDNSRecordDeleted" (trace del) = 0%Z
            /\ (value del).1 = passed (reconciler.cfg r) hostnames
       else reconciler.RecordsCreated res1
            = metered "RecordDNSRecordCreated" (trace full)
            /\ reconciler.RecordsCreated res2
               = metered "RecordDNSRecordCreated" (trace part)
            /\ (value del).1 = metered "RecordDNSRecordDeleted" (trace del).
Proof.
  intros Hlist. cbv zeta.
  rewrite (run_Reconcile_listed env r w workloads w' Hlist), run_ReconcileHostnames,
    run_DeleteHostnames.
  cbv zeta.
  set (init1 := reconciler.setWorkloadsScanned (Z.of_nat (length workloads))
                  reconciler.emptyResult).
  set (init2 := reconciler.addHostnamesFound (Z.of_nat (length hostnames))
                  reconciler.emptyResult).
  destruct (processWorkloads_metered env r workloads init1 w') as (C1 & E1).
  destruct (ensureHostnames_metered env r wn hostnames init2 (clock env w).2)
    as (C2 & E2).
  pose proof (deleteLoop_metered env r wn hostnames 0%Z w) as D.
  eexists _, _. split; [reflexivity|]. split; [reflexivity|].
  rewrite !value_triple, !trace_triple.
  cbn [fst metered reconciler.setDuration reconciler.RecordsCreated
       reconciler.RecordsExisted].
  rewrite !metered_app. cbn [metered String.eqb Ascii.eqb Bool.eqb andb].
  unfold init1, init2 in C1, E1, C2, E2.
  cbn [reconciler.setWorkloadsScanned reconciler.addHostnamesFound
       reconciler.emptyResult reconciler.RecordsCreated reconciler.RecordsExisted]
    in C1, E1, C2, E2.
  fold init1 in C1, E1 |- *. fold init2 in C2, E2 |- *.
  split; [lia|]. split; [lia|].
  unfold would in *. destruct (config.DryRun (reconciler.cfg r)) eqn:Hd.
  - destruct (processWorkloads_dry env r Hd workloads init1 w') as (V1 & _).
    destruct (ensureHostnames_dry env r Hd wn hostnames init2 (clock env w).2)
      as (V2 & _).
    destruct (deleteLoop_dry env r Hd wn hostnames 0%Z w) as (V3 & _).
    rewrite V1 in C1, E1 |- *. rewrite V2 in C2, E2 |- *. rewrite V3 in D |- *.
    unfold init1, init2 in C1, E1, C2, E2 |- *.
    cbn [bump reconciler.setWorkloadsScanned reconciler.addHostnamesFound
         reconciler.emptyResult reconciler.RecordsCreated reconciler.RecordsExisted]
      in C1, E1, C2, E2 |- *.
    repeat split; lia.
  - repeat split; lia.
Qed.

Lemma metrics_agree_with_results_witness :
  (let full := run refEnv (reconciler.Reconcile (sampleReconciler false)) partialWorld in
   let part := run refEnv (reconciler.ReconcileHostnames (sampleReconciler false) "web"
                             ["api.example.com"; "gone.example.com"]) partialWorld in
   let del := run refEnv (reconciler.DeleteHostnames (sampleReconciler false) "web"
                            ["api.example.com"; "gone.example.com"]) partialWorld in
   exists res1 res2,
     value full = (Some res1, None)
     /\ value part = (Some res2, None)
     /\ reconciler.RecordsExisted res1 = metered "RecordDNSRecordExisted" (trace full)
     /\ reconciler.RecordsExisted res2 = metered "RecordDNSRecordExisted" (trace part)
     /\ reconciler.RecordsCreated res1 = metered "RecordDNSRecordCreated" (trace full)
     /\ reconciler.RecordsCreated res2 = metered "RecordDNSRecordCreated" (trace part)
     /\ (value del).1 = metered "RecordDNSRecordDeleted" (trace del))
  /\ (let full := run refEnv (reconciler.Reconcile (sampleReconciler true))
                    partialWorld in
      let part := run refEnv (reconciler.ReconcileHostnames (sampleReconciler true) "web"
                                ["api.example.com"; "gone.example.com"]) partialWorld in
      let del := run refEnv (reconciler.DeleteHostnames (sampleReconciler true) "web"
                               ["api.example.com"; "gone.example.com"]) partialWorld in
      exists res1 res2,
        value full = (Some res1, None)
        /\ value part = (Some res2, None)
        /\ reconciler.RecordsExisted res1
           = metered "RecordDNSRecordExisted" (trace full)
        /\ reconciler.RecordsExisted res2
           = metered "RecordDNSRecordExisted" (trace part)
        /\ metered "RecordDNSRecordCreated" (trace full) = 0%Z
        /\ metered "RecordDNSRecordExisted" (trace full) = 0%Z
        /\ reconciler.RecordsCreated res1 = 2%Z
        /\ metered "RecordDNSRecordCreated" (trace part) = 0%Z
        /\ metered "RecordDNSRecordExisted" (trace part) = 0%Z
        /\ reconciler.RecordsCreated res2 = 2%Z
        /\ metered "RecordDNSRecordDeleted" (trace del) = 0%Z
        /\ (value del).1 = 2%Z).
Proof.
  split.
  - apply (metrics_agree_with_results refEnv (sampleReconciler false) partialWorld
             (clock refEnv partialWorld).2 sampleWorkloads "web"
             ["api.example.com"; "gone.example.com"]).
    reflexivity.
  - apply (metrics_agree_with_results refEnv (sampleReconciler true) partialWorld
             (clock refEnv partialWorld).2 sampleWorkloads "web"
             ["api.example.com"; "gone.example.com"]).
    reflexivity.
Defined.

(** ** The passes, exchange by exchange *)

Lemma failures_app (l1 l2 : list (string * Reply)) :
  failures (l1 ++ l2) = failures l1 ++ failures l2.
Proof. unfold failures. rewrite List.filter_app, map_app. reflexivity. Qed.

Lemma carried_app (l1 l2 : list (string * Reply)) :
  carried (l1 ++ l2) = (carried l1 + carried l2)%Z.
Proof. unfold carried. rewrite List.filter_app, length_app. lia. Qed.

Lemma settled_app (l1 l2 : list (string * Reply)) :
  settled (l1 ++ l2) = (settled l1 + settled l2)%Z.
Proof. unfold settled. rewrite List.filter_app, length_app. lia. Qed.

Lemma counted_refl (c : config.Config) (res : reconciler.ReconcileResult) :
  counted c 0 [] [] res res.
Proof.
  unfold counted, would, passed, carried, settled. cbn.
  destruct (config.DryRun c); repeat split; lia.
Qed.

Lemma counted_trans (c : config.Config) (f1 f2 : Z) (hs1 hs2 : list string)
  (l1 l2 : list (string * Reply)) (res res1 res1' res2 : reconciler.ReconcileResult) :
  counted c f1 hs1 l1 res res1 ->
  counted c 0 [] [] res1 res1' ->
  counted c f2 hs2 l2 res1' res2 ->
  counted c (f1 + f2) (hs1 ++ hs2) (l1 ++ l2) res res2.
Proof.
  unfold counted. rewrite would_app, carried_app, settled_app, length_app.
  change (would c []) with (if config.DryRun c then 0%Z else 0%Z).
  change (carried []) with 0%Z. change (settled []) with 0%Z. cbn [length].
  intros (A1 & A2 & A3 & A4 & A5) (B1 & B2 & B3 & B4 & B5) (C1 & C2 & C3 & C4 & C5).
  destruct (config.DryRun c); repeat split; lia.
Qed.

Lemma queried_live (c : config.Config) (h : string) (hs : list string) :
  In h (queried c hs) -> config.DryRun c = false.
Proof. unfold queried. destruct (config.DryRun c); [intros []|reflexivity]. Qed.

Section Protocol.
Import config reconciler.
Context {W : Type} (env : Env W) (r : Reconciler).
Implicit Types (res : ReconcileResult) (w : W).

(** [EnsureARecord] with the arguments of a pass is one exchange. *)
Lemma EnsureARecord_exchange h w :
  let x := run env (technitium.EnsureARecord (TechnitiumZone (cfg r)) h
                      (TargetIP (cfg r)) (TTL (cfg r))) w in
  exists o,
    exchange env (cfg r) h w o (answers (trace x)) (world x)
    /\ (value x).1 = match o with Changed => true | _ => false end
    /\ if failing o then exists m, client_error h m /\ (value x).2 = Some m
       else (value x).2 = None.
Proof.
  cbv zeta.
  destruct (EnsureARecord_ensured env (TechnitiumZone (cfg r)) h (TargetIP (cfg r))
              (TTL (cfg r)) w)
    as [e Hno He|recs w1 Hget Hs|recs w1 w2 Hget Hs Hadd|recs w1 w2 e Hget Hs Hadd];
    rewrite value_triple, world_triple, trace_triple; cbn [answers fst snd].
  - exists Unanswered. split; [apply exchange_unanswered; exact Hno|].
    split; [reflexivity|]. exists e. split; [exact He|reflexivity].
  - exists Settled. split; [eapply exchange_present; eassumption|].
    split; reflexivity.
  - exists Changed. split; [eapply exchange_created; eassumption|].
    split; reflexivity.
  - exists Refused. split; [eapply exchange_refused; eassumption|].
    split; [reflexivity|]. eexists. split; [|reflexivity].
    right. right. eexists. reflexivity.
Qed.

(** One call of [ensureRecord]: no exchange for a hostname the pass does
    not ask about, one exchange for one it asks about, counted by how the
    exchange ended. *)
Lemma ensureRecord_reply wn h res w :
  let x := run env (ensureRecord r wn h res) w in
  (queried (cfg r) [h] = []
   /\ world x = w /\ answers (trace x) = [] /\ (value x).2 = None
   /\ counted (cfg r) 0 [h] [] res (value x).1)
  \/ (queried (cfg r) [h] = [h]
      /\ exists o,
           exchange env (cfg r) h w o (answers (trace x)) (world x)
           /\ counted (cfg r) 0 [h] [(h, o)] res (value x).1
           /\ if failing o
              then exists m, client_error h m
                             /\ (value x).2 = Some ("creating A record: " +:+ m)
              else (value x).2 = None).
Proof.
  cbv zeta. rewrite queried_single. unfold counted, would, carried, settled.
  rewrite passed_cons. change (passed (cfg r) []) with 0%Z.
  destruct (MatchesFilters (cfg r) h) eqn:Hf.
  2: { rewrite run_ensureRecord_filtered by assumption.
       rewrite value_triple, world_triple, trace_triple. left.
       split; [destruct (DryRun (cfg r)); reflexivity|].
       split; [reflexivity|]. split; [reflexivity|]. split; [reflexivity|].
       cbn. destruct (DryRun (cfg r)); repeat split; lia. }
  destruct (DryRun (cfg r)) eqn:Hd.
  { rewrite run_ensureRecord_dry by assumption.
    rewrite value_triple, world_triple, trace_triple. left.
    split; [reflexivity|]. split; [reflexivity|]. split; [reflexivity|].
    split; [reflexivity|]. cbn. repeat split; lia. }
  right. split; [reflexivity|].
  rewrite run_ensureRecord_live by assumption. cbv zeta.
  destruct (EnsureARecord_exchange h w) as (o & Hx & Hc & He).
  exists o.
  destruct (value (run env (technitium.EnsureARecord (TechnitiumZone (cfg r)) h
                              (TargetIP (cfg r)) (TTL (cfg r))) w))
    as [created err] eqn:Hv.
  cbn [fst snd] in *. subst created.
  destruct o; cbn [failing] in He;
    try destruct He as (m & Hm & ->); try subst err;
    rewrite ?value_triple, ?world_triple, ?trace_triple, ?answers_app;
    cbn [answers fst snd]; rewrite ?app_nil_r;
    (split; [exact Hx|]);
    (split; [cbn; repeat split; lia|]);
    cbn [failing]; eauto.
Qed.

(** The loop of [ReconcileHostnames], exchange by exchange. *)
Lemma ensureHostnames_protocol wn hs res w :
  let x := run env (ensureHostnames r wn hs res) w in
  exists log new,
    sequence (exchange env (cfg r)) (queried (cfg r) hs) w log
      (answers (trace x)) (world x)
    /\ counted (cfg r) 0 hs log res (value x)
    /\ Errors (value x) = Errors res ++ new
    /\ Forall2 reported_hostname (failures log) new.
Proof.
  cbv zeta. revert res w. induction hs as [|h rest IH]; intros res w.
  - cbn [ensureHostnames run]. rewrite value_triple, world_triple, trace_triple.
    exists [], []. rewrite app_nil_r.
    replace (queried (cfg r) []) with (@nil string)
      by (unfold queried; destruct (DryRun (cfg r)); reflexivity).
    split; [constructor|]. split; [apply counted_refl|].
    split; [reflexivity|constructor].
  - rewrite run_ensureHostnames_cons, queried_cons.
    pose proof (ensureRecord_errors env r wn h res w) as Hkeep.
    destruct (ensureRecord_reply wn h res w)
      as [(Hq & Hw & Ha & Hn & Hc)|(Hq & o & Hx & Hc & He)]; rewrite Hq.
    + rewrite Hn, value_after, world_after, trace_after, answers_app, Ha, Hw.
      destruct (IH (value (run env (ensureRecord r wn h res) w)).1 w)
        as (log & new & Hs & Hc2 & He2 & Hf2).
      exists log, new. split; [exact Hs|].
      split; [apply (counted_trans _ 0 0 [h] rest [] log _ _ _ _ Hc
                       (counted_refl _ _) Hc2)|].
      split; [rewrite He2, Hkeep; reflexivity|exact Hf2].
    + destruct (failing o) eqn:Hfail.
      * destruct He as (m & Hm & He). rewrite He.
        rewrite value_after, world_after, trace_after, !answers_app.
        cbn [answers app]. rewrite app_nil_r.
        match goal with |- context [ensureHostnames r wn rest ?x] =>
          destruct (IH x (world (run env (ensureRecord r wn h res) w)))
            as (log & new & Hs & Hc2 & He2 & Hf2) end.
        exists ((h, o) :: log),
          (("hostname " +:+ h +:+ ": creating A record: " +:+ m) :: new).
        split; [cbn [app]; econstructor; eassumption|].
        split; [refine (counted_trans _ 0 0 [h] rest [(h, o)] log _ _ _ _ Hc _ Hc2);
                unfold counted, would, passed, carried, settled; cbn;
                destruct (DryRun (cfg r)); repeat split; lia|].
        split; [rewrite He2; cbn [appendError Errors];
                rewrite Hkeep, <- app_assoc; reflexivity|].
        unfold failures. cbn [List.filter snd]. rewrite Hfail. cbn [map fst].
        constructor; [|exact Hf2]. exists m. split; [exact Hm|reflexivity].
      * rewrite He, value_after, world_after, trace_after, answers_app.
        destruct (IH (value (run env (ensureRecord r wn h res) w)).1
                    (world (run env (ensureRecord r wn h res) w)))
          as (log & new & Hs & Hc2 & He2 & Hf2).
        exists ((h, o) :: log), new.
        split; [cbn [app]; econstructor; eassumption|].
        split; [apply (counted_trans _ 0 0 [h] rest [(h, o)] log _ _ _ _ Hc
                         (counted_refl _ _) Hc2)|].
        split; [rewrite He2, Hkeep; reflexivity|].
        unfold failures. cbn [List.filter snd]. rewrite Hfail. exact Hf2.
Qed.

(** The loop of [processWorkload], exchange by exchange: it ends at the
    first exchange that fails, with its error. *)
Lemma ensureHosts_protocol wn hosts res w :
  let x := run env (ensureHosts r wn hosts res) w in
  exists log,
    attempt env (cfg r) (queried (cfg r) hosts) w log (answers (trace x)) (world x)
    /\ counted (cfg r) 0 hosts log res (value x).1
    /\ Errors (value x).1 = Errors res
    /\ match (value x).2 with
       | None => failures log = []
       | Some err =>
           exists h m,
             failures log = [h] /\ client_error h m
             /\ err = "ensuring record for " +:+ h +:+ ": creating A record: " +:+ m
       end.
Proof.
  cbv zeta. revert res w. induction hosts as [|h rest IH]; intros res w.
  - cbn [ensureHosts run]. rewrite value_triple, world_triple, trace_triple.
    exists [].
    replace (queried (cfg r) []) with (@nil string)
      by (unfold queried; destruct (DryRun (cfg r)); reflexivity).
    split; [constructor|]. split; [apply counted_refl|].
    split; reflexivity.
  - rewrite run_ensureHosts_cons, queried_cons.
    pose proof (ensureRecord_errors env r wn h res w) as Hkeep.
    destruct (ensureRecord_reply wn h res w)
      as [(Hq & Hw & Ha & Hn & Hc)|(Hq & o & Hx & Hc & He)]; rewrite Hq.
    + rewrite Hn, value_after, world_after, trace_after, answers_app, Ha, Hw.
      destruct (IH (value (run env (ensureRecord r wn h res) w)).1 w)
        as (log & Hs & Hc2 & He2 & Hf2).
      exists log. split; [exact Hs|].
      split; [apply (counted_trans _ 0 0 [h] rest [] log _ _ _ _ Hc
                       (counted_refl _ _) Hc2)|].
      split; [rewrite He2, Hkeep; reflexivity|exact Hf2].
    + assert (Hlive : DryRun (cfg r) = false).
      { apply (queried_live (cfg r) h [h]). rewrite Hq. left. reflexivity. }
      destruct (failing o) eqn:Hfail.
      * destruct He as (m & Hm & He). rewrite He.
        rewrite value_triple, world_triple, trace_triple. cbn [fst snd app].
        exists [(h, o)].
        split; [apply attempt_failed; assumption|].
        split; [revert Hc; unfold counted, would; rewrite Hlive; tauto|].
        split; [exact Hkeep|].
        exists h, m. unfold failures. cbn [List.filter snd]. rewrite Hfail.
        split; [reflexivity|]. split; [exact Hm|reflexivity].
      * rewrite He, value_after, world_after, trace_after, answers_app.
        destruct (IH (value (run env (ensureRecord r wn h res) w)).1
                    (world (run env (ensureRecord r wn h res) w)))
          as (log & Hs & Hc2 & He2 & Hf2).
        exists ((h, o) :: log).
        split; [cbn [app]; eapply attempt_next; eassumption|].
        split; [apply (counted_trans _ 0 0 [h] rest [(h, o)] log _ _ _ _ Hc
                         (counted_refl _ _) Hc2)|].
        split; [rewrite He2, Hkeep; reflexivity|].
        unfold failures. cbn [List.filter snd]. rewrite Hfail. exact Hf2.
Qed.

Lemma processWorkload_protocol wl res w :
  let hosts := ExtractHosts (parser r) (Labels wl) in
  let x := run env (processWorkload r wl res) w in
  exists log,
    round env r wl w log (answers (trace x)) (world x)
    /\ counted (cfg r) (Z.of_nat (length hosts)) hosts log res (value x).1
    /\ Errors (value x).1 = Errors res
    /\ match (value x).2 with
       | None => failures log = []
       | Some err =>
           exists h m,
             failures log = [h] /\ client_error h m
             /\ err = "ensuring record for " +:+ h +:+ ": creating A record: " +:+ m
       end.
Proof.
  cbv zeta. unfold processWorkload, round.
  destruct (ExtractHosts (parser r) (Labels wl)) as [|h hs] eqn:Hx.
  - cbn [length Nat.eqb run].
    rewrite value_emit, world_emit, trace_emit, value_triple, world_triple,
      trace_triple.
    exists [].
    replace (queried (cfg r) []) with (@nil string)
      by (unfold queried; destruct (DryRun (cfg r)); reflexivity).
    split; [constructor|]. split; [apply counted_refl|]. split; reflexivity.
  - cbn [length Nat.eqb run]. rewrite value_emit, world_emit, trace_emit.
    cbn [answers].
    destruct (ensureHosts_protocol (WName wl) (h :: hs)
                (addHostnamesFound (Z.of_nat (S (length hs))) res) w)
      as (log & Hs & Hc & He & Hf).
    exists log. split; [exact Hs|].
    split; [revert Hc; unfold counted; cbn [addHostnamesFound WorkloadsScanned
              HostnamesFound HostnamesFiltered RecordsCreated RecordsExisted];
            intros (C1 & C2 & C3 & C4 & C5); repeat split; lia|].
    split; [exact He|exact Hf].
Qed.

Lemma abandoned_cons wl log logs :
  abandoned ((wl, log) :: logs) = map (pair wl) (failures log) ++ abandoned logs.
Proof. reflexivity. Qed.

(** The loop of [Reconcile], workload by workload. *)
Lemma processWorkloads_protocol workloads res w :
  let x := run env (processWorkloads r workloads res) w in
  exists logs new,
    sequence (round env r) workloads w logs (answers (trace x)) (world x)
    /\ counted (cfg r) (Z.of_nat (length (foundHosts r workloads)))
         (foundHosts r workloads) (concat (map snd logs)) res (value x)
    /\ Errors (value x) = Errors res ++ new
    /\ Forall2 reported (abandoned logs) new.
Proof.
  cbv zeta. revert res w. induction workloads as [|wl rest IH]; intros res w.
  - cbn [processWorkloads run]. rewrite value_triple, world_triple, trace_triple.
    exists [], []. rewrite app_nil_r.
    split; [constructor|]. split; [apply counted_refl|].
    split; [reflexivity|constructor].
  - rewrite run_processWorkloads_cons, foundHosts_cons, length_app, Nat2Z.inj_add.
    destruct (processWorkload_protocol wl res w) as (log & Hs & Hc & Hkeep & Hf).
    destruct (value (run env (processWorkload r wl res) w)) as [res1 [err|]] eqn:Hv;
      cbn [fst snd] in *;
      rewrite value_after, world_after, trace_after, !answers_app;
      cbn [answers app]; rewrite ?app_nil_r;
      match goal with |- context [processWorkloads r rest ?x] =>
        destruct (IH x (world (run env (processWorkload r wl res) w)))
          as (logs & new & Hs2 & Hc2 & He2 & Hf2)
      end.
    + destruct Hf as (h & m & Hfl & Hm & ->).
      exists ((wl, log) :: logs),
        (("workload " +:+ WName wl +:+ ": ensuring record for " +:+ h
          +:+ ": creating A record: " +:+ m) :: new).
      split; [econstructor; eassumption|].
      split; [cbn [map snd concat];
              refine (counted_trans _ _ _ _ _ _ _ _ _ _ _ Hc _ Hc2);
              unfold counted, would, passed, carried, settled; cbn;
              destruct (DryRun (cfg r)); repeat split; lia|].
      split; [rewrite He2; cbn [appendError Errors];
              rewrite Hkeep, <- app_assoc; reflexivity|].
      rewrite abandoned_cons, Hfl. cbn [map app].
      constructor; [|exact Hf2]. exists m. split; [exact Hm|reflexivity].
    + exists ((wl, log) :: logs), new.
      split; [econstructor; eassumption|].
      split; [cbn [map snd concat];
              apply (counted_trans _ _ _ _ _ _ _ _ _ _ _ Hc (counted_refl _ _) Hc2)|].
      split; [rewrite He2, Hkeep; reflexivity|].
      rewrite abandoned_cons, Hf. exact Hf2.
Qed.

End Protocol.

(** What the exchanges of a pass say about the hostnames asked about. *)
Lemma attempt_asked {W : Type} (env : Env W) (c : config.Config) (hs : list string)
  (w w' : W) (log : list (string * Reply)) (b : list (Call * bool)) :
  attempt env c hs w log b w' ->
  exists rest,
    hs = map fst log ++ rest
    /\ (failures log = [] -> rest = [])
    /\ (length (failures log) <= 1)%nat.
Proof.
  induction 1 as [w|h rest w o b w1 Hx Hf|h rest w o b w1 log bs w2 Hx Hf Hrest IH].
  - exists []. repeat split. cbn. lia.
  - exists rest. unfold failures. cbn [List.filter map fst snd]. rewrite Hf.
    cbn [map fst length]. split; [reflexivity|]. split; [discriminate|lia].
  - destruct IH as (rest' & -> & Hall & Hlen). exists rest'.
    unfold failures in *. cbn [List.filter map fst snd]. rewrite Hf.
    split; [reflexivity|]. split; assumption.
Qed.

Lemma rounds_asked {W : Type} (env : Env W) (r : reconciler.Reconciler)
  (workloads : list Workload) (w w' : W)
  (logs : list (Workload * list (string * Reply))) (b : list (Call * bool)) :
  sequence (round env r) workloads w logs b w' ->
  map fst logs = workloads
  /\ map fst (concat (map snd logs))
       `sublist_of` queried (reconciler.cfg r) (foundHosts r workloads)
  /\ (abandoned logs = [] ->
      map fst (concat (map snd logs))
      = queried (reconciler.cfg r) (foundHosts r workloads))
  /\ (length (abandoned logs) <= length workloads)%nat.
Proof.
  induction 1 as [w|wl rest w log b w1 logs bs w2 Hr Hrest IH].
  - split; [reflexivity|]. split; [|split; [|cbn; lia]].
    + unfold foundHosts, queried. cbn. destruct (config.DryRun _); constructor.
    + intros _. unfold foundHosts, queried. cbn.
      destruct (config.DryRun _); reflexivity.
  - destruct IH as (Hm & Hsub & Hall & Hlen).
    destruct (attempt_asked _ _ _ _ _ _ _ Hr) as (left & Hq & Hnone & Hone).
    cbn [map fst snd concat]. rewrite map_app, foundHosts_cons, queried_app, Hq.
    rewrite abandoned_cons, length_app, length_map.
    split; [rewrite Hm; reflexivity|]. split; [|split; [|cbn [length]; lia]].
    + apply sublist_app; [apply sublist_inserts_r; reflexivity|exact Hsub].
    + intros Hno. apply app_eq_nil in Hno as [Hno1 Hno2].
      apply map_eq_nil in Hno1. rewrite (Hnone Hno1), app_nil_r, (Hall Hno2).
      reflexivity.
Qed.

Lemma rounds_dry {W : Type} (env : Env W) (r : reconciler.Reconciler)
  (workloads : list Workload) (w w' : W)
  (logs : list (Workload * list (string * Reply))) (b : list (Call * bool)) :
  config.DryRun (reconciler.cfg r) = true ->
  sequence (round env r) workloads w logs b w' ->
  b = [] /\ concat (map snd logs) = [] /\ w' = w.
Proof.
  intros Hdry. induction 1 as [w|wl rest w log b w1 logs bs w2 Hr Hrest IH].
  - repeat split.
  - unfold round, queried in Hr. rewrite Hdry in Hr. inversion Hr; subst.
    destruct IH as (-> & Hl & ->). cbn [map snd concat app]. rewrite Hl.
    repeat split.
Qed.

(** C3 -- the error policy of the full pass.  When the listing fails,
    [Reconcile] returns the listing error (wrapped) and no result, having
    called nothing but the listing.  When the listing succeeds it returns a
    result and no error, and goes through every listed workload, in order
    and from the state the one before left the gateway in: it asks about the
    hostnames the workload routes and the filter passes, one exchange after
    the other, and gives the workload up at the first exchange that fails;
    this is one entry of [Errors], naming the workload and the hostname with
    the message of the client, and the workloads after it get their
    exchanges all the same.  The result counts every workload and every
    hostname found; outside dry-run mode it counts as filtered the hostnames
    that got an exchange, as created those whose create the gateway carried
    out (as many as the trace has creates that were carried out) and as
    already present those whose query showed the record; in
    dry-run mode there is no exchange and no error, and every hostname that
    passes the filter is counted as filtered and as created.  So every
    hostname counted as filtered is counted as created, as already present,
    or stands behind one of the errors. *)
Theorem Reconcile_error_policy {W : Type} (env : Env W)
  (r : reconciler.Reconciler) (w w' : W) (listing : result (list Workload)) :
  docker_list env (clock env w).2 = (listing, w') ->
  let x := run env (reconciler.Reconcile r) w in
  match listing with
  | Err e =>
      value x = (None, Some ("listing workloads: " +:+ e))
      /\ calls (trace x) = [CList]
      /\ world x = w'
  | Ok workloads =>
      exists res logs b w1,
        value x = (Some res, None)
        /\ sequence (round env r) workloads w' logs b w1
        /\ answers (trace x) = (CList, true) :: b
        /\ world x = (clock env w1).2
        /\ Forall2 reported (abandoned logs) (reconciler.Errors res)
        /\ reconciler.WorkloadsScanned res = Z.of_nat (length workloads)
        /\ reconciler.HostnamesFound res
           = Z.of_nat (length (foundHosts r workloads))
        /\ (if config.DryRun (reconciler.cfg r)
            then b = []
                 /\ reconciler.Errors res = []
                 /\ reconciler.HostnamesFiltered res
                    = passed (reconciler.cfg r) (foundHosts r workloads)
                 /\ reconciler.RecordsCreated res
                    = passed (reconciler.cfg r) (foundHosts r workloads)
                 /\ reconciler.RecordsExisted res = 0%Z
            else reconciler.HostnamesFiltered res
                 = Z.of_nat (length (concat (map snd logs)))
                 /\ reconciler.RecordsCreated res = carried (concat (map snd logs))
                 /\ reconciler.RecordsExisted res = settled (concat (map snd logs))
                 /\ reconciler.RecordsCreated res = created_in (trace x))
        /\ reconciler.HostnamesFiltered res
           = (reconciler.RecordsCreated res + reconciler.RecordsExisted res
              + Z.of_nat (length (reconciler.Errors res)))%Z
        /\ (length (reconciler.Errors res) <= length workloads)%nat
  end.
Proof.
  intros Hlist. cbv zeta. destruct listing as [workloads|e].
  2: { rewrite (value_Reconcile_failed env r w e w' Hlist). repeat split. }
  rewrite (run_Reconcile_listed env r w workloads w' Hlist). cbv zeta.
  set (init := reconciler.setWorkloadsScanned (Z.of_nat (length workloads))
                 reconciler.emptyResult).
  destruct (processWorkloads_protocol env r workloads init w')
    as (logs & new & Hs & Hc & He & Hf).
  destruct (processWorkloads_frame env r workloads init w') as (_ & _ & Hbal & _).
  destruct (rounds_asked env r workloads _ _ _ _ Hs) as (_ & _ & _ & Hlen).
  set (y := run env (reconciler.processWorkloads r workloads init) w') in *.
  exists (reconciler.setDuration ((clock env (world y)).1 - (clock env w).1) (value y)),
    logs, (answers (trace y)), (world y).
  rewrite value_triple, world_triple, trace_triple.
  cbn [reconciler.setDuration reconciler.WorkloadsScanned reconciler.HostnamesFound
       reconciler.HostnamesFiltered reconciler.RecordsCreated
       reconciler.RecordsExisted reconciler.Errors].
  unfold init in He, Hc, Hbal. unfold counted, unsettled in *.
  cbn [reconciler.setWorkloadsScanned reconciler.emptyResult reconciler.Errors app
       reconciler.WorkloadsScanned reconciler.HostnamesFound
       reconciler.HostnamesFiltered reconciler.RecordsCreated
       reconciler.RecordsExisted length] in He, Hc, Hbal.
  destruct Hc as (C1 & C2 & C3 & C4 & C5). rewrite He.
  pose proof (Forall2_length _ _ _ Hf) as Hfl.
  split; [reflexivity|]. split; [exact Hs|].
  split; [cbn [answers]; rewrite answers_app; cbn [answers];
          rewrite app_nil_r; reflexivity|].
  split; [reflexivity|]. split; [exact Hf|]. split; [lia|]. split; [lia|].
  split; [|split; [rewrite He in Hbal; lia|lia]].
  unfold would in *. destruct (config.DryRun (reconciler.cfg r)) eqn:Hd.
  - destruct (rounds_dry env r workloads _ _ _ _ Hd Hs) as (Hb & Hl & _).
    rewrite Hl in *. unfold carried, settled in *. cbn [List.filter length] in *.
    assert (Hab : abandoned logs = []).
    { clear - Hl. induction logs as [|[wl log] logs IH]; [reflexivity|].
      cbn [map snd concat] in Hl. apply app_eq_nil in Hl as [-> Hl].
      rewrite abandoned_cons, (IH Hl). reflexivity. }
    rewrite Hab in Hf. inversion Hf; subst.
    split; [exact Hb|]. split; [reflexivity|]. repeat split; lia.
  - split; [lia|]. split; [lia|]. split; [lia|].
    unfold y. rewrite (processWorkloads_created env r Hd). unfold init. cbn.
    change (?a :: ?b :: ?c :: ?d :: ?t ++ ?u) with ([a; b; c; d] ++ t ++ u).
    rewrite !created_in_app.
    repeat match goal with
           | |- context [created_in (?e :: ?t)] =>
               change (created_in (e :: t)) with 0%Z
           end.
    lia.
Qed.

Lemma Reconcile_error_policy_witness :
  (let x := run refEnv (reconciler.Reconcile (sampleReconciler false)) partialWorld in
   exists res logs b w1,
     value x = (Some res, None)
     /\ sequence (round refEnv (sampleReconciler false)) sampleWorkloads
          (clock refEnv partialWorld).2 logs b w1
     /\ answers (trace x) = (CList, true) :: b
     /\ world x = (clock refEnv w1).2
     /\ Forall2 reported (abandoned logs) (reconciler.Errors res)
     /\ reconciler.WorkloadsScanned res = 2%Z
     /\ reconciler.HostnamesFound res = 3%Z
     /\ (reconciler.HostnamesFiltered res = Z.of_nat (length (concat (map snd logs)))
         /\ reconciler.RecordsCreated res = carried (concat (map snd logs))
         /\ reconciler.RecordsExisted res = settled (concat (map snd logs))
         /\ reconciler.RecordsCreated res = created_in (trace x))
     /\ reconciler.HostnamesFiltered res
        = (reconciler.RecordsCreated res + reconciler.RecordsExisted res
           + Z.of_nat (length (reconciler.Errors res)))%Z
     /\ (length (reconciler.Errors res) <= 2)%nat)
  /\ (let x := run refEnv (reconciler.Reconcile (sampleReconciler false))
                 (worldWith [] (Err "daemon unreachable") []) in
      value x = (None, Some "listing workloads: daemon unreachable")
      /\ calls (trace x) = [CList]
      /\ world x = (clock refEnv (worldWith [] (Err "daemon unreachable") [])).2).
Proof.
  split.
  - apply (Reconcile_error_policy refEnv (sampleReconciler false) partialWorld
             (clock refEnv partialWorld).2 (Ok sampleWorkloads)).
    reflexivity.
  - apply (Reconcile_error_policy refEnv (sampleReconciler false)
             (worldWith [] (Err "daemon unreachable") [])
             (clock refEnv (worldWith [] (Err "daemon unreachable") [])).2
             (Err "daemon unreachable")).
    reflexivity.
Defined.

(** X3 -- the exchanges of [ReconcileHostnames].  The calls of the
    function are, for each hostname that passes the filter, in the order
    given and as often as it is given, one exchange about that hostname,
    each from the state the one before left the gateway in: a query in the
    configured zone, followed by a create with the configured address and
    TTL exactly when the query was answered with records that hold no A
    record of that address.  A failure does not end the loop: the hostnames
    after it get their exchange all the same, and [Errors] has one entry for
    each exchange that failed, in order, naming its hostname with the message
    of the client.  Outside dry-run mode the result counts as created the
    creates the gateway carried out and as already present the queries that
    showed the record; in dry-run mode there is no call. *)
Theorem ReconcileHostnames_exchanges {W : Type} (env : Env W)
  (r : reconciler.Reconciler) (wn : string) (hostnames : list string) (w : W) :
  let x := run env (reconciler.ReconcileHostnames r wn hostnames) w in
  exists res log w1,
    value x = (Some res, None)
    /\ sequence (exchange env (reconciler.cfg r))
         (queried (reconciler.cfg r) hostnames) (clock env w).2 log
         (answers (trace x)) w1
    /\ world x = (clock env w1).2
    /\ Forall2 reported_hostname (failures log) (reconciler.Errors res)
    /\ (if config.DryRun (reconciler.cfg r)
        then answers (trace x) = []
        else reconciler.HostnamesFiltered res = Z.of_nat (length log)
             /\ reconciler.RecordsCreated res = carried log
             /\ reconciler.RecordsExisted res = settled log).
Proof.
  cbv zeta. rewrite run_ReconcileHostnames. cbv zeta.
  set (init := reconciler.addHostnamesFound (Z.of_nat (length hostnames))
                 reconciler.emptyResult).
  destruct (ensureHostnames_protocol env r wn hostnames init (clock env w).2)
    as (log & new & Hs & Hc & He & Hf).
  set (y := run env (reconciler.ensureHostnames r wn hostnames init) (clock env w).2)
    in *.
  exists (reconciler.setDuration ((clock env (world y)).1 - (clock env w).1) (value y)),
    log, (world y).
  rewrite value_triple, world_triple, trace_triple.
  cbn [answers]. rewrite answers_app. cbn [answers]. rewrite app_nil_r.
  cbn [reconciler.setDuration reconciler.HostnamesFiltered reconciler.RecordsCreated
       reconciler.RecordsExisted reconciler.Errors].
  unfold init in He, Hc. unfold counted, would in Hc.
  cbn [reconciler.addHostnamesFound reconciler.emptyResult reconciler.Errors app
       reconciler.WorkloadsScanned reconciler.HostnamesFound
       reconciler.HostnamesFiltered reconciler.RecordsCreated
       reconciler.RecordsExisted] in He, Hc.
  destruct Hc as (_ & _ & C3 & C4 & C5). rewrite He.
  split; [reflexivity|]. split; [exact Hs|]. split; [reflexivity|].
  split; [exact Hf|].
  destruct (config.DryRun (reconciler.cfg r)) eqn:Hd.
  - unfold queried in Hs. rewrite Hd in Hs. inversion Hs. reflexivity.
  - repeat split; lia.
Qed.

(** X5 -- the exchanges of a full pass.  When the listing succeeds, the
    calls of [Reconcile] are the listing followed, for each listed workload
    in order, by the exchanges about the hostnames the workload routes and
    the filter passes (none in dry-run mode), in order and each from the
    state the one before left the gateway in: a query in the configured
    zone, then a create with the configured address and TTL exactly when the
    query was answered with records that hold no A record of that address,
    and never a delete.  The exchanges about a workload end with the first
    that fails.  So the hostnames asked about are, in order, hostnames that
    the listed workloads route and the filter passes, and when the pass
    reports no error they are all of them. *)
Theorem Reconcile_exchanges {W : Type} (env : Env W) (r : reconciler.Reconciler)
  (w w' : W) (workloads : list Workload) :
  docker_list env (clock env w).2 = (Ok workloads, w') ->
  let x := run env (reconciler.Reconcile r) w in
  exists res logs b w1,
    value x = (Some res, None)
    /\ sequence (round env r) workloads w' logs b w1
    /\ answers (trace x) = (CList, true) :: b
    /\ world x = (clock env w1).2
    /\ map fst logs = workloads
    /\ map fst (concat (map snd logs))
         `sublist_of` queried (reconciler.cfg r) (foundHosts r workloads)
    /\ (reconciler.Errors res = [] ->
        map fst (concat (map snd logs))
        = queried (reconciler.cfg r) (foundHosts r workloads))
    /\ count_calls is_delete (calls (trace x)) = 0.
Proof.
  intros Hlist. cbv zeta.
  assert (Hnd : count_calls is_delete (calls (trace (run env (reconciler.Reconcile r) w)))
                = 0).
  { pose proof (AllOps_run env _ _ (AllOps_Reconcile_not_delete r) w) as Hall.
    clear Hlist. induction Hall as [|e tr He _ IH]; [reflexivity|].
    destruct e as [| |[] ?| |]; cbn in *; try assumption; discriminate. }
  revert Hnd.
  rewrite (run_Reconcile_listed env r w workloads w' Hlist). cbv zeta.
  set (init := reconciler.setWorkloadsScanned (Z.of_nat (length workloads))
                 reconciler.emptyResult).
  destruct (processWorkloads_protocol env r workloads init w')
    as (logs & new & Hs & _ & He & Hf).
  destruct (rounds_asked env r workloads _ _ _ _ Hs) as (Hm & Hsub & Hall & _).
  set (y := run env (reconciler.processWorkloads r workloads init) w') in *.
  intros Hnd.
  exists (reconciler.setDuration ((clock env (world y)).1 - (clock env w).1) (value y)),
    logs, (answers (trace y)), (world y).
  rewrite value_triple, world_triple, trace_triple in *.
  cbn [reconciler.setDuration reconciler.Errors].
  split; [reflexivity|]. split; [exact Hs|].
  split; [cbn [answers]; rewrite answers_app; cbn [answers];
          rewrite app_nil_r; reflexivity|].
  split; [reflexivity|]. split; [exact Hm|]. split; [exact Hsub|].
  split; [|exact Hnd].
  intros Hno. apply Hall. rewrite He in Hno. unfold init in Hno.
  cbn [reconciler.setWorkloadsScanned reconciler.emptyResult reconciler.Errors app]
    in Hno.
  rewrite Hno in Hf. inversion Hf. reflexivity.
Qed.

Lemma Reconcile_exchanges_witness :
  let x := run refEnv (reconciler.Reconcile (sampleReconciler false)) partialWorld in
  exists res logs b w1,
    value x = (Some res, None)
    /\ sequence (round refEnv (sampleReconciler false)) sampleWorkloads
         (clock refEnv partialWorld).2 logs b w1
    /\ answers (trace x) = (CList, true) :: b
    /\ world x = (clock refEnv w1).2
    /\ map fst logs = sampleWorkloads
    /\ map fst (concat (map snd logs))
         `sublist_of`
           queried (sampleConfig false)
             (foundHosts (sampleReconciler false) sampleWorkloads)
    /\ (reconciler.Errors res = [] ->
        map fst (concat (map snd logs))
        = queried (sampleConfig false)
            (foundHosts (sampleReconciler false) sampleWorkloads))
    /\ count_calls is_delete (calls (trace x)) = 0.
Proof.
  apply (Reconcile_exchanges refEnv (sampleReconciler false) partialWorld
           (clock refEnv partialWorld).2 sampleWorkloads).
  reflexivity.
Defined.

(** ** [DeleteHostnames], exchange by exchange *)

Lemma deleteLoop_protocol {W : Type} (env : Env W) (r : reconciler.Reconciler)
  (wn : string) (hs : list string) (d : Z) (w : W) :
  config.DryRun (reconciler.cfg r) = false ->
  let x := run env (reconciler.deleteLoop r wn hs d) w in
  exists log,
    sequence (removal env (reconciler.cfg r)) (passing (reconciler.cfg r) hs) w log
      (answers (trace x)) (world x)
    /\ value x = (d + carried log)%Z
    /\ logged LevelError (trace x)
       = map (fun p => match p.2 with
                       | Unanswered => "failed to check record existence"
                       | _ => "failed to delete A record"
                       end)
           (List.filter (fun p => failing p.2) log).
Proof.
  intros Hlive. cbv zeta. revert d w. induction hs as [|h rest IH]; intros d w.
  - cbn [reconciler.deleteLoop run]. rewrite value_triple, world_triple, trace_triple.
    exists []. split; [constructor|]. split; [unfold carried; cbn; lia|reflexivity].
  - rewrite run_deleteLoop_cons, Hlive. unfold passing. cbn [List.filter].
    fold (passing (reconciler.cfg r) rest).
    destruct (config.MatchesFilters (reconciler.cfg r) h); cbn [negb]; [|apply IH].
    destruct (records_get env (config.TechnitiumZone (reconciler.cfg r)) h w)
      as [g w1] eqn:Hget.
    assert (Hun : forall d',
               (forall recs, g <> Payload recs) ->
               exists log,
                 sequence (removal env (reconciler.cfg r))
                   (h :: passing (reconciler.cfg r) rest) w log
                   ((CGet (config.TechnitiumZone (reconciler.cfg r)) h, false)
                      :: answers (trace (run env (reconciler.deleteLoop r wn rest d') w1)))
                   (world (run env (reconciler.deleteLoop r wn rest d') w1))
                 /\ value (run env (reconciler.deleteLoop r wn rest d') w1)
                    = (d' + carried log)%Z
                 /\ "failed to check record existence"
                      :: logged LevelError
                           (trace (run env (reconciler.deleteLoop r wn rest d') w1))
                    = map (fun p => match p.2 with
                                    | Unanswered => "failed to check record existence"
                                    | _ => "failed to delete A record"
                                    end)
                        (List.filter (fun p => failing p.2) log)).
    { intros d' Hno. destruct (IH d' w1) as (log & Hs & Hv & Hl).
      exists ((h, Unanswered) :: log).
      split; [|split; [rewrite Hv; unfold carried; cbn; lia
                      |cbn [List.filter snd failing map]; rewrite Hl; reflexivity]].
      change (?c :: answers ?t) with ([c] ++ answers t).
      econstructor; [|exact Hs].
      replace w1 with (records_get env (config.TechnitiumZone (reconciler.cfg r)) h w).2
        by (rewrite Hget; reflexivity).
      apply removal_unanswered. rewrite Hget. exact Hno. }
    destruct g as [e|e|recs].
    + rewrite value_after, world_after, trace_after. cbn [app answers logged].
      apply Hun. discriminate.
    + rewrite value_after, world_after, trace_after. cbn [app answers logged].
      apply Hun. discriminate.
    + clear Hun.
      destruct (technitium.scanRecords recs (config.TargetIP (reconciler.cfg r)))
        eqn:Hscan.
      * destruct (records_delete env (config.TechnitiumZone (reconciler.cfg r)) h
                    (config.TargetIP (reconciler.cfg r)) w1) as [[e|] w2] eqn:Hdel;
          rewrite value_after, world_after, trace_after; cbn [app answers logged];
          match goal with |- context [reconciler.deleteLoop r wn rest ?x] =>
            destruct (IH x w2) as (log & Hs & Hv & Hl) end.
        -- exists ((h, Refused) :: log).
           split; [|split; [rewrite Hv; unfold carried; cbn; lia
                           |cbn [List.filter snd failing map]; rewrite Hl;
                            reflexivity]].
           change (?c :: ?c' :: answers ?t) with ([c; c'] ++ answers t).
           econstructor; [|exact Hs]. eapply removal_refused; eassumption.
        -- exists ((h, Changed) :: log).
           split; [|split; [rewrite Hv; unfold carried; cbn [List.filter snd length];
                            lia
                           |cbn [List.filter snd failing map]; rewrite Hl;
                            reflexivity]].
           change (?c :: ?c' :: answers ?t) with ([c; c'] ++ answers t).
           econstructor; [|exact Hs]. eapply removal_deleted; eassumption.
      * rewrite value_after, world_after, trace_after. cbn [app answers logged].
        destruct (IH d w1) as (log & Hs & Hv & Hl).
        exists ((h, Settled) :: log).
        split; [|split; [rewrite Hv; unfold carried; cbn; lia
                        |cbn [List.filter snd failing map]; rewrite Hl; reflexivity]].
        change (?c :: answers ?t) with ([c] ++ answers t).
        econstructor; [|exact Hs]. eapply removal_absent; eassumption.
Qed.

(** C7 (as amended) -- [DeleteHostnames] outside dry-run mode.  It never
    returns an error.  Its calls are, for each hostname of the input that
    passes the filter, in order, one exchange from the state the one before
    left the gateway in: the query of the name in the configured zone, and,
    exactly when the query is answered with records that hold an A record of
    the configured address, a delete of that name with that address right
    after it; a name whose query finds no such record gets no delete and
    leaves the count alone.  Every exchange that fails, at the query or at
    the delete, is one line of the error log, and the loop goes on with the
    names after it.  The count returned is the number of deletes the gateway
    carried out. *)
Theorem DeleteHostnames_semantics {W : Type} (env : Env W)
  (r : reconciler.Reconciler) (wn : string) (hostnames : list string) (w : W) :
  config.DryRun (reconciler.cfg r) = false ->
  let x := run env (reconciler.DeleteHostnames r wn hostnames) w in
  let zone := config.TechnitiumZone (reconciler.cfg r) in
  let ip := config.TargetIP (reconciler.cfg r) in
  (value x).2 = None
  /\ (value x).1 = Z.of_nat (count_calls is_delete (performed (trace x)))
  /\ Forall (about (passing (reconciler.cfg r) hostnames)) (calls (trace x))
  /\ deletes_checked (answers (trace x)) = true
  /\ length (logged LevelError (trace x)) = length (failed (trace x))
  /\ (exists log,
        sequence (removal env (reconciler.cfg r))
          (passing (reconciler.cfg r) hostnames) w log (answers (trace x)) (world x)
        /\ (value x).1 = carried log
        /\ logged LevelError (trace x)
           = map (fun p => match p.2 with
                           | Unanswered => "failed to check record existence"
                           | _ => "failed to delete A record"
                           end)
               (List.filter (fun p => failing p.2) log))
  /\ (forall h d w0 recs w1,
        config.MatchesFilters (reconciler.cfg r) h = true ->
        records_get env zone h w0 = (Payload recs, w1) ->
        technitium.scanRecords recs ip = false ->
        value (run env (reconciler.deleteLoop r wn [h] d) w0) = d
        /\ calls (trace (run env (reconciler.deleteLoop r wn [h] d) w0))
           = [CGet zone h])
  /\ (forall hs1 hs2 d w0,
        run env (reconciler.deleteLoop r wn (hs1 ++ hs2) d) w0
        = after (trace (run env (reconciler.deleteLoop r wn hs1 d) w0))
            (run env
               (reconciler.deleteLoop r wn hs2
                  (value (run env (reconciler.deleteLoop r wn hs1 d) w0)))
               (world (run env (reconciler.deleteLoop r wn hs1 d) w0)))).
Proof.
  intros Hlive. cbv zeta. rewrite run_DeleteHostnames.
  destruct (deleteLoop_trace env r wn hostnames 0%Z w) as (Hchk & Hab & Hlog).
  pose proof (deleteLoop_count env r wn hostnames 0%Z w Hlive) as Hcount.
  destruct (deleteLoop_protocol env r wn hostnames 0%Z w Hlive)
    as (log & Hseq & Hval & Hlines).
  set (y := run env (reconciler.deleteLoop r wn hostnames 0) w) in *.
  rewrite value_triple, world_triple, trace_triple. cbn [fst snd].
  split; [reflexivity|]. split; [|split; [|split; [|split; [|split; [|split]]]]].
  - cbn [performed]. rewrite performed_app. cbn [performed].
    rewrite app_nil_r, Hcount. lia.
  - cbn [calls]. rewrite calls_app. cbn [calls]. rewrite app_nil_r. exact Hab.
  - cbn [answers]. rewrite answers_app. cbn [answers]. rewrite app_nil_r.
    exact Hchk.
  - cbn [logged failed]. rewrite logged_app, failed_app. cbn [logged failed].
    rewrite !app_nil_r. exact Hlog.
  - exists log. cbn [answers logged]. rewrite answers_app, logged_app.
    cbn [answers logged]. rewrite !app_nil_r.
    split; [exact Hseq|]. split; [rewrite Hval; lia|exact Hlines].
  - intros h d w0 recs w1 Hf Hget Hs.
    rewrite run_deleteLoop_cons, Hf, Hlive, Hget, Hs. cbn [negb].
    split; reflexivity.
  - intros. apply deleteLoop_app.
Qed.

Lemma DeleteHostnames_semantics_witness :
  let x :=
    run refEnv
      (reconciler.DeleteHostnames (sampleReconciler false) "web"
         ["app.example.com"; "test.example.com"; "down.example.com";
          "gone.example.com"]) flakyWorld in
  (value x).2 = None
  /\ (value x).1 = 1%Z
  /\ Forall (about ["app.example.com"; "down.example.com"; "gone.example.com"])
       [CGet "example.com" "app.example.com";
        CDelete "example.com" "app.example.com" "10.0.0.1";
        CGet "example.com" "down.example.com";
        CGet "example.com" "gone.example.com"]
  /\ deletes_checked (answers (trace x)) = true
  /\ length (logged LevelError (trace x)) = 1
  /\ exists log,
       sequence (removal refEnv (sampleConfig false))
         ["app.example.com"; "down.example.com"; "gone.example.com"] flakyWorld log
         [(CGet "example.com" "app.example.com", true);
          (CDelete "example.com" "app.example.com" "10.0.0.1", true);
          (CGet "example.com" "down.example.com", false);
          (CGet "example.com" "gone.example.com", true)]
         (world x)
       /\ carried log = 1%Z
       /\ ["failed to check record existence"]
          = map (fun p => match p.2 with
                          | Unanswered => "failed to check record existence"
                          | _ => "failed to delete A record"
                          end)
              (List.filter (fun p => failing p.2) log).
Proof.
  destruct (DeleteHostnames_semantics refEnv (sampleReconciler false) "web"
              ["app.example.com"; "test.example.com"; "down.example.com";
               "gone.example.com"] flakyWorld eq_refl)
    as (Herr & Hcount & Habout & Hchecked & Hlogged & (log & Hseq & Hval & Hlines)
        & _).
  refine (conj Herr (conj Hcount (conj Habout (conj Hchecked (conj Hlogged _))))).
  exists log. split; [exact Hseq|]. split; [symmetry; exact Hval|exact Hlines].
Defined.
